(** * google-skill: MIME envelope builder and Markdown-to-email renderer

    A shallow embedding of the pure core of [scripts/gmail.ts]:
    [createRawMessage], [sendMessage]/[createDraft] (attachment loading),
    [decodeBase64Url] and [markdownToEmailHtml].

    JavaScript strings are sequences of UTF-16 code units; a code unit is
    modelled as a number of type [N] and a string as a list of them.  Buffers
    are lists of bytes.  Regular-expression passes are written as scanners
    that follow the backtracking semantics of each expression. *)

From Stdlib Require Import Strings.String Strings.Ascii.
From Stdlib Require Strings.Byte.
From Stdlib Require Import List NArith ZArith Bool Lia Arith.
Import ListNotations.

Set Implicit Arguments.
Open Scope N_scope.

(** ** Strings *)

Definition char := N.
Definition jsstring := list char.

Definition lit (s : string) : jsstring :=
  map N_of_ascii (list_ascii_of_string s).
Arguments lit s%_string.

Definition LF : char := 10.
Definition CR : char := 13.
Definition dq : jsstring := [34].

(** [nl] of [createRawMessage]: the two code units CR LF. *)
Definition nl : jsstring := [CR; LF].

(** [Array.prototype.join]. *)
Fixpoint join (sep : jsstring) (l : list jsstring) : jsstring :=
  match l with
  | [] => []
  | x :: rest =>
      match rest with
      | [] => x
      | _ :: _ => x ++ sep ++ join sep rest
      end
  end.

(** Truthiness of an optional string: [undefined], [null] and the empty
    string are falsy. *)
Definition truthy (s : option jsstring) : bool :=
  match s with
  | Some (_ :: _) => true
  | _ => false
  end.

(** [arr.filter(Boolean)] on an array of strings and [null]s. *)
Fixpoint filter_Boolean (l : list (option jsstring)) : list jsstring :=
  match l with
  | [] => []
  | Some (c :: s) :: rest => (c :: s) :: filter_Boolean rest
  | _ :: rest => filter_Boolean rest
  end.

(** LineTerminator code units: LF, CR, U+2028, U+2029.  They are what [.]
    refuses and what [^] and [$] look at under the [m] flag. *)
Definition is_lt (c : char) : bool :=
  (c =? 10) || (c =? 13) || (c =? 8232) || (c =? 8233).

(** Decimal rendering of a non-negative integer, as a template literal
    renders [Date.now()]. *)
Fixpoint uint_chars (d : Decimal.uint) : jsstring :=
  match d with
  | Decimal.Nil => []
  | Decimal.D0 d => 48 :: uint_chars d
  | Decimal.D1 d => 49 :: uint_chars d
  | Decimal.D2 d => 50 :: uint_chars d
  | Decimal.D3 d => 51 :: uint_chars d
  | Decimal.D4 d => 52 :: uint_chars d
  | Decimal.D5 d => 53 :: uint_chars d
  | Decimal.D6 d => 54 :: uint_chars d
  | Decimal.D7 d => 55 :: uint_chars d
  | Decimal.D8 d => 56 :: uint_chars d
  | Decimal.D9 d => 57 :: uint_chars d
  end.

Definition dec (n : N) : jsstring := uint_chars (N.to_uint n).

(** ** Buffers *)

Definition byte := Byte.byte.

Definition byte_of_N (n : N) : byte :=
  match Byte.of_N (n mod 256) with
  | Some b => b
  | None => Byte.x00
  end.

(** [Buffer.from(str)]: the UTF-8 encoding of a string of UTF-16 code units.
    A high surrogate followed by a low one is one code point; a lone
    surrogate is encoded as U+FFFD. *)
Definition is_high (c : char) : bool := (55296 <=? c) && (c <=? 56319).
Definition is_low (c : char) : bool := (56320 <=? c) && (c <=? 57343).

Definition utf8_cp (cp : N) : list byte :=
  if cp <? 128 then [byte_of_N cp]
  else if cp <? 2048 then [byte_of_N (192 + cp / 64); byte_of_N (128 + cp mod 64)]
  else if cp <? 65536 then
    [byte_of_N (224 + cp / 4096); byte_of_N (128 + (cp / 64) mod 64);
     byte_of_N (128 + cp mod 64)]
  else
    [byte_of_N (240 + cp / 262144); byte_of_N (128 + (cp / 4096) mod 64);
     byte_of_N (128 + (cp / 64) mod 64); byte_of_N (128 + cp mod 64)].

Fixpoint Buffer_from (s : jsstring) : list byte :=
  match s with
  | [] => []
  | c :: rest =>
      if is_high c then
        match rest with
        | d :: rest' =>
            if is_low d
            then utf8_cp (65536 + (c - 55296) * 1024 + (d - 56320)) ++ Buffer_from rest'
            else utf8_cp 65533 ++ Buffer_from rest
        | [] => utf8_cp 65533
        end
      else if is_low c then utf8_cp 65533 ++ Buffer_from rest
      else utf8_cp c ++ Buffer_from rest
  end.

(** The base64 alphabet, by index. *)
Definition b64_char (i : N) : char :=
  if i <? 26 then 65 + i
  else if i <? 52 then 71 + i
  else if i <? 62 then i - 4
  else if i =? 62 then 43
  else 47.

(** [buf.toString("base64")]: three bytes give four sextets; a tail of one
    or two bytes is padded with [=] (61). *)
Fixpoint toString_base64 (bs : list byte) : jsstring :=
  match bs with
  | [] => []
  | a :: t1 =>
      let x := Byte.to_N a in
      match t1 with
      | [] => [b64_char (x / 4); b64_char ((x mod 4) * 16); 61; 61]
      | b :: t2 =>
          let y := Byte.to_N b in
          match t2 with
          | [] =>
              [b64_char (x / 4); b64_char ((x mod 4) * 16 + y / 16);
               b64_char ((y mod 16) * 4); 61]
          | c :: rest =>
              let z := Byte.to_N c in
              b64_char (x / 4) :: b64_char ((x mod 4) * 16 + y / 16)
              :: b64_char ((y mod 16) * 4 + z / 64) :: b64_char (z mod 64)
              :: toString_base64 rest
          end
      end
  end.

(** [s.replace(/c/g, d)] for a one-character pattern. *)
Definition replace_char (c d : char) (s : jsstring) : jsstring :=
  map (fun x => if x =? c then d else x) s.

(** [s.replace(/=+$/, "")]: the leftmost position from which only [=]
    remain up to the end of the string starts the match. *)
Fixpoint strip_trailing_eq (s : jsstring) : jsstring :=
  match s with
  | [] => []
  | c :: rest =>
      if (c =? 61) && forallb (fun x => x =? 61) rest then []
      else c :: strip_trailing_eq rest
  end.

(** The tail of [createRawMessage]: base64, then [+] to [-], [/] to [_],
    trailing [=] removed. *)
Definition base64url (bs : list byte) : jsstring :=
  strip_trailing_eq (replace_char 47 95 (replace_char 43 45 (toString_base64 bs))).

(** [Buffer.from(str, "base64")]: Node's decoder accepts both alphabets,
    skips code units outside them, stops at the first [=] and needs no
    padding. *)
Definition b64_index (c : char) : option N :=
  if (65 <=? c) && (c <=? 90) then Some (c - 65)
  else if (97 <=? c) && (c <=? 122) then Some (c - 71)
  else if (48 <=? c) && (c <=? 57) then Some (c + 4)
  else if (c =? 43) || (c =? 45) then Some 62
  else if (c =? 47) || (c =? 95) then Some 63
  else None.

Fixpoint sextets (s : jsstring) : list N :=
  match s with
  | [] => []
  | c :: rest =>
      if c =? 61 then []
      else match b64_index c with
           | Some i => i :: sextets rest
           | None => sextets rest
           end
  end.

Fixpoint bytes_of_sextets (l : list N) : list byte :=
  match l with
  | p :: t1 =>
      match t1 with
      | q :: t2 =>
          byte_of_N (p * 4 + q / 16) ::
          match t2 with
          | r :: t3 =>
              byte_of_N ((q mod 16) * 16 + r / 4) ::
              match t3 with
              | u :: rest => byte_of_N ((r mod 4) * 64 + u) :: bytes_of_sextets rest
              | [] => []
              end
          | [] => []
          end
      | [] => []
      end
  | [] => []
  end.

Definition Buffer_from_base64 (s : jsstring) : list byte :=
  bytes_of_sextets (sextets s).

(** [decodeBase64Url], up to its final [toString("utf-8")]: the two
    substitutions are reversed and the result is base64-decoded. *)
Definition decodeBase64Url_bytes (data : jsstring) : list byte :=
  Buffer_from_base64 (replace_char 95 47 (replace_char 45 43 data)).

(** ** The MIME envelope builder *)

Record Attachment := mkAttachment {
  filename : jsstring;
  content : list byte;
  mimeType : jsstring;
  isInline : option bool;
  contentId : option jsstring
}.

(** A template literal renders [undefined] as the word. *)
Definition render_opt (s : option jsstring) : jsstring :=
  match s with
  | Some x => x
  | None => lit "undefined"
  end.

(** [str.match(/.{1,76}/g)]: the successive pieces of at most 76 code
    units, none of which is a line terminator.  [n] is what the current
    piece may still take, [cur] the piece so far, reversed. *)
Fixpoint match_dot_1_76 (n : nat) (cur : jsstring) (s : jsstring) : list jsstring :=
  match s with
  | [] => match cur with [] => [] | _ :: _ => [rev cur] end
  | c :: rest =>
      if is_lt c then
        match cur with
        | [] => match_dot_1_76 76 [] rest
        | _ :: _ => rev cur :: match_dot_1_76 76 [] rest
        end
      else
        match n with
        | S (S k) => match_dot_1_76 (S k) (c :: cur) rest
        | _ => rev (c :: cur) :: match_dot_1_76 76 [] rest
        end
  end.

(** [buf.toString("base64").match(/.{1,76}/g)?.join(nl) || ""]. *)
Definition base64Content (buf : list byte) : jsstring :=
  join nl (match_dot_1_76 76 [] (toString_base64 buf)).

Section CreateRawMessage.

(** [ts] is the value [Date.now()] returned at this call. *)
Variable ts : N.
Variables to subject body : jsstring.
Variable from : option jsstring.
Variable html : option jsstring.
Variables attachments inlineImages : option (list Attachment).

Definition mixedBoundary : jsstring := lit "____mixed_" ++ dec ts ++ lit "____".
Definition altBoundary : jsstring := lit "____alt_" ++ dec ts ++ lit "____".
Definition relatedBoundary : jsstring := lit "____related_" ++ dec ts ++ lit "____".

Definition nonempty_array (l : option (list Attachment)) : bool :=
  match l with
  | Some (_ :: _) => true
  | _ => false
  end.

Definition hasAttachments : bool := nonempty_array attachments.
Definition hasInlineImages : bool := nonempty_array inlineImages.
Definition hasHtml : bool := truthy html.

Definition array_of (l : option (list Attachment)) : list Attachment :=
  match l with
  | Some a => a
  | None => []
  end.

(** The header array of the five multipart branches, after
    [.filter(Boolean).join(nl)]. *)
Definition headers (contentType : jsstring) : jsstring :=
  join nl (filter_Boolean
    [ Some (lit "MIME-Version: 1.0");
      Some (lit "To: " ++ to);
      (if truthy from then Some (lit "From: " ++ render_opt from) else None);
      Some (lit "Subject: " ++ subject);
      Some contentType ]).

Definition multipart_header (kind boundary : jsstring) : jsstring :=
  lit "Content-Type: multipart/" ++ kind ++ lit "; boundary=" ++ dq ++ boundary ++ dq.

Definition text_plain : jsstring :=
  lit "Content-Type: text/plain; charset=" ++ dq ++ lit "UTF-8" ++ dq.
Definition text_html : jsstring :=
  lit "Content-Type: text/html; charset=" ++ dq ++ lit "UTF-8" ++ dq.

Definition textPart (boundary : jsstring) : jsstring :=
  join nl [ lit "--" ++ boundary; text_plain; []; body ].

Definition htmlPart (boundary : jsstring) : jsstring :=
  join nl [ lit "--" ++ boundary; text_html; []; render_opt html ].

Definition inlinePart (img : Attachment) : jsstring :=
  join nl
    [ lit "--" ++ relatedBoundary;
      lit "Content-Type: " ++ mimeType img ++ lit "; name=" ++ dq ++ filename img ++ dq;
      lit "Content-Transfer-Encoding: base64";
      lit "Content-Disposition: inline; filename=" ++ dq ++ filename img ++ dq;
      lit "Content-ID: <" ++ render_opt (contentId img) ++ lit ">";
      [];
      base64Content (content img) ].

Definition attachmentPart (att : Attachment) : jsstring :=
  join nl
    [ lit "--" ++ mixedBoundary;
      lit "Content-Type: " ++ mimeType att ++ lit "; name=" ++ dq ++ filename att ++ dq;
      lit "Content-Disposition: attachment; filename=" ++ dq ++ filename att ++ dq;
      lit "Content-Transfer-Encoding: base64";
      [];
      base64Content (content att) ].

Definition inlineParts : jsstring := join nl (map inlinePart (array_of inlineImages)).
Definition attachmentParts : jsstring := join nl (map attachmentPart (array_of attachments)).

Definition closing (boundary : jsstring) : jsstring := lit "--" ++ boundary ++ lit "--".

(** The variable [message] at the end of the [if] chain. *)
Definition message : jsstring :=
  if hasAttachments && hasHtml && hasInlineImages then
    let relatedHeader :=
      join nl [ lit "--" ++ mixedBoundary; multipart_header (lit "related") relatedBoundary ] in
    headers (multipart_header (lit "mixed") mixedBoundary) ++ nl ++ nl ++ relatedHeader
      ++ nl ++ nl ++ htmlPart relatedBoundary ++ nl ++ inlineParts ++ nl
      ++ closing relatedBoundary ++ nl ++ attachmentParts ++ nl ++ closing mixedBoundary
  else if hasAttachments && hasHtml then
    let altHeader :=
      join nl [ lit "--" ++ mixedBoundary; multipart_header (lit "alternative") altBoundary ] in
    headers (multipart_header (lit "mixed") mixedBoundary) ++ nl ++ nl ++ altHeader
      ++ nl ++ nl ++ textPart altBoundary ++ nl ++ htmlPart altBoundary ++ nl
      ++ closing altBoundary ++ nl ++ attachmentParts ++ nl ++ closing mixedBoundary
  else if hasAttachments then
    headers (multipart_header (lit "mixed") mixedBoundary) ++ nl ++ nl
      ++ textPart mixedBoundary ++ nl ++ attachmentParts ++ nl ++ closing mixedBoundary
  else if hasHtml && hasInlineImages then
    headers (multipart_header (lit "related") relatedBoundary) ++ nl ++ nl
      ++ htmlPart relatedBoundary ++ nl ++ inlineParts ++ nl ++ closing relatedBoundary
  else if hasHtml then
    headers (multipart_header (lit "alternative") altBoundary) ++ nl ++ nl
      ++ textPart altBoundary ++ nl ++ htmlPart altBoundary ++ nl ++ closing altBoundary
  else
    join nl (filter_Boolean
      [ Some (lit "MIME-Version: 1.0");
        Some (lit "To: " ++ to);
        (if truthy from then Some (lit "From: " ++ render_opt from) else None);
        Some (lit "Subject: " ++ subject);
        Some text_plain;
        Some [];
        Some body ]).

Definition createRawMessage : jsstring := base64url (Buffer_from message).

End CreateRawMessage.

(** ** Regular-expression scanning *)

Definition is_digit (c : char) : bool := (48 <=? c) && (c <=? 57).
Definition is_upper (c : char) : bool := (65 <=? c) && (c <=? 90).
Definition is_lower (c : char) : bool := (97 <=? c) && (c <=? 122).

(** [\w]. *)
Definition is_word (c : char) : bool :=
  is_digit c || is_upper c || is_lower c || (c =? 95).

(** [\s], which is also what [trim] removes: WhiteSpace and
    LineTerminator. *)
Definition is_ws (c : char) : bool :=
  ((9 <=? c) && (c <=? 13)) || (c =? 32) || (c =? 160) || (c =? 5760)
  || ((8192 <=? c) && (c <=? 8202)) || (c =? 8232) || (c =? 8233)
  || (c =? 8239) || (c =? 8287) || (c =? 12288) || (c =? 65279).

Fixpoint prefixb (p s : jsstring) : bool :=
  match p with
  | [] => true
  | x :: p' =>
      match s with
      | [] => false
      | y :: s' => (x =? y) && prefixb p' s'
      end
  end.

Fixpoint eqb_str (a b : jsstring) : bool :=
  match a, b with
  | [], [] => true
  | x :: a', y :: b' => (x =? y) && eqb_str a' b'
  | _, _ => false
  end.

Fixpoint takeWhile (f : char -> bool) (s : jsstring) : jsstring :=
  match s with
  | c :: rest => if f c then c :: takeWhile f rest else []
  | [] => []
  end.

Fixpoint dropWhile (f : char -> bool) (s : jsstring) : jsstring :=
  match s with
  | c :: rest => if f c then dropWhile f rest else s
  | [] => []
  end.

Definition is_empty (s : jsstring) : bool :=
  match s with [] => true | _ :: _ => false end.

(** [String.prototype.trim]. *)
Definition trim (s : jsstring) : jsstring :=
  rev (dropWhile is_ws (rev (dropWhile is_ws s))).

(** [str.split(c)] for a one-character separator. *)
Fixpoint split (sep : char) (s : jsstring) : list jsstring :=
  match s with
  | [] => [[]]
  | c :: rest =>
      if c =? sep then [] :: split sep rest
      else match split sep rest with
           | x :: l => (c :: x) :: l
           | [] => [[c]]
           end
  end.

(** The part of the input up to the next line terminator: what a greedy
    [.*] or [.+] takes before [$]. *)
Definition line_of (s : jsstring) : jsstring := takeWhile (fun c => negb (is_lt c)) s.

(** A matcher is asked at one position: [bol] says whether [^] holds there
    (under the [m] flag: start of input or just after a line terminator),
    the string is the input from that position on.  It answers with the
    length of the match and the text that replaces it. *)
Definition matcher := bool -> jsstring -> option (nat * jsstring).

(** [str.replace(re, ...)] with the [g] flag: positions are tried from left
    to right; a match is replaced and scanning resumes just after it.
    [skip] counts the code units of the current match still to pass. *)
Fixpoint replace_from (m : matcher) (skip : nat) (bol : bool) (s : jsstring) : jsstring :=
  match s with
  | [] => match skip with
          | O => match m bol [] with Some (_, out) => out | None => [] end
          | S _ => []
          end
  | c :: rest =>
      match skip with
      | S k => replace_from m k (is_lt c) rest
      | O =>
          match m bol s with
          | Some (S k, out) => out ++ replace_from m k (is_lt c) rest
          | Some (O, out) => out ++ c :: replace_from m O (is_lt c) rest
          | None => c :: replace_from m O (is_lt c) rest
          end
      end
  end.

Definition replace_g (m : matcher) (s : jsstring) : jsstring := replace_from m 0 true s.

(** The length matched by [(^L$\n?)+] under [gm] from a line start, where
    [valid] says whether a whole line matches [L].  Each round takes one
    line and the LF after it, if there is one; the next round needs [^], so
    it starts only after an LF that was taken.  [cur] is the current line so
    far, reversed. *)
Fixpoint line_run (valid : jsstring -> bool) (cur : jsstring) (s : jsstring) : nat :=
  match s with
  | [] => if valid (rev cur) then length cur else 0%nat
  | c :: rest =>
      if is_lt c then
        if valid (rev cur)
        then Nat.add (length cur) (if c =? 10 then S (line_run valid [] rest) else O)
        else O
      else line_run valid (c :: cur) rest
  end.

(** A pass [str.replace(/(^L$\n?)+/gm, callback)]. *)
Definition run_matcher (valid : jsstring -> bool) (callback : jsstring -> jsstring) : matcher :=
  fun bol s =>
    if bol then
      match line_run valid [] s with
      | O => None
      | S n => Some (S n, callback (firstn (S n) s))
      end
    else None.

(** A pass [str.replace(/^L$/gm, ...)] for a one-line pattern. *)
Definition line_matcher (valid : jsstring -> bool) (callback : jsstring -> jsstring) : matcher :=
  fun bol s =>
    if bol && valid (line_of s) then Some (length (line_of s), callback (line_of s))
    else None.

(** ** markdownToEmailHtml *)

Inductive style := client | labs.

Definition style_attr (s : string) : jsstring := lit "style=" ++ dq ++ lit s ++ dq.
Arguments style_attr s%_string.

Module styles.
Record t := mk {
  h1 : jsstring; h2 : jsstring; h3 : jsstring; h4 : jsstring; p : jsstring;
  a : jsstring; blockquote : jsstring; code : jsstring; pre : jsstring;
  hr : jsstring; ul : jsstring; ol : jsstring; li : jsstring; table : jsstring;
  th : jsstring; td : jsstring; strong : jsstring; em : jsstring
}.
End styles.

Definition styles_of (st : style) : styles.t :=
  let isLabs := match st with labs => true | client => false end in
  {| styles.h1 := if isLabs
       then style_attr "font-size: 36px; font-weight: 900; letter-spacing: -0.02em; line-height: 1.0; color: #000000; margin: 0 0 20px 0; padding-bottom: 20px; border-bottom: 2px solid #000000;"
       else style_attr "font-size: 32px; font-weight: 700; letter-spacing: -0.045em; line-height: 1.1; color: #000000; margin: 0 0 20px 0; padding-bottom: 20px; border-bottom: 2px solid #0e3b46;";
     styles.h2 := if isLabs
       then style_attr "font-size: 22px; font-weight: 900; text-transform: uppercase; letter-spacing: 0.05em; line-height: 1.2; color: #000000; margin: 32px 0 16px 0; padding-bottom: 8px; border-bottom: 1px solid #000000;"
       else style_attr "font-size: 24px; font-weight: 700; letter-spacing: -0.03em; line-height: 1.2; color: #000000; margin: 32px 0 16px 0; padding-bottom: 8px; border-bottom: 1px solid #d4d3cf;";
     styles.h3 := if isLabs
       then style_attr "font-size: 18px; font-weight: 700; line-height: 1.3; color: #000000; margin: 24px 0 12px 0;"
       else style_attr "font-size: 18px; font-weight: 700; letter-spacing: -0.02em; line-height: 1.3; color: #000000; margin: 24px 0 12px 0;";
     styles.h4 := style_attr "font-size: 16px; font-weight: 700; color: #000000; margin: 20px 0 8px 0;";
     styles.p := style_attr "font-size: 16px; line-height: 1.6; color: #000000; margin: 0 0 16px 0;";
     styles.a := if isLabs
       then style_attr "color: #0055aa; text-decoration: underline;"
       else style_attr "color: #0e3b46; text-decoration: none; border-bottom: 1px solid #0e3b46;";
     styles.blockquote := if isLabs
       then style_attr "margin: 20px 0; padding: 16px; background: white; border: 1px solid #000000; border-left: 4px solid #0055aa; color: #000000;"
       else style_attr "margin: 20px 0; padding: 16px 20px; border-left: 3px solid #0e3b46; background: rgba(14, 59, 70, 0.03); font-style: italic; color: #000000;";
     styles.code := if isLabs
       then style_attr "font-family: 'Courier New', monospace; font-size: 14px; background: #e6e4dc; padding: 2px 6px; border: 1px solid rgba(0, 0, 0, 0.2); color: #000000;"
       else style_attr "font-family: 'Courier New', monospace; font-size: 14px; background: rgba(14, 59, 70, 0.06); padding: 2px 6px; border-radius: 3px; color: #000000;";
     styles.pre := style_attr "margin: 20px 0; padding: 20px; background: #f4f4f4; color: #1a1a1a; overflow-x: auto; font-family: 'Courier New', monospace; font-size: 14px; line-height: 1.5; border-radius: 6px; border: 1px solid #d0d0d0;";
     styles.hr := if isLabs
       then style_attr "margin: 32px 0; border: none; border-top: 2px solid #000000;"
       else style_attr "margin: 32px 0; border: none; height: 1px; background: #d4d3cf;";
     styles.ul := style_attr "margin: 0 0 16px 0; padding-left: 24px;";
     styles.ol := style_attr "margin: 0 0 16px 0; padding-left: 24px;";
     styles.li := style_attr "font-size: 16px; line-height: 1.6; color: #000000; margin-bottom: 8px;";
     styles.table := style_attr "width: 100%; margin: 20px 0; border-collapse: collapse; font-size: 15px;";
     styles.th := if isLabs
       then style_attr "padding: 10px 12px; text-align: left; border: 1px solid #000000; font-family: 'Courier New', monospace; font-size: 11px; font-weight: 700; text-transform: uppercase; letter-spacing: 0.1em; background: #000000; color: #ffffff;"
       else style_attr "padding: 10px 12px; text-align: left; border-bottom: 1px solid #d4d3cf; font-family: 'Courier New', monospace; font-size: 12px; font-weight: 500; text-transform: uppercase; letter-spacing: 0.12em; color: #000000; background: rgba(14, 59, 70, 0.03);";
     styles.td := if isLabs
       then style_attr "padding: 10px 12px; text-align: left; border: 1px solid #000000; font-size: 15px; color: #000000;"
       else style_attr "padding: 10px 12px; text-align: left; border-bottom: 1px solid #d4d3cf; font-size: 15px; color: #000000;";
     styles.strong := style_attr "font-weight: 700;";
     styles.em := style_attr "font-style: italic;" |}.

(** An opening tag with its presentation attribute: [<tag ${styles.tag}>]. *)
Definition otag (tag : string) (attr : jsstring) : jsstring :=
  lit "<" ++ lit tag ++ lit " " ++ attr ++ lit ">".
Arguments otag tag%_string attr.

(** *** Title: [md.match(/^# (.+)$/m)] *)

Definition valid_heading (marker : jsstring) (l : jsstring) : bool :=
  prefixb marker l && (length marker <? length l)%nat.

(** The first position, from the left, at which [^# (.+)$] matches, and
    its group. *)
Fixpoint match_title (bol : bool) (s : jsstring) : option jsstring :=
  match s with
  | [] => None
  | c :: rest =>
      if bol && valid_heading (lit "# ") (line_of s) then Some (skipn 2 (line_of s))
      else match_title (is_lt c) rest
  end.

(** *** Fenced code blocks

    The pattern is three backticks, a greedy run of word characters (the
    language tag), one LF, a lazy run of any code units (group 2) and three
    backticks, with the [g] flag. *)

Definition fence : jsstring := lit "```".

(** The lazy group followed by the closing fence: everything before
    the first fence. *)
Fixpoint until_fence (acc : jsstring) (s : jsstring) : option jsstring :=
  match s with
  | [] => None
  | c :: rest => if prefixb fence s then Some (rev acc) else until_fence (c :: acc) rest
  end.

(** [s.replace(/c/g, text)] for a one-character pattern. *)
Definition replace_char_by (c : char) (text : jsstring) (s : jsstring) : jsstring :=
  flat_map (fun x => if x =? c then text else [x]) s.

(** The five chained [replace] calls on the content of a code block. *)
Definition escape_html (s : jsstring) : jsstring :=
  replace_char_by 39 (lit "&#039;")
    (replace_char_by 34 (lit "&quot;")
      (replace_char_by 62 (lit "&gt;")
        (replace_char_by 60 (lit "&lt;")
          (replace_char_by 38 (lit "&amp;") s)))).

Definition codeblock_matcher (st : styles.t) : matcher :=
  fun _ s =>
    if prefixb fence s then
      let r := skipn 3 s in
      let lang := takeWhile is_word r in
      match skipn (length lang) r with
      | c :: r2 =>
          if c =? 10 then
            match until_fence [] r2 with
            | Some code =>
                Some ((3 + length lang + 1 + length code + 3)%nat,
                      otag "pre" (styles.pre st) ++ lit "<code>" ++ escape_html (trim code)
                        ++ lit "</code></pre>")
            | None => None
            end
          else None
      | [] => None
      end
    else None.

(** *** Tables: [/(^\|.+\|$\n?)+/gm], runs of lines that start and end
    with a pipe *)

Definition pipe : char := 124.

(** A line matches [\|.+\|]: the greedy [.+] gives back until the last
    code unit of the line is the closing pipe. *)
Definition valid_table_line (l : jsstring) : bool :=
  (3 <=? length l)%nat && prefixb [pipe] l && (last l 0 =? pipe).

(** [line.trim()] is truthy. *)
Definition nonblank (l : jsstring) : bool := negb (is_empty (trim l)).

(** [arr.slice(1, -1)]. *)
Definition slice_1_m1 (A : Type) (l : list A) : list A := removelast (tl l).

Definition parseRow (row : jsstring) : list jsstring :=
  map trim (slice_1_m1 (split pipe row)).

(** The class of the separator test: white space, colon, hyphen. *)
Definition is_sep_class (c : char) : bool := is_ws c || (c =? 58) || (c =? 45).

(** [isSeparator]: the row, whose pipes the inner [replace] leaves as they
    are, is tested against a pattern without flags: one pipe, a greedy
    non-empty run of the class, one pipe, end of input.  The class has no
    pipe in it, so the run stops at the first pipe of the rest, and that
    pipe has to be the last code unit of the row. *)
Definition isSeparator (row : jsstring) : bool :=
  match row with
  | c :: r =>
      (c =? pipe)
      && negb (is_empty (takeWhile is_sep_class r))
      && eqb_str (dropWhile is_sep_class r) [pipe]
  | [] => false
  end.

Definition table_callback (st : styles.t) (tableBlock : jsstring) : jsstring :=
  let rows := filter nonblank (split LF (trim tableBlock)) in
  if (length rows <? 2)%nat then tableBlock
  else
    let headerCells := parseRow (hd [] rows) in
    let dataRows := filter (fun r => negb (isSeparator r)) (tl rows) in
    otag "table" (styles.table st) ++ lit "<thead><tr>"
      ++ concat (map (fun cell => otag "th" (styles.th st) ++ cell ++ lit "</th>") headerCells)
      ++ lit "</tr></thead><tbody>"
      ++ concat (map (fun row =>
                        lit "<tr>"
                        ++ concat (map (fun cell => otag "td" (styles.td st) ++ cell ++ lit "</td>")
                                       (parseRow row))
                        ++ lit "</tr>") dataRows)
      ++ lit "</tbody></table>".

Definition table_matcher (st : styles.t) : matcher :=
  run_matcher valid_table_line (table_callback st).

(** *** Headings and rules: [/^#### (.+)$/gm] down to [/^# (.+)$/gm], and
    [/^---$/gm] *)

Definition heading_matcher (marker : jsstring) (tag : string) (attr : jsstring) : matcher :=
  line_matcher (valid_heading marker)
    (fun l => otag tag attr ++ skipn (length marker) l ++ lit "</" ++ lit tag ++ lit ">").
Arguments heading_matcher marker tag%_string attr.

Definition hr_matcher (st : styles.t) : matcher :=
  line_matcher (eqb_str (lit "---")) (fun _ => otag "hr" (styles.hr st)).

(** *** Inline formatting *)

(** Bold, [/\*\*(.+?)\*\*/g]: two stars, a lazy non-empty run of [.], two
    stars.  The run grows one code unit at a time, never over a line
    terminator, until two stars follow it.  [acc] is the run so far,
    reversed. *)
Fixpoint lazy_until_stars (acc : jsstring) (s : jsstring) : option jsstring :=
  match s with
  | [] => None
  | c :: rest =>
      if is_lt c then None
      else if prefixb (lit "**") rest then Some (rev (c :: acc))
      else lazy_until_stars (c :: acc) rest
  end.

Definition bold_matcher (st : styles.t) : matcher :=
  fun _ s =>
    if prefixb (lit "**") s then
      match lazy_until_stars [] (skipn 2 s) with
      | Some g =>
          Some ((2 + length g + 2)%nat,
                otag "strong" (styles.strong st) ++ g ++ lit "</strong>")
      | None => None
      end
    else None.

(** A delimiter, a non-empty run of anything but [stop], then [stop]: the
    shape of the italic pattern [/\*([^*]+?)\*/g] and of the inline-code
    pattern [/`([^`]+)`/g].  The run cannot step over [stop], so lazy and
    greedy agree. *)
Definition delimited (stop : char) (s : jsstring) : option jsstring :=
  let g := takeWhile (fun c => negb (c =? stop)) s in
  match g, skipn (length g) s with
  | _ :: _, _ :: _ => Some g
  | _, _ => None
  end.

Definition italic_matcher (st : styles.t) : matcher :=
  fun _ s =>
    match s with
    | c :: r =>
        if c =? 42 then
          match delimited 42 r with
          | Some g =>
              Some ((1 + length g + 1)%nat, otag "em" (styles.em st) ++ g ++ lit "</em>")
          | None => None
          end
        else None
    | [] => None
    end.

(** Link, [/\[([^\]]+)\]\(([^)]+)\)/g]: an opening bracket, a non-empty
    run without closing bracket, the two code units that close the text and
    open the target, a non-empty run without closing parenthesis, a closing
    parenthesis. *)
Definition link_matcher (st : styles.t) : matcher :=
  fun _ s =>
    match s with
    | c :: r =>
        if c =? 91 then
          match delimited 93 r with
          | Some text =>
              match skipn (S (length text)) r with
              | o :: r2 =>
                  if o =? 40 then
                    match delimited 41 r2 with
                    | Some url =>
                        Some ((1 + length text + 2 + length url + 1)%nat,
                              lit "<a href=" ++ dq ++ url ++ dq ++ lit " " ++ styles.a st
                                ++ lit ">" ++ text ++ lit "</a>")
                    | None => None
                    end
                  else None
              | [] => None
              end
          | None => None
          end
        else None
    | [] => None
    end.

Definition code_matcher (st : styles.t) : matcher :=
  fun _ s =>
    match s with
    | c :: r =>
        if c =? 96 then
          match delimited 96 r with
          | Some g =>
              Some ((1 + length g + 1)%nat,
                    otag "code" (styles.code st) ++ g ++ lit "</code>")
          | None => None
          end
        else None
    | [] => None
    end.

(** *** Blockquotes: [/(^>.*$\n?)+/gm], runs of lines that start with [>] *)

Definition valid_quote_line (l : jsstring) : bool := prefixb [62] l.

(** [line.replace(/^>\s?/, "")]. *)
Definition strip_quote_marker (line : jsstring) : jsstring :=
  match line with
  | c :: r =>
      if c =? 62 then
        match r with
        | w :: r' => if is_ws w then r' else r
        | [] => r
        end
      else line
  | [] => []
  end.

Definition blockquote_callback (st : styles.t) (m : jsstring) : jsstring :=
  let lines :=
    filter (fun line => negb (is_empty line))
      (map (fun line => trim (strip_quote_marker line))
         (filter nonblank (split LF m))) in
  match lines with
  | [] => []
  | _ :: _ =>
      otag "blockquote" (styles.blockquote st) ++ otag "p" (styles.p st)
        ++ join (lit "<br>") lines ++ lit "</p></blockquote>"
  end.

Definition blockquote_matcher (st : styles.t) : matcher :=
  run_matcher valid_quote_line (blockquote_callback st).

(** *** Lists: [/(^- .+$\n?)+/gm] and [/(^\d+\. .+$\n?)+/gm] *)

Definition valid_ul_line (l : jsstring) : bool := valid_heading (lit "- ") l.

(** A line matches [\d+\. .+]. *)
Definition valid_ol_line (l : jsstring) : bool :=
  let ds := takeWhile is_digit l in
  negb (is_empty ds) && valid_heading (lit ". ") (skipn (length ds) l).

(** [line.replace(/^- /, "")]. *)
Definition strip_ul_marker (line : jsstring) : jsstring :=
  if prefixb (lit "- ") line then skipn 2 line else line.

(** [line.replace(/^\d+\. /, "")]. *)
Definition strip_ol_marker (line : jsstring) : jsstring :=
  let ds := takeWhile is_digit line in
  if negb (is_empty ds) && prefixb (lit ". ") (skipn (length ds) line)
  then skipn (length ds + 2) line
  else line.

Definition list_callback (tag : string) (attr : jsstring) (li : jsstring)
    (strip : jsstring -> jsstring) (m : jsstring) : jsstring :=
  let items :=
    join [LF]
      (map (fun line => otag "li" li ++ strip line ++ lit "</li>")
         (filter nonblank (split LF m))) in
  otag tag attr ++ [LF] ++ items ++ [LF] ++ lit "</" ++ lit tag ++ lit ">".
Arguments list_callback tag%_string attr li strip m.

Definition ul_matcher (st : styles.t) : matcher :=
  run_matcher valid_ul_line (list_callback "ul" (styles.ul st) (styles.li st) strip_ul_marker).

Definition ol_matcher (st : styles.t) : matcher :=
  run_matcher valid_ol_line (list_callback "ol" (styles.ol st) (styles.li st) strip_ol_marker).

(** *** Paragraph wrapping *)

Definition block_open_names : list jsstring :=
  [ lit "h1"; lit "h2"; lit "h3"; lit "h4"; lit "h5"; lit "h6"; lit "ul"; lit "ol"; lit "li";
    lit "blockquote"; lit "pre"; lit "hr"; lit "p"; lit "table"; lit "thead"; lit "tbody";
    lit "tr"; lit "th"; lit "td" ].

Definition block_close_names : list jsstring :=
  [ lit "h1"; lit "h2"; lit "h3"; lit "h4"; lit "h5"; lit "h6"; lit "ul"; lit "ol"; lit "li";
    lit "blockquote"; lit "pre"; lit "p"; lit "table"; lit "thead"; lit "tbody";
    lit "tr"; lit "th"; lit "td" ].

(** The two tests on the trimmed line: an opening angle bracket followed by
    one of the names (nothing is asked of what follows the name), or a
    closing tag of one of the names. *)
Definition isBlockElement (trimmed : jsstring) : bool :=
  existsb (fun n => prefixb (lit "<" ++ n) trimmed) block_open_names
  || existsb (fun n => prefixb (lit "</" ++ n ++ lit ">") trimmed) block_close_names.

(** The loop over the lines; [inParagraph] is threaded through, the pushed
    lines are returned in order, the final [if] closes an open paragraph. *)
Fixpoint wrap_lines (st : styles.t) (inParagraph : bool) (lines : list jsstring)
    : list jsstring :=
  match lines with
  | [] => if inParagraph then [lit "</p>"] else []
  | line :: rest =>
      let trimmed := trim line in
      if is_empty trimmed then
        (if inParagraph then [lit "</p>"] else []) ++ line :: wrap_lines st false rest
      else if isBlockElement trimmed then
        (if inParagraph then [lit "</p>"] else []) ++ line :: wrap_lines st false rest
      else if negb inParagraph then
        (otag "p" (styles.p st) ++ line) :: wrap_lines st true rest
      else line :: wrap_lines st true rest
  end.

Definition wrap_paragraphs (st : styles.t) (html : jsstring) : jsstring :=
  join [LF] (wrap_lines st false (split LF html)).

(** *** The whole function *)

Record rendered := mkRendered { html_of : jsstring; title_of : jsstring }.

Definition render_body (st : styles.t) (md : jsstring) : jsstring :=
  let html := replace_g (codeblock_matcher st) md in
  let html := replace_g (table_matcher st) html in
  let html := replace_g (heading_matcher (lit "#### ") "h4" (styles.h4 st)) html in
  let html := replace_g (heading_matcher (lit "### ") "h3" (styles.h3 st)) html in
  let html := replace_g (heading_matcher (lit "## ") "h2" (styles.h2 st)) html in
  let html := replace_g (heading_matcher (lit "# ") "h1" (styles.h1 st)) html in
  let html := replace_g (bold_matcher st) html in
  let html := replace_g (italic_matcher st) html in
  let html := replace_g (link_matcher st) html in
  let html := replace_g (code_matcher st) html in
  let html := replace_g (hr_matcher st) html in
  let html := replace_g (blockquote_matcher st) html in
  let html := replace_g (ul_matcher st) html in
  let html := replace_g (ol_matcher st) html in
  wrap_paragraphs st html.

Definition markdownToEmailHtml (md : jsstring) (style_ : style) : rendered :=
  let title :=
    match match_title true md with
    | Some t => t
    | None => lit "Report"
    end in
  {| html_of := render_body (styles_of style_) md; title_of := title |}.

(** ** Loading attachments and sending *)

(** [path.basename] on POSIX: trailing slashes are dropped, then what
    follows the last slash is taken. *)
Definition basename (filePath : jsstring) : jsstring :=
  let stripped := rev (dropWhile (fun c => c =? 47) (rev filePath)) in
  rev (takeWhile (fun c => negb (c =? 47)) (rev stripped)).

(** [path.extname]: from the last dot of the base name on; empty when there
    is no dot, when the only dot leads the name, and for the name of the
    parent directory. *)
Definition extname (filePath : jsstring) : jsstring :=
  let b := basename filePath in
  let after := rev (takeWhile (fun c => negb (c =? 46)) (rev b)) in
  if (length after =? length b)%nat then []
  else if (S (length after) =? length b)%nat then []
  else if eqb_str b (lit "..") then []
  else 46 :: after.

(** [toLowerCase], on the letters that can make a key of the table. *)
Definition toLowerCase (s : jsstring) : jsstring :=
  map (fun c => if is_upper c then c + 32 else c) s.

Definition mimeTypes : list (jsstring * jsstring) :=
  [ (lit ".pdf", lit "application/pdf");
    (lit ".doc", lit "application/msword");
    (lit ".docx", lit "application/vnd.openxmlformats-officedocument.wordprocessingml.document");
    (lit ".xls", lit "application/vnd.ms-excel");
    (lit ".xlsx", lit "application/vnd.openxmlformats-officedocument.spreadsheetml.sheet");
    (lit ".png", lit "image/png");
    (lit ".jpg", lit "image/jpeg");
    (lit ".jpeg", lit "image/jpeg");
    (lit ".gif", lit "image/gif");
    (lit ".txt", lit "text/plain");
    (lit ".html", lit "text/html");
    (lit ".csv", lit "text/csv");
    (lit ".json", lit "application/json");
    (lit ".zip", lit "application/zip") ].

Definition getMimeType (filePath : jsstring) : jsstring :=
  let ext := toLowerCase (extname filePath) in
  match find (fun kv => eqb_str (fst kv) ext) mimeTypes with
  | Some kv => snd kv
  | None => lit "application/octet-stream"
  end.

(** What a promise settles to.  A rejection of the file system is a
    system error: its code, and its [path] property, which the error has
    when the call that failed was given the path (a failed open or write)
    and lacks otherwise (a read that fails after the open, as the read of
    a directory, which rejects with [EISDIR]); the mail API rejects with a
    message of its own. *)
Inductive error :=
| FsError (code : jsstring) (path : option jsstring)
| ApiError (message : jsstring).

Inductive outcome (A : Type) :=
| Fulfilled (a : A)
| Rejected (e : error).
Arguments Fulfilled {A} a.
Arguments Rejected {A} e.

(** [err.path]: the file a rejection names, if it names one. *)
Definition error_path (e : error) : option jsstring :=
  match e with
  | FsError _ path => path
  | ApiError _ => None
  end.

(** What the file system holds at a path: contents, or the error code a
    read of it fails with. *)
Inductive bytes_or_code := Bytes (b : list byte) | Code (c : jsstring).

(** The collaborators of one call: the file system (what the promise of a
    read of a path settles to: the contents, or the rejection, which is
    the file system's own), the clock, the order in which the reads of
    each [Promise.all] settle (indices into the array, earliest first),
    and the two methods of the mail API. *)
Record world := mkWorld {
  files : jsstring -> outcome (list byte);
  now : N;
  settle_attachments : list nat;
  settle_inline : list nat;
  messages_send : jsstring -> outcome (jsstring * jsstring);
  drafts_create : jsstring -> outcome (jsstring * jsstring)
}.

Definition fs_readFile (w : world) (filePath : jsstring) : outcome (list byte) :=
  files w filePath.

Definition loadAttachment (w : world) (filePath : jsstring) : outcome Attachment :=
  match fs_readFile w filePath with
  | Fulfilled content =>
      Fulfilled (mkAttachment (basename filePath) content (getMimeType filePath) None None)
  | Rejected e => Rejected e
  end.

Definition loadInlineImage (w : world) (filePath contentId : jsstring) : outcome Attachment :=
  match fs_readFile w filePath with
  | Fulfilled content =>
      Fulfilled (mkAttachment (basename filePath) content (getMimeType filePath)
                   (Some true) (Some contentId))
  | Rejected e => Rejected e
  end.

(** An element of [inlineImagePaths]. *)
Record InlineImagePath := mkInlineImagePath { path : jsstring; cid : jsstring }.

(** [Promise.all]: it rejects with the reason of the promise that rejects
    first in time and fulfils, with the values in array order, when none
    rejects.  Promises the given order leaves out settle after the listed
    ones, in array order. *)
Fixpoint first_rejection (A : Type) (order : list nat) (ps : list (outcome A)) : option error :=
  match order with
  | [] => None
  | i :: rest =>
      match nth_error ps i with
      | Some (Rejected e) => Some e
      | _ => first_rejection rest ps
      end
  end.

Fixpoint fulfilled_values (A : Type) (ps : list (outcome A)) : list A :=
  match ps with
  | [] => []
  | Fulfilled a :: rest => a :: fulfilled_values rest
  | Rejected _ :: rest => fulfilled_values rest
  end.

Definition Promise_all (A : Type) (order : list nat) (ps : list (outcome A)) : outcome (list A) :=
  match first_rejection (order ++ seq 0 (length ps)) ps with
  | Some e => Rejected e
  | None => Fulfilled (fulfilled_values ps)
  end.

(** What the call did to the outside, in order. *)
Inductive event :=
| ReadFile (path : jsstring)
| SendCall (raw : jsstring)
| DraftCall (raw : jsstring).

(** A computation that logs its calls and may reject. *)
Definition io (A : Type) : Type := list event -> outcome A * list event.

Definition ret (A : Type) (a : A) : io A := fun log => (Fulfilled a, log).

Definition bind (A B : Type) (m : io A) (k : A -> io B) : io B :=
  fun log =>
    match m log with
    | (Fulfilled a, log') => k a log'
    | (Rejected e, log') => (Rejected e, log')
    end.

Notation "x <- m ;; k" := (bind m (fun x => k))
  (at level 61, m at next level, right associativity).

(** [await Promise.all(paths.map(load))]: every read is started, then the
    combined promise is awaited. *)
Definition await_all (A B : Type) (path_of : A -> jsstring) (load : A -> outcome B)
    (order : list nat) (items : list A) : io (list B) :=
  fun log => (Promise_all order (map load items), log ++ map (fun x => ReadFile (path_of x)) items).

(** The part [sendMessage] and [createDraft] share word for word: the
    attachments are loaded, then the inline images, then the raw message is
    built. *)
Definition load_and_build (w : world) (to subject body : jsstring) (html : option jsstring)
    (attachmentPaths : option (list jsstring))
    (inlineImagePaths : option (list InlineImagePath)) : io jsstring :=
  attachments <-
    match attachmentPaths with
    | Some (p :: ps) =>
        l <- await_all (fun x => x) (loadAttachment w) (settle_attachments w) (p :: ps) ;;
        ret (Some l)
    | _ => ret None
    end ;;
  inlineImages <-
    match inlineImagePaths with
    | Some (i :: imgs) =>
        l <- await_all path (fun img => loadInlineImage w (path img) (cid img))
               (settle_inline w) (i :: imgs) ;;
        ret (Some l)
    | _ => ret None
    end ;;
  ret (createRawMessage (now w) to subject body None html attachments inlineImages).

Definition sendMessage (w : world) (to subject body : jsstring) (html : option jsstring)
    (attachmentPaths : option (list jsstring))
    (inlineImagePaths : option (list InlineImagePath)) : io (jsstring * jsstring) :=
  raw <- load_and_build w to subject body html attachmentPaths inlineImagePaths ;;
  fun log => (messages_send w raw, log ++ [SendCall raw]).

Definition createDraft (w : world) (to subject body : jsstring) (html : option jsstring)
    (attachmentPaths : option (list jsstring))
    (inlineImagePaths : option (list InlineImagePath)) : io (jsstring * jsstring) :=
  raw <- load_and_build w to subject body html attachmentPaths inlineImagePaths ;;
  fun log => (drafts_create w raw, log ++ [DraftCall raw]).

(** ** Observations on the produced text *)

(** The number of positions of [s] at which [needle] occurs. *)
Fixpoint count (needle s : jsstring) : nat :=
  match s with
  | [] => 0
  | _ :: rest => (if prefixb needle s then 1 else 0) + count needle rest
  end.

(** Delimiter lines of a multipart body: the closing one is the boundary
    between two pairs of hyphens; an opening one is an occurrence of the
    two hyphens and the boundary that is not the start of a closing one. *)
Definition closing_delimiters (boundary : jsstring) (msg : jsstring) : nat :=
  count (lit "--" ++ boundary ++ lit "--") msg.

Definition opening_delimiters (boundary : jsstring) (msg : jsstring) : nat :=
  count (lit "--" ++ boundary) msg - closing_delimiters boundary msg.

(** [sub] occurs in [s] with [pre] before it and [post] after it. *)
Definition occurs_in (sub s : jsstring) : Prop := exists pre post, s = pre ++ sub ++ post.

(** ** The six shapes, as the specification words them

    A second description of the envelope, to compare [message] with: a tree
    of MIME parts and its serialization.  A leaf is a block of header lines,
    an empty line and a body; a multipart is its [Content-Type] header, an
    empty line, every part behind an opening delimiter line, and the
    closing delimiter. *)

#[warnings="-register-all"]
Inductive part :=
| Leaf (part_headers : list jsstring) (part_body : jsstring)
| Multipart (kind : jsstring) (boundary : jsstring) (parts : list part).

Fixpoint render_part (p : part) : jsstring :=
  match p with
  | Leaf hs b => join nl hs ++ nl ++ nl ++ b
  | Multipart kind bd ps =>
      multipart_header kind bd ++ nl ++ nl
      ++ concat (map (fun q => lit "--" ++ bd ++ nl ++ render_part q ++ nl) ps)
      ++ lit "--" ++ bd ++ lit "--"
  end.

Inductive shape :=
| MixedRelated | MixedAlternative | MixedPlain | Related | Alternative | Plain.

(** The precedence of the specification, first fit. *)
Definition select_shape (attachments html inlineImages : bool) : shape :=
  if attachments && html && inlineImages then MixedRelated
  else if attachments && html then MixedAlternative
  else if attachments then MixedPlain
  else if html && inlineImages then Related
  else if html then Alternative
  else Plain.

Section Envelope.

Variable ts : N.
Variables to subject body : jsstring.
Variable from : option jsstring.
Variable html : jsstring.
Variables attachments inlineImages : list Attachment.

(** The header lines every shape starts with. *)
Definition envelope_headers : jsstring :=
  join nl
    ([lit "MIME-Version: 1.0"; lit "To: " ++ to]
     ++ (if truthy from then [lit "From: " ++ render_opt from] else [])
     ++ [lit "Subject: " ++ subject]).

Definition text_leaf : part := Leaf [text_plain] body.
Definition html_leaf : part := Leaf [text_html] html.

Definition attachment_leaf (att : Attachment) : part :=
  Leaf [ lit "Content-Type: " ++ mimeType att ++ lit "; name=" ++ dq ++ filename att ++ dq;
         lit "Content-Disposition: attachment; filename=" ++ dq ++ filename att ++ dq;
         lit "Content-Transfer-Encoding: base64" ]
       (base64Content (content att)).

Definition inline_leaf (img : Attachment) : part :=
  Leaf [ lit "Content-Type: " ++ mimeType img ++ lit "; name=" ++ dq ++ filename img ++ dq;
         lit "Content-Transfer-Encoding: base64";
         lit "Content-Disposition: inline; filename=" ++ dq ++ filename img ++ dq;
         lit "Content-ID: <" ++ render_opt (contentId img) ++ lit ">" ]
       (base64Content (content img)).

Definition related_part : part :=
  Multipart (lit "related") (relatedBoundary ts) (html_leaf :: map inline_leaf inlineImages).

Definition alternative_part : part :=
  Multipart (lit "alternative") (altBoundary ts) [text_leaf; html_leaf].

(** The tree of each multipart shape. *)
Definition envelope (sh : shape) : part :=
  match sh with
  | MixedRelated =>
      Multipart (lit "mixed") (mixedBoundary ts) (related_part :: map attachment_leaf attachments)
  | MixedAlternative =>
      Multipart (lit "mixed") (mixedBoundary ts)
        (alternative_part :: map attachment_leaf attachments)
  | MixedPlain =>
      Multipart (lit "mixed") (mixedBoundary ts) (text_leaf :: map attachment_leaf attachments)
  | Related => related_part
  | Alternative => alternative_part
  | Plain => text_leaf
  end.

End Envelope.

(** No text of the list holds the needle. *)
Definition free_of (needle : jsstring) (texts : list jsstring) : Prop :=
  Forall (fun t => count needle t = 0%nat) texts.

(** ** Helpers of the proofs *)

(** The sextets [toString_base64] encodes, without the alphabet, and the
    padding it ends with. *)
Fixpoint data_sextets (bs : list byte) : list N :=
  match bs with
  | [] => []
  | a :: t1 =>
      let x := Byte.to_N a in
      match t1 with
      | [] => [x / 4; (x mod 4) * 16]
      | b :: t2 =>
          let y := Byte.to_N b in
          match t2 with
          | [] => [x / 4; (x mod 4) * 16 + y / 16; (y mod 16) * 4]
          | c :: rest =>
              let z := Byte.to_N c in
              x / 4 :: (x mod 4) * 16 + y / 16 :: (y mod 16) * 4 + z / 64 :: z mod 64
              :: data_sextets rest
          end
      end
  end.

Fixpoint padding (bs : list byte) : jsstring :=
  match bs with
  | [] => []
  | _ :: t1 =>
      match t1 with
      | [] => [61; 61]
      | _ :: t2 =>
          match t2 with
          | [] => [61]
          | _ :: rest => padding rest
          end
      end
  end.

(** The two substitutions of [base64url] on one code unit, and their
    reversal in [decodeBase64Url]. *)
Definition to_url (c : char) : char :=
  (fun x => if x =? 47 then 95 else x) ((fun x => if x =? 43 then 45 else x) c).
Definition of_url (c : char) : char :=
  (fun x => if x =? 95 then 47 else x) ((fun x => if x =? 45 then 43 else x) c).

(** The occurrences of a needle inside the texts the caller supplied. *)
Fixpoint caller_count (needle : jsstring) (texts : list jsstring) : nat :=
  match texts with
  | [] => 0
  | t :: rest => count needle t + caller_count needle rest
  end.

(** The text the [From] line shows, if there is one. *)
Definition from_text (from : option jsstring) : jsstring :=
  if truthy from then render_opt from else [].

(** The lines of a document: a line ends at a line terminator. *)
Fixpoint js_lines (s : jsstring) : list jsstring :=
  match s with
  | [] => [[]]
  | c :: rest =>
      if is_lt c then [] :: js_lines rest
      else match js_lines rest with
           | l :: ls => (c :: l) :: ls
           | [] => [[c]]
           end
  end.

(** A level-1 heading line: a hash, a space and a text that is not
    empty. *)
Definition is_h1_line (l : jsstring) : bool :=
  match l with
  | x :: y :: _ :: _ => (x =? 35) && (y =? 32)
  | _ => false
  end.

(** The text of the first level-1 heading line of a document. *)
Definition first_h1 (lines : list jsstring) : option jsstring :=
  match find is_h1_line lines with
  | Some l => Some (skipn 2 l)
  | None => None
  end.

(** A read of the path succeeds; what it gives; the attachment and the
    inline image made of it. *)
Definition readable (w : world) (p : jsstring) : bool :=
  match files w p with
  | Fulfilled _ => true
  | Rejected _ => false
  end.

Definition file_bytes (w : world) (p : jsstring) : list byte :=
  match files w p with
  | Fulfilled b => b
  | Rejected _ => []
  end.

Definition loaded_attachment (w : world) (p : jsstring) : Attachment :=
  mkAttachment (basename p) (file_bytes w p) (getMimeType p) None None.

Definition loaded_inline (w : world) (img : InlineImagePath) : Attachment :=
  mkAttachment (basename (path img)) (file_bytes w (path img)) (getMimeType (path img))
    (Some true) (Some (cid img)).

(** [None] for an empty array, as the two length tests of [sendMessage]
    leave the variables undefined. *)
Definition some_if_nonempty (A : Type) (l : list A) : option (list A) :=
  match l with
  | [] => None
  | _ :: _ => Some l
  end.

(** A code unit of the alphabet survives the two substitutions and their
    reversal, is none of the three code units [base64url] removes, and is
    read back as its index.  The 64 indices are checked one by one. *)
Definition b64_char_ok (i : N) : bool :=
  let c := to_url (b64_char i) in
  negb (c =? 43) && negb (c =? 47) && negb (c =? 61)
  && negb (of_url c =? 61)
  && match b64_index (of_url c) with Some j => j =? i | None => false end.

(** The code units a boundary, or a delimiter made of it, consists of. *)
Definition bchar (c : char) : bool :=
  (c =? 45) || (c =? 95) || is_lower c || is_digit c.

(** The base64 text of a part: alphabet, padding and the line breaks
    between the pieces, hence no hyphen and no underscore. *)
Definition b64_text_char (c : char) : bool :=
  is_upper c || is_lower c || is_digit c || (c =? 43) || (c =? 47) || (c =? 61)
  || (c =? 13) || (c =? 10).

(** The array behind an optional parameter. *)
Definition array_or_empty (A : Type) (l : option (list A)) : list A :=
  match l with
  | Some a => a
  | None => []
  end.

(** The read of the item at index [j], if there is one, succeeds. *)
Definition settles_well (A : Type) (w : world) (path_of : A -> jsstring) (items : list A)
    (j : nat) : Prop :=
  match nth_error items j with
  | Some x => readable w (path_of x) = true
  | None => True
  end.

(** Runs of quoted lines, as the statements on blockquotes take them: the
    text of a line is made of letters, digits and spaces and is not blank;
    a run is its lines, each behind the marker, joined by LF; the element
    of a run holds the trimmed texts joined by line breaks. *)
Definition plain_char (c : char) : bool :=
  is_upper c || is_lower c || is_digit c || (c =? 32).

Definition plain_text (t : jsstring) : bool :=
  forallb plain_char t && negb (is_empty (trim t)).

Definition quote_line (t : jsstring) : jsstring := lit "> " ++ t.

Definition quote_run (texts : list jsstring) : jsstring :=
  join [LF] (map (fun t => lit "> " ++ t) texts).

Definition blockquote_element (st : styles.t) (texts : list jsstring) : jsstring :=
  otag "blockquote" (styles.blockquote st) ++ otag "p" (styles.p st)
    ++ join (lit "<br>") (map trim texts) ++ lit "</p></blockquote>".

(** The code units of such a document. *)
Definition md_char (c : char) : bool := plain_char c || (c =? 62) || (c =? 10).

Definition is_not (t : char) (c : char) : bool := negb (c =? t).

Definition no_lt (s : jsstring) : bool := forallb (fun c => negb (is_lt c)) s.

(** A matcher that needs [^]; a matcher that finds nothing at the end of
    the input nor where the code unit under it satisfies [P]; the same,
    asked only where [^] holds. *)
Definition anchored (m : matcher) : Prop := forall s, m false s = None.

Definition inert (m : matcher) (P : char -> bool) : Prop :=
  (forall bol, m bol [] = None)
  /\ (forall bol c rest, P c = true -> m bol (c :: rest) = None).

Definition inert_at_bol (m : matcher) (P : char -> bool) : Prop :=
  (forall bol, m bol [] = None)
  /\ (forall c rest, P c = true -> m true (c :: rest) = None).

(** Every code unit of [s] that starts a line satisfies [P]. *)
Fixpoint heads_ok (P : char -> bool) (bol : bool) (s : jsstring) : bool :=
  match s with
  | [] => true
  | c :: rest => (if bol then P c else true) && heads_ok P (is_lt c) rest
  end.

(** The passes of [render_body] that come before the blockquote pass. *)
Definition before_quotes (st : styles.t) (md : jsstring) : jsstring :=
  let html := replace_g (codeblock_matcher st) md in
  let html := replace_g (table_matcher st) html in
  let html := replace_g (heading_matcher (lit "#### ") "h4" (styles.h4 st)) html in
  let html := replace_g (heading_matcher (lit "### ") "h3" (styles.h3 st)) html in
  let html := replace_g (heading_matcher (lit "## ") "h2" (styles.h2 st)) html in
  let html := replace_g (heading_matcher (lit "# ") "h1" (styles.h1 st)) html in
  let html := replace_g (bold_matcher st) html in
  let html := replace_g (italic_matcher st) html in
  let html := replace_g (link_matcher st) html in
  let html := replace_g (code_matcher st) html in
  replace_g (hr_matcher st) html.

(** The code units the escaping of a code block takes away. *)
Definition markup_char (c : char) : bool :=
  (c =? 60) || (c =? 62) || (c =? 34) || (c =? 39).

(** * Further functions *)

(** ** Command-line arguments: [parseArgs] *)

(** The object [flags]: its own properties, each key once.  Only look-ups
    of own properties are made of it. *)
Definition Flags := list (jsstring * jsstring).

Fixpoint get_flag (key : jsstring) (fl : Flags) : option jsstring :=
  match fl with
  | [] => None
  | (k, v) :: rest => if eqb_str k key then Some v else get_flag key rest
  end.

Fixpoint set_flag (key value : jsstring) (fl : Flags) : Flags :=
  match fl with
  | [] => [(key, value)]
  | (k, v) :: rest =>
      if eqb_str k key then (k, value) :: rest else (k, v) :: set_flag key value rest
  end.

(** [flags[key] = value] on an object literal: the key [__proto__] reaches
    the setter of [Object.prototype], which ignores a string; every other
    key becomes, or stays, an own property. *)
Definition assign_flag (key value : jsstring) (fl : Flags) : Flags :=
  if eqb_str key (lit "__proto__") then fl else set_flag key value fl.

Record ParsedArgs := mkParsedArgs { flags_of : Flags; positional_of : list jsstring }.

(** The loop of [parseArgs] from a given state of [flags] and
    [positional]. *)
Fixpoint parseArgs_from (fl : Flags) (positional : list jsstring) (args : list jsstring)
    : ParsedArgs :=
  match args with
  | [] => mkParsedArgs fl positional
  | arg :: rest =>
      if prefixb (lit "--") arg then
        let pieces := split 61 (skipn 2 arg) in
        let key := hd [] pieces in
        let valueParts := tl pieces in
        let joined := join [61] valueParts in
        parseArgs_from
          (assign_flag key (if is_empty joined then lit "true" else joined) fl)
          positional rest
      else parseArgs_from fl (positional ++ [arg]) rest
  end.

Definition parseArgs (args : list jsstring) : ParsedArgs := parseArgs_from [] [] args.

(** ** UTF-8 text: [buf.toString("utf-8")] and [decodeBase64Url] *)

(** The UTF-16 code units of a code point. *)
Definition utf16_of_cp (cp : N) : jsstring :=
  if cp <? 65536 then [cp]
  else [55296 + (cp - 65536) / 1024; 56320 + (cp - 65536) mod 1024].

(** The decoder between two sequences, on the byte [b]: an ASCII byte is
    emitted, a lead byte sets how many continuation bytes are needed, the
    bits it brings and the bounds of the next byte, any other byte is
    replaced by U+FFFD. *)
Definition utf8_lead (b : N) : jsstring * (nat * N * N * N) :=
  if b <? 128 then ([b], (O, 0, 128, 191))
  else if (194 <=? b) && (b <=? 223) then ([], (1%nat, b mod 32, 128, 191))
  else if (224 <=? b) && (b <=? 239) then
    ([], (2%nat, b mod 16, (if b =? 224 then 160 else 128), (if b =? 237 then 159 else 191)))
  else if (240 <=? b) && (b <=? 244) then
    ([], (3%nat, b mod 8, (if b =? 240 then 144 else 128), (if b =? 244 then 143 else 191)))
  else ([65533], (O, 0, 128, 191)).

(** The decoder: [needed] continuation bytes are still to come for the code
    point whose bits so far are [cp]; the next byte has to lie between
    [lower] and [upper].  A byte outside the bounds ends the sequence with
    U+FFFD and is then read again as the start of a sequence; so does the
    end of the input inside a sequence. *)
Fixpoint toString_utf8_from (needed : nat) (cp lower upper : N) (bs : list byte) : jsstring :=
  match bs with
  | [] => match needed with O => [] | S _ => [65533] end
  | x :: rest =>
      let b := Byte.to_N x in
      match needed with
      | O =>
          let '(out, (n, c, lo, hi)) := utf8_lead b in
          out ++ toString_utf8_from n c lo hi rest
      | S k =>
          if (lower <=? b) && (b <=? upper) then
            let cp' := cp * 64 + b mod 64 in
            match k with
            | O => utf16_of_cp cp' ++ toString_utf8_from O 0 128 191 rest
            | S _ => toString_utf8_from k cp' 128 191 rest
            end
          else
            let '(out, (n, c, lo, hi)) := utf8_lead b in
            65533 :: out ++ toString_utf8_from n c lo hi rest
      end
  end.

Definition toString_utf8 (bs : list byte) : jsstring := toString_utf8_from O 0 128 191 bs.

Definition decodeBase64Url (data : jsstring) : jsstring :=
  toString_utf8 (decodeBase64Url_bytes data).

(** ** Reading a message: [extractBody] *)

(** A [MessagePart] of the mail API, as far as [extractBody] looks at it:
    [mimeType], [body?.data] (absent when there is no [body] or no [data]
    in it) and [parts]. *)
#[warnings="-register-all"]
Inductive MessagePart :=
| mkMessagePart (part_mimeType : option jsstring) (part_data : option jsstring)
    (part_parts : option (list MessagePart)).

(** What [extractBody] returns: [text], and [html] when there is one. *)
Record ExtractedBody := mkExtractedBody { body_text : jsstring; body_html : option jsstring }.

(** [x === "literal"] for an optional string. *)
Definition is_string (s : string) (x : option jsstring) : bool :=
  match x with
  | Some v => eqb_str v (lit s)
  | None => false
  end.
Arguments is_string s%_string x.

(** The value of an optional string that was found truthy. *)
Definition string_of (x : option jsstring) : jsstring :=
  match x with
  | Some v => v
  | None => []
  end.

Fixpoint extractBody_part (payload : MessagePart) : ExtractedBody :=
  match payload with
  | mkMessagePart mt data parts =>
      if truthy data then
        let content := decodeBase64Url (string_of data) in
        if is_string "text/html" mt then mkExtractedBody [] (Some content)
        else mkExtractedBody content None
      else
        match parts with
        | Some ps =>
            fold_left
              (fun acc part =>
                 match part with
                 | mkMessagePart pmt pdata pparts =>
                     if is_string "text/plain" pmt && truthy pdata then
                       mkExtractedBody (decodeBase64Url (string_of pdata)) (body_html acc)
                     else if is_string "text/html" pmt && truthy pdata then
                       mkExtractedBody (body_text acc) (Some (decodeBase64Url (string_of pdata)))
                     else
                       match pparts with
                       | Some _ =>
                           let nested := extractBody_part part in
                           mkExtractedBody
                             (if is_empty (body_text nested) then body_text acc
                              else body_text nested)
                             (if truthy (body_html nested) then body_html nested
                              else body_html acc)
                       | None => acc
                       end
                 end)
              ps (mkExtractedBody [] None)
        | None => mkExtractedBody [] None
        end
  end.

Definition extractBody (payload : option MessagePart) : ExtractedBody :=
  match payload with
  | None => mkExtractedBody [] None
  | Some p => extractBody_part p
  end.

(** ** Downloading a message: [downloadMessageAsEml] *)

(** The collaborators of the call: [users.messages.get] with [format: "raw"]
    gives the field [raw] of the answer, or rejects; [fs.writeFile] succeeds
    or rejects with a system error code. *)
Record eml_world := mkEmlWorld {
  messages_get_raw : jsstring -> outcome (option jsstring);
  writeFile_error : jsstring -> list byte -> option jsstring
}.

(** How the call can fail: an [Error] the function throws itself, or the
    rejection of a collaborator, passed on. *)
Inductive eml_failure :=
| Thrown (message : jsstring)
| Passed (e : error).

Inductive eml_event :=
| GetRaw (id : jsstring)
| WriteFile (path : jsstring) (data : list byte).

Record eml_result := mkEmlResult { eml_path : jsstring; eml_size : nat }.

Definition downloadMessageAsEml (w : eml_world) (messageId : jsstring)
    (outputPath : option jsstring) : (eml_failure + eml_result) * list eml_event :=
  match messages_get_raw w messageId with
  | Rejected e => (inl (Passed e), [GetRaw messageId])
  | Fulfilled raw =>
      if negb (truthy raw) then
        (inl (Thrown (lit "No raw message data returned from Gmail API")), [GetRaw messageId])
      else
        let rawMessage := Buffer_from_base64 (string_of raw) in
        let finalPath :=
          if truthy outputPath then string_of outputPath else messageId ++ lit ".eml" in
        match writeFile_error w finalPath rawMessage with
        | Some code =>
            (inl (Passed (FsError code (Some finalPath))),
             [GetRaw messageId; WriteFile finalPath rawMessage])
        | None =>
            (inr (mkEmlResult finalPath (length rawMessage)),
             [GetRaw messageId; WriteFile finalPath rawMessage])
        end
  end.

(** ** The e-mail template: [getEmailTemplate] and [applyTemplate] *)

Definition clientTemplate : jsstring :=
  join [LF]
    [ lit "<!DOCTYPE html>";
      lit "<html lang=" ++ dq ++ lit "en" ++ dq ++ lit ">";
      lit "<head>";
      lit "  <meta charset=" ++ dq ++ lit "UTF-8" ++ dq ++ lit ">";
      lit "  <meta name=" ++ dq ++ lit "viewport" ++ dq ++ lit " content=" ++ dq ++ lit "width=device-width, initial-scale=1.0" ++ dq ++ lit ">";
      lit "  <title>{{TITLE}}</title>";
      lit "</head>";
      lit "<body style=" ++ dq ++ lit "margin: 0; padding: 20px; background-color: #e8e6df; font-family: -apple-system, BlinkMacSystemFont, 'Segoe UI', Roboto, Helvetica, Arial, sans-serif;" ++ dq ++ lit ">";
      lit "  <table role=" ++ dq ++ lit "presentation" ++ dq ++ lit " cellspacing=" ++ dq ++ lit "0" ++ dq ++ lit " cellpadding=" ++ dq ++ lit "0" ++ dq ++ lit " border=" ++ dq ++ lit "0" ++ dq ++ lit " width=" ++ dq ++ lit "100%" ++ dq ++ lit " style=" ++ dq ++ lit "max-width: 680px; margin: 0 auto;" ++ dq ++ lit ">";
      lit "    <tr>";
      lit "      <td style=" ++ dq ++ lit "background: #faf9f6; padding: 40px; border: 1px solid #d4d3cf; border-radius: 8px;" ++ dq ++ lit ">";
      lit "        {{CONTENT}}";
      lit "      </td>";
      lit "    </tr>";
      lit "  </table>";
      lit "</body>";
      lit "</html>" ].

Definition labsTemplate : jsstring :=
  join [LF]
    [ lit "<!DOCTYPE html>";
      lit "<html lang=" ++ dq ++ lit "en" ++ dq ++ lit ">";
      lit "<head>";
      lit "  <meta charset=" ++ dq ++ lit "UTF-8" ++ dq ++ lit ">";
      lit "  <meta name=" ++ dq ++ lit "viewport" ++ dq ++ lit " content=" ++ dq ++ lit "width=device-width, initial-scale=1.0" ++ dq ++ lit ">";
      lit "  <title>{{TITLE}}</title>";
      lit "</head>";
      lit "<body style=" ++ dq ++ lit "margin: 0; padding: 20px; background-color: #e8e6df; font-family: -apple-system, BlinkMacSystemFont, 'Segoe UI', Roboto, Helvetica, Arial, sans-serif; color: #000000;" ++ dq ++ lit ">";
      lit "  <table role=" ++ dq ++ lit "presentation" ++ dq ++ lit " cellspacing=" ++ dq ++ lit "0" ++ dq ++ lit " cellpadding=" ++ dq ++ lit "0" ++ dq ++ lit " border=" ++ dq ++ lit "0" ++ dq ++ lit " width=" ++ dq ++ lit "100%" ++ dq ++ lit " style=" ++ dq ++ lit "max-width: 680px; margin: 0 auto;" ++ dq ++ lit ">";
      lit "    <tr>";
      lit "      <td style=" ++ dq ++ lit "background: #f3f2ea; padding: 40px; border: 1px solid #000000; box-shadow: 8px 8px 0px 0px rgba(0,0,0,0.1); color: #000000;" ++ dq ++ lit ">";
      lit "        {{CONTENT}}";
      lit "      </td>";
      lit "    </tr>";
      lit "  </table>";
      lit "</body>";
      lit "</html>" ].

Definition getEmailTemplate (style_ : style) : jsstring :=
  match style_ with
  | labs => labsTemplate
  | client => clientTemplate
  end.

(** [str.indexOf(needle)]: the first position at which the needle
    occurs. *)
Fixpoint indexOf (needle s : jsstring) : option nat :=
  if prefixb needle s then Some O
  else match s with
       | [] => None
       | _ :: rest => option_map S (indexOf needle rest)
       end.

(** The replacement text of [str.replace(pattern, replacement)] for a
    pattern that is a string, hence without groups: in the replacement a
    dollar sign followed by a dollar sign stands for one dollar sign,
    followed by an ampersand for the matched text, by a backtick for the
    text before the match, by an apostrophe for the text after it; every
    other code unit, a dollar sign before a digit or before anything else
    included, stands for itself. *)
Fixpoint GetSubstitution (matched before after : jsstring) (replacement : jsstring)
    : jsstring :=
  match replacement with
  | [] => []
  | c :: r =>
      if c =? 36 then
        match r with
        | d :: r' =>
            if d =? 36 then 36 :: GetSubstitution matched before after r'
            else if d =? 38 then matched ++ GetSubstitution matched before after r'
            else if d =? 96 then before ++ GetSubstitution matched before after r'
            else if d =? 39 then after ++ GetSubstitution matched before after r'
            else 36 :: GetSubstitution matched before after r
        | [] => [36]
        end
      else c :: GetSubstitution matched before after r
  end.

(** [str.replace(pattern, replacement)] for two strings: the first
    occurrence of the pattern, if there is one, is replaced. *)
Definition String_replace (pattern replacement s : jsstring) : jsstring :=
  match indexOf pattern s with
  | None => s
  | Some pos =>
      let before := firstn pos s in
      let after := skipn (pos + length pattern) s in
      before ++ GetSubstitution pattern before after replacement ++ after
  end.

Definition applyTemplate (template title content : jsstring) : jsstring :=
  String_replace (lit "{{CONTENT}}") content (String_replace (lit "{{TITLE}}") title template).

(** ** The ignore file: [ensureGitignore] *)

(** The file system of the call: what a read of a path gives, and the
    error code a write to a path fails with, if it fails. *)
Record disk := mkDisk {
  disk_files : jsstring -> bytes_or_code;
  disk_write_error : jsstring -> option jsstring
}.

(** [fs.writeFile(path, data)]: the error, or the file system with the
    file written. *)
Definition fs_writeFile (d : disk) (filePath : jsstring) (data : list byte) : error + disk :=
  match disk_write_error d filePath with
  | Some code => inl (FsError code (Some filePath))
  | None =>
      inr (mkDisk (fun q => if eqb_str q filePath then Bytes data else disk_files d q)
                  (disk_write_error d))
  end.

(** [str.includes(needle)], and [str.endsWith] asked for a line feed. *)
Definition includes (needle s : jsstring) : bool :=
  match indexOf needle s with
  | Some _ => true
  | None => false
  end.

Definition endsWith_LF (s : jsstring) : bool :=
  match rev s with
  | c :: _ => c =? 10
  | [] => false
  end.

Definition gitignore_pattern : jsstring := lit ".claude/*.local.*".
Definition gitignore_comment : jsstring := lit "# Gmail skill tokens (per-project auth)".

(** What a call leaves behind: the file system, the rejection if the
    promise rejects, and the lines written to the error stream. *)
Record gitignore_run := mkGitignoreRun {
  disk_after : disk;
  rejection : option error;
  stderr_lines : list jsstring
}.

(** The [catch] block, entered with the error [err] of the read or of the
    write inside [try]. *)
Definition ensureGitignore_catch (d : disk) (gitignorePath : jsstring) (err : error)
    : gitignore_run :=
  let code := match err with FsError c _ => Some c | ApiError _ => None end in
  if is_string "ENOENT" code then
    match fs_writeFile d gitignorePath
            (Buffer_from (gitignore_comment ++ [LF] ++ gitignore_pattern ++ [LF])) with
    | inr d' =>
        mkGitignoreRun d' None
          [[10003] ++ lit " Created .gitignore with " ++ gitignore_pattern]
    | inl e => mkGitignoreRun d (Some e) []
    end
  else mkGitignoreRun d (Some err) [].

(** [gitignorePath] is the value of [path.join(process.cwd(), ".gitignore")]. *)
Definition ensureGitignore (d : disk) (gitignorePath : jsstring) : gitignore_run :=
  match disk_files d gitignorePath with
  | Code c => ensureGitignore_catch d gitignorePath (FsError c (Some gitignorePath))
  | Bytes b =>
      let content := toString_utf8 b in
      if includes gitignore_pattern content then mkGitignoreRun d None []
      else
        let newContent :=
          if endsWith_LF content
          then content ++ [LF] ++ gitignore_comment ++ [LF] ++ gitignore_pattern ++ [LF]
          else content ++ [LF; LF] ++ gitignore_comment ++ [LF] ++ gitignore_pattern ++ [LF] in
        match fs_writeFile d gitignorePath (Buffer_from newContent) with
        | inr d' =>
            mkGitignoreRun d' None
              [[10003] ++ lit " Added " ++ gitignore_pattern ++ lit " to .gitignore"]
        | inl e => ensureGitignore_catch d gitignorePath e
        end
  end.

(** ** The brand templates: [getLatestBrandVersion] *)

(** [/^\d+\.\d+\.\d+$/.test(v)]: digits, a dot, digits, a dot, digits,
    each run non-empty, and nothing else. *)
Definition is_semver (v : jsstring) : bool :=
  let a := takeWhile is_digit v in
  match a, skipn (length a) v with
  | _ :: _, d1 :: r1 =>
      (d1 =? 46)
      && (let b := takeWhile is_digit r1 in
          match b, skipn (length b) r1 with
          | _ :: _, d2 :: r2 => (d2 =? 46) && negb (is_empty r2) && forallb is_digit r2
          | _, _ => false
          end)
  | _, _ => false
  end.

(** The number a string of decimal digits writes. *)
Definition digits_value (s : jsstring) : N :=
  fold_left (fun acc c => acc * 10 + (c - 48)) s 0.

(** The Number value of a natural number: the number itself below 2^53;
    from there on its 53 leading bits, rounded to nearest, ties to even.
    What rounds to 2^1024 or more is [Infinity]; 2^1024 stands for it, so
    that the difference of two of them is zero where the code has the
    [NaN] of [Infinity - Infinity], which [||] takes as it takes zero and
    the sort takes as no order. *)
Definition to_double (n : N) : N :=
  if n <? 2 ^ 53 then n
  else
    let e := N.log2 n - 52 in
    let q := n / 2 ^ e in
    let r := n mod 2 ^ e in
    let half := 2 ^ (e - 1) in
    let q' := if r <? half then q
              else if half <? r then q + 1
              else if N.even q then q else q + 1 in
    N.min (q' * 2 ^ e) (2 ^ 1024).

(** [Number(s)] for a string of decimal digits. *)
Definition Number_of_digits (s : jsstring) : N := to_double (digits_value s).

(** [const [maj, min, pat] = v.split(".").map(Number)]. *)
Definition version_numbers (v : jsstring) : N * N * N :=
  let parts := map Number_of_digits (split 46 v) in
  (nth 0 parts 0, nth 1 parts 0, nth 2 parts 0).

(** The comparator of the sort: the first difference that is not zero, the
    last one otherwise.  The differences are those of the Number values,
    kept exact: the sort looks at their signs only, which the rounding of
    a difference keeps. *)
Definition compare_versions (a b : jsstring) : Z :=
  let '(aMaj, aMin, aPat) := version_numbers a in
  let '(bMaj, bMin, bPat) := version_numbers b in
  let dMaj := (Z.of_N bMaj - Z.of_N aMaj)%Z in
  let dMin := (Z.of_N bMin - Z.of_N aMin)%Z in
  if negb (dMaj =? 0)%Z then dMaj
  else if negb (dMin =? 0)%Z then dMin
  else (Z.of_N bPat - Z.of_N aPat)%Z.

(** [arr.sort(cmp)]: the sort is stable, and for a comparator that is an
    ordering its result is the one of a stable insertion sort: an element
    goes before the first one it does not come after. *)
Fixpoint insert_by (cmp : jsstring -> jsstring -> Z) (x : jsstring) (l : list jsstring)
    : list jsstring :=
  match l with
  | [] => [x]
  | y :: rest => if (cmp x y <=? 0)%Z then x :: l else y :: insert_by cmp x rest
  end.

Fixpoint sort_by (cmp : jsstring -> jsstring -> Z) (l : list jsstring) : list jsstring :=
  match l with
  | [] => []
  | x :: rest => insert_by cmp x (sort_by cmp rest)
  end.

(** [brandBase] is the value of the first [path.join], a normalized path
    that ends in the directory name [focus-ai-brand]; joining it with a
    version and [templates] puts a slash between them.  [listing] is what
    [readdirSync(brandBase)] returns, [None] when it throws.  The result
    is the message of the [Error] thrown, or the path returned. *)
Definition getLatestBrandVersion (brandBase : jsstring) (listing : option (list jsstring))
    : jsstring + jsstring :=
  match listing with
  | None => inl (lit "focus-ai-brand plugin not found")
  | Some names =>
      match sort_by compare_versions (filter is_semver names) with
      | [] => inl (lit "focus-ai-brand plugin not found")
      | v :: _ => inr (brandBase ++ lit "/" ++ v ++ lit "/templates")
      end
  end.

(** ** Helpers of the further proofs *)

(** The code units of a JavaScript string are 16-bit numbers. *)
Definition code_units (s : jsstring) : bool := forallb (fun c => c <? 65536) s.

(** [String.prototype.toWellFormed]: every lone surrogate is replaced by
    U+FFFD, pairs are kept. *)
Fixpoint toWellFormed (s : jsstring) : jsstring :=
  match s with
  | [] => []
  | c :: rest =>
      if is_high c then
        match rest with
        | d :: rest' =>
            if is_low d then c :: d :: toWellFormed rest'
            else 65533 :: toWellFormed rest
        | [] => [65533]
        end
      else if is_low c then 65533 :: toWellFormed rest
      else c :: toWellFormed rest
  end.

(** A part and all the parts below it. *)
Fixpoint all_parts (p : MessagePart) : list MessagePart :=
  p :: match p with
       | mkMessagePart _ _ (Some ps) => flat_map all_parts ps
       | mkMessagePart _ _ None => []
       end.

(** One round of the loop of [extractBody] over [payload.parts]. *)
Definition part_step (acc : ExtractedBody) (part : MessagePart) : ExtractedBody :=
  match part with
  | mkMessagePart pmt pdata pparts =>
      if is_string "text/plain" pmt && truthy pdata then
        mkExtractedBody (decodeBase64Url (string_of pdata)) (body_html acc)
      else if is_string "text/html" pmt && truthy pdata then
        mkExtractedBody (body_text acc) (Some (decodeBase64Url (string_of pdata)))
      else
        match pparts with
        | Some _ =>
            let nested := extractBody_part part in
            mkExtractedBody
              (if is_empty (body_text nested) then body_text acc else body_text nested)
              (if truthy (body_html nested) then body_html nested else body_html acc)
        | None => acc
        end
  end.

(** A part the loop passes over: it has no parts of its own and is not a
    text/plain or text/html part with data. *)
Definition passed_over (part : MessagePart) : bool :=
  match part with
  | mkMessagePart pmt pdata None =>
      negb ((is_string "text/plain" pmt || is_string "text/html" pmt) && truthy pdata)
  | mkMessagePart _ _ (Some _) => false
  end.

(** A leaf of the given type whose data is the encoding of a text, as
    [createRawMessage] encodes the whole message. *)
Definition text_part (type : string) (text : jsstring) : MessagePart :=
  mkMessagePart (Some (lit type)) (Some (base64url (Buffer_from text))) None.
Arguments text_part type%_string text.

(** The parts of an optional payload. *)
Definition payload_parts (payload : option MessagePart) : list MessagePart :=
  match payload with
  | Some p => all_parts p
  | None => []
  end.

(** Where a result of [extractBody] comes from: a part with data among
    [root], of type text/html for [html], of another type for [text]. *)
Definition html_source (root : list MessagePart) (h : jsstring) : Prop :=
  exists data parts,
    In (mkMessagePart (Some (lit "text/html")) data parts) root
    /\ truthy data = true /\ h = decodeBase64Url (string_of data).

Definition text_source (root : list MessagePart) (t : jsstring) : Prop :=
  exists mt data parts,
    In (mkMessagePart mt data parts) root
    /\ is_string "text/html" mt = false
    /\ truthy data = true /\ t = decodeBase64Url (string_of data).

(** The text before the first occurrence of a needle, and the text after
    it. *)
Definition before_first (needle s : jsstring) : jsstring :=
  match indexOf needle s with
  | Some n => firstn n s
  | None => s
  end.

Definition after_first (needle s : jsstring) : jsstring :=
  match indexOf needle s with
  | Some n => skipn (n + length needle) s
  | None => []
  end.

(** A replacement text that stands for itself: no dollar sign in it is
    followed by a dollar sign, an ampersand, a backtick or an
    apostrophe. *)
Fixpoint literal_replacement (t : jsstring) : bool :=
  match t with
  | [] => true
  | c :: r =>
      negb ((c =? 36)
            && match r with
               | d :: _ => (d =? 36) || (d =? 38) || (d =? 96) || (d =? 39)
               | [] => false
               end)
      && literal_replacement r
  end.

(** The two placeholders of a template and what surrounds them. *)
Record template_pieces := mkPieces {
  head_piece : jsstring; middle_piece : jsstring; tail_piece : jsstring
}.

Definition pieces_of (template : jsstring) : template_pieces :=
  let rest := after_first (lit "{{TITLE}}") template in
  mkPieces (before_first (lit "{{TITLE}}") template)
           (before_first (lit "{{CONTENT}}") rest)
           (after_first (lit "{{CONTENT}}") rest).

(** What a proof about one of the two templates needs: each placeholder
    occurs, a closing tag follows the title, and no brace comes before the
    second placeholder.  All of it is checked by evaluation. *)
Definition template_ok (template : jsstring) : bool :=
  let p := pieces_of template in
  eqb_str template
    (head_piece p ++ lit "{{TITLE}}" ++ middle_piece p ++ lit "{{CONTENT}}" ++ tail_piece p)
  && negb (existsb (N.eqb 123) (head_piece p))
  && prefixb (lit "<") (middle_piece p)
  && negb (existsb (N.eqb 123) (middle_piece p))
  && match indexOf (lit "{{TITLE}}") template with
     | Some n => (n =? length (head_piece p))%nat
     | None => false
     end.

(** The three numbers a version writes, and versions compared by them
    from the left. *)
Definition version_values (v : jsstring) : N * N * N :=
  let parts := map digits_value (split 46 v) in
  (nth 0 parts 0, nth 1 parts 0, nth 2 parts 0).

Definition version_le (a b : jsstring) : Prop :=
  let '(aMaj, aMin, aPat) := version_values a in
  let '(bMaj, bMin, bPat) := version_values b in
  aMaj < bMaj \/ (aMaj = bMaj /\ (aMin < bMin \/ (aMin = bMin /\ aPat <= bPat))).

(** The three numbers of a version are below 2^53: they are Number values
    as they stand. *)
Definition safe_version (v : jsstring) : Prop :=
  let '(maj, min, pat) := version_values v in
  maj < 9007199254740992 /\ min < 9007199254740992 /\ pat < 9007199254740992.

Definition sourced (root : list MessagePart) (b : ExtractedBody) : Prop :=
  (forall h, body_html b = Some h -> html_source root h)
  /\ (body_text b <> [] -> text_source root (body_text b)).

(** A text that does not start with a low surrogate is encoded, and made
    well formed, on its own. *)
Definition starts_clean (t : jsstring) : bool :=
  match t with
  | [] => true
  | c :: _ => negb (is_low c)
  end.

(** The text appended to a file that lacks the pattern, and the text of a
    file created anew. *)
Definition gitignore_suffix (ends_with_LF : bool) : jsstring :=
  (if ends_with_LF then [LF] else [LF; LF])
  ++ gitignore_comment ++ [LF] ++ gitignore_pattern ++ [LF].

Definition gitignore_fresh : jsstring :=
  gitignore_comment ++ [LF] ++ gitignore_pattern ++ [LF].

(** Text that the inline passes and the pass for code blocks leave alone:
    no backtick, no star, no opening bracket, no line terminator. *)
Definition inline_char (c : char) : bool :=
  negb ((c =? 96) || (c =? 42) || (c =? 91)) && negb (is_lt c).

Definition inline_text (t : jsstring) : bool := forallb inline_char t.

(** A first code unit that starts no table line, heading, rule, quote or
    list item. *)
Definition plain_head (c : char) : bool :=
  negb ((c =? 124) || (c =? 35) || (c =? 45) || (c =? 62) || is_digit c).

(** A line of loose text: inline text that is not blank, starts none of
    the block patterns and is not taken for a block element by the
    paragraph loop. *)
Definition loose_line (l : jsstring) : bool :=
  inline_text l
  && match l with c :: _ => plain_head c | [] => false end
  && nonblank l
  && negb (isBlockElement (trim l)).

(** The lines of a document made of paragraphs, an empty line between
    two paragraphs. *)
Fixpoint paragraph_lines (ps : list (list jsstring)) : list jsstring :=
  match ps with
  | [] => []
  | p :: rest =>
      match rest with
      | [] => p
      | _ :: _ => p ++ [] :: paragraph_lines rest
      end
  end.

(** The element the paragraph loop makes of the lines of a paragraph. *)
Definition paragraph_element (st : styles.t) (p : list jsstring) : jsstring :=
  otag "p" (styles.p st) ++ join [LF] p ++ [LF] ++ lit "</p>".

(** The occurrences of a needle in the lines of a list. *)
Fixpoint count_lines (needle : jsstring) (lines : list jsstring) : nat :=
  match lines with
  | [] => O
  | l :: rest => (count needle l + count_lines needle rest)%nat
  end.

(** Every position of [s] at which a line starts has a rest that
    satisfies [Q]. *)
Fixpoint starts_ok (Q : jsstring -> bool) (bol : bool) (s : jsstring) : bool :=
  match s with
  | [] => true
  | c :: rest => (if bol then Q s else true) && starts_ok Q (is_lt c) rest
  end.

(** The passes of [render_body] after the headings: the inline ones, and
    the rule, the quotes, the lists and the paragraphs. *)
Definition inline_passes (st : styles.t) (html : jsstring) : jsstring :=
  let html := replace_g (bold_matcher st) html in
  let html := replace_g (italic_matcher st) html in
  let html := replace_g (link_matcher st) html in
  replace_g (code_matcher st) html.

Definition block_passes (st : styles.t) (html : jsstring) : jsstring :=
  let html := replace_g (hr_matcher st) html in
  let html := replace_g (blockquote_matcher st) html in
  let html := replace_g (ul_matcher st) html in
  let html := replace_g (ol_matcher st) html in
  wrap_paragraphs st html.

Definition heading_passes (st : styles.t) (html : jsstring) : jsstring :=
  let html := replace_g (heading_matcher (lit "#### ") "h4" (styles.h4 st)) html in
  let html := replace_g (heading_matcher (lit "### ") "h3" (styles.h3 st)) html in
  let html := replace_g (heading_matcher (lit "## ") "h2" (styles.h2 st)) html in
  replace_g (heading_matcher (lit "# ") "h1" (styles.h1 st)) html.

Definition first_passes (st : styles.t) (md : jsstring) : jsstring :=
  replace_g (table_matcher st) (replace_g (codeblock_matcher st) md).

(** A line the paragraph loop takes for a block element: it starts with an
    opening angle bracket, ends with a closing one and passes the test. *)
Definition block_line (l : jsstring) : bool :=
  match l with
  | c :: rest => (c =? 60) && (last rest 0 =? 62) && negb (is_empty rest) && isBlockElement l
  | [] => false
  end.

(** The first code unit of a text, if there is one, satisfies [P]. *)
Definition head_is (P : char -> bool) (s : jsstring) : bool :=
  match s with
  | c :: _ => P c
  | [] => true
  end.

(** The lines the paragraph loop makes of the lines of a paragraph. *)
Definition wrapped_lines (st : styles.t) (p : list jsstring) : list jsstring :=
  (otag "p" (styles.p st) ++ hd [] p) :: tl p ++ [lit "</p>"].

(** A line that the passes before the paragraph loop leave alone: inline
    text without a line terminator whose first code unit, if there is one,
    starts no block pattern. *)
Definition passive_line (l : jsstring) : Prop :=
  inline_text l = true /\ no_lt l = true /\ head_is plain_head l = true.

(** ** Documents made of blocks

    A heading of one of the four levels the renderer knows, a rule, a
    paragraph, a bullet list, a numbered list (each item with the digits
    before its dot). *)
Inductive heading_level := H1 | H2 | H3 | H4.

Inductive block :=
| Heading (level : heading_level) (title : jsstring)
| Rule
| Paragraph (lines : list jsstring)
| Bullets (items : list jsstring)
| Numbered (items : list (jsstring * jsstring)).

Definition marker_of (level : heading_level) : jsstring :=
  match level with
  | H1 => lit "# "
  | H2 => lit "## "
  | H3 => lit "### "
  | H4 => lit "#### "
  end.

Definition tag_of (level : heading_level) : string :=
  match level with
  | H1 => "h1"
  | H2 => "h2"
  | H3 => "h3"
  | H4 => "h4"
  end.

Definition attr_of (st : styles.t) (level : heading_level) : jsstring :=
  match level with
  | H1 => styles.h1 st
  | H2 => styles.h2 st
  | H3 => styles.h3 st
  | H4 => styles.h4 st
  end.

Definition bullet_line (item : jsstring) : jsstring := lit "- " ++ item.

Definition numbered_line (it : jsstring * jsstring) : jsstring :=
  fst it ++ lit ". " ++ snd it.

(** The Markdown lines of a block, and its source. *)
Definition block_lines (b : block) : list jsstring :=
  match b with
  | Heading level title => [marker_of level ++ title]
  | Rule => [lit "---"]
  | Paragraph lines => lines
  | Bullets items => map bullet_line items
  | Numbered items => map numbered_line items
  end.

Definition block_source (b : block) : jsstring := join [LF] (block_lines b).

(** The text of a title or of an item: inline text, not empty. *)
Definition item_text (t : jsstring) : bool := inline_text t && negb (is_empty t).

Definition number_ok (n : jsstring) : bool := forallb is_digit n && negb (is_empty n).

Definition nonempty_list (A : Type) (l : list A) : bool :=
  match l with
  | [] => false
  | _ :: _ => true
  end.

Definition block_ok (b : block) : bool :=
  match b with
  | Heading _ title => item_text title
  | Rule => true
  | Paragraph lines => nonempty_list lines && forallb loose_line lines
  | Bullets items => nonempty_list items && forallb item_text items
  | Numbered items =>
      nonempty_list items
      && forallb (fun it => number_ok (fst it) && item_text (snd it)) items
  end.

(** The element of a block. *)
Definition heading_element (st : styles.t) (level : heading_level) (title : jsstring)
    : jsstring :=
  otag (tag_of level) (attr_of st level) ++ title ++ lit "</" ++ lit (tag_of level) ++ lit ">".

Definition item_element (st : styles.t) (item : jsstring) : jsstring :=
  otag "li" (styles.li st) ++ item ++ lit "</li>".

Definition list_lines (tag : string) (attr : jsstring) (st : styles.t)
    (items : list jsstring) : list jsstring :=
  otag tag attr :: map (item_element st) items ++ [lit "</" ++ lit tag ++ lit ">"].

Definition list_element (tag : string) (attr : jsstring) (st : styles.t)
    (items : list jsstring) : jsstring :=
  otag tag attr ++ [LF] ++ join [LF] (map (item_element st) items) ++ [LF]
  ++ lit "</" ++ lit tag ++ lit ">".

Definition block_element (st : styles.t) (b : block) : jsstring :=
  match b with
  | Heading level title => heading_element st level title
  | Rule => otag "hr" (styles.hr st)
  | Paragraph lines => paragraph_element st lines
  | Bullets items => list_element "ul" (styles.ul st) st items
  | Numbered items => list_element "ol" (styles.ol st) st (map snd items)
  end.

(** What separates the element of a block from the next one: the pass for
    a list takes the LF that ends its last line. *)
Definition block_gap (b : block) : jsstring :=
  match b with
  | Bullets _ | Numbered _ => [LF]
  | _ => [LF; LF]
  end.

Fixpoint blocks_html (st : styles.t) (bs : list block) : jsstring :=
  match bs with
  | [] => []
  | b :: rest =>
      match rest with
      | [] => block_element st b
      | _ :: _ => block_element st b ++ block_gap b ++ blocks_html st rest
      end
  end.

(** The lines of a document of blocks at a stage of the rendering:
    [lines_of] gives the lines of a block, [gap] the empty lines after a
    block that is not the last. *)
Fixpoint doc_lines (lines_of gap : block -> list jsstring) (bs : list block)
    : list jsstring :=
  match bs with
  | [] => []
  | b :: rest =>
      match rest with
      | [] => lines_of b
      | _ :: _ => lines_of b ++ gap b ++ doc_lines lines_of gap rest
      end
  end.

Definition one_blank (b : block) : list jsstring := [[]].

Definition level_eqb (a b : heading_level) : bool :=
  match a, b with
  | H1, H1 | H2, H2 | H3, H3 | H4, H4 => true
  | _, _ => false
  end.

(** The lines of a block once the headings of the levels in [done] are
    converted. *)
Definition lines_with (done : heading_level -> bool) (st : styles.t) (b : block)
    : list jsstring :=
  match b with
  | Heading level title =>
      if done level then [heading_element st level title] else [marker_of level ++ title]
  | _ => block_lines b
  end.

(** The lines of a block after the passes for headings and rules, after
    the pass for bullet lists, after the pass for numbered lists, and at
    the end. *)
Definition lines_after_rules (st : styles.t) (b : block) : list jsstring :=
  match b with
  | Heading level title => [heading_element st level title]
  | Rule => [otag "hr" (styles.hr st)]
  | _ => block_lines b
  end.

Definition lines_after_bullets (st : styles.t) (b : block) : list jsstring :=
  match b with
  | Bullets items => list_lines "ul" (styles.ul st) st items
  | _ => lines_after_rules st b
  end.

Definition lines_after_numbered (st : styles.t) (b : block) : list jsstring :=
  match b with
  | Numbered items => list_lines "ol" (styles.ol st) st (map snd items)
  | _ => lines_after_bullets st b
  end.

Definition block_html_lines (st : styles.t) (b : block) : list jsstring :=
  match b with
  | Paragraph lines => wrapped_lines st lines
  | _ => lines_after_numbered st b
  end.

Definition is_bullets (b : block) : bool :=
  match b with
  | Bullets _ => true
  | _ => false
  end.

Definition is_numbered (b : block) : bool :=
  match b with
  | Numbered _ => true
  | _ => false
  end.

Definition gap_after_bullets (b : block) : list jsstring :=
  if is_bullets b then [] else [[]].

Definition gap_after_lists (b : block) : list jsstring :=
  if is_bullets b || is_numbered b then [] else [[]].

(** The line a pass for a one-line pattern makes of a line. *)
Definition line_pass (valid : jsstring -> bool) (callback : jsstring -> jsstring)
    (l : jsstring) : jsstring :=
  if valid l then callback l else l.

Definition heading_callback (marker : jsstring) (tag : string) (attr : jsstring)
    (l : jsstring) : jsstring :=
  otag tag attr ++ skipn (length marker) l ++ lit "</" ++ lit tag ++ lit ">".

(** A line the paragraph loop copies: not blank, a block element. *)
Definition copied_line (l : jsstring) : bool :=
  negb (is_empty (trim l)) && isBlockElement (trim l).

(** What the pass for the headings of one level, and the pass for rules,
    make of a line. *)
Definition heading_pass (st : styles.t) (k : heading_level) : jsstring -> jsstring :=
  line_pass (valid_heading (marker_of k))
    (heading_callback (marker_of k) (tag_of k) (attr_of st k)).

Definition rule_pass (st : styles.t) : jsstring -> jsstring :=
  line_pass (eqb_str (lit "---")) (fun _ => otag "hr" (styles.hr st)).

(** What is asked of a predicate on first code units, by the kind of the
    block: the three propositions are for a heading, a rule and a bullet
    list. *)
Definition head_cases (p35 p45 p60 : Prop) (P : char -> bool) (b : block) : Prop :=
  match b with
  | Heading _ _ => p35
  | Rule => p45
  | Bullets _ => p60
  | Paragraph _ => forall c, plain_head c = true -> P c = true
  | Numbered _ => forall c, is_digit c = true -> P c = true
  end.

(** ** The command [send-md] of [main]

    The branch of [main] for [send-md], given the text read from the
    Markdown file and the client: the check of the flags [to] and [file]
    (the message handed to [fail] is the left result), the style, the
    rendering of the Markdown text, the subject, the filled template, and
    the call that ends the branch.  [flags.draft !== undefined] decides
    between a draft and a mail; the Markdown text is the plain body,
    nothing is attached. *)
Definition templateStyle (style_ : option jsstring) : style :=
  if is_string "labs" style_ then labs else client.

Record StyledMail := mkStyledMail { finalSubject : jsstring; finalHtml : jsstring }.

Definition styled_mail (flags : Flags) (markdown : jsstring) : StyledMail :=
  let templateStyle_ := templateStyle (get_flag (lit "style") flags) in
  let rendered_ := markdownToEmailHtml markdown templateStyle_ in
  let template := getEmailTemplate templateStyle_ in
  let subject := get_flag (lit "subject") flags in
  let finalSubject_ := if truthy subject then string_of subject else title_of rendered_ in
  {| finalSubject := finalSubject_;
     finalHtml := applyTemplate template finalSubject_ (html_of rendered_) |}.

Definition send_md_usage : jsstring :=
  lit "Required: --to, --file [--style=client|labs] [--subject=TEXT] [--draft]".

Definition send_md (w : world) (flags : Flags) (markdown : jsstring) (log : list event)
    : jsstring + (outcome (jsstring * jsstring) * list event) :=
  let to := get_flag (lit "to") flags in
  let file := get_flag (lit "file") flags in
  if negb (truthy to) || negb (truthy file) then inl send_md_usage
  else
    let mail := styled_mail flags markdown in
    let plainText := markdown in
    inr (match get_flag (lit "draft") flags with
         | Some _ =>
             createDraft w (string_of to) (finalSubject mail) plainText
               (Some (finalHtml mail)) None None log
         | None =>
             sendMessage w (string_of to) (finalSubject mail) plainText
               (Some (finalHtml mail)) None None log
         end).

(** ** The commands [send] and [draft] of [main]: the lists of files

    [attachment ? attachment.split(",").map(p => p.trim()) : undefined],
    and the array made of the flag [inline]: each item is trimmed and
    split at its colons, the first piece is the path, the second, if there
    is one, the content id. *)
Definition attachmentPaths (attachment : option jsstring) : option (list jsstring) :=
  if truthy attachment then Some (map trim (split 44 (string_of attachment))) else None.

Record InlineFlagItem := mkInlineFlagItem {
  item_path : jsstring;
  item_cid : option jsstring
}.

Definition inlineImages (inlineFlag : option jsstring) : option (list InlineFlagItem) :=
  if truthy inlineFlag then
    Some (map (fun item =>
                 let pieces := split 58 (trim item) in
                 mkInlineFlagItem (hd [] pieces) (nth_error pieces 1))
            (split 44 (string_of inlineFlag)))
  else None.

(** A text without white space at its ends, and a text of white space. *)
Definition trimmed (x : jsstring) : bool :=
  negb (is_ws (hd 0 x)) && negb (is_ws (last x 0)).

Definition blank (x : jsstring) : bool := forallb is_ws x.

(** A text without dollar sign. *)
Definition dollar_free (s : jsstring) : bool := forallb (is_not 36) s.

(** ** Inline markup

    The spans of a line: plain text, bold, italic, a link, inline code. *)
Inductive span :=
| PlainText (t : jsstring)
| BoldText (t : jsstring)
| ItalicText (t : jsstring)
| LinkTo (text url : jsstring)
| CodeText (t : jsstring).

Definition span_source (s : span) : jsstring :=
  match s with
  | PlainText t => t
  | BoldText t => lit "**" ++ t ++ lit "**"
  | ItalicText t => lit "*" ++ t ++ lit "*"
  | LinkTo text url => lit "[" ++ text ++ lit "](" ++ url ++ lit ")"
  | CodeText t => lit "`" ++ t ++ lit "`"
  end.

Definition span_element (st : styles.t) (s : span) : jsstring :=
  match s with
  | PlainText t => t
  | BoldText t => otag "strong" (styles.strong st) ++ t ++ lit "</strong>"
  | ItalicText t => otag "em" (styles.em st) ++ t ++ lit "</em>"
  | LinkTo text url =>
      lit "<a href=" ++ dq ++ url ++ dq ++ lit " " ++ styles.a st ++ lit ">" ++ text
      ++ lit "</a>"
  | CodeText t => otag "code" (styles.code st) ++ t ++ lit "</code>"
  end.

Definition is_markup (s : span) : bool :=
  match s with
  | PlainText _ => false
  | _ => true
  end.

(** The texts of a span are not empty and hold no backtick, star, opening
    bracket or line terminator; the text of a link holds no closing
    bracket, its target no closing parenthesis. *)
Definition span_ok (s : span) : bool :=
  match s with
  | PlainText t | BoldText t | ItalicText t | CodeText t => item_text t
  | LinkTo text url =>
      item_text text && forallb (is_not 93) text
      && item_text url && forallb (is_not 41) url
  end.

(** The spans of a line: every span is well formed, and a span of markup
    is followed by plain text or by the end of the line.  [after_markup]
    says whether the span before is one of markup. *)
Fixpoint spans_ok (after_markup : bool) (l : list span) : bool :=
  match l with
  | [] => true
  | s :: rest =>
      span_ok s
      && (if is_markup s then negb after_markup && spans_ok true rest
          else spans_ok false rest)
  end.

(** The text of a span after [k] of the four inline passes: bold, italic,
    links, code. *)
Definition span_at (k : nat) (st : styles.t) (s : span) : jsstring :=
  let passed :=
    match s with
    | PlainText _ => true
    | BoldText _ => (1 <=? k)%nat
    | ItalicText _ => (2 <=? k)%nat
    | LinkTo _ _ => (3 <=? k)%nat
    | CodeText _ => (4 <=? k)%nat
    end in
  if passed then span_element st s else span_source s.

Definition line_at (k : nat) (st : styles.t) (l : list span) : jsstring :=
  concat (map (span_at k st) l).

(** A line of spans that starts a paragraph: it starts with plain text
    whose first code unit is not white space, starts no block pattern and
    is no opening angle bracket. *)
Definition paragraph_head (c : char) : bool :=
  plain_head c && negb (is_ws c) && negb (c =? 60).

Definition inline_line_ok (l : list span) : bool :=
  match l with
  | PlainText (c :: _) :: _ => paragraph_head c && spans_ok false l
  | _ => false
  end.

(** A matcher that does not look at [bol]. *)
Definition bol_free (m : matcher) : Prop := forall bol s, m bol s = m true s.

(** ** Fenced code

    A fence with its language tag, the lines of the code, the closing
    fence on a line of its own. *)
Definition fenced (lang : jsstring) (lines : list jsstring) : jsstring :=
  fence ++ lang ++ [LF] ++ join [LF] lines ++ [LF] ++ fence.

(** A code unit the escaping of a code block leaves alone. *)
Definition code_char (c : char) : bool := negb (markup_char c) && negb (c =? 38).

(** A line of code that no later pass takes for markup: loose text,
    without white space at its ends, that the escaping leaves alone. *)
Definition code_line (l : jsstring) : bool :=
  loose_line l && trimmed l && forallb code_char l.

(** The lines with a text added to the last of them. *)
Fixpoint app_last (l : list jsstring) (close : jsstring) : list jsstring :=
  match l with
  | [] => []
  | x :: rest =>
      match rest with
      | [] => [x ++ close]
      | _ :: _ => x :: app_last rest close
      end
  end.

(** A line the paragraph loop takes for the text of a paragraph. *)
Definition para_line (l : jsstring) : bool :=
  negb (is_empty (trim l)) && negb (isBlockElement (trim l)).

Definition pre_open (st : styles.t) : jsstring := otag "pre" (styles.pre st) ++ lit "<code>".

Definition pre_close : jsstring := lit "</code></pre>".

(** ** Tables

    A cell as it is written between two pipes: its text, and the white
    space before and after it. *)
Record cell := mkCell { pad_left : jsstring; cell_text : jsstring; pad_right : jsstring }.

Definition cell_source (c : cell) : jsstring := pad_left c ++ cell_text c ++ pad_right c.

(** The line of a row: a pipe, and after every cell a pipe. *)
Definition row_source (r : list cell) : jsstring :=
  pipe :: concat (map (fun c => cell_source c ++ [pipe]) r).

Definition table_source (rows : list (list cell)) : jsstring :=
  join [LF] (map row_source rows).

(** White space that ends no line. *)
Definition pad_ok (a : jsstring) : bool := forallb (fun c => is_ws c && negb (is_lt c)) a.

(** The text of a cell is inline text without pipe and without white
    space at its ends; something stands between the two pipes. *)
Definition cell_ok (c : cell) : bool :=
  pad_ok (pad_left c) && pad_ok (pad_right c)
  && inline_text (cell_text c) && forallb (is_not pipe) (cell_text c) && trimmed (cell_text c)
  && negb (is_empty (cell_source c)).

Definition row_ok (r : list cell) : bool := nonempty_list r && forallb cell_ok r.

(** A row of one cell that holds nothing but hyphens, colons and white
    space. *)
Definition dash_row (r : list cell) : bool :=
  match r with
  | [c] => forallb is_sep_class (cell_text c)
  | _ => false
  end.

(** The element of a table, from the texts of its cells. *)
Definition table_element (st : styles.t) (header : list jsstring) (rows : list (list jsstring))
    : jsstring :=
  otag "table" (styles.table st) ++ lit "<thead><tr>"
    ++ concat (map (fun t => otag "th" (styles.th st) ++ t ++ lit "</th>") header)
    ++ lit "</tr></thead><tbody>"
    ++ concat (map (fun row =>
                      lit "<tr>"
                      ++ concat (map (fun t => otag "td" (styles.td st) ++ t ++ lit "</td>") row)
                      ++ lit "</tr>") rows)
    ++ lit "</tbody></table>".

(** ** Markup inside a fenced block

    The spans of a line with their texts escaped; a span that is no code
    span; a line of spans that can stand in a fenced block: no code span,
    no white space at its ends. *)
Definition escape_span (s : span) : span :=
  match s with
  | PlainText t => PlainText (escape_html t)
  | BoldText t => BoldText (escape_html t)
  | ItalicText t => ItalicText (escape_html t)
  | LinkTo text url => LinkTo (escape_html text) (escape_html url)
  | CodeText t => CodeText (escape_html t)
  end.

Definition no_code_span (s : span) : bool :=
  match s with
  | CodeText _ => false
  | _ => true
  end.

Definition code_spans_ok (l : list span) : bool :=
  spans_ok false l && forallb no_code_span l && nonempty_list l
  && trimmed (concat (map span_source l)).

(** * Proofs *)

(** Division and remainder by constants, for [lia]. *)
Ltac Zify.zify_post_hook ::= Z.to_euclidean_division_equations.

(** ** The embedding on known values *)

Example base64_f : toString_base64 (Buffer_from (lit "f")) = lit "Zg==".
Proof. reflexivity. Qed.

Example base64_fo : toString_base64 (Buffer_from (lit "fo")) = lit "Zm8=".
Proof. reflexivity. Qed.

Example base64_foobar : toString_base64 (Buffer_from (lit "foobar")) = lit "Zm9vYmFy".
Proof. reflexivity. Qed.

Example base64url_subst : base64url (Buffer_from (lit "hello?>")) = lit "aGVsbG8_Pg".
Proof. reflexivity. Qed.

Example utf8_two_bytes : Buffer_from [233] = [Byte.xc3; Byte.xa9].
Proof. reflexivity. Qed.

Example utf8_surrogate_pair :
  Buffer_from [55357; 56832] = [Byte.xf0; Byte.x9f; Byte.x98; Byte.x80].
Proof. reflexivity. Qed.

Example dec_now : dec 1700000000123 = lit "1700000000123".
Proof. reflexivity. Qed.

Example mime_type_pdf : getMimeType (lit "/tmp/Report.PDF") = lit "application/pdf".
Proof. reflexivity. Qed.

Example mime_type_unknown : getMimeType (lit "notes") = lit "application/octet-stream".
Proof. reflexivity. Qed.

Example plain_message :
  message 5 (lit "a@b.c") (lit "Hi") (lit "Hello") None None None None
  = lit "MIME-Version: 1.0" ++ nl ++ lit "To: a@b.c" ++ nl ++ lit "Subject: Hi" ++ nl
    ++ lit "Content-Type: text/plain; charset=" ++ dq ++ lit "UTF-8" ++ dq ++ nl
    ++ lit "Hello".
Proof. reflexivity. Qed.

Example alternative_message :
  message 5 (lit "a@b.c") (lit "Hi") (lit "Hello") None (Some (lit "<b>Hello</b>")) None None
  = lit "MIME-Version: 1.0" ++ nl ++ lit "To: a@b.c" ++ nl ++ lit "Subject: Hi" ++ nl
    ++ lit "Content-Type: multipart/alternative; boundary=" ++ dq ++ lit "____alt_5____" ++ dq
    ++ nl ++ nl
    ++ lit "--____alt_5____" ++ nl
    ++ lit "Content-Type: text/plain; charset=" ++ dq ++ lit "UTF-8" ++ dq ++ nl ++ nl
    ++ lit "Hello" ++ nl
    ++ lit "--____alt_5____" ++ nl
    ++ lit "Content-Type: text/html; charset=" ++ dq ++ lit "UTF-8" ++ dq ++ nl ++ nl
    ++ lit "<b>Hello</b>" ++ nl
    ++ lit "--____alt_5____--".
Proof. reflexivity. Qed.

Example render_inline :
  html_of (markdownToEmailHtml (lit "a **b** *c* [d](e) `f`") labs)
  = otag "p" (styles.p (styles_of labs)) ++ lit "a "
    ++ otag "strong" (styles.strong (styles_of labs)) ++ lit "b</strong> "
    ++ otag "em" (styles.em (styles_of labs)) ++ lit "c</em> "
    ++ lit "<a href=" ++ dq ++ lit "e" ++ dq ++ lit " " ++ styles.a (styles_of labs)
    ++ lit ">d</a> "
    ++ otag "code" (styles.code (styles_of labs)) ++ lit "f</code>" ++ [LF] ++ lit "</p>".
Proof. vm_compute. reflexivity. Qed.

Example render_list :
  html_of (markdownToEmailHtml (lit "- a" ++ [LF] ++ lit "- b") client)
  = otag "ul" (styles.ul (styles_of client)) ++ [LF]
    ++ otag "li" (styles.li (styles_of client)) ++ lit "a</li>" ++ [LF]
    ++ otag "li" (styles.li (styles_of client)) ++ lit "b</li>" ++ [LF]
    ++ lit "</ul>".
Proof. vm_compute. reflexivity. Qed.

Example render_heading_crlf :
  html_of (markdownToEmailHtml (lit "## T" ++ [CR; LF] ++ lit "---") client)
  = otag "h2" (styles.h2 (styles_of client)) ++ lit "T</h2>" ++ [CR; LF]
    ++ otag "hr" (styles.hr (styles_of client)).
Proof. vm_compute. reflexivity. Qed.

Example single_column_separator : isSeparator (lit "| --- |") = true.
Proof. reflexivity. Qed.

(** ** Base64 *)

Lemma list_ind3 (A : Type) (P : list A -> Prop) :
  P [] -> (forall a, P [a]) -> (forall a b, P [a; b]) ->
  (forall a b c l, P l -> P (a :: b :: c :: l)) ->
  forall l, P l.
Proof.
  intros H0 H1 H2 H3.
  fix IH 1.
  intros [|a [|b [|c l]]];
    [apply H0 | apply H1 | apply H2 | apply H3; apply IH].
Qed.

Lemma byte_to_N_lt (b : byte) : Byte.to_N b < 256.
Proof. pose proof (Byte.to_N_bounded b). lia. Qed.

Lemma toString_base64_eq (bs : list byte) :
  toString_base64 bs = map b64_char (data_sextets bs) ++ padding bs.
Proof.
  induction bs as [| a | a b | a b c l IH] using list_ind3; try reflexivity.
  cbn [toString_base64 data_sextets padding map app]. now rewrite IH.
Qed.

Ltac bound_bytes :=
  repeat match goal with
         | |- context [Byte.to_N ?x] =>
             let H := fresh in
             pose proof (byte_to_N_lt x) as H;
             generalize dependent (Byte.to_N x); intros
         end.

Lemma data_sextets_lt (bs : list byte) : Forall (fun i => i < 64) (data_sextets bs).
Proof.
  induction bs as [| a | a b | a b c l IH] using list_ind3;
    cbn [data_sextets]; repeat constructor; try assumption;
    bound_bytes; lia.
Qed.

Lemma byte_of_N_eq (n : N) (b : byte) : n mod 256 = Byte.to_N b -> byte_of_N n = b.
Proof. intros H. unfold byte_of_N. rewrite H. now rewrite Byte.of_to_N. Qed.

Lemma bytes_of_data_sextets (bs : list byte) : bytes_of_sextets (data_sextets bs) = bs.
Proof.
  induction bs as [| a | a b | a b c l IH] using list_ind3;
    cbn [data_sextets bytes_of_sextets]; try reflexivity;
    rewrite ?IH;
    repeat (f_equal; try (apply byte_of_N_eq; bound_bytes; lia)).
Qed.

Lemma b64_char_url (i : N) :
  i < 64 ->
  to_url (b64_char i) <> 43 /\ to_url (b64_char i) <> 47 /\ to_url (b64_char i) <> 61
  /\ (of_url (to_url (b64_char i)) =? 61) = false
  /\ b64_index (of_url (to_url (b64_char i))) = Some i.
Proof.
  intros Hi.
  assert (Hall : forallb b64_char_ok (map N.of_nat (seq 0 64)) = true) by (vm_compute; reflexivity).
  rewrite forallb_forall in Hall.
  assert (Hin : In i (map N.of_nat (seq 0 64))).
  { rewrite <- (N2Nat.id i). apply in_map. apply in_seq. lia. }
  specialize (Hall i Hin). unfold b64_char_ok in Hall.
  rewrite !andb_true_iff, !negb_true_iff, !N.eqb_neq in Hall.
  destruct Hall as [[[[H1 H2] H3] H4] H5].
  repeat split; try assumption.
  - now apply N.eqb_neq.
  - destruct (b64_index (of_url (to_url (b64_char i)))); [|discriminate].
    apply N.eqb_eq in H5. now subst.
Qed.

Lemma replace_twice (s : jsstring) :
  replace_char 47 95 (replace_char 43 45 s) = map to_url s.
Proof. unfold replace_char. rewrite map_map. reflexivity. Qed.

Lemma unreplace_twice (s : jsstring) :
  replace_char 95 47 (replace_char 45 43 s) = map of_url s.
Proof. unfold replace_char. rewrite map_map. reflexivity. Qed.

Lemma padding_all_eq (bs : list byte) : forallb (fun x => x =? 61) (map to_url (padding bs)) = true.
Proof. induction bs as [| a | a b | a b c l IH] using list_ind3; auto. Qed.

Lemma strip_trailing_eq_app (body pad : jsstring) :
  ~ In 61 body -> forallb (fun x => x =? 61) pad = true ->
  strip_trailing_eq (body ++ pad) = body.
Proof.
  intros Hb Hp. induction body as [|c body IH]; cbn [app strip_trailing_eq].
  - destruct pad as [|x pad]; [reflexivity|].
    cbn [strip_trailing_eq]. cbn [forallb] in Hp.
    apply andb_true_iff in Hp as [Hx Hp]. now rewrite Hx, Hp.
  - assert (Hc : (c =? 61) = false) by (apply N.eqb_neq; intros ->; apply Hb; now left).
    rewrite Hc. cbn [andb]. f_equal. apply IH. intros H; apply Hb; now right.
Qed.

(** What [base64url] returns: the alphabet code units of the data
    sextets, with the two substitutions applied and no padding. *)
Lemma base64url_eq (bs : list byte) :
  base64url bs = map to_url (map b64_char (data_sextets bs)).
Proof.
  unfold base64url. rewrite replace_twice, toString_base64_eq, map_app.
  apply strip_trailing_eq_app; [|apply padding_all_eq].
  pose proof (data_sextets_lt bs) as Hlt.
  induction Hlt as [|i l Hi _ IH]; cbn [map In]; [tauto|].
  intros [H|H]; [|tauto].
  now destruct (b64_char_url Hi) as (_ & _ & H3 & _).
Qed.

Lemma sextets_of_url (l : list N) :
  Forall (fun i => i < 64) l ->
  sextets (map of_url (map to_url (map b64_char l))) = l.
Proof.
  induction 1 as [|i l Hi _ IH]; cbn [map sextets]; [reflexivity|].
  destruct (b64_char_url Hi) as (_ & _ & _ & H4 & H5).
  now rewrite H4, H5, IH.
Qed.

(** The output of [base64url] has none of the three code units, and
    [decodeBase64Url] gives back the bytes that were encoded. *)
Lemma base64url_roundtrip (bs : list byte) :
  ~ In 43 (base64url bs) /\ ~ In 47 (base64url bs) /\ ~ In 61 (base64url bs)
  /\ decodeBase64Url_bytes (base64url bs) = bs.
Proof.
  rewrite base64url_eq.
  assert (Hnot : forall c, (c = 43 \/ c = 47 \/ c = 61) ->
                           ~ In c (map to_url (map b64_char (data_sextets bs)))).
  { intros c Hc. pose proof (data_sextets_lt bs) as Hlt.
    induction Hlt as [|i l Hi _ IH]; cbn [map In]; [tauto|].
    destruct (b64_char_url Hi) as (H1 & H2 & H3 & _).
    intros [H|H]; [|tauto]. destruct Hc as [->|[->| ->]]; congruence. }
  repeat split; try (apply Hnot; tauto).
  unfold decodeBase64Url_bytes, Buffer_from_base64.
  rewrite unreplace_twice, sextets_of_url by apply data_sextets_lt.
  apply bytes_of_data_sextets.
Qed.

(** ** Counting occurrences *)

Lemma uint_chars_digits (d : Decimal.uint) : forallb is_digit (uint_chars d) = true.
Proof. induction d; cbn [uint_chars forallb]; auto. Qed.

Lemma dec_digits (n : N) : forallb is_digit (dec n) = true.
Proof. apply uint_chars_digits. Qed.

Lemma prefixb_app_same (a p s : jsstring) : prefixb (a ++ p) (a ++ s) = prefixb p s.
Proof. induction a as [|x a IH]; cbn [app prefixb]; [reflexivity|]. now rewrite N.eqb_refl. Qed.

(** A code unit that is not in the needle cuts the text in two: no
    occurrence lies across it. *)
Lemma prefixb_sep (p a b : jsstring) (c : char) :
  existsb (N.eqb c) p = false -> prefixb p (a ++ c :: b) = prefixb p a.
Proof.
  revert a; induction p as [|x p IH]; intros a H; [reflexivity|].
  cbn [existsb] in H. apply orb_false_iff in H as [Hx Hp].
  destruct a as [|y a]; cbn [app prefixb].
  - rewrite N.eqb_sym. now rewrite Hx.
  - now rewrite IH.
Qed.

Lemma count_app_sep (needle a b : jsstring) (c : char) :
  needle <> [] -> existsb (N.eqb c) needle = false ->
  count needle (a ++ c :: b) = (count needle a + count needle b)%nat.
Proof.
  intros Hne Hc. induction a as [|y a IH].
  - cbn [app count]. replace (prefixb needle (c :: b)) with false; [reflexivity|].
    destruct needle as [|x needle]; [congruence|].
    cbn [existsb] in Hc. apply orb_false_iff in Hc as [Hx _].
    cbn [prefixb]. rewrite N.eqb_sym. now rewrite Hx.
  - change ((y :: a) ++ c :: b) with (y :: (a ++ c :: b)).
    cbn [count]. rewrite IH.
    change (y :: (a ++ c :: b)) with ((y :: a) ++ c :: b).
    rewrite prefixb_sep by assumption. lia.
Qed.

(** A stretch of text without the first code unit of the needle starts no
    occurrence. *)
Lemma count_app_nohead (h : char) (needle a b : jsstring) :
  existsb (N.eqb h) a = false ->
  count (h :: needle) (a ++ b) = count (h :: needle) b.
Proof.
  induction a as [|y a IH]; intros H; [reflexivity|].
  cbn [existsb] in H. apply orb_false_iff in H as [Hy Ha].
  cbn [app count prefixb]. rewrite Hy. cbn [andb]. now apply IH.
Qed.

Lemma count_nohead (h : char) (needle a : jsstring) :
  existsb (N.eqb h) a = false -> count (h :: needle) a = 0%nat.
Proof.
  intros H. rewrite <- (app_nil_r a). now rewrite count_app_nohead.
Qed.

(** An occurrence of a longer needle is one of each of its prefixes. *)
Lemma prefixb_app_l (p q s : jsstring) : prefixb (p ++ q) s = true -> prefixb p s = true.
Proof.
  revert s; induction p as [|x p IH]; intros s H; [reflexivity|].
  destruct s as [|y s]; [discriminate|]. cbn [app prefixb] in *.
  apply andb_true_iff in H as [-> H]. now rewrite (IH s).
Qed.

Lemma count_longer (p q s : jsstring) : count p s = 0%nat -> count (p ++ q) s = 0%nat.
Proof.
  induction s as [|y s IH]; [reflexivity|]. cbn [count]. intros H.
  destruct (prefixb p (y :: s)) eqn:E; [discriminate|].
  destruct (prefixb (p ++ q) (y :: s)) eqn:E'.
  - apply prefixb_app_l in E'. congruence.
  - now apply IH.
Qed.

Lemma notin_bchar (needle : jsstring) (c : char) :
  forallb bchar needle = true -> bchar c = false -> existsb (N.eqb c) needle = false.
Proof.
  intros Hn Hc. induction needle as [|x needle IH]; [reflexivity|].
  cbn [forallb existsb] in *. apply andb_true_iff in Hn as [Hx Hn].
  rewrite IH by assumption. rewrite orb_false_r.
  apply N.eqb_neq. intros ->. congruence.
Qed.

Lemma digits_bchar (d : jsstring) : forallb is_digit d = true -> forallb bchar d = true.
Proof.
  induction d as [|x d IH]; [reflexivity|]. cbn [forallb].
  intros H. apply andb_true_iff in H as [Hx Hd]. rewrite IH by assumption.
  unfold bchar. rewrite Hx. now rewrite !orb_true_r.
Qed.

Lemma digits_nohead (h : char) (d : jsstring) :
  forallb is_digit d = true -> is_digit h = false -> existsb (N.eqb h) d = false.
Proof.
  intros Hd Hh. induction d as [|x d IH]; [reflexivity|].
  cbn [forallb existsb] in *. apply andb_true_iff in Hd as [Hx Hd].
  rewrite IH by assumption. rewrite orb_false_r.
  apply N.eqb_neq. intros ->. congruence.
Qed.

Lemma b64_char_text (i : N) : b64_text_char (b64_char i) = true.
Proof.
  unfold b64_text_char, b64_char, is_upper, is_lower, is_digit.
  repeat match goal with
         | |- context [if ?b then _ else _] => destruct b eqn:?
         end;
    rewrite ?N.ltb_lt, ?N.ltb_ge, ?N.eqb_eq, ?N.eqb_neq in *;
    rewrite ?orb_true_iff, ?andb_true_iff, ?N.leb_le, ?N.eqb_eq; lia.
Qed.

Lemma toString_base64_text (bs : list byte) : forallb b64_text_char (toString_base64 bs) = true.
Proof.
  induction bs as [| a | a b | a b c l IH] using list_ind3;
    cbn [toString_base64 forallb]; rewrite ?b64_char_text, ?IH; reflexivity.
Qed.

Lemma match_dot_1_76_text (P : char -> bool) (s : jsstring) :
  forall n cur, forallb P cur = true -> forallb P s = true ->
  Forall (fun piece => forallb P piece = true) (match_dot_1_76 n cur s).
Proof.
  assert (Hrev : forall l, forallb P l = true -> forallb P (rev l) = true).
  { intros l H. rewrite forallb_forall in *. intros x Hx. apply H. now apply in_rev. }
  induction s as [|c s IH]; intros n cur Hcur Hs; cbn [match_dot_1_76].
  - destruct cur; repeat constructor. now apply Hrev.
  - cbn [forallb] in Hs. apply andb_true_iff in Hs as [Hc Hs].
    assert (Hcc : forallb P (c :: cur) = true) by (cbn [forallb]; now rewrite Hc).
    destruct (is_lt c).
    + destruct cur; [now apply IH|]. constructor; [now apply Hrev | now apply IH].
    + destruct n as [|[|k]]; try (constructor; [now apply Hrev | now apply IH]).
      now apply IH.
Qed.

Lemma join_text (P : char -> bool) (sep : jsstring) (l : list jsstring) :
  forallb P sep = true -> Forall (fun piece => forallb P piece = true) l ->
  forallb P (join sep l) = true.
Proof.
  intros Hsep H. induction H as [|x l Hx Hl IH]; [reflexivity|].
  cbn [join]. destruct l as [|y l]; [assumption|].
  rewrite !forallb_app, Hx, Hsep. exact IH.
Qed.

Lemma base64Content_text (buf : list byte) : forallb b64_text_char (base64Content buf) = true.
Proof.
  unfold base64Content. apply join_text; [reflexivity|].
  apply match_dot_1_76_text; [reflexivity | apply toString_base64_text].
Qed.

(** No delimiter starts inside the base64 text of a part. *)
Lemma count_b64_text (h : char) (needle text : jsstring) :
  forallb b64_text_char text = true -> b64_text_char h = false ->
  count (h :: needle) text = 0%nat.
Proof.
  intros H Hh. apply count_nohead.
  induction text as [|x l IH]; [reflexivity|].
  cbn [forallb existsb] in *. apply andb_true_iff in H as [Hx Hl].
  rewrite IH by assumption. rewrite orb_false_r.
  apply N.eqb_neq. intros ->. congruence.
Qed.

(** ** The shapes of the envelope *)

Ltac flatten := repeat (progress (rewrite <- ?app_assoc; simpl)).

Lemma join_map_sep (A : Type) (f : A -> jsstring) (sep : jsstring) (l : list A) :
  l <> [] -> join sep (map f l) ++ sep = concat (map (fun x => f x ++ sep) l).
Proof.
  induction l as [|x l IH]; [congruence|]. intros _.
  cbn [map join concat]. destruct l as [|y l].
  - cbn [map concat]. now rewrite app_nil_r.
  - rewrite <- IH by discriminate. cbn [map]. now rewrite <- !app_assoc.
Qed.

Lemma headers_eq (to subject : jsstring) (from : option jsstring) (ct : jsstring) :
  ct <> [] -> headers to subject from ct = envelope_headers to subject from ++ nl ++ ct.
Proof.
  intros Hct. unfold headers, envelope_headers.
  destruct ct as [|c ct]; [congruence|].
  destruct (truthy from); flatten; reflexivity.
Qed.

Lemma attachmentPart_eq (ts : N) (att : Attachment) :
  attachmentPart ts att = lit "--" ++ mixedBoundary ts ++ nl ++ render_part (attachment_leaf att).
Proof. unfold attachmentPart, attachment_leaf. cbn [render_part join]. flatten. reflexivity. Qed.

Lemma inlinePart_eq (ts : N) (img : Attachment) :
  inlinePart ts img = lit "--" ++ relatedBoundary ts ++ nl ++ render_part (inline_leaf img).
Proof. unfold inlinePart, inline_leaf. cbn [render_part join]. flatten. reflexivity. Qed.

Lemma attachmentParts_eq (ts : N) (atts : option (list Attachment)) (rest : jsstring) :
  hasAttachments atts = true ->
  attachmentParts ts atts ++ nl ++ rest =
  concat (map (fun q => lit "--" ++ mixedBoundary ts ++ nl ++ render_part q ++ nl)
              (map attachment_leaf (array_of atts))) ++ rest.
Proof.
  intros H. unfold attachmentParts. rewrite app_assoc. f_equal.
  rewrite join_map_sep.
  - rewrite map_map. f_equal. apply map_ext. intros att.
    rewrite attachmentPart_eq. now rewrite <- !app_assoc.
  - destruct atts as [[|x l]|]; discriminate.
Qed.

Lemma inlineParts_eq (ts : N) (imgs : option (list Attachment)) (rest : jsstring) :
  hasInlineImages imgs = true ->
  inlineParts ts imgs ++ nl ++ rest =
  concat (map (fun q => lit "--" ++ relatedBoundary ts ++ nl ++ render_part q ++ nl)
              (map inline_leaf (array_of imgs))) ++ rest.
Proof.
  intros H. unfold inlineParts. rewrite app_assoc. f_equal.
  rewrite join_map_sep.
  - rewrite map_map. f_equal. apply map_ext. intros img.
    rewrite inlinePart_eq. now rewrite <- !app_assoc.
  - destruct imgs as [[|x l]|]; discriminate.
Qed.

Ltac shape_eq :=
  rewrite headers_eq by discriminate;
  unfold related_part, alternative_part, html_leaf, text_leaf, htmlPart, textPart, closing;
  cbn [render_part join map concat];
  rewrite <- ?app_assoc;
  rewrite ?inlineParts_eq by assumption;
  rewrite ?attachmentParts_eq by assumption;
  cbn [app];
  rewrite <- ?app_assoc;
  try reflexivity.

(** The text of the plain shape: the header lines, the [Content-Type] line
    and, on the line after it, the body.  The empty string between them and
    an empty body do not pass [filter(Boolean)]. *)
Lemma message_plain (ts : N) (to subject body : jsstring) (from html : option jsstring)
    (attachments inlineImages : option (list Attachment)) :
  select_shape (hasAttachments attachments) (hasHtml html) (hasInlineImages inlineImages) = Plain ->
  message ts to subject body from html attachments inlineImages
  = envelope_headers to subject from ++ nl ++ text_plain
    ++ (if is_empty body then [] else nl ++ body).
Proof.
  unfold message, select_shape.
  destruct (hasAttachments attachments), (hasHtml html), (hasInlineImages inlineImages);
    cbn [andb]; try discriminate; intros _;
    unfold envelope_headers; destruct (truthy from), body; flatten; reflexivity.
Qed.

(** The text of the five multipart shapes: the header lines and the
    serialization of the tree the specification gives for the shape. *)
Lemma message_multipart (ts : N) (to subject body : jsstring) (from html : option jsstring)
    (attachments inlineImages : option (list Attachment)) :
  let sh := select_shape (hasAttachments attachments) (hasHtml html)
              (hasInlineImages inlineImages) in
  sh <> Plain ->
  message ts to subject body from html attachments inlineImages
  = envelope_headers to subject from ++ nl
    ++ render_part (envelope ts body (render_opt html) (array_of attachments)
                      (array_of inlineImages) sh).
Proof.
  intros sh. subst sh. unfold message, select_shape.
  destruct (hasAttachments attachments) eqn:HA, (hasHtml html) eqn:HH,
    (hasInlineImages inlineImages) eqn:HI;
    cbn [andb envelope]; intros Hsh; try congruence; shape_eq.
Qed.

(** ** Delimiters *)

Ltac solve_bchar Hd :=
  simpl; rewrite ?forallb_app; rewrite (digits_bchar _ Hd); reflexivity.

(** Walks a count over a text made of fixed pieces, caller texts and the
    digits of the time stamp. *)
Ltac count_go Hd :=
  repeat first
    [ progress flatten
    | rewrite prefixb_app_same
    | rewrite count_app_sep by
        (first [ discriminate | reflexivity
               | apply notin_bchar; [solve_bchar Hd | reflexivity] ])
    | rewrite count_app_nohead by (apply digits_nohead; [exact Hd | reflexivity]) ].

Lemma free_of_caller_count (needle : jsstring) (texts : list jsstring) :
  free_of needle texts -> caller_count needle texts = 0%nat.
Proof.
  induction 1 as [|t l Ht _ IH]; [reflexivity|].
  cbn [caller_count]. now rewrite Ht, IH.
Qed.

Lemma free_of_longer (p q : jsstring) (texts : list jsstring) :
  free_of p texts -> free_of (p ++ q) texts.
Proof. unfold free_of. apply Forall_impl. intros t. apply count_longer. Qed.

Section MixedAlternative.

Variable ts : N.
Variables to subject body : jsstring.
Variables from html : option jsstring.
Variable att : Attachment.
Variable inlineImages : option (list Attachment).
Hypothesis Hhtml : hasHtml html = true.
Hypothesis Hinline : hasInlineImages inlineImages = false.

(** The texts of the caller that the message of this shape embeds, the
    file name twice. *)
Let texts : list jsstring :=
  [to; from_text from; subject; body; render_opt html; mimeType att; filename att;
   filename att].

Let msg : jsstring := message ts to subject body from html (Some [att]) inlineImages.

Ltac shape2_count :=
  unfold msg, texts, from_text, message, hasAttachments;
  cbn [nonempty_array caller_count]; rewrite Hhtml, Hinline; cbn [andb];
  unfold headers, textPart, htmlPart, attachmentParts, attachmentPart, closing,
    multipart_header, text_plain, text_html, array_of; cbn [map join];
  unfold mixedBoundary, altBoundary;
  pose proof (dec_digits ts) as Hd; generalize dependent (dec ts); intros d Hd;
  pose proof (base64Content_text (content att)) as Hb;
  generalize dependent (base64Content (content att)); intros b64 Hb;
  generalize (render_opt html); intros h;
  destruct (truthy from);
  [ generalize (render_opt from); intros f | ];
  count_go Hd;
  rewrite (@count_b64_text 45 _ b64 Hb eq_refl);
  lia.

Lemma count_mixed_open :
  count (lit "--" ++ mixedBoundary ts) msg
  = (3 + caller_count (lit "--" ++ mixedBoundary ts) texts)%nat.
Proof. shape2_count. Qed.

Lemma count_mixed_close :
  count (lit "--" ++ mixedBoundary ts ++ lit "--") msg
  = (1 + caller_count (lit "--" ++ mixedBoundary ts ++ lit "--") texts)%nat.
Proof. shape2_count. Qed.

Lemma count_alt_open :
  count (lit "--" ++ altBoundary ts) msg
  = (3 + caller_count (lit "--" ++ altBoundary ts) texts)%nat.
Proof. shape2_count. Qed.

Lemma count_alt_close :
  count (lit "--" ++ altBoundary ts ++ lit "--") msg
  = (1 + caller_count (lit "--" ++ altBoundary ts ++ lit "--") texts)%nat.
Proof. shape2_count. Qed.

End MixedAlternative.

Section PlainShape.

Variable ts : N.
Variables to subject body : jsstring.
Variables from html : option jsstring.
Variables attachments inlineImages : option (list Attachment).
Hypothesis Hplain :
  select_shape (hasAttachments attachments) (hasHtml html) (hasInlineImages inlineImages)
  = Plain.

Let texts : list jsstring := [to; from_text from; subject; body].
Let msg : jsstring := message ts to subject body from html attachments inlineImages.

Ltac plain_count :=
  unfold msg, texts; rewrite message_plain by exact Hplain;
  unfold from_text, envelope_headers, text_plain; cbn [caller_count];
  unfold mixedBoundary, altBoundary, relatedBoundary;
  pose proof (dec_digits ts) as Hd; generalize dependent (dec ts); intros d Hd;
  destruct (truthy from);
  [ generalize (render_opt from); intros f | ];
  (destruct body as [|c0 b0];
   [ | cbn [is_empty]; generalize (c0 :: b0); intros body' ]);
  count_go Hd; lia.

Lemma plain_count_multipart : count (lit "multipart/") msg = caller_count (lit "multipart/") texts.
Proof. plain_count. Qed.

Lemma plain_count_mixed : count (mixedBoundary ts) msg = caller_count (mixedBoundary ts) texts.
Proof. plain_count. Qed.

Lemma plain_count_alt : count (altBoundary ts) msg = caller_count (altBoundary ts) texts.
Proof. plain_count. Qed.

Lemma plain_count_related :
  count (relatedBoundary ts) msg = caller_count (relatedBoundary ts) texts.
Proof. plain_count. Qed.

End PlainShape.

(** ** Inline images *)

Lemma occurs_in_refl (s : jsstring) : occurs_in s s.
Proof. exists [], []. now rewrite app_nil_r. Qed.

Lemma occurs_in_count (sub s : jsstring) :
  sub <> [] -> occurs_in sub s -> count sub s <> 0%nat.
Proof.
  intros Hne (pre & post & ->). induction pre as [|c pre IH].
  - destruct sub as [|x sub']; [congruence|]. cbn [app count].
    change (x :: sub' ++ post) with ((x :: sub') ++ post).
    rewrite <- (app_nil_r (x :: sub')) at 1. rewrite prefixb_app_same. cbn [prefixb]. lia.
  - cbn [app count]. lia.
Qed.

Lemma occurs_in_app_l (x a s : jsstring) : occurs_in x s -> occurs_in x (a ++ s).
Proof. intros (pre & post & ->). exists (a ++ pre), post. now rewrite <- app_assoc. Qed.

Lemma occurs_in_app_r (x s b : jsstring) : occurs_in x s -> occurs_in x (s ++ b).
Proof. intros (pre & post & ->). exists pre, (post ++ b). now rewrite <- !app_assoc. Qed.

Lemma occurs_in_join (sep x : jsstring) (l : list jsstring) :
  In x l -> occurs_in x (join sep l).
Proof.
  induction l as [|y l IH]; [contradiction|]. intros [->|H]; cbn [join].
  - destruct l; [apply occurs_in_refl | apply occurs_in_app_r, occurs_in_refl].
  - destruct l as [|z l]; [contradiction|].
    apply occurs_in_app_l, occurs_in_app_l, IH, H.
Qed.

Lemma inlinePart_occurs (ts : N) (to subject body : jsstring) (from html : option jsstring)
    (attachments : option (list Attachment)) (imgs : list Attachment) (img : Attachment) :
  hasHtml html = true -> In img imgs ->
  occurs_in (inlinePart ts img)
    (message ts to subject body from html attachments (Some imgs)).
Proof.
  intros Hh Hin.
  assert (Hparts : occurs_in (inlinePart ts img) (inlineParts ts (Some imgs))).
  { unfold inlineParts. cbn [array_of]. apply occurs_in_join. now apply in_map. }
  assert (Hi : hasInlineImages (Some imgs) = true)
    by (destruct imgs; [contradiction | reflexivity]).
  unfold message. rewrite Hh, Hi.
  destruct (hasAttachments attachments); cbn [andb]; cbn zeta;
    repeat first [ apply occurs_in_app_r; exact Hparts | apply occurs_in_app_l ].
Qed.

(** ** Title *)

Lemma js_lines_cons (s : jsstring) : exists l ls, js_lines s = l :: ls.
Proof.
  destruct s as [|c rest]; cbn [js_lines]; [now eexists; eexists|].
  destruct (is_lt c); [now eexists; eexists|].
  destruct (js_lines rest); now eexists; eexists.
Qed.

Lemma line_of_js_lines (s : jsstring) : line_of s = hd [] (js_lines s).
Proof.
  unfold line_of. induction s as [|c rest IH]; [reflexivity|].
  cbn [takeWhile js_lines]. destruct (is_lt c); [reflexivity|]. cbn [negb].
  destruct (js_lines_cons rest) as (l & ls & E). rewrite E in *. cbn [hd] in *.
  now rewrite IH.
Qed.

Lemma valid_heading_h1 (l : jsstring) : valid_heading (lit "# ") l = is_h1_line l.
Proof.
  unfold valid_heading. change (lit "# ") with [35; 32].
  destruct l as [|x [|y [|z l]]]; cbn [is_h1_line prefixb length];
    rewrite ?(N.eqb_sym 35 x), ?(N.eqb_sym 32 y), ?andb_false_r, ?andb_true_r; reflexivity.
Qed.

(** The scan for the title finds the first heading line: at a line start
    it looks at all the lines from there on, inside a line at those after
    it. *)
Lemma match_title_lines (s : jsstring) :
  match_title true s = first_h1 (js_lines s)
  /\ match_title false s = first_h1 (tl (js_lines s)).
Proof.
  induction s as [|c rest [IHt IHf]]; [split; reflexivity|].
  cbn [match_title]. rewrite valid_heading_h1, line_of_js_lines.
  cbn [js_lines andb]. destruct (is_lt c) eqn:Ec.
  - cbn [hd tl]. unfold first_h1 at 1. cbn [find is_h1_line].
    fold (first_h1 (js_lines rest)). now split.
  - destruct (js_lines_cons rest) as (l & ls & E). rewrite E in *.
    cbn [hd tl] in *. split; [|assumption].
    unfold first_h1 at 1. cbn [find].
    destruct (is_h1_line (c :: l)); [reflexivity|]. exact IHf.
Qed.

(** ** The passes of the renderer *)

Lemma replace_inert (m : matcher) (P : char -> bool) (s : jsstring) :
  inert m P -> forallb P s = true -> forall bol, replace_from m 0 bol s = s.
Proof.
  intros [Hnil Hc]. induction s as [|c rest IH]; intros H bol; cbn [replace_from].
  - now rewrite Hnil.
  - cbn [forallb] in H. apply andb_true_iff in H as [HP Hrest].
    rewrite (Hc bol c rest HP). now rewrite IH.
Qed.

Lemma replace_anchored (m : matcher) (P : char -> bool) (s : jsstring) :
  anchored m -> inert_at_bol m P ->
  forall bol, heads_ok P bol s = true -> replace_from m 0 bol s = s.
Proof.
  intros Ha [Hnil Hc]. induction s as [|c rest IH]; intros bol H; cbn [replace_from].
  - now rewrite Hnil.
  - cbn [heads_ok] in H. apply andb_true_iff in H as [HP Hrest].
    destruct bol.
    + rewrite (Hc c rest HP). now rewrite IH.
    + rewrite Ha. now rewrite IH.
Qed.

Lemma line_run_stuck (valid : jsstring -> bool) (s cur : jsstring) :
  (forall l, valid (rev cur ++ l) = false) -> line_run valid cur s = 0%nat.
Proof.
  revert cur; induction s as [|c rest IH]; intros cur H; cbn [line_run].
  - specialize (H []). rewrite app_nil_r in H. now rewrite H.
  - destruct (is_lt c).
    + specialize (H []). rewrite app_nil_r in H. now rewrite H.
    + apply IH. intros l. cbn [rev]. rewrite <- app_assoc. apply H.
Qed.

Lemma line_run_head (valid : jsstring -> bool) (c : char) (rest : jsstring) :
  valid [] = false -> (forall l, valid (c :: l) = false) ->
  line_run valid [] (c :: rest) = 0%nat.
Proof.
  intros Hnil Hc. cbn [line_run rev]. rewrite Hnil.
  destruct (is_lt c); [reflexivity|]. apply line_run_stuck. exact Hc.
Qed.

Lemma run_matcher_anchored valid cb : anchored (run_matcher valid cb).
Proof. intros s. reflexivity. Qed.

Lemma run_matcher_inert valid cb (P : char -> bool) :
  valid [] = false -> (forall c l, P c = true -> valid (c :: l) = false) ->
  inert (run_matcher valid cb) P.
Proof.
  intros Hnil Hc. split.
  - intros [|]; [|reflexivity]. unfold run_matcher. cbn [line_run rev]. now rewrite Hnil.
  - intros [|] c rest HP; [|reflexivity]. unfold run_matcher.
    rewrite line_run_head; auto.
Qed.

Lemma line_matcher_inert valid cb (P : char -> bool) :
  valid [] = false -> (forall c l, P c = true -> valid (c :: l) = false) ->
  inert (line_matcher valid cb) P.
Proof.
  intros Hnil Hc. split.
  - intros bol. unfold line_matcher, line_of. cbn [takeWhile]. rewrite Hnil.
    now rewrite andb_false_r.
  - intros bol c rest HP. unfold line_matcher, line_of. cbn [takeWhile].
    destruct (negb (is_lt c)); rewrite ?Hnil, ?(Hc c _ HP); now rewrite andb_false_r.
Qed.

Lemma prefixb_head (t c : char) (p s : jsstring) :
  is_not t c = true -> prefixb (t :: p) (c :: s) = false.
Proof.
  unfold is_not. intros H. apply negb_true_iff in H. cbn [prefixb].
  rewrite N.eqb_sym. now rewrite H.
Qed.

Lemma codeblock_inert st : inert (codeblock_matcher st) (is_not 96).
Proof.
  split; [reflexivity|]. intros bol c rest H. unfold codeblock_matcher.
  change fence with (96 :: lit "``"). now rewrite prefixb_head.
Qed.

Lemma table_inert st : inert (table_matcher st) (is_not 124).
Proof.
  apply run_matcher_inert; [reflexivity|]. intros c l H. unfold valid_table_line.
  unfold pipe. rewrite prefixb_head by assumption. now rewrite andb_false_r.
Qed.

Lemma heading_inert marker tag attr : inert (heading_matcher (35 :: marker) tag attr) (is_not 35).
Proof.
  apply line_matcher_inert; [reflexivity|]. intros c l H. unfold valid_heading.
  now rewrite prefixb_head.
Qed.

Lemma hr_inert st : inert (hr_matcher st) (is_not 45).
Proof.
  apply line_matcher_inert; [reflexivity|]. intros c l H.
  change (lit "---") with (45 :: lit "--"). cbn [eqb_str].
  unfold is_not in H. apply negb_true_iff in H. rewrite N.eqb_sym. now rewrite H.
Qed.

Lemma bold_inert st : inert (bold_matcher st) (is_not 42).
Proof.
  split; [reflexivity|]. intros bol c rest H. unfold bold_matcher.
  change (lit "**") with (42 :: lit "*"). now rewrite prefixb_head.
Qed.

Lemma italic_inert st : inert (italic_matcher st) (is_not 42).
Proof.
  split; [reflexivity|]. intros bol c rest H. unfold italic_matcher.
  unfold is_not in H. apply negb_true_iff in H. now rewrite H.
Qed.

Lemma link_inert st : inert (link_matcher st) (is_not 91).
Proof.
  split; [reflexivity|]. intros bol c rest H. unfold link_matcher.
  unfold is_not in H. apply negb_true_iff in H. now rewrite H.
Qed.

Lemma code_inert st : inert (code_matcher st) (is_not 96).
Proof.
  split; [reflexivity|]. intros bol c rest H. unfold code_matcher.
  unfold is_not in H. apply negb_true_iff in H. now rewrite H.
Qed.

Lemma ul_inert st : inert (ul_matcher st) (is_not 45).
Proof.
  apply run_matcher_inert; [reflexivity|]. intros c l H. unfold valid_ul_line, valid_heading.
  change (lit "- ") with (45 :: lit " "). now rewrite prefixb_head.
Qed.

Lemma ol_inert st : inert (ol_matcher st) (fun c => negb (is_digit c)).
Proof.
  apply run_matcher_inert; [reflexivity|]. intros c l H. unfold valid_ol_line.
  cbn [takeWhile]. apply negb_true_iff in H. now rewrite H.
Qed.

Lemma md_char_is_not (t c : char) :
  In t [96; 124; 35; 42; 91; 45] -> md_char c = true -> is_not t c = true.
Proof.
  intros Ht H. unfold is_not. apply negb_true_iff, N.eqb_neq. intros ->.
  cbn [In] in Ht.
  repeat (destruct Ht as [<- | Ht]; [discriminate H|]). contradiction.
Qed.

Lemma forallb_impl (P Q : char -> bool) (s : jsstring) :
  (forall c, P c = true -> Q c = true) -> forallb P s = true -> forallb Q s = true.
Proof.
  intros HPQ. rewrite !forallb_forall. auto.
Qed.

Lemma plain_text_chars (t : jsstring) : plain_text t = true -> forallb plain_char t = true.
Proof. unfold plain_text. now intros [H _]%andb_true_iff. Qed.

Lemma plain_text_trim (t : jsstring) : plain_text t = true -> trim t <> [].
Proof.
  unfold plain_text. intros [_ H]%andb_true_iff. destruct (trim t); [discriminate|congruence].
Qed.

Lemma quote_run_chars (r : list jsstring) :
  Forall (fun t => plain_text t = true) r -> forallb md_char (quote_run r) = true.
Proof.
  intros H. unfold quote_run. apply join_text; [reflexivity|].
  rewrite Forall_map. revert H. apply Forall_impl. intros t Ht.
  change (lit "> ") with [62; 32]. cbn [app forallb]. 
  replace (md_char 62) with true by reflexivity. replace (md_char 32) with true by reflexivity.
  cbn [andb]. apply plain_text_chars in Ht. revert Ht. apply forallb_impl.
  intros c Hc. unfold md_char. now rewrite Hc.
Qed.

Lemma render_body_eq st md :
  render_body st md =
  wrap_paragraphs st
    (replace_g (ol_matcher st) (replace_g (ul_matcher st)
       (replace_g (blockquote_matcher st) (before_quotes st md)))).
Proof. reflexivity. Qed.

Lemma before_quotes_id st md : forallb md_char md = true -> before_quotes st md = md.
Proof.
  intros H. unfold before_quotes, replace_g. cbn zeta.
  assert (Hn : forall t, In t [96; 124; 35; 42; 91; 45] -> forallb (is_not t) md = true).
  { intros t Ht. revert H. apply forallb_impl. intros c. now apply md_char_is_not. }
  rewrite (@replace_inert _ _ md (codeblock_inert st)) by (apply Hn; cbn; tauto).
  rewrite (@replace_inert _ _ md (table_inert st)) by (apply Hn; cbn; tauto).
  change (lit "#### ") with (35 :: lit "### ").
  change (lit "### ") with (35 :: lit "## ").
  change (lit "## ") with (35 :: lit "# ").
  change (lit "# ") with (35 :: lit " ").
  rewrite !(@replace_inert _ _ md (heading_inert _ _ _)) by (apply Hn; cbn; tauto).
  rewrite (@replace_inert _ _ md (bold_inert st)) by (apply Hn; cbn; tauto).
  rewrite (@replace_inert _ _ md (italic_inert st)) by (apply Hn; cbn; tauto).
  rewrite (@replace_inert _ _ md (link_inert st)) by (apply Hn; cbn; tauto).
  rewrite (@replace_inert _ _ md (code_inert st)) by (apply Hn; cbn; tauto).
  rewrite (@replace_inert _ _ md (hr_inert st)) by (apply Hn; cbn; tauto).
  reflexivity.
Qed.

Lemma line_run_line (valid : jsstring -> bool) (l s cur : jsstring) :
  no_lt l = true -> line_run valid cur (l ++ s) = line_run valid (rev l ++ cur) s.
Proof.
  revert cur; induction l as [|c l IH]; intros cur H; [reflexivity|].
  cbn [no_lt forallb] in H. apply andb_true_iff in H as [Hc Hl].
  apply negb_true_iff in Hc. cbn [app line_run]. rewrite Hc.
  rewrite IH by exact Hl. cbn [rev]. now rewrite <- app_assoc.
Qed.

Lemma replace_from_skip (m : matcher) (a rest : jsstring) :
  forall bol, replace_from m (length a) bol (a ++ rest)
              = replace_from m 0 (match a with [] => bol | _ :: _ => is_lt (last a 0) end) rest.
Proof.
  induction a as [|c a IH]; intros bol; [reflexivity|].
  cbn [length app replace_from]. rewrite IH.
  destruct a; reflexivity.
Qed.

Lemma replace_from_match (m : matcher) (a rest out : jsstring) (bol : bool) :
  a <> [] -> m bol (a ++ rest) = Some (length a, out) ->
  replace_from m 0 bol (a ++ rest) = out ++ replace_from m 0 (is_lt (last a 0)) rest.
Proof.
  intros Ha Hm. destruct a as [|c a]; [congruence|].
  cbn [app replace_from]. cbn [app] in Hm. rewrite Hm. cbn [length].
  rewrite replace_from_skip. destruct a; reflexivity.
Qed.

Lemma plain_no_lt (t : jsstring) : forallb plain_char t = true -> no_lt t = true.
Proof.
  apply forallb_impl. intros c H. apply negb_true_iff.
  unfold plain_char, is_upper, is_lower, is_digit in H. unfold is_lt.
  rewrite !orb_true_iff, !andb_true_iff, !N.leb_le, N.eqb_eq in H.
  rewrite !orb_false_iff, !N.eqb_neq. lia.
Qed.

Lemma quote_run_cons (t : jsstring) (r : list jsstring) :
  quote_run (t :: r) = quote_line t ++ match r with [] => [] | _ :: _ => LF :: quote_run r end.
Proof.
  unfold quote_run, quote_line. destruct r; cbn [map join];
    [now rewrite app_nil_r | reflexivity].
Qed.

Lemma quote_line_no_lt (t : jsstring) : plain_text t = true -> no_lt (quote_line t) = true.
Proof.
  intros H. unfold quote_line. change (lit "> ") with [62; 32]. cbn [app no_lt forallb].
  apply plain_no_lt, plain_text_chars, H.
Qed.

Lemma line_run_quote_line (t s : jsstring) :
  plain_text t = true ->
  line_run valid_quote_line [] (quote_line t ++ s)
  = match s with
    | [] => length (quote_line t)
    | c :: rest =>
        if is_lt c
        then Nat.add (length (quote_line t))
               (if c =? 10 then S (line_run valid_quote_line [] rest) else O)
        else line_run valid_quote_line (c :: rev (quote_line t)) rest
    end.
Proof.
  intros H. rewrite line_run_line by now apply quote_line_no_lt.
  rewrite app_nil_r.
  assert (Hv : valid_quote_line (rev (rev (quote_line t))) = true)
    by (rewrite rev_involutive; reflexivity).
  destruct s as [|c rest]; cbn [line_run]; rewrite ?Hv, ?length_rev; reflexivity.
Qed.

(** The run of lines the pattern takes from the start of a quote run: all
    of it, and the LF behind it when a blank line follows. *)
Lemma line_run_quote_run (r : list jsstring) :
  r <> [] -> Forall (fun t => plain_text t = true) r ->
  line_run valid_quote_line [] (quote_run r) = length (quote_run r)
  /\ forall rest,
       line_run valid_quote_line [] (quote_run r ++ LF :: LF :: rest)
       = S (length (quote_run r)).
Proof.
  intros Hne H. induction H as [|t r Ht Hr IH]; [congruence|]. clear Hne.
  rewrite quote_run_cons. destruct r as [|u r].
  - rewrite app_nil_r. split.
    + rewrite <- (app_nil_r (quote_line t)) at 1. now rewrite line_run_quote_line.
    + intros rest. rewrite line_run_quote_line by assumption.
      cbn [is_lt LF N.eqb Pos.eqb orb line_run rev valid_quote_line prefixb]. lia.
  - destruct IH as [IH1 IH2]; [discriminate|]. split.
    + rewrite line_run_quote_line by assumption.
      cbn [is_lt LF N.eqb Pos.eqb orb]. rewrite IH1. rewrite length_app. cbn [length]. lia.
    + intros rest. rewrite <- app_assoc. rewrite line_run_quote_line by assumption.
      cbn [app is_lt LF N.eqb Pos.eqb orb]. rewrite IH2. rewrite length_app. cbn [length]. lia.
Qed.

Lemma split_no_sep (sep : char) (l : jsstring) :
  forallb (is_not sep) l = true -> split sep l = [l].
Proof.
  induction l as [|c l IH]; [reflexivity|]. cbn [forallb split].
  intros [Hc Hl]%andb_true_iff. unfold is_not in Hc. apply negb_true_iff in Hc.
  rewrite Hc, IH by assumption. reflexivity.
Qed.

Lemma split_app_sep (sep : char) (l s : jsstring) :
  forallb (is_not sep) l = true -> split sep (l ++ sep :: s) = l :: split sep s.
Proof.
  induction l as [|c l IH]; cbn [app forallb split].
  - now rewrite N.eqb_refl.
  - intros [Hc Hl]%andb_true_iff. unfold is_not in Hc. apply negb_true_iff in Hc.
    rewrite Hc, IH by assumption. reflexivity.
Qed.

Lemma no_lt_no_LF (l : jsstring) : no_lt l = true -> forallb (is_not LF) l = true.
Proof.
  apply forallb_impl. intros c H. apply negb_true_iff in H. unfold is_lt in H.
  rewrite !orb_false_iff in H. unfold is_not, LF. now rewrite (proj1 (proj1 (proj1 H))).
Qed.

Lemma split_quote_run (r : list jsstring) :
  r <> [] -> Forall (fun t => plain_text t = true) r ->
  split LF (quote_run r) = map quote_line r
  /\ split LF (quote_run r ++ [LF]) = map quote_line r ++ [[]].
Proof.
  intros Hne H. induction H as [|t r Ht Hr IH]; [congruence|]. clear Hne.
  rewrite quote_run_cons.
  pose proof (@no_lt_no_LF _ (@quote_line_no_lt t Ht)) as Hq.
  destruct r as [|u r].
  - rewrite app_nil_r. cbn [map app]. split.
    + now apply split_no_sep.
    + now rewrite split_app_sep.
  - destruct IH as [IH1 IH2]; [discriminate|]. split.
    + rewrite split_app_sep by assumption. now rewrite IH1.
    + rewrite <- app_assoc. cbn [app]. rewrite split_app_sep by assumption.
      now rewrite IH2.
Qed.

Lemma dropWhile_app (f : char -> bool) (y z : jsstring) (c : char) :
  f c = false -> dropWhile f (y ++ c :: z) = dropWhile f y ++ c :: z.
Proof.
  intros Hc. induction y as [|x y IH]; cbn [app dropWhile].
  - now rewrite Hc.
  - destruct (f x); [exact IH | reflexivity].
Qed.

Lemma trim_cons (c : char) (s : jsstring) :
  is_ws c = false -> trim (c :: s) = c :: rev (dropWhile is_ws (rev s)).
Proof.
  intros Hc. unfold trim. cbn [dropWhile]. rewrite Hc. cbn [rev].
  rewrite dropWhile_app by assumption. rewrite rev_app_distr. reflexivity.
Qed.

Lemma nonblank_quote_line (t : jsstring) : nonblank (quote_line t) = true.
Proof.
  unfold nonblank, quote_line. change (lit "> ") with [62; 32]. cbn [app].
  now rewrite trim_cons.
Qed.

Lemma quote_lines_of_run (tail : list jsstring) (r : list jsstring) :
  Forall (fun t => plain_text t = true) r ->
  filter nonblank tail = [] ->
  filter (fun line => negb (is_empty line))
    (map (fun line => trim (strip_quote_marker line))
       (filter nonblank (map quote_line r ++ tail)))
  = map trim r.
Proof.
  intros H Htail. induction H as [|t r Ht Hr IH]; cbn [map app filter].
  - now rewrite Htail.
  - rewrite nonblank_quote_line. cbn [map filter].
    replace (strip_quote_marker (quote_line t)) with t by reflexivity.
    pose proof (@plain_text_trim t Ht) as Hne.
    destruct (trim t) eqn:E; [congruence|]. cbn [is_empty negb]. now rewrite IH.
Qed.

Lemma blockquote_callback_run (st : styles.t) (r : list jsstring) :
  r <> [] -> Forall (fun t => plain_text t = true) r ->
  blockquote_callback st (quote_run r) = blockquote_element st r
  /\ blockquote_callback st (quote_run r ++ [LF]) = blockquote_element st r.
Proof.
  intros Hne H. destruct (@split_quote_run r Hne H) as [S1 S2].
  unfold blockquote_callback. rewrite S1, S2.
  pose proof (@quote_lines_of_run [] r H eq_refl) as L1.
  pose proof (@quote_lines_of_run [[]] r H eq_refl) as L2.
  rewrite app_nil_r in L1. cbn zeta. rewrite L1, L2.
  destruct r as [|t r]; [congruence|]. split; reflexivity.
Qed.

Lemma firstn_length_app (a b : jsstring) : firstn (length a) (a ++ b) = a.
Proof. now rewrite firstn_app, Nat.sub_diag, firstn_all, firstn_O, app_nil_r. Qed.

Lemma last_app_LF (a : jsstring) : last (a ++ [LF]) 0 = LF.
Proof. apply last_last. Qed.

Lemma quote_run_nonempty (r : list jsstring) : r <> [] -> quote_run r <> [].
Proof. destruct r as [|t r]; [congruence|]. intros _. rewrite quote_run_cons. discriminate. Qed.

(** The blockquote pass on one run and on two runs with a blank line
    between them. *)
Lemma blockquote_pass_one (st : styles.t) (r : list jsstring) :
  r <> [] -> Forall (fun t => plain_text t = true) r ->
  replace_g (blockquote_matcher st) (quote_run r) = blockquote_element st r.
Proof.
  intros Hne H. unfold replace_g.
  rewrite <- (app_nil_r (quote_run r)).
  rewrite (@replace_from_match _ (quote_run r) [] (blockquote_element st r)).
  - cbn [replace_from]. unfold blockquote_matcher at 1, run_matcher.
    cbn [line_run rev valid_quote_line prefixb].
    destruct (is_lt _); now rewrite app_nil_r.
  - now apply quote_run_nonempty.
  - rewrite app_nil_r. unfold blockquote_matcher, run_matcher.
    rewrite (proj1 (@line_run_quote_run r Hne H)).
    destruct (length (quote_run r)) eqn:E.
    + apply length_zero_iff_nil in E. now apply quote_run_nonempty in E.
    + rewrite <- E, firstn_all. now rewrite (proj1 (@blockquote_callback_run st r Hne H)).
Qed.

Lemma blockquote_pass_two (st : styles.t) (r1 r2 : list jsstring) :
  r1 <> [] -> r2 <> [] ->
  Forall (fun t => plain_text t = true) r1 -> Forall (fun t => plain_text t = true) r2 ->
  replace_g (blockquote_matcher st) (quote_run r1 ++ [LF; LF] ++ quote_run r2)
  = blockquote_element st r1 ++ [LF] ++ blockquote_element st r2.
Proof.
  intros Hne1 Hne2 H1 H2. unfold replace_g.
  change (quote_run r1 ++ [LF; LF] ++ quote_run r2)
    with (quote_run r1 ++ [LF] ++ (LF :: quote_run r2)).
  rewrite app_assoc.
  rewrite (@replace_from_match _ (quote_run r1 ++ [LF]) (LF :: quote_run r2)
             (blockquote_element st r1)).
  - rewrite last_app_LF. f_equal.
    change (is_lt LF) with true.
    assert (Hlf : forall s, blockquote_matcher st true (LF :: s) = None) by reflexivity.
    cbn [replace_from]. rewrite Hlf. cbn [app]. f_equal.
    change (is_lt LF) with true. apply (@blockquote_pass_one st r2 Hne2 H2).
  - destruct (quote_run r1); discriminate.
  - rewrite <- app_assoc. cbn [app]. unfold blockquote_matcher, run_matcher.
    rewrite (proj2 (@line_run_quote_run r1 Hne1 H1)).
    replace (S (length (quote_run r1))) with (length (quote_run r1 ++ [LF]))
      by (rewrite length_app; cbn [length]; lia).
    change (quote_run r1 ++ LF :: LF :: quote_run r2)
      with (quote_run r1 ++ [LF] ++ (LF :: quote_run r2)).
    rewrite app_assoc, firstn_length_app.
    now rewrite (proj2 (@blockquote_callback_run st r1 Hne1 H1)).
Qed.

Lemma forallb_dropWhile (P f : char -> bool) (s : jsstring) :
  forallb P s = true -> forallb P (dropWhile f s) = true.
Proof.
  induction s as [|c s IH]; [reflexivity|]. intros H. cbn [dropWhile].
  destruct (f c); [|exact H]. cbn [forallb] in H. apply andb_true_iff in H as [_ H]. auto.
Qed.

Lemma forallb_rev (P : char -> bool) (s : jsstring) :
  forallb P s = true -> forallb P (rev s) = true.
Proof. rewrite !forallb_forall. intros H x Hx. apply H. now apply in_rev. Qed.

Lemma forallb_trim (P : char -> bool) (s : jsstring) :
  forallb P s = true -> forallb P (trim s) = true.
Proof.
  intros H. unfold trim.
  apply forallb_rev, forallb_dropWhile, forallb_rev, forallb_dropWhile, H.
Qed.

(** A blockquote element is one line that starts with an opening angle
    bracket and ends with a closing one. *)
Lemma blockquote_element_line (st : style) (r : list jsstring) :
  Forall (fun t => plain_text t = true) r ->
  exists inner,
    blockquote_element (styles_of st) r = lit "<blockquote" ++ inner ++ [62]
    /\ no_lt (blockquote_element (styles_of st) r) = true.
Proof.
  intros H.
  exists (lit " " ++ styles.blockquote (styles_of st) ++ lit ">"
          ++ otag "p" (styles.p (styles_of st))
          ++ join (lit "<br>") (map trim r) ++ lit "</p></blockquote").
  split.
  - unfold blockquote_element, otag. rewrite <- !app_assoc. reflexivity.
  - unfold blockquote_element, no_lt. rewrite !forallb_app.
    assert (Hj : forallb (fun c => negb (is_lt c)) (join (lit "<br>") (map trim r)) = true).
    { apply join_text; [reflexivity|]. rewrite Forall_map. revert H. apply Forall_impl.
      intros t Ht. apply forallb_trim. apply (@plain_no_lt t), plain_text_chars, Ht. }
    rewrite Hj. destruct st; reflexivity.
Qed.

Lemma heads_ok_line (P : char -> bool) (l rest : jsstring) :
  no_lt l = true -> heads_ok P false (l ++ rest) = heads_ok P false rest.
Proof.
  induction l as [|c l IH]; [reflexivity|]. cbn [no_lt forallb].
  intros [Hc Hl]%andb_true_iff. apply negb_true_iff in Hc.
  cbn [app heads_ok]. rewrite Hc. cbn [andb]. now apply IH.
Qed.

Lemma heads_ok_first (P : char -> bool) (c : char) (l rest : jsstring) :
  P c = true -> no_lt (c :: l) = true ->
  heads_ok P true ((c :: l) ++ rest) = heads_ok P false rest.
Proof.
  intros HP. cbn [no_lt forallb]. intros [Hc Hl]%andb_true_iff. apply negb_true_iff in Hc.
  cbn [app heads_ok]. rewrite HP, Hc. cbn [andb]. now apply heads_ok_line.
Qed.

Lemma trim_line (c e : char) (inner : jsstring) :
  is_ws c = false -> is_ws e = false -> trim (c :: inner ++ [e]) = c :: inner ++ [e].
Proof.
  intros Hc He. rewrite trim_cons by assumption. rewrite rev_app_distr. cbn [rev app dropWhile].
  rewrite He. cbn [rev]. now rewrite rev_involutive.
Qed.

Lemma isBlockElement_blockquote (rest : jsstring) :
  isBlockElement (lit "<blockquote" ++ rest) = true.
Proof. vm_compute. reflexivity. Qed.

Section TwoElements.
Variable st : style.
Variables r1 r2 : list jsstring.
Hypothesis H1 : Forall (fun t => plain_text t = true) r1.
Hypothesis H2 : Forall (fun t => plain_text t = true) r2.

Let B1 := blockquote_element (styles_of st) r1.
Let B2 := blockquote_element (styles_of st) r2.

Lemma lists_pass_id (m : matcher) (P : char -> bool) :
  anchored m -> inert m P -> P 60 = true ->
  replace_g m B1 = B1 /\ replace_g m (B1 ++ [LF] ++ B2) = B1 ++ [LF] ++ B2.
Proof.
  intros Ha [Hnil Hc] HP.
  destruct (@blockquote_element_line st r1 H1) as (i1 & E1 & N1).
  destruct (@blockquote_element_line st r2 H2) as (i2 & E2 & N2).
  fold B1 in E1, N1. fold B2 in E2, N2.
  assert (Hi : inert_at_bol m P) by (split; [exact Hnil | intros c rest; apply Hc]).
  assert (F1 : heads_ok P true B1 = true).
  { rewrite <- (app_nil_r B1). rewrite E1 in *. apply heads_ok_first; assumption. }
  assert (F2 : heads_ok P true B2 = true).
  { rewrite <- (app_nil_r B2). rewrite E2 in *. apply heads_ok_first; assumption. }
  split; apply (@replace_anchored m P _ Ha Hi); [exact F1|].
  rewrite E1 in *.
  change (lit "<blockquote" ++ i1 ++ [62]) with (60 :: (lit "blockquote" ++ i1 ++ [62])) in *.
  rewrite heads_ok_first by assumption.
  cbn [app heads_ok]. exact F2.
Qed.

Lemma wrap_two : wrap_paragraphs (styles_of st) (B1 ++ [LF] ++ B2) = B1 ++ [LF] ++ B2.
Proof.
  destruct (@blockquote_element_line st r1 H1) as (i1 & E1 & N1).
  destruct (@blockquote_element_line st r2 H2) as (i2 & E2 & N2).
  fold B1 in E1, N1. fold B2 in E2, N2.
  unfold wrap_paragraphs. cbn [app].
  rewrite split_app_sep by now apply no_lt_no_LF.
  rewrite split_no_sep by now apply no_lt_no_LF.
  assert (T : forall i, trim (lit "<blockquote" ++ i ++ [62]) = lit "<blockquote" ++ i ++ [62]).
  { intros i. change (lit "<blockquote" ++ i ++ [62]) with (60 :: (lit "blockquote" ++ i) ++ [62]).
    now apply trim_line. }
  cbn [wrap_lines]. rewrite E1, E2, !T, !isBlockElement_blockquote.
  reflexivity.
Qed.

Lemma wrap_one : wrap_paragraphs (styles_of st) B1 = B1.
Proof.
  destruct (@blockquote_element_line st r1 H1) as (i1 & E1 & N1).
  fold B1 in E1, N1.
  unfold wrap_paragraphs.
  rewrite split_no_sep by now apply no_lt_no_LF.
  assert (T : forall i, trim (lit "<blockquote" ++ i ++ [62]) = lit "<blockquote" ++ i ++ [62]).
  { intros i. change (lit "<blockquote" ++ i ++ [62]) with (60 :: (lit "blockquote" ++ i) ++ [62]).
    now apply trim_line. }
  cbn [wrap_lines]. rewrite E1, !T, !isBlockElement_blockquote.
  reflexivity.
Qed.
End TwoElements.

Lemma replace_char_by_app (c : char) (text a b : jsstring) :
  replace_char_by c text (a ++ b) = replace_char_by c text a ++ replace_char_by c text b.
Proof. unfold replace_char_by. apply flat_map_app. Qed.

Lemma escape_html_cons (c : char) (s : jsstring) :
  escape_html (c :: s) = escape_html [c] ++ escape_html s.
Proof.
  change (c :: s) with ([c] ++ s). unfold escape_html.
  now rewrite !replace_char_by_app.
Qed.

(** What the five replacements make of one code unit. *)
Lemma escape_html_one (c : char) :
  escape_html [c] =
  if c =? 38 then lit "&amp;"
  else if c =? 60 then lit "&lt;"
  else if c =? 62 then lit "&gt;"
  else if c =? 34 then lit "&quot;"
  else if c =? 39 then lit "&#039;"
  else [c].
Proof.
  unfold escape_html, replace_char_by. cbn [flat_map app].
  destruct (c =? 38) eqn:E38; [reflexivity|]. cbn [flat_map app].
  destruct (c =? 60) eqn:E60; [reflexivity|]. cbn [flat_map app].
  destruct (c =? 62) eqn:E62; [reflexivity|]. cbn [flat_map app].
  destruct (c =? 34) eqn:E34; [reflexivity|]. cbn [flat_map app].
  destruct (c =? 39) eqn:E39; reflexivity.
Qed.

(** The escaped content of a code block holds no angle bracket and no
    quote. *)
Lemma escape_html_no_markup (s : jsstring) :
  forallb (fun c => negb (markup_char c)) (escape_html s) = true.
Proof.
  induction s as [|c s IH]; [reflexivity|].
  rewrite escape_html_cons, forallb_app, IH, andb_true_r, escape_html_one.
  unfold markup_char.
  destruct (c =? 38) eqn:E38; [reflexivity|].
  destruct (c =? 60) eqn:E60; [reflexivity|].
  destruct (c =? 62) eqn:E62; [reflexivity|].
  destruct (c =? 34) eqn:E34; [reflexivity|].
  destruct (c =? 39) eqn:E39; [reflexivity|].
  cbn [forallb]. now rewrite E60, E62, E34, E39.
Qed.

(** A run of fewer than two lines is handed back as it is: no table is made
    of it; a single table line ends up as the text of a paragraph. *)
Lemma table_short_run_kept :
  forall (st : styles.t) (tableBlock : jsstring),
    (length (filter nonblank (split LF (trim tableBlock))) < 2)%nat ->
    table_callback st tableBlock = tableBlock.
Proof.
  intros st tableBlock H. unfold table_callback.
  apply Nat.ltb_lt in H. now rewrite H.
Qed.

Lemma table_single_line (st : style) :
  html_of (markdownToEmailHtml (lit "| A | B |") st)
  = otag "p" (styles.p (styles_of st)) ++ lit "| A | B |" ++ [LF] ++ lit "</p>".
Proof. destruct st; vm_compute; reflexivity. Qed.

(** ** Loading and sending *)

Section PromiseAll.
Variables A B : Type.
Variable w : world.
Variable path_of : A -> jsstring.
Variable load : A -> outcome B.
Variable loaded : A -> B.
Hypothesis load_eq :
  forall x, load x = match files w (path_of x) with
                     | Fulfilled _ => Fulfilled (loaded x)
                     | Rejected e => Rejected e
                     end.

Lemma first_rejection_spec (items : list A) (order : list nat) :
  (first_rejection order (map load items) = None /\ Forall (settles_well w path_of items) order)
  \/ exists pre i post x e,
       order = pre ++ i :: post /\ Forall (settles_well w path_of items) pre
       /\ nth_error items i = Some x /\ files w (path_of x) = Rejected e
       /\ first_rejection order (map load items) = Some e.
Proof.
  induction order as [|j order IH]; [left; split; [reflexivity | constructor]|].
  cbn [first_rejection]. rewrite nth_error_map.
  destruct (nth_error items j) as [x|] eqn:Ex; cbn [option_map].
  - rewrite load_eq. destruct (files w (path_of x)) as [b|e] eqn:Ef.
    + destruct IH as [[Hn Hall] | (pre & i & post & y & e' & -> & Hpre & Hi & Hy & Hr)].
      * left. split; [exact Hn|]. constructor; [|exact Hall].
        unfold settles_well, readable. now rewrite Ex, Ef.
      * right. exists (j :: pre), i, post, y, e'. repeat split; try assumption.
        constructor; [|exact Hpre]. unfold settles_well, readable. now rewrite Ex, Ef.
    + right. exists [], j, order, x, e. repeat split; try assumption. constructor.
  - destruct IH as [[Hn Hall] | (pre & i & post & y & e' & -> & Hpre & Hi & Hy & Hr)].
    + left. split; [exact Hn|]. constructor; [|exact Hall].
      unfold settles_well. now rewrite Ex.
    + right. exists (j :: pre), i, post, y, e'. repeat split; try assumption.
      constructor; [|exact Hpre]. unfold settles_well. now rewrite Ex.
Qed.

Lemma fulfilled_values_readable (items : list A) :
  forallb (fun x => readable w (path_of x)) items = true ->
  fulfilled_values (map load items) = map loaded items.
Proof.
  induction items as [|x items IH]; [reflexivity|]. cbn [forallb map].
  intros [Hx Hi]%andb_true_iff. rewrite load_eq. unfold readable in Hx.
  destruct (files w (path_of x)); [|discriminate]. cbn [fulfilled_values]. now rewrite IH.
Qed.

Lemma all_settle_well (items : list A) :
  Forall (settles_well w path_of items) (seq 0 (length items)) ->
  forallb (fun x => readable w (path_of x)) items = true.
Proof.
  intros H. apply forallb_forall. intros x Hx.
  apply In_nth_error in Hx as [j Hj].
  rewrite Forall_forall in H. specialize (H j).
  unfold settles_well in H. rewrite Hj in H. apply H.
  apply in_seq. assert (j < length items)%nat by (apply nth_error_Some; congruence). lia.
Qed.

(** What the combined promise settles to. *)
Lemma Promise_all_spec (order : list nat) (items : list A) :
  if forallb (fun x => readable w (path_of x)) items
  then Promise_all order (map load items) = Fulfilled (map loaded items)
  else exists pre i post x e,
         order ++ seq 0 (length items) = pre ++ i :: post
         /\ Forall (settles_well w path_of items) pre
         /\ nth_error items i = Some x /\ files w (path_of x) = Rejected e
         /\ Promise_all order (map load items) = Rejected e.
Proof.
  unfold Promise_all. rewrite length_map.
  destruct (first_rejection_spec items (order ++ seq 0 (length items)))
    as [[Hn Hall] | (pre & i & post & x & e & Ho & Hpre & Hi & Hx & Hr)].
  - apply Forall_app in Hall as [_ Hall]. apply all_settle_well in Hall.
    rewrite Hall, Hn. now rewrite fulfilled_values_readable.
  - assert (Hf : forallb (fun x => readable w (path_of x)) items = false).
    { apply not_true_is_false. intros Hall. rewrite forallb_forall in Hall.
      apply nth_error_In in Hi. specialize (Hall x Hi). unfold readable in Hall.
      now rewrite Hx in Hall. }
    rewrite Hf, Hr. now exists pre, i, post, x, e.
Qed.
End PromiseAll.

Lemma loadAttachment_eq (w : world) (p : jsstring) :
  loadAttachment w p = match files w p with
                       | Fulfilled _ => Fulfilled (loaded_attachment w p)
                       | Rejected e => Rejected e
                       end.
Proof.
  unfold loadAttachment, fs_readFile, loaded_attachment, file_bytes.
  now destruct (files w p).
Qed.

Lemma loadInlineImage_eq (w : world) (img : InlineImagePath) :
  loadInlineImage w (path img) (cid img) = match files w (path img) with
                          | Fulfilled _ => Fulfilled (loaded_inline w img)
                          | Rejected e => Rejected e
                          end.
Proof.
  unfold loadInlineImage, fs_readFile, loaded_inline, file_bytes.
  now destruct (files w (path img)).
Qed.

Lemma bind_fulfilled (A B : Type) (m : io A) (k : A -> io B) (log log' : list event) (a : A) :
  m log = (Fulfilled a, log') -> bind m k log = k a log'.
Proof. intros H. unfold bind. now rewrite H. Qed.

Lemma bind_rejected (A B : Type) (m : io A) (k : A -> io B) (log log' : list event) (e : error) :
  m log = (Rejected e, log') -> bind m k log = (Rejected e, log').
Proof. intros H. unfold bind. now rewrite H. Qed.

Lemma Promise_all_nil (A : Type) (order : list nat) :
  Promise_all order (@nil (outcome A)) = Fulfilled [].
Proof.
  unfold Promise_all. cbn [length seq]. rewrite app_nil_r.
  induction order as [|i order IH]; [reflexivity|].
  cbn [first_rejection]. destruct i; cbn [nth_error]; exact IH.
Qed.

(** One [if] of [sendMessage]: nothing is read for an absent or empty
    array; otherwise all the reads are started and their combined outcome
    is awaited. *)
Section LoadStep.
Variable A : Type.
Variable w : world.
Variable path_of : A -> jsstring.
Variable load : A -> outcome Attachment.
Variable loaded : A -> Attachment.
Variable order : list nat.
Variable items : option (list A).

Let step : io (option (list Attachment)) :=
  match items with
  | Some (x :: xs) => l <- await_all path_of load order (x :: xs) ;; ret (Some l)
  | _ => ret None
  end.

Let reads : list event := map (fun x => ReadFile (path_of x)) (array_or_empty items).

Lemma load_step_fulfilled (log : list event) :
  Promise_all order (map load (array_or_empty items))
  = Fulfilled (map loaded (array_or_empty items)) ->
  step log = (Fulfilled (some_if_nonempty (map loaded (array_or_empty items))), log ++ reads).
Proof.
  unfold step, reads. destruct items as [[|x xs]|]; cbn [array_or_empty]; intros H;
    try (cbn; rewrite app_nil_r; reflexivity).
  unfold bind, await_all, ret. now rewrite H.
Qed.

Lemma load_step_rejected (log : list event) (e : error) :
  Promise_all order (map load (array_or_empty items)) = Rejected e ->
  step log = (Rejected e, log ++ reads).
Proof.
  unfold step, reads. destruct items as [[|x xs]|]; cbn [array_or_empty map]; intros H;
    try (rewrite Promise_all_nil in H; discriminate H).
  unfold bind, await_all, ret. cbn [map]. now rewrite H.
Qed.
End LoadStep.

(** The outcome of the shared part of [sendMessage] and [createDraft]. *)
Lemma load_and_build_spec (w : world) (to subject body : jsstring) (html : option jsstring)
    (paths : list jsstring) (inlinePaths : option (list InlineImagePath))
    (log : list event) :
  let imgs := array_or_empty inlinePaths in
  let r := load_and_build w to subject body html (Some paths) inlinePaths log in
  if forallb (readable w) paths then
    if forallb (fun img => readable w (path img)) imgs then
      r = (Fulfilled (createRawMessage (now w) to subject body None html
                        (some_if_nonempty (map (loaded_attachment w) paths))
                        (some_if_nonempty (map (loaded_inline w) imgs))),
           log ++ map ReadFile paths ++ map (fun img => ReadFile (path img)) imgs)
    else
      exists img e,
        In img imgs /\ files w (path img) = Rejected e
        /\ r = (Rejected e,
                log ++ map ReadFile paths ++ map (fun img => ReadFile (path img)) imgs)
  else
    exists pre i post p e,
      settle_attachments w ++ seq 0 (length paths) = pre ++ i :: post
      /\ Forall (settles_well w (fun x => x) paths) pre
      /\ nth_error paths i = Some p /\ files w p = Rejected e
      /\ r = (Rejected e, log ++ map ReadFile paths).
Proof.
  intros imgs r. subst r imgs. unfold load_and_build.
  pose proof (@Promise_all_spec _ _ w (fun x : jsstring => x) (loadAttachment w)
                (loaded_attachment w) (loadAttachment_eq w) (settle_attachments w) paths) as Pa.
  pose proof (@Promise_all_spec _ _ w path (fun img => loadInlineImage w (path img) (cid img))
                (loaded_inline w) (loadInlineImage_eq w) (settle_inline w)
                (array_or_empty inlinePaths)) as Pi.
  cbv beta in Pa, Pi.
  destruct (forallb (readable w) paths) eqn:Ha.
  - erewrite bind_fulfilled;
      [| apply (@load_step_fulfilled _ (fun x : jsstring => x) (loadAttachment w)
                  (loaded_attachment w) (settle_attachments w) (Some paths) log Pa) ].
    cbn [array_or_empty].
    destruct (forallb (fun img => readable w (path img)) (array_or_empty inlinePaths)) eqn:Hi.
    + erewrite bind_fulfilled;
        [| apply (@load_step_fulfilled _ path (fun img => loadInlineImage w (path img) (cid img))
                    (loaded_inline w) (settle_inline w) inlinePaths _ Pi) ].
      unfold ret. now rewrite <- app_assoc.
    + destruct Pi as (pre & i & post & x & e & _ & _ & Hx & Hc & Hr).
      exists x, e. split; [now apply nth_error_In in Hx|]. split; [exact Hc|].
      erewrite bind_rejected;
        [| apply (@load_step_rejected _ path (fun img => loadInlineImage w (path img) (cid img))
                    (settle_inline w) inlinePaths _ _ Hr) ].
      now rewrite <- app_assoc.
  - destruct Pa as (pre & i & post & x & e & Ho & Hpre & Hx & Hc & Hr).
    exists pre, i, post, x, e. repeat split; try assumption.
    apply bind_rejected.
    apply (@load_step_rejected _ (fun x : jsstring => x) (loadAttachment w)
             (settle_attachments w) (Some paths) log _ Hr).
Qed.

(** * The claims *)

(** C1.  The claim fails on the code in its last shape.  What
    [createRawMessage] returns decodes, in the five multipart shapes, chosen
    by the precedence attachments+HTML+inline images, attachments+HTML,
    attachments, HTML+inline images, HTML, to the header lines followed by
    the serialization of the tree of the shape.  With no optional input it
    does not decode to the header lines followed by the [text/plain] part:
    [filter(Boolean)] takes the empty string out of the array, and with it
    the empty line between the header and the body that every part of the
    other shapes has, so the body stands on the line after the
    [Content-Type] line, inside the header block (and an empty body leaves
    no line at all).  No multipart content type and none of the three
    boundary strings occurs in that text outside the texts of the caller. *)
Theorem C1_plain_shape_lacks_separator :
  forall (ts : N) (to subject body : jsstring) (from html : option jsstring)
         (attachments inlineImages : option (list Attachment)),
    let raw := createRawMessage ts to subject body from html attachments inlineImages in
    let sh := select_shape (hasAttachments attachments) (hasHtml html)
                (hasInlineImages inlineImages) in
    let tree := envelope ts body (render_opt html) (array_of attachments)
                  (array_of inlineImages) sh in
    match sh with
    | Plain =>
        let msg := envelope_headers to subject from ++ nl ++ text_plain
                   ++ (if is_empty body then [] else nl ++ body) in
        decodeBase64Url_bytes raw = Buffer_from msg
        /\ msg <> envelope_headers to subject from ++ nl ++ render_part tree
        /\ Forall (fun needle =>
                     count needle msg
                     = caller_count needle [to; from_text from; subject; body])
             [lit "multipart/"; mixedBoundary ts; altBoundary ts; relatedBoundary ts]
    | _ =>
        decodeBase64Url_bytes raw
        = Buffer_from (envelope_headers to subject from ++ nl ++ render_part tree)
    end.
Proof.
  intros ts to subject body from html attachments inlineImages raw sh tree.
  assert (Hraw : decodeBase64Url_bytes raw
                 = Buffer_from (message ts to subject body from html attachments inlineImages))
    by apply base64url_roundtrip.
  pose proof (@message_multipart ts to subject body from html attachments inlineImages) as Hm.
  cbn zeta in Hm. fold sh in Hm. fold tree in Hm.
  destruct sh eqn:Hsh; try (rewrite Hraw, Hm by discriminate; reflexivity).
  clear Hm. cbv zeta.
  pose proof (@message_plain ts to subject body from html attachments inlineImages Hsh) as Hp.
  split; [| split].
  - now rewrite Hraw, Hp.
  - subst tree. cbn [envelope text_leaf render_part join]. intros E.
    apply app_inv_head in E. apply app_inv_head in E. apply app_inv_head in E.
    destruct body as [|c body']; cbn [is_empty] in E; [discriminate E|].
    apply app_inv_head in E. apply (f_equal (@length char)) in E.
    rewrite length_app in E. cbn [length nl] in E. lia.
  - rewrite <- Hp. repeat constructor.
    + now apply plain_count_multipart.
    + now apply plain_count_mixed.
    + now apply plain_count_alt.
    + now apply plain_count_related.
Qed.

(** C2.  What [createRawMessage] returns has no [+], no [/] and no [=] (so
    none at its end), and [decodeBase64Url], which puts the two substituted
    characters back and base64-decodes, gives the bytes of the assembled
    message that went into the encoder. *)
Theorem C2_base64url_roundtrip :
  forall (ts : N) (to subject body : jsstring) (from html : option jsstring)
         (attachments inlineImages : option (list Attachment)),
    let raw := createRawMessage ts to subject body from html attachments inlineImages in
    ~ In 43 raw /\ ~ In 47 raw /\ ~ In 61 raw
    /\ decodeBase64Url_bytes raw
       = Buffer_from (message ts to subject body from html attachments inlineImages).
Proof. intros. apply base64url_roundtrip. Qed.

(** C4, as stated, fails: with one attachment and an HTML body the message
    has two opening delimiter lines of the mixed boundary, not one. *)
Lemma C4_counterexample :
  let att := mkAttachment (lit "a.txt") (Buffer_from (lit "hi")) (lit "text/plain") None None in
  let msg := message 5 (lit "a@b.c") (lit "s") (lit "B") None (Some (lit "<p>h</p>"))
               (Some [att]) None in
  ~ (opening_delimiters (mixedBoundary 5) msg = 1%nat
     /\ closing_delimiters (mixedBoundary 5) msg = 1%nat
     /\ opening_delimiters (altBoundary 5) msg = 1%nat
     /\ closing_delimiters (altBoundary 5) msg = 1%nat).
Proof. vm_compute. intros [H _]. discriminate H. Qed.

(** C4, amended.  In the message built from one attachment, an HTML body and
    no inline images, whose texts from the caller hold no delimiter of
    either boundary, each of the mixed and the alternative boundary has
    exactly two opening delimiters, one before each of its two parts, and
    exactly one closing delimiter. *)
Theorem C4_shape2_delimiters :
  forall (ts : N) (to subject body : jsstring) (from html : option jsstring)
         (att : Attachment) (inlineImages : option (list Attachment)),
    hasHtml html = true ->
    hasInlineImages inlineImages = false ->
    let texts := [to; from_text from; subject; body; render_opt html; mimeType att;
                  filename att; filename att] in
    free_of (lit "--" ++ mixedBoundary ts) texts ->
    free_of (lit "--" ++ altBoundary ts) texts ->
    let msg := message ts to subject body from html (Some [att]) inlineImages in
    opening_delimiters (mixedBoundary ts) msg = 2%nat
    /\ closing_delimiters (mixedBoundary ts) msg = 1%nat
    /\ opening_delimiters (altBoundary ts) msg = 2%nat
    /\ closing_delimiters (altBoundary ts) msg = 1%nat.
Proof.
  intros ts to subject body from html att inlineImages Hh Hi texts Hm Ha msg.
  unfold opening_delimiters, closing_delimiters. subst msg texts.
  rewrite count_mixed_open, count_mixed_close, count_alt_open, count_alt_close by assumption.
  rewrite (free_of_caller_count Hm), (free_of_caller_count Ha).
  rewrite (app_assoc (lit "--") (mixedBoundary ts)), (app_assoc (lit "--") (altBoundary ts)).
  rewrite (free_of_caller_count (free_of_longer (lit "--") Hm)).
  rewrite (free_of_caller_count (free_of_longer (lit "--") Ha)).
  repeat split.
Qed.

Lemma C4_shape2_delimiters_witness :
  let att := mkAttachment (lit "a.txt") (Buffer_from (lit "hi")) (lit "text/plain") None None in
  let msg := message 5 (lit "a@b.c") (lit "s") (lit "B") None (Some (lit "<p>h</p>"))
               (Some [att]) None in
  opening_delimiters (mixedBoundary 5) msg = 2%nat
  /\ closing_delimiters (mixedBoundary 5) msg = 1%nat
  /\ opening_delimiters (altBoundary 5) msg = 2%nat
  /\ closing_delimiters (altBoundary 5) msg = 1%nat.
Proof.
  intros att msg.
  apply (@C4_shape2_delimiters 5 (lit "a@b.c") (lit "s") (lit "B") None (Some (lit "<p>h</p>"))
           att None).
  - reflexivity.
  - reflexivity.
  - repeat constructor.
  - repeat constructor.
Defined.




(** C10.  The three boundary strings of one call, built from one time stamp
    and the labels mixed, alt and related, are pairwise different; so the
    boundary of a nested multipart is never that of the multipart around
    it. *)
Theorem C10_boundaries_distinct :
  forall ts : N,
    mixedBoundary ts <> altBoundary ts
    /\ mixedBoundary ts <> relatedBoundary ts
    /\ altBoundary ts <> relatedBoundary ts.
Proof.
  intros ts. unfold mixedBoundary, altBoundary, relatedBoundary.
  repeat split; simpl; discriminate.
Qed.

(** C7.  The title [markdownToEmailHtml] returns is the text of the first
    level-1 heading line of the document, wherever that line stands, and
    the word Report when no line is one; for a document that starts with
    the heading My Title it is My Title. *)
Theorem C7_title :
  forall (md : jsstring) (st : style),
    title_of (markdownToEmailHtml md st)
    = match find is_h1_line (js_lines md) with
      | Some l => skipn 2 l
      | None => lit "Report"
      end
    /\ title_of (markdownToEmailHtml (lit "# My Title" ++ [LF] ++ lit "body") st)
       = lit "My Title"
    /\ title_of (markdownToEmailHtml (lit "no heading" ++ [LF] ++ lit "## second level") st)
       = lit "Report".
Proof.
  intros md st. split; [|split; reflexivity].
  unfold markdownToEmailHtml. cbn [title_of].
  rewrite (proj1 (match_title_lines md)). unfold first_h1.
  now destruct (find is_h1_line (js_lines md)).
Qed.

(** C3.  The claim fails on the code: the content of a fenced block is
    escaped, but the inline passes that follow run over it too, so bold
    markers inside a fenced block come out as a [strong] element.  The
    angle brackets of the same block are escaped. *)
Theorem C3_fenced_bold_converted :
  forall st : style,
    let md := fence ++ [LF] ++ lit "**x** <script>" ++ [LF] ++ fence in
    let html := html_of (markdownToEmailHtml md st) in
    html = otag "pre" (styles.pre (styles_of st)) ++ lit "<code>"
           ++ otag "strong" (styles.strong (styles_of st)) ++ lit "x</strong>"
           ++ lit " &lt;script&gt;</code></pre>"
    /\ count (lit "<strong") html = 1%nat.
Proof. intros [|]; split; vm_compute; reflexivity. Qed.




(** C6.  The claim fails on the code: the separator test accepts a row only
    when nothing but white space, colons and hyphens stands between its
    first and its last pipe, so the separator line of a table of two columns
    is not recognized and comes out as a data row of its own, before the
    row of the cells 1 and 2. *)
Theorem C6_separator_row_kept :
  forall st : style,
    let md := lit "| A | B |" ++ [LF] ++ lit "|---|---|" ++ [LF] ++ lit "| 1 | 2 |" in
    let th := otag "th" (styles.th (styles_of st)) in
    let td := otag "td" (styles.td (styles_of st)) in
    isSeparator (lit "|---|---|") = false
    /\ html_of (markdownToEmailHtml md st)
       = otag "table" (styles.table (styles_of st))
         ++ lit "<thead><tr>" ++ th ++ lit "A</th>" ++ th ++ lit "B</th></tr></thead>"
         ++ lit "<tbody><tr>" ++ td ++ lit "---</td>" ++ td ++ lit "---</td></tr>"
         ++ lit "<tr>" ++ td ++ lit "1</td>" ++ td ++ lit "2</td></tr></tbody></table>".
Proof. intros [|]; split; vm_compute; reflexivity. Qed.



(** * Further properties *)

(** ** Command-line arguments *)

Lemma eqb_str_eq (a b : jsstring) : eqb_str a b = true <-> a = b.
Proof.
  revert b; induction a as [|x a IH]; intros [|y b]; cbn [eqb_str];
    try (split; [discriminate | congruence]); [tauto|].
  rewrite andb_true_iff, N.eqb_eq, IH. split; [intros [-> ->]; reflexivity|].
  intros E; injection E; auto.
Qed.

Lemma eqb_str_refl (a : jsstring) : eqb_str a a = true.
Proof. now apply eqb_str_eq. Qed.

Lemma eqb_str_neq (a b : jsstring) : eqb_str a b = false <-> a <> b.
Proof.
  rewrite <- eqb_str_eq. destruct (eqb_str a b); split; congruence.
Qed.

Lemma eqb_str_sym (a b : jsstring) : eqb_str a b = eqb_str b a.
Proof.
  destruct (eqb_str a b) eqn:E.
  - apply eqb_str_eq in E. subst. now rewrite eqb_str_refl.
  - apply eqb_str_neq in E. symmetry. apply eqb_str_neq. congruence.
Qed.

Lemma get_set_flag (k key value : jsstring) (fl : Flags) :
  get_flag k (set_flag key value fl) = if eqb_str key k then Some value else get_flag k fl.
Proof.
  induction fl as [|[k0 v0] fl IH]; cbn [set_flag get_flag]; [reflexivity|].
  destruct (eqb_str k0 key) eqn:E; cbn [get_flag].
  - apply eqb_str_eq in E. subst k0. destruct (eqb_str key k); reflexivity.
  - rewrite IH. destruct (eqb_str k0 k) eqn:E0; [|reflexivity].
    apply eqb_str_eq in E0. subst k0. rewrite eqb_str_sym. now rewrite E.
Qed.

Lemma get_assign_flag (k key value : jsstring) (fl : Flags) :
  get_flag k (assign_flag key value fl)
  = if eqb_str key (lit "__proto__") then get_flag k fl
    else if eqb_str key k then Some value else get_flag k fl.
Proof.
  unfold assign_flag. destruct (eqb_str key (lit "__proto__")); [reflexivity|].
  apply get_set_flag.
Qed.

(** The loop started from any state: a flag of the arguments wins over the
    state, the positional arguments are added behind it. *)
Lemma parseArgs_from_spec (args : list jsstring) :
  forall fl positional k,
    get_flag k (flags_of (parseArgs_from fl positional args))
    = match get_flag k (flags_of (parseArgs args)) with
      | Some v => Some v
      | None => get_flag k fl
      end
    /\ positional_of (parseArgs_from fl positional args)
       = positional ++ positional_of (parseArgs args).
Proof.
  unfold parseArgs.
  induction args as [|arg rest IH]; intros fl positional k; cbn [parseArgs_from].
  - cbn [flags_of positional_of get_flag]. now rewrite app_nil_r.
  - destruct (prefixb (lit "--") arg).
    + cbn zeta.
      destruct (IH (assign_flag (hd [] (split 61 (skipn 2 arg)))
                      (if is_empty (join [61] (tl (split 61 (skipn 2 arg))))
                       then lit "true" else join [61] (tl (split 61 (skipn 2 arg)))) fl)
                   positional k) as [F P].
      destruct (IH (assign_flag (hd [] (split 61 (skipn 2 arg)))
                      (if is_empty (join [61] (tl (split 61 (skipn 2 arg))))
                       then lit "true" else join [61] (tl (split 61 (skipn 2 arg)))) [])
                   [] k) as [F0 P0].
      rewrite F, P, F0, P0. split; [|reflexivity].
      destruct (get_flag k (flags_of (parseArgs_from [] [] rest))); [reflexivity|].
      rewrite !get_assign_flag. cbn [get_flag].
      destruct (eqb_str _ (lit "__proto__")); [reflexivity|].
      destruct (eqb_str _ k); reflexivity.
    + destruct (IH fl (positional ++ [arg]) k) as [F P].
      destruct (IH [] ([] ++ [arg]) k) as [F0 P0].
      rewrite F, P, F0, P0. split.
      * cbn [get_flag]. now destruct (get_flag k (flags_of (parseArgs_from [] [] rest))).
      * now rewrite <- app_assoc.
Qed.

Lemma parseArgs_from_app (a b : list jsstring) :
  forall fl positional,
    parseArgs_from fl positional (a ++ b)
    = parseArgs_from (flags_of (parseArgs_from fl positional a))
        (positional_of (parseArgs_from fl positional a)) b.
Proof.
  induction a as [|arg a IH]; intros fl positional; cbn [app parseArgs_from]; [reflexivity|].
  destruct (prefixb (lit "--") arg); apply IH.
Qed.

Lemma split_cons (sep : char) (s : jsstring) : exists x l, split sep s = x :: l.
Proof.
  destruct s as [|c s]; cbn [split]; [now eexists; eexists|].
  destruct (c =? sep); [now eexists; eexists|].
  destruct (split sep s); now eexists; eexists.
Qed.

Lemma join_split (sep : char) (s : jsstring) : join [sep] (split sep s) = s.
Proof.
  induction s as [|c s IH]; [reflexivity|]. cbn [split].
  destruct (split_cons sep s) as (x & l & Es). rewrite Es in *.
  destruct (c =? sep) eqn:E.
  - apply N.eqb_eq in E. subst c.
    change (join [sep] ([] :: x :: l)) with (sep :: join [sep] (x :: l)). now rewrite IH.
  - cbn [join] in *. destruct l; cbn [app]; now rewrite <- IH.
Qed.

(** Every value stored by the loop is a non-empty string. *)
Lemma parseArgs_from_truthy (args : list jsstring) :
  forall fl positional,
    (forall k v, get_flag k fl = Some v -> v <> []) ->
    forall k v, get_flag k (flags_of (parseArgs_from fl positional args)) = Some v -> v <> [].
Proof.
  induction args as [|arg rest IH]; intros fl positional Hfl k v; cbn [parseArgs_from].
  - apply Hfl.
  - destruct (prefixb (lit "--") arg); [|now apply IH].
    cbn zeta. apply IH. intros k' v'. rewrite get_assign_flag.
    destruct (eqb_str _ (lit "__proto__")); [apply Hfl|].
    destruct (eqb_str _ k'); [|apply Hfl].
    intros E Hv. subst v'. injection E as E. revert E.
    match goal with |- context [is_empty ?j] => destruct j end; cbn [is_empty]; intros E;
      [vm_compute in E|]; discriminate E.
Qed.

(** ** UTF-8 *)

Lemma to_N_byte_of_N (n : N) : n < 256 -> Byte.to_N (byte_of_N n) = n.
Proof.
  intros H. unfold byte_of_N. rewrite N.mod_small by exact H.
  destruct (Byte.of_N n) as [b|] eqn:E.
  - now apply Byte.to_of_N.
  - apply Byte.of_N_None_iff in E. lia.
Qed.

Lemma utf8_lead_1 (b : N) : b < 128 -> utf8_lead b = ([b], (O, 0, 128, 191)).
Proof. intros H. unfold utf8_lead. apply N.ltb_lt in H. now rewrite H. Qed.

Lemma utf8_lead_2 (b : N) :
  194 <= b -> b <= 223 -> utf8_lead b = ([], (1%nat, b mod 32, 128, 191)).
Proof.
  intros H1 H2. unfold utf8_lead.
  replace (b <? 128) with false by (symmetry; apply N.ltb_ge; lia).
  apply N.leb_le in H1, H2. now rewrite H1, H2.
Qed.

Lemma utf8_lead_3 (b : N) :
  224 <= b -> b <= 239 ->
  utf8_lead b
  = ([], (2%nat, b mod 16, (if b =? 224 then 160 else 128), (if b =? 237 then 159 else 191))).
Proof.
  intros H1 H2. unfold utf8_lead.
  replace (b <? 128) with false by (symmetry; apply N.ltb_ge; lia).
  replace (b <=? 223) with false by (symmetry; apply N.leb_gt; lia).
  rewrite andb_false_r.
  apply N.leb_le in H1, H2. now rewrite H1, H2.
Qed.

Lemma utf8_lead_4 (b : N) :
  240 <= b -> b <= 244 ->
  utf8_lead b
  = ([], (3%nat, b mod 8, (if b =? 240 then 144 else 128), (if b =? 244 then 143 else 191))).
Proof.
  intros H1 H2. unfold utf8_lead.
  replace (b <? 128) with false by (symmetry; apply N.ltb_ge; lia).
  replace (b <=? 223) with false by (symmetry; apply N.leb_gt; lia).
  replace (b <=? 239) with false by (symmetry; apply N.leb_gt; lia).
  rewrite !andb_false_r.
  apply N.leb_le in H1, H2. now rewrite H1, H2.
Qed.

Lemma within (lo hi b : N) : lo <= b -> b <= hi -> (lo <=? b) && (b <=? hi) = true.
Proof. intros H1 H2. apply N.leb_le in H1, H2. now rewrite H1, H2. Qed.

(** The decoder reads back what [utf8_cp] wrote for a scalar value. *)
Lemma decode_utf8_cp (cp : N) (rest : list byte) :
  cp < 1114112 -> (cp < 55296 \/ 57343 < cp) ->
  toString_utf8 (utf8_cp cp ++ rest) = utf16_of_cp cp ++ toString_utf8 rest.
Proof.
  intros Hmax Hsur. unfold toString_utf8, utf8_cp.
  destruct (cp <? 128) eqn:E1; [apply N.ltb_lt in E1 | apply N.ltb_ge in E1].
  { cbn [app toString_utf8_from]. rewrite to_N_byte_of_N by lia.
    rewrite utf8_lead_1 by lia. unfold utf16_of_cp.
    replace (cp <? 65536) with true by (symmetry; apply N.ltb_lt; lia). reflexivity. }
  destruct (cp <? 2048) eqn:E2; [apply N.ltb_lt in E2 | apply N.ltb_ge in E2].
  { cbn [app toString_utf8_from]. rewrite !to_N_byte_of_N by lia.
    rewrite utf8_lead_2 by lia. rewrite within by lia.
    replace ((192 + cp / 64) mod 32 * 64 + (128 + cp mod 64) mod 64) with cp by lia.
    reflexivity. }
  destruct (cp <? 65536) eqn:E3; [apply N.ltb_lt in E3 | apply N.ltb_ge in E3].
  { cbn [app toString_utf8_from]. rewrite !to_N_byte_of_N by lia.
    rewrite utf8_lead_3 by lia.
    assert (B : ((if 224 + cp / 4096 =? 224 then 160 else 128) <=? 128 + (cp / 64) mod 64)
                && (128 + (cp / 64) mod 64 <=? (if 224 + cp / 4096 =? 237 then 159 else 191))
                = true).
    { apply within.
      - destruct (224 + cp / 4096 =? 224) eqn:E; [apply N.eqb_eq in E|]; lia.
      - destruct (224 + cp / 4096 =? 237) eqn:E; [apply N.eqb_eq in E|]; lia. }
    rewrite B. rewrite within by lia.
    replace (((224 + cp / 4096) mod 16 * 64 + (128 + (cp / 64) mod 64) mod 64) * 64
             + (128 + cp mod 64) mod 64) with cp by lia.
    reflexivity. }
  cbn [app toString_utf8_from]. rewrite !to_N_byte_of_N by lia.
  rewrite utf8_lead_4 by lia.
  assert (B : ((if 240 + cp / 262144 =? 240 then 144 else 128) <=? 128 + (cp / 4096) mod 64)
              && (128 + (cp / 4096) mod 64 <=? (if 240 + cp / 262144 =? 244 then 143 else 191))
              = true).
  { apply within.
    - destruct (240 + cp / 262144 =? 240) eqn:E; [apply N.eqb_eq in E|]; lia.
    - destruct (240 + cp / 262144 =? 244) eqn:E; [apply N.eqb_eq in E|]; lia. }
  rewrite B. rewrite !within by lia.
  replace ((((240 + cp / 262144) mod 8 * 64 + (128 + (cp / 4096) mod 64) mod 64) * 64
            + (128 + (cp / 64) mod 64) mod 64) * 64 + (128 + cp mod 64) mod 64)
    with cp by lia.
  reflexivity.
Qed.

Lemma decode_replacement (rest : list byte) :
  toString_utf8 (utf8_cp 65533 ++ rest) = 65533 :: toString_utf8 rest.
Proof. rewrite decode_utf8_cp by lia. reflexivity. Qed.

(** Encoding, then decoding: the string comes back, its lone surrogates
    replaced. *)
Lemma toString_utf8_Buffer_from (s : jsstring) :
  code_units s = true -> toString_utf8 (Buffer_from s) = toWellFormed s.
Proof.
  assert (G : forall n s, (length s <= n)%nat -> code_units s = true ->
                          toString_utf8 (Buffer_from s) = toWellFormed s).
  { induction n as [|n IH]; intros [|c rest] Hlen Hcu; try reflexivity;
      cbn [length] in Hlen; [lia|].
    cbn [code_units forallb] in Hcu. apply andb_true_iff in Hcu as [Hc Hrest].
    apply N.ltb_lt in Hc. cbn [Buffer_from toWellFormed].
    destruct (is_high c) eqn:Eh.
    - destruct rest as [|d rest']; [apply (decode_replacement [])|].
      destruct (is_low d) eqn:El.
      + cbn [forallb] in Hrest. apply andb_true_iff in Hrest as [Hd Hrest'].
        unfold is_high, is_low in Eh, El.
        rewrite andb_true_iff, !N.leb_le in Eh, El.
        rewrite decode_utf8_cp by lia.
        rewrite IH by (cbn [length] in Hlen; first [lia | exact Hrest']).
        unfold utf16_of_cp.
        replace (65536 + (c - 55296) * 1024 + (d - 56320) <? 65536) with false
          by (symmetry; apply N.ltb_ge; lia).
        cbn [app]. f_equal; [lia|]. f_equal. lia.
      + rewrite decode_replacement. f_equal. apply IH; [lia|exact Hrest].
    - destruct (is_low c) eqn:El.
      + rewrite decode_replacement. f_equal. apply IH; [lia|exact Hrest].
      + assert (Hs : c < 55296 \/ 57343 < c).
        { unfold is_high, is_low in Eh, El.
          rewrite andb_false_iff, !N.leb_gt in Eh, El. lia. }
        rewrite decode_utf8_cp by lia. unfold utf16_of_cp.
        replace (c <? 65536) with true by (symmetry; apply N.ltb_lt; lia).
        cbn [app]. f_equal. apply IH; [lia|exact Hrest]. }
  apply (G (length s)). lia.
Qed.

(** ** Reading a message *)

Lemma MessagePart_induction (P : MessagePart -> Prop) :
  (forall mt data, P (mkMessagePart mt data None)) ->
  (forall mt data ps, Forall P ps -> P (mkMessagePart mt data (Some ps))) ->
  forall p, P p.
Proof.
  intros Hleaf Hnode. fix IH 1. intros [mt data [ps|]]; [|apply Hleaf].
  apply Hnode. induction ps as [|q ps IHps]; constructor; [apply IH | exact IHps].
Qed.

Lemma extractBody_part_eq (mt data : option jsstring) (parts : option (list MessagePart)) :
  extractBody_part (mkMessagePart mt data parts)
  = if truthy data then
      if is_string "text/html" mt
      then mkExtractedBody [] (Some (decodeBase64Url (string_of data)))
      else mkExtractedBody (decodeBase64Url (string_of data)) None
    else match parts with
         | Some ps => fold_left part_step ps (mkExtractedBody [] None)
         | None => mkExtractedBody [] None
         end.
Proof. reflexivity. Qed.

Lemma is_string_eq (s : string) (x : option jsstring) :
  is_string s x = true -> x = Some (lit s).
Proof.
  destruct x as [v|]; cbn [is_string]; [|discriminate].
  intros H. apply eqb_str_eq in H. now subst.
Qed.

Lemma sourced_incl (l1 l2 : list MessagePart) (b : ExtractedBody) :
  incl l1 l2 -> sourced l1 b -> sourced l2 b.
Proof.
  intros Hi [Hh Ht]. split.
  - intros h E. destruct (Hh h E) as (d & ps & I & T & Eq). exists d, ps. auto.
  - intros E. destruct (Ht E) as (mt & d & ps & I & M & T & Eq). exists mt, d, ps. auto.
Qed.

Lemma part_step_sourced (L : list MessagePart) (acc : ExtractedBody) (q : MessagePart) :
  incl (all_parts q) L -> sourced (all_parts q) (extractBody_part q) ->
  sourced L acc -> sourced L (part_step acc q).
Proof.
  intros Hl Hq [Ah At].
  assert (Hin : In q L) by (apply Hl; destruct q as [? ? [?|]]; now left).
  destruct q as [pmt pdata pparts]. unfold part_step.
  destruct (is_string "text/plain" pmt && truthy pdata) eqn:E1.
  { apply andb_true_iff in E1 as [M1 T1]. apply is_string_eq in M1. subst pmt.
    split; cbn [body_html body_text]; [exact Ah|]. intros _.
    exists (Some (lit "text/plain")), pdata, pparts.
    repeat split; [exact Hin | exact T1]. }
  destruct (is_string "text/html" pmt && truthy pdata) eqn:E2.
  { apply andb_true_iff in E2 as [M2 T2]. apply is_string_eq in M2. subst pmt.
    split; cbn [body_html body_text]; [|exact At].
    intros h E. injection E as <-.
    exists pdata, pparts. repeat split; [exact Hin | exact T2]. }
  destruct pparts as [qps|]; [|split; assumption].
  apply (@sourced_incl _ _ _ Hl) in Hq. destruct Hq as [Qh Qt].
  cbn zeta. split; cbn [body_html body_text].
  - destruct (truthy (body_html _)); [exact Qh | exact Ah].
  - destruct (body_text (extractBody_part (mkMessagePart pmt pdata (Some qps))))
      eqn:Eb; cbn [is_empty]; [exact At|].
    intros _. apply Qt. discriminate.
Qed.

Lemma fold_part_step_sourced (L qs : list MessagePart) :
  Forall (fun q => sourced (all_parts q) (extractBody_part q)) qs ->
  incl (flat_map all_parts qs) L ->
  forall acc, sourced L acc -> sourced L (fold_left part_step qs acc).
Proof.
  induction 1 as [|q qs Hq Hqs IH]; intros Hi acc Hacc; [exact Hacc|].
  cbn [fold_left flat_map] in *. apply IH.
  - intros x Hx. apply Hi, in_or_app. now right.
  - apply part_step_sourced; [|exact Hq|exact Hacc].
    intros x Hx. apply Hi, in_or_app. now left.
Qed.

Lemma extractBody_part_sourced (p : MessagePart) : sourced (all_parts p) (extractBody_part p).
Proof.
  induction p as [mt data | mt data ps IH] using MessagePart_induction;
    rewrite extractBody_part_eq.
  - destruct (truthy data) eqn:T.
    + destruct (is_string "text/html" mt) eqn:M.
      * split; cbn [body_html body_text]; [|congruence].
        intros h E. injection E as <-. apply is_string_eq in M. subst mt.
        exists data, None. repeat split; [now left | exact T].
      * split; cbn [body_html body_text]; [discriminate|]. intros _.
        exists mt, data, None. repeat split; [now left | exact M | exact T].
    + split; cbn [body_html body_text]; [discriminate | congruence].
  - destruct (truthy data) eqn:T.
    + destruct (is_string "text/html" mt) eqn:M.
      * split; cbn [body_html body_text]; [|congruence].
        intros h E. injection E as <-. apply is_string_eq in M. subst mt.
        exists data, (Some ps). repeat split; [now left | exact T].
      * split; cbn [body_html body_text]; [discriminate|]. intros _.
        exists mt, data, (Some ps). repeat split; [now left | exact M | exact T].
    + apply fold_part_step_sourced; [exact IH | intros x Hx; now right |].
      split; cbn [body_html body_text]; [discriminate | congruence].
Qed.
Lemma part_step_passed_over (acc : ExtractedBody) (a : MessagePart) :
  passed_over a = true -> part_step acc a = acc.
Proof.
  destruct a as [pmt pdata [ps|]]; cbn [passed_over]; [discriminate|].
  intros H. apply negb_true_iff in H. unfold part_step.
  destruct (is_string "text/plain" pmt) eqn:E1; destruct (is_string "text/html" pmt) eqn:E2;
    cbn [orb andb] in *; rewrite ?H; reflexivity.
Qed.

Lemma fold_passed_over (atts : list MessagePart) (acc : ExtractedBody) :
  forallb passed_over atts = true -> fold_left part_step atts acc = acc.
Proof.
  revert acc; induction atts as [|a atts IH]; intros acc H; [reflexivity|].
  cbn [forallb] in H. apply andb_true_iff in H as [Ha Hatts].
  cbn [fold_left]. rewrite part_step_passed_over by exact Ha. now apply IH.
Qed.

Lemma sextets_of_url_any (s : jsstring) : sextets (map of_url s) = sextets s.
Proof.
  induction s as [|c s IH]; [reflexivity|]. cbn [map sextets]. rewrite IH.
  unfold of_url.
  destruct (c =? 45) eqn:E45; [apply N.eqb_eq in E45; subst c; reflexivity|].
  destruct (c =? 95) eqn:E95; [apply N.eqb_eq in E95; subst c; reflexivity|].
  reflexivity.
Qed.

(** The decoder of Node reads both alphabets: the two substitutions of
    [decodeBase64Url] change nothing of what it gives. *)
Lemma decodeBase64Url_bytes_eq (s : jsstring) : decodeBase64Url_bytes s = Buffer_from_base64 s.
Proof.
  unfold decodeBase64Url_bytes, Buffer_from_base64.
  now rewrite unreplace_twice, sextets_of_url_any.
Qed.

Lemma Buffer_from_base64_base64url (bs : list byte) : Buffer_from_base64 (base64url bs) = bs.
Proof. rewrite <- decodeBase64Url_bytes_eq. apply base64url_roundtrip. Qed.

Lemma base64url_truthy (bs : list byte) : bs <> [] -> truthy (Some (base64url bs)) = true.
Proof.
  intros H. rewrite base64url_eq. destruct bs as [|a [|b [|c l]]]; [congruence| | |];
    reflexivity.
Qed.

Lemma utf8_cp_nonempty (cp : N) : utf8_cp cp <> [].
Proof. unfold utf8_cp. repeat destruct (_ <? _); discriminate. Qed.

Lemma Buffer_from_nonempty (s : jsstring) : s <> [] -> Buffer_from s <> [].
Proof.
  destruct s as [|c rest]; [congruence|]. intros _ H. cbn [Buffer_from] in H.
  destruct (is_high c); [destruct rest as [|d rest']; [|destruct (is_low d)] |
                         destruct (is_low c)];
    apply app_eq_nil in H as [H _] || idtac; now apply utf8_cp_nonempty in H.
Qed.

Lemma toWellFormed_nonempty (s : jsstring) : s <> [] -> toWellFormed s <> [].
Proof.
  destruct s as [|c rest]; [congruence|]. intros _. cbn [toWellFormed].
  destruct (is_high c); [destruct rest as [|d rest']; [|destruct (is_low d)] |
                         destruct (is_low c)]; discriminate.
Qed.

Lemma decodeBase64Url_encoded (s : jsstring) :
  code_units s = true -> decodeBase64Url (base64url (Buffer_from s)) = toWellFormed s.
Proof.
  intros H. unfold decodeBase64Url.
  rewrite (proj2 (proj2 (proj2 (base64url_roundtrip (Buffer_from s))))).
  now apply toString_utf8_Buffer_from.
Qed.

Lemma part_step_text_part_plain (acc : ExtractedBody) (body : jsstring) :
  code_units body = true ->
  part_step acc (text_part "text/plain" body)
  = if is_empty body then acc else mkExtractedBody (toWellFormed body) (body_html acc).
Proof.
  intros H. unfold text_part, part_step.
  destruct body as [|c body]; [reflexivity|].
  rewrite base64url_truthy by (apply Buffer_from_nonempty; discriminate).
  change (is_string "text/plain" (Some (lit "text/plain"))) with true.
  cbn [andb string_of is_empty]. now rewrite decodeBase64Url_encoded.
Qed.

Lemma part_step_text_part_html (acc : ExtractedBody) (html : jsstring) :
  code_units html = true ->
  part_step acc (text_part "text/html" html)
  = if is_empty html then acc else mkExtractedBody (body_text acc) (Some (toWellFormed html)).
Proof.
  intros H. unfold text_part, part_step.
  destruct html as [|c html]; [reflexivity|].
  rewrite base64url_truthy by (apply Buffer_from_nonempty; discriminate).
  change (is_string "text/plain" (Some (lit "text/html"))) with false.
  change (is_string "text/html" (Some (lit "text/html"))) with true.
  cbn [andb string_of is_empty]. now rewrite decodeBase64Url_encoded.
Qed.

(** ** The e-mail template *)

Lemma prefixb_split (p s : jsstring) : prefixb p s = true -> s = p ++ skipn (length p) s.
Proof.
  revert s; induction p as [|x p IH]; intros s H; [reflexivity|].
  destruct s as [|y s]; [discriminate|]. cbn [prefixb] in H.
  apply andb_true_iff in H as [E H]. apply N.eqb_eq in E. subst y.
  cbn [app length skipn]. f_equal. now apply IH.
Qed.

Lemma prefixb_refl_app (p s : jsstring) : prefixb p (p ++ s) = true.
Proof. induction p as [|x p IH]; [reflexivity|]. cbn [app prefixb]. now rewrite N.eqb_refl. Qed.

(** The text splits at the first occurrence of the needle. *)
Lemma indexOf_split (needle s : jsstring) (n : nat) :
  indexOf needle s = Some n ->
  s = before_first needle s ++ needle ++ after_first needle s
  /\ length (before_first needle s) = n.
Proof.
  unfold before_first, after_first. intros H. rewrite H.
  revert n H; induction s as [|c s IH]; intros n H; cbn [indexOf] in H.
  - destruct (prefixb needle []) eqn:E; [|discriminate]. injection H as <-.
    cbn [firstn Nat.add]. split; [|reflexivity]. now apply prefixb_split.
  - destruct (prefixb needle (c :: s)) eqn:E.
    + injection H as <-. cbn [firstn Nat.add]. split; [|reflexivity].
      now apply prefixb_split.
    + destruct (indexOf needle s) as [m|]; [|discriminate]. injection H as <-.
      destruct (IH m eq_refl) as [IH1 IH2].
      cbn [firstn Nat.add skipn app length]. split; [now f_equal | now f_equal].
Qed.

Lemma indexOf_nohead (h : char) (needle a b : jsstring) :
  existsb (N.eqb h) a = false ->
  indexOf (h :: needle) (a ++ b) = option_map (Nat.add (length a)) (indexOf (h :: needle) b).
Proof.
  induction a as [|y a IH]; intros H.
  - cbn [app length]. now destruct (indexOf (h :: needle) b).
  - cbn [existsb] in H. apply orb_false_iff in H as [Hy Ha].
    cbn [app indexOf prefixb length]. rewrite Hy. cbn [andb]. rewrite IH by exact Ha.
    now destruct (indexOf (h :: needle) b).
Qed.

Lemma indexOf_sep (needle a b : jsstring) (c : char) :
  needle <> [] -> existsb (N.eqb c) needle = false -> count needle a = 0%nat ->
  indexOf needle (a ++ c :: b) = option_map (Nat.add (S (length a))) (indexOf needle b).
Proof.
  intros Hne Hc. induction a as [|y a IH]; intros H.
  - cbn [app length indexOf]. replace (prefixb needle (c :: b)) with false.
    + now destruct (indexOf needle b).
    + destruct needle as [|x needle]; [congruence|].
      cbn [existsb] in Hc. apply orb_false_iff in Hc as [Hx _].
      cbn [prefixb]. rewrite N.eqb_sym. now rewrite Hx.
  - cbn [count] in H. destruct (prefixb needle (y :: a)) eqn:E; [discriminate|].
    change ((y :: a) ++ c :: b) with (y :: (a ++ c :: b)). cbn [indexOf].
    change (y :: (a ++ c :: b)) with ((y :: a) ++ c :: b).
    rewrite prefixb_sep by exact Hc. rewrite E. rewrite IH by exact H.
    cbn [length]. now destruct (indexOf needle b).
Qed.

Lemma indexOf_here (needle s : jsstring) : indexOf needle (needle ++ s) = Some O.
Proof.
  destruct (needle ++ s) eqn:E; cbn [indexOf]; rewrite <- E, prefixb_refl_app; reflexivity.
Qed.

Lemma skipn_two (a b c : jsstring) : skipn (length a + length b) (a ++ b ++ c) = c.
Proof.
  induction a as [|x a IH]; cbn [length Nat.add app skipn]; [|exact IH].
  induction b as [|y b IHb]; cbn [length app skipn]; [reflexivity | exact IHb].
Qed.

Lemma String_replace_at (needle repl pre post : jsstring) :
  indexOf needle (pre ++ needle ++ post) = Some (length pre) ->
  String_replace needle repl (pre ++ needle ++ post)
  = pre ++ GetSubstitution needle pre post repl ++ post.
Proof.
  intros H. unfold String_replace. rewrite H. cbn zeta.
  now rewrite firstn_length_app, skipn_two.
Qed.

Lemma GetSubstitution_literal (matched before after t : jsstring) :
  literal_replacement t = true -> GetSubstitution matched before after t = t.
Proof.
  induction t as [|c r IH]; [reflexivity|]. cbn [literal_replacement GetSubstitution].
  intros H. apply andb_true_iff in H as [H1 H2]. rewrite (IH H2).
  destruct (c =? 36) eqn:E; [|reflexivity]. apply N.eqb_eq in E. subst c.
  destruct r as [|d r']; [reflexivity|]. cbn [andb negb] in H1.
  apply negb_true_iff in H1. rewrite !orb_false_iff in H1.
  destruct H1 as [[[-> ->] ->] ->]. reflexivity.
Qed.

Lemma templates_ok (st : style) : template_ok (getEmailTemplate st) = true.
Proof. destruct st; vm_compute; reflexivity. Qed.

Lemma applyTemplate_pieces (template title content : jsstring) :
  template_ok template = true ->
  literal_replacement title = true ->
  count (lit "{{CONTENT}}") title = 0%nat ->
  applyTemplate template title content
  = head_piece (pieces_of template) ++ title ++ middle_piece (pieces_of template)
    ++ GetSubstitution (lit "{{CONTENT}}")
         (head_piece (pieces_of template) ++ title ++ middle_piece (pieces_of template))
         (tail_piece (pieces_of template)) content
    ++ tail_piece (pieces_of template).
Proof.
  intros Hok Hlit Hcount. unfold template_ok in Hok. cbn zeta in Hok.
  set (p := pieces_of template) in *.
  destruct (indexOf (lit "{{TITLE}}") template) as [n|] eqn:Hn;
    [|now rewrite !andb_false_r in Hok].
  rewrite !andb_true_iff, !negb_true_iff in Hok.
  destruct Hok as [[[[Heq Hh] Hlt] Hm] Hlen].
  apply eqb_str_eq in Heq. apply Nat.eqb_eq in Hlen. subst n.
  unfold applyTemplate. rewrite Heq at 1.
  rewrite String_replace_at by (rewrite <- Heq; exact Hn).
  rewrite GetSubstitution_literal by exact Hlit.
  destruct (middle_piece p) as [|c mid] eqn:Em; [discriminate|].
  cbn [prefixb] in Hlt. apply andb_true_iff in Hlt as [Hc _]. apply N.eqb_eq in Hc.
  subst c. change (N_of_ascii "<") with 60 in *. cbn [existsb] in Hm. apply orb_false_iff in Hm as [_ Hm].
  assert (Hidx : indexOf (lit "{{CONTENT}}")
                   ((head_piece p ++ title ++ 60 :: mid) ++ lit "{{CONTENT}}" ++ tail_piece p)
                 = Some (length (head_piece p ++ title ++ 60 :: mid))).
  { rewrite <- !app_assoc. change (lit "{{CONTENT}}") with (123 :: lit "{CONTENT}}").
    rewrite indexOf_nohead by exact Hh.
    cbn [app]. change (123 :: lit "{CONTENT}}") with (lit "{{CONTENT}}").
    rewrite indexOf_sep by (try exact Hcount; try discriminate; reflexivity).
    change (lit "{{CONTENT}}") with (123 :: lit "{CONTENT}}").
    rewrite indexOf_nohead by exact Hm.
    change (123 :: lit "{CONTENT}}" ++ tail_piece p) with (lit "{{CONTENT}}" ++ tail_piece p).
    rewrite indexOf_here. cbn [option_map]. f_equal.
    rewrite !length_app. cbn [length]. lia. }
  match goal with
  | |- String_replace _ _ ?x = _ =>
      replace x with ((head_piece p ++ title ++ 60 :: mid)
                      ++ lit "{{CONTENT}}" ++ tail_piece p)
        by (now rewrite <- !app_assoc)
  end.
  rewrite String_replace_at by exact Hidx.
  now rewrite <- !app_assoc.
Qed.
Lemma GetSubstitution_nodollar (matched before after a t : jsstring) :
  existsb (N.eqb 36) a = false ->
  GetSubstitution matched before after (a ++ t) = a ++ GetSubstitution matched before after t.
Proof.
  induction a as [|c a IH]; intros H; [reflexivity|].
  cbn [existsb] in H. apply orb_false_iff in H as [Hc Ha].
  cbn [app GetSubstitution]. rewrite N.eqb_sym, Hc. now rewrite IH.
Qed.

(** ** The ignore file *)

Lemma code_units_app (a b : jsstring) : code_units (a ++ b) = code_units a && code_units b.
Proof. apply forallb_app. Qed.

Lemma utf16_of_cp_units (cp : N) : cp < 2097152 -> code_units (utf16_of_cp cp) = true.
Proof.
  intros H. unfold utf16_of_cp, code_units.
  destruct (cp <? 65536) eqn:E; cbn [forallb]; rewrite ?E, ?andb_true_r; [reflexivity|].
  apply N.ltb_ge in E. rewrite andb_true_iff, !N.ltb_lt. lia.
Qed.

Lemma utf8_lead_units (b : N) :
  b < 256 ->
  code_units (fst (utf8_lead b)) = true
  /\ match snd (utf8_lead b) with
     | (O, _, _, _) => True
     | (1%nat, c, _, _) => c < 32768
     | (2%nat, c, _, _) => c < 512
     | (3%nat, c, _, _) => c < 8
     | _ => False
     end.
Proof.
  intros Hb. unfold utf8_lead.
  destruct (b <? 128) eqn:E1.
  { cbn [fst snd code_units forallb]. apply N.ltb_lt in E1. split; [|exact I].
    rewrite andb_true_r. apply N.ltb_lt. lia. }
  destruct ((194 <=? b) && (b <=? 223)); [cbn [fst snd]; split; [reflexivity | lia]|].
  destruct ((224 <=? b) && (b <=? 239)); [cbn [fst snd]; split; [reflexivity | lia]|].
  destruct ((240 <=? b) && (b <=? 244)); [cbn [fst snd]; split; [reflexivity | lia]|].
  cbn [fst snd]. split; [reflexivity | exact I].
Qed.

(** The decoder gives 16-bit code units. *)
Lemma toString_utf8_from_units (bs : list byte) :
  forall needed cp lower upper,
    match needed with
    | O => True
    | 1%nat => cp < 32768
    | 2%nat => cp < 512
    | 3%nat => cp < 8
    | _ => False
    end ->
    code_units (toString_utf8_from needed cp lower upper bs) = true.
Proof.
  induction bs as [|x rest IH]; intros needed cp lower upper Hst; cbn [toString_utf8_from].
  - destruct needed; reflexivity.
  - pose proof (byte_to_N_lt x) as Hx.
    destruct (utf8_lead_units Hx) as [Hout Hnext].
    destruct (utf8_lead (Byte.to_N x)) as [out [[[n c] lo] hi]] eqn:El.
    cbn [fst snd] in Hout, Hnext.
    destruct needed as [|k].
    + rewrite code_units_app, Hout. now apply IH.
    + destruct ((lower <=? Byte.to_N x) && (Byte.to_N x <=? upper)).
      * destruct k as [|[|[|k]]]; try contradiction.
        -- rewrite code_units_app, utf16_of_cp_units by lia. now apply IH.
        -- apply IH. lia.
        -- apply IH. lia.
      * change (65533 :: out ++ toString_utf8_from n c lo hi rest)
          with ([65533] ++ out ++ toString_utf8_from n c lo hi rest).
        rewrite !code_units_app, Hout. cbn [code_units forallb andb N.ltb N.compare Pos.compare Pos.compare_cont].
        now apply IH.
Qed.

Lemma toString_utf8_units (bs : list byte) : code_units (toString_utf8 bs) = true.
Proof. apply toString_utf8_from_units. exact I. Qed.

Lemma toWellFormed_app (s t : jsstring) :
  starts_clean t = true -> toWellFormed (s ++ t) = toWellFormed s ++ toWellFormed t.
Proof.
  intros Ht.
  assert (G : forall n s, (length s <= n)%nat ->
                          toWellFormed (s ++ t) = toWellFormed s ++ toWellFormed t).
  { induction n as [|n IH]; intros [|c rest] Hlen; try reflexivity;
      cbn [length] in Hlen; [lia|].
    cbn [app toWellFormed].
    destruct (is_high c).
    - destruct rest as [|d rest'].
      + cbn [app]. destruct t as [|e t']; [reflexivity|].
        cbn [starts_clean] in Ht. apply negb_true_iff in Ht. now rewrite Ht.
      + cbn [app]. destruct (is_low d).
        * cbn [app]. do 2 f_equal. apply IH. cbn [length] in Hlen. lia.
        * cbn [app]. f_equal. apply (IH (d :: rest')). lia.
    - destruct (is_low c); cbn [app]; f_equal; apply IH; lia. }
  apply (G (length s)). lia.
Qed.

Lemma Buffer_from_app (s t : jsstring) :
  starts_clean t = true -> Buffer_from (s ++ t) = Buffer_from s ++ Buffer_from t.
Proof.
  intros Ht.
  assert (G : forall n s, (length s <= n)%nat ->
                          Buffer_from (s ++ t) = Buffer_from s ++ Buffer_from t).
  { induction n as [|n IH]; intros [|c rest] Hlen; try reflexivity;
      cbn [length] in Hlen; [lia|].
    cbn [app Buffer_from].
    destruct (is_high c).
    - destruct rest as [|d rest'].
      + cbn [app]. destruct t as [|e t']; [now rewrite app_nil_r|].
        cbn [starts_clean] in Ht. apply negb_true_iff in Ht. rewrite Ht.
        reflexivity.
      + cbn [app]. destruct (is_low d).
        * rewrite <- app_assoc. f_equal. apply IH. cbn [length] in Hlen. lia.
        * rewrite <- app_assoc. f_equal. apply (IH (d :: rest')). lia.
    - destruct (is_low c); rewrite <- app_assoc; f_equal; apply IH; lia. }
  apply (G (length s)). lia.
Qed.

Lemma includes_app (needle a b : jsstring) : includes needle (a ++ needle ++ b) = true.
Proof.
  unfold includes. induction a as [|c a IH].
  - cbn [app]. now rewrite indexOf_here.
  - cbn [app indexOf]. destruct (prefixb needle (c :: a ++ needle ++ b)); [reflexivity|].
    destruct (indexOf needle (a ++ needle ++ b)); [reflexivity | discriminate].
Qed.

Lemma disk_written_read (d : disk) (p : jsstring) (data : list byte) :
  disk_files (mkDisk (fun q => if eqb_str q p then Bytes data else disk_files d q)
                     (disk_write_error d)) p
  = Bytes data.
Proof. cbn [disk_files]. now rewrite eqb_str_refl. Qed.

(** A file that holds the encoding of a text with the pattern in it is left
    alone. *)
Lemma ensureGitignore_settled (d : disk) (p text : jsstring) :
  disk_files d p = Bytes (Buffer_from text) ->
  code_units text = true ->
  includes gitignore_pattern (toWellFormed text) = true ->
  ensureGitignore d p = mkGitignoreRun d None [].
Proof.
  intros Hf Hcu Hinc. unfold ensureGitignore. rewrite Hf. cbn zeta.
  rewrite toString_utf8_Buffer_from by exact Hcu. now rewrite Hinc.
Qed.

Lemma suffix_includes (content : jsstring) (e : bool) :
  code_units content = true ->
  code_units (content ++ gitignore_suffix e) = true
  /\ includes gitignore_pattern (toWellFormed (content ++ gitignore_suffix e)) = true.
Proof.
  intros H. split.
  - rewrite code_units_app, H. now destruct e.
  - rewrite toWellFormed_app by now destruct e.
    replace (toWellFormed (gitignore_suffix e))
      with (((if e then [LF] else [LF; LF]) ++ gitignore_comment ++ [LF])
            ++ gitignore_pattern ++ [LF])
      by (destruct e; vm_compute; reflexivity).
    rewrite app_assoc. apply includes_app.
Qed.

Lemma ensureGitignore_catch_again (d : disk) (p : jsstring) (err : error) :
  rejection (ensureGitignore_catch d p err) = None ->
  ensureGitignore (disk_after (ensureGitignore_catch d p err)) p
  = mkGitignoreRun (disk_after (ensureGitignore_catch d p err)) None [].
Proof.
  unfold ensureGitignore_catch. cbn zeta.
  destruct (is_string "ENOENT" _); [|discriminate].
  unfold fs_writeFile. destruct (disk_write_error d p); [discriminate|].
  cbn [disk_after rejection]. intros _.
  apply (@ensureGitignore_settled _ _ gitignore_fresh).
  - apply disk_written_read.
  - reflexivity.
  - vm_compute. reflexivity.
Qed.

(** ** The brand templates *)

Example semver_accepts : is_semver (lit "1.10.0") = true.
Proof. reflexivity. Qed.

Example semver_rejects :
  map is_semver [lit "1.2"; lit "1.2.3.4"; lit "v1.2.3"; lit "1..3"; lit "1.2.3-rc"; lit ""]
  = [false; false; false; false; false; false].
Proof. reflexivity. Qed.

Example latest_is_numeric :
  getLatestBrandVersion (lit "/home/u/brand")
    (Some [lit "1.9.0"; lit "README"; lit "1.10.0"; lit "0.12.7"])
  = inr (lit "/home/u/brand/1.10.0/templates").
Proof. reflexivity. Qed.

Example to_double_rounds :
  map to_double [9007199254740991; 9007199254740993; 9007199254740995; 2 ^ 1024 - 1]
  = [9007199254740991; 9007199254740992; 9007199254740996; 2 ^ 1024].
Proof. vm_compute. reflexivity. Qed.

Lemma to_double_small (n : N) : n < 9007199254740992 -> to_double n = n.
Proof.
  intros H. unfold to_double. change (2 ^ 53) with 9007199254740992.
  now apply N.ltb_lt in H as ->.
Qed.

(** Below 2^53 the Number values of a version are the numbers it writes. *)
Lemma version_numbers_safe (v : jsstring) :
  safe_version v -> version_numbers v = version_values v.
Proof.
  unfold safe_version, version_numbers, version_values. cbn zeta.
  assert (E : forall i l, nth i (map Number_of_digits l) 0
                          = to_double (nth i (map digits_value l) 0)).
  { intros i l. unfold Number_of_digits.
    rewrite <- (map_map digits_value to_double).
    change 0 with (to_double 0) at 1. apply map_nth. }
  rewrite !E. intros (H1 & H2 & H3). now rewrite !to_double_small.
Qed.

(** The comparator puts [a] before [b], or leaves them, exactly when [b] is
    not the later version. *)
Lemma compare_versions_le (a b : jsstring) :
  safe_version a -> safe_version b ->
  (compare_versions a b <= 0)%Z <-> version_le b a.
Proof.
  intros Ha Hb. unfold compare_versions, version_le.
  rewrite (version_numbers_safe Ha), (version_numbers_safe Hb).
  destruct (version_values a) as [[aMaj aMin] aPat].
  destruct (version_values b) as [[bMaj bMin] bPat]. cbn zeta.
  destruct (Z.of_N bMaj - Z.of_N aMaj =? 0)%Z eqn:E1; cbn [negb];
    [apply Z.eqb_eq in E1 | apply Z.eqb_neq in E1; lia].
  destruct (Z.of_N bMin - Z.of_N aMin =? 0)%Z eqn:E2; cbn [negb];
    [apply Z.eqb_eq in E2 | apply Z.eqb_neq in E2]; lia.
Qed.

Lemma version_le_total (a b : jsstring) : version_le a b \/ version_le b a.
Proof.
  unfold version_le.
  destruct (version_values a) as [[aMaj aMin] aPat].
  destruct (version_values b) as [[bMaj bMin] bPat]. lia.
Qed.

Lemma version_le_trans (a b c : jsstring) : version_le a b -> version_le b c -> version_le a c.
Proof.
  unfold version_le.
  destruct (version_values a) as [[aMaj aMin] aPat].
  destruct (version_values b) as [[bMaj bMin] bPat].
  destruct (version_values c) as [[cMaj cMin] cPat]. lia.
Qed.

Lemma version_le_refl (a : jsstring) : version_le a a.
Proof. destruct (version_le_total a a); assumption. Qed.

Lemma insert_by_nonempty cmp (x : jsstring) (l : list jsstring) : insert_by cmp x l <> [].
Proof. destruct l; cbn [insert_by]; [|destruct (_ <=? _)%Z]; discriminate. Qed.

Lemma sort_by_nil cmp (l : list jsstring) : sort_by cmp l = [] -> l = [].
Proof.
  destruct l as [|x l]; [reflexivity|]. cbn [sort_by]. intros H.
  now apply insert_by_nonempty in H.
Qed.

(** The first element of the sorted array is an element of the array that
    no element is later than. *)
Lemma sort_by_head (l : list jsstring) (h : jsstring) (t : list jsstring) :
  Forall safe_version l ->
  sort_by compare_versions l = h :: t ->
  In h l /\ forall y, In y l -> version_le y h.
Proof.
  intros Hsafe. revert h t; induction Hsafe as [|x rest Hx Hrest IH]; intros h t H;
    [discriminate|].
  cbn [sort_by] in H. destruct (sort_by compare_versions rest) as [|h' t'] eqn:Es.
  - apply sort_by_nil in Es. subst rest. cbn [insert_by] in H. injection H as <- <-.
    split; [now left|]. intros y [<-|[]]. apply version_le_refl.
  - destruct (IH h' t' eq_refl) as [Hin Hmax]. cbn [insert_by] in H.
    assert (Hh' : safe_version h') by (rewrite Forall_forall in Hrest; now apply Hrest).
    destruct (compare_versions x h' <=? 0)%Z eqn:E.
    + injection H as <- <-. apply Z.leb_le, (compare_versions_le Hx Hh') in E.
      split; [now left|]. intros y [<-|Hy]; [apply version_le_refl|].
      apply (@version_le_trans y h' x); [now apply Hmax | exact E].
    + injection H as <- <-. apply Z.leb_gt in E.
      split; [now right|]. intros y [<-|Hy]; [|now apply Hmax].
      destruct (version_le_total x h') as [L|L]; [exact L|].
      apply (compare_versions_le Hx Hh') in L. lia.
Qed.

(** ** The base64 text of an attachment *)

Lemma sextets_to_url_any (s : jsstring) : sextets (map to_url s) = sextets s.
Proof.
  induction s as [|c s IH]; [reflexivity|]. cbn [map sextets]. rewrite IH.
  unfold to_url.
  destruct (c =? 43) eqn:E43; [apply N.eqb_eq in E43; subst c; reflexivity|].
  destruct (c =? 47) eqn:E47; [apply N.eqb_eq in E47; subst c; reflexivity|].
  reflexivity.
Qed.

Lemma sextets_alphabet (l : list N) :
  Forall (fun i => i < 64) l -> sextets (map b64_char l) = l.
Proof.
  intros H. rewrite <- (sextets_to_url_any (map b64_char l)).
  rewrite <- (sextets_of_url_any (map to_url (map b64_char l))).
  now apply sextets_of_url.
Qed.

Lemma sextets_padding (a pad : jsstring) :
  forallb (fun x => x =? 61) pad = true -> sextets (a ++ pad) = sextets a.
Proof.
  intros H. induction a as [|c a IH]; cbn [app sextets].
  - destruct pad as [|x pad]; [reflexivity|]. cbn [forallb] in H.
    apply andb_true_iff in H as [Hx _]. cbn [sextets]. now rewrite Hx.
  - rewrite IH. reflexivity.
Qed.

Lemma padding_eq (bs : list byte) : forallb (fun x => x =? 61) (padding bs) = true.
Proof. induction bs as [| a | a b | a b c l IH] using list_ind3; auto. Qed.

Lemma sextets_toString_base64 (bs : list byte) :
  sextets (toString_base64 bs) = data_sextets bs.
Proof.
  rewrite toString_base64_eq, sextets_padding by apply padding_eq.
  apply sextets_alphabet, data_sextets_lt.
Qed.

(** The decoder steps over a line break. *)
Lemma sextets_line_break (a b : jsstring) : sextets (a ++ nl ++ b) = sextets (a ++ b).
Proof.
  induction a as [|c a IH]; [reflexivity|]. cbn [app sextets]. now rewrite IH.
Qed.

Lemma sextets_join_nl (l : list jsstring) : sextets (join nl l) = sextets (concat l).
Proof.
  induction l as [|x l IH]; [reflexivity|]. cbn [join concat].
  destruct l as [|y l]; [now rewrite app_nil_r|].
  rewrite sextets_line_break.
  revert IH. generalize (join nl (y :: l)), (concat (y :: l)). intros u v IH.
  induction x as [|c x IHx]; [exact IH|]. cbn [app sextets]. now rewrite IHx.
Qed.

(** The pieces of the match make up the text they were cut from. *)
Lemma concat_match_dot_1_76 (s : jsstring) :
  no_lt s = true ->
  forall n cur, concat (match_dot_1_76 n cur s) = rev cur ++ s.
Proof.
  induction s as [|c s IH]; intros H n cur; cbn [match_dot_1_76].
  - destruct cur; [reflexivity|]. cbn [concat]. now rewrite !app_nil_r.
  - cbn [no_lt forallb] in H. apply andb_true_iff in H as [Hc Hs].
    apply negb_true_iff in Hc. rewrite Hc.
    destruct n as [|[|k]]; cbn [concat]; rewrite (IH Hs); cbn [rev app];
      now rewrite <- ?app_assoc.
Qed.

Lemma b64_text_no_lt_alphabet (bs : list byte) : no_lt (toString_base64 bs) = true.
Proof.
  rewrite toString_base64_eq. unfold no_lt. rewrite forallb_app. apply andb_true_iff. split.
  - pose proof (data_sextets_lt bs) as H. induction H as [|i l Hi _ IH]; [reflexivity|].
    cbn [map forallb]. rewrite IH, andb_true_r. apply negb_true_iff.
    unfold is_lt, b64_char.
    repeat match goal with
           | |- context [if ?b then _ else _] => destruct b eqn:?
           end;
      rewrite ?N.ltb_lt, ?N.ltb_ge, ?N.eqb_eq, ?N.eqb_neq in *;
      rewrite !orb_false_iff, !N.eqb_neq; lia.
  - induction bs as [| a | a b | a b c l IH] using list_ind3; auto.
Qed.

(** Every piece has at most 76 code units. *)
Lemma match_dot_1_76_lengths (s : jsstring) :
  forall n cur, (length cur + n = 76)%nat -> (1 <= n)%nat ->
  Forall (fun piece => (length piece <= 76)%nat /\ no_lt piece = true /\ piece <> [])
         (match_dot_1_76 n cur s)
  \/ no_lt (rev cur) = false.
Proof.
  induction s as [|c s IH]; intros n cur Hlen Hn; cbn [match_dot_1_76].
  - destruct (no_lt (rev cur)) eqn:E; [left | now right].
    destruct cur as [|x cur]; [constructor|]. constructor; [|constructor].
    rewrite length_rev. repeat split; [lia | exact E |].
    cbn [rev]. intros H. now apply app_eq_nil in H as [_ H].
  - destruct (no_lt (rev cur)) eqn:E; [|now right].
    assert (Hpiece : forall x, is_lt x = false ->
              (length (rev (x :: cur)) <= 76)%nat /\ no_lt (rev (x :: cur)) = true
              /\ rev (x :: cur) <> []).
    { intros x Hx. rewrite length_rev. cbn [length rev]. repeat split; [lia | |].
      - unfold no_lt in *. rewrite forallb_app, E. cbn [forallb]. now rewrite Hx.
      - intros H. now apply app_eq_nil in H as [_ H]. }
    assert (Hrest : Forall (fun piece => (length piece <= 76)%nat /\ no_lt piece = true
                                          /\ piece <> [])
                      (match_dot_1_76 76 [] s)).
    { destruct (IH 76%nat [] eq_refl) as [H|H]; [lia | exact H | discriminate H]. }
    left. destruct (is_lt c) eqn:Ec.
    + destruct cur as [|x cur]; [exact Hrest|]. constructor; [|exact Hrest].
      rewrite length_rev. repeat split; [lia | exact E |].
      cbn [rev]. intros H. now apply app_eq_nil in H as [_ H].
    + destruct n as [|[|k]]; try (constructor; [now apply Hpiece | exact Hrest]).
      destruct (IH (S k) (c :: cur)) as [H|H]; [cbn [length]; lia | lia | exact H |].
      destruct (Hpiece c Ec) as (_ & Hno & _). congruence.
Qed.

Lemma js_lines_piece (p rest : jsstring) :
  no_lt p = true -> js_lines (p ++ nl ++ rest) = p :: [] :: js_lines rest.
Proof.
  induction p as [|c p IH]; intros H; [reflexivity|].
  cbn [no_lt forallb] in H. apply andb_true_iff in H as [Hc Hp].
  apply negb_true_iff in Hc. cbn [app js_lines]. rewrite Hc.
  now rewrite (IH Hp).
Qed.

Lemma js_lines_single (p : jsstring) : no_lt p = true -> js_lines p = [p].
Proof.
  induction p as [|c p IH]; intros H; [reflexivity|].
  cbn [no_lt forallb] in H. apply andb_true_iff in H as [Hc Hp].
  apply negb_true_iff in Hc. cbn [js_lines]. rewrite Hc. now rewrite (IH Hp).
Qed.

(** ** MIME types *)

Lemma takeWhile_app_stop (f : char -> bool) (a b : jsstring) (c : char) :
  forallb f a = true -> f c = false -> takeWhile f (a ++ c :: b) = a.
Proof.
  intros Ha Hc. induction a as [|x a IH]; cbn [app takeWhile].
  - now rewrite Hc.
  - cbn [forallb] in Ha. apply andb_true_iff in Ha as [Hx Ha]. rewrite Hx. now rewrite IH.
Qed.

Lemma takeWhile_app_pass (f : char -> bool) (a b : jsstring) :
  forallb f a = true -> takeWhile f (a ++ b) = a ++ takeWhile f b.
Proof.
  induction a as [|x a IH]; [reflexivity|]. cbn [forallb app takeWhile].
  intros [Hx Ha]%andb_true_iff. rewrite Hx. now rewrite IH.
Qed.

Lemma takeWhile_all (f : char -> bool) (a : jsstring) :
  forallb f a = true -> takeWhile f a = a.
Proof.
  induction a as [|x a IH]; [reflexivity|]. cbn [forallb takeWhile].
  intros [Hx Ha]%andb_true_iff. rewrite Hx. now rewrite IH.
Qed.

Lemma mimeTypes_keys (k v : jsstring) :
  In (k, v) mimeTypes ->
  (exists ks, k = 46 :: ks /\ ks <> [] /\ forallb is_lower ks = true)
  /\ find (fun kv => eqb_str (fst kv) k) mimeTypes = Some (k, v).
Proof.
  unfold mimeTypes. cbn [In].
  intros H.
  repeat (destruct H as [H|H];
          [injection H as <- <-; split;
           [eexists; split; [reflexivity | split; [discriminate | reflexivity]]
           | vm_compute; reflexivity]|]).
  contradiction.
Qed.

Lemma toLowerCase_preimage (e ks : jsstring) :
  toLowerCase e = 46 :: ks -> forallb is_lower ks = true ->
  exists es, e = 46 :: es /\ length es = length ks
             /\ forallb (fun c => negb (c =? 46) && negb (c =? 47)) es = true.
Proof.
  unfold toLowerCase. destruct e as [|d es]; [discriminate|]. cbn [map].
  intros H Hks. injection H as Hd Hes. exists es.
  assert (Ed : d = 46).
  { destruct (is_upper d) eqn:E; [|exact Hd]. unfold is_upper in E.
    rewrite andb_true_iff, !N.leb_le in E. lia. }
  subst d. split; [reflexivity|]. split; [now rewrite <- Hes, length_map|].
  subst ks. induction es as [|c es IH]; [reflexivity|].
  cbn [map forallb] in *. apply andb_true_iff in Hks as [Hc Hks].
  rewrite (IH Hks), andb_true_r.
  apply andb_true_iff; split; apply negb_true_iff, N.eqb_neq; intros ->;
    vm_compute in Hc; discriminate Hc.
Qed.

Lemma eqb_str_length (a b : jsstring) : eqb_str a b = true -> length a = length b.
Proof. intros H. apply eqb_str_eq in H. now subst. Qed.

(** The extension of a name that ends with a dot and a run without dot and
    slash, the dot not being the first code unit of the name. *)
Lemma extname_suffix (prefix es : jsstring) (c : char) :
  c <> 47 -> es <> [] ->
  forallb (fun c => negb (c =? 46) && negb (c =? 47)) es = true ->
  extname (prefix ++ c :: 46 :: es) = 46 :: es.
Proof.
  intros Hc Hne Hes.
  assert (H46 : forallb (fun c => negb (c =? 46)) (rev es) = true).
  { apply forallb_rev. revert Hes. apply forallb_impl. intros x Hx.
    now apply andb_true_iff in Hx as [Hx _]. }
  assert (H47 : forallb (fun c => negb (c =? 47)) (rev es) = true).
  { apply forallb_rev. revert Hes. apply forallb_impl. intros x Hx.
    now apply andb_true_iff in Hx as [_ Hx]. }
  assert (Hrev : forall pre, rev (pre ++ c :: 46 :: es) = rev es ++ 46 :: c :: rev pre).
  { intros pre. rewrite rev_app_distr. cbn [app rev]. now rewrite <- !app_assoc. }
  set (seg := rev (takeWhile (fun c => negb (c =? 47)) (rev prefix))).
  assert (Hb : basename (prefix ++ c :: 46 :: es) = seg ++ c :: 46 :: es).
  { unfold basename. cbn zeta. rewrite Hrev.
    assert (Hd : dropWhile (fun c => c =? 47) (rev es ++ 46 :: c :: rev prefix)
                 = rev es ++ 46 :: c :: rev prefix).
    { destruct (rev es) as [|x r] eqn:Er.
      - apply (f_equal (@rev char)) in Er. rewrite rev_involutive in Er. now subst es.
      - cbn [forallb] in H47. apply andb_true_iff in H47 as [Hx _].
        apply negb_true_iff in Hx. cbn [app dropWhile]. now rewrite Hx. }
    rewrite Hd. rewrite <- Hrev, rev_involutive, Hrev.
    assert (Ht : takeWhile (fun c => negb (c =? 47)) (rev es ++ 46 :: c :: rev prefix)
                 = rev es ++ 46 :: c :: takeWhile (fun c => negb (c =? 47)) (rev prefix)).
    { rewrite takeWhile_app_pass by exact H47. cbn [takeWhile N.eqb Pos.eqb negb].
      apply N.eqb_neq in Hc. now rewrite Hc. }
    rewrite Ht. rewrite rev_app_distr. cbn [rev]. rewrite rev_involutive.
    unfold seg. now rewrite <- !app_assoc. }
  unfold extname. cbn zeta. rewrite Hb, Hrev.
  rewrite takeWhile_app_stop by (first [exact H46 | reflexivity]).
  rewrite rev_involutive.
  replace (Nat.eqb (length es) (length (seg ++ c :: 46 :: es))) with false
    by (symmetry; apply Nat.eqb_neq; rewrite !length_app; cbn [length]; lia).
  replace (Nat.eqb (S (length es)) (length (seg ++ c :: 46 :: es))) with false
    by (symmetry; apply Nat.eqb_neq; rewrite !length_app; cbn [length]; lia).
  destruct (eqb_str (seg ++ c :: 46 :: es) (lit "..")) eqn:E; [|reflexivity].
  apply eqb_str_length in E. change (length (lit "..")) with 2%nat in E.
  rewrite !length_app in E. cbn [length] in E.
  destruct es; [congruence|]. cbn [length] in E. lia.
Qed.

(** ** Paragraphs *)

Lemma count_join_LF (needle : jsstring) (lines : list jsstring) :
  needle <> [] -> existsb (N.eqb LF) needle = false ->
  count needle (join [LF] lines) = count_lines needle lines.
Proof.
  intros Hne Hlf. induction lines as [|l rest IH]; [reflexivity|].
  cbn [join count_lines]. destruct rest as [|l' rest'].
  - cbn [count_lines]. lia.
  - cbn [app]. rewrite count_app_sep by assumption. now rewrite IH.
Qed.

Lemma count_split_LF (needle s : jsstring) :
  needle <> [] -> existsb (N.eqb LF) needle = false ->
  count needle s = count_lines needle (split LF s).
Proof.
  intros Hne Hlf. rewrite <- (join_split LF s) at 1. now apply count_join_LF.
Qed.

Section ParagraphTags.
Variable sty : style.
Let st := styles_of sty.
Let open := otag "p" (styles.p st).
Let close := lit "</p>".

Lemma open_shape :
  exists tail, open = 60 :: tail /\ existsb (N.eqb 60) tail = false
               /\ existsb (N.eqb LF) open = false
               /\ prefixb close open = false.
Proof.
  unfold open, st. destruct sty; eexists; (split; [reflexivity|]); vm_compute; auto.
Qed.

Lemma count_open_opened (line : jsstring) :
  count open (open ++ line) = S (count open line)
  /\ count close (open ++ line) = count close line.
Proof.
  assert (Hp : prefixb (lit "</p>") (open ++ line) = false)
    by (unfold open, st; destruct sty; vm_compute; reflexivity).
  destruct open_shape as (tail & E & Htail & _ & _). unfold close. rewrite E in *.
  cbn [app] in *. cbn [count]. split.
  - pose proof (prefixb_refl_app (60 :: tail) line) as R. cbn [app] in R. rewrite R.
    now rewrite count_app_nohead.
  - rewrite Hp. change (lit "</p>") with (60 :: lit "/p>").
    now rewrite count_app_nohead.
Qed.

(** The loop closes every paragraph it opens. *)
Lemma wrap_lines_balanced (lines : list jsstring) :
  forall inParagraph : bool,
    (count_lines open (wrap_lines st inParagraph lines) + count_lines close lines
     + Nat.b2n inParagraph
     = count_lines close (wrap_lines st inParagraph lines) + count_lines open lines)%nat.
Proof.
  assert (Hc : count open (lit "</p>") = 0%nat /\ count close (lit "</p>") = 1%nat).
  { unfold open, close, st. destruct sty; vm_compute; auto. }
  destruct Hc as [Hc1 Hc2].
  induction lines as [|line rest IH]; intros inP; cbn [wrap_lines].
  - destruct inP; cbn [count_lines Nat.b2n]; rewrite ?Hc1, ?Hc2; lia.
  - fold st. destruct (is_empty (trim line) || isBlockElement (trim line)) eqn:E.
    + assert (W : (if is_empty (trim line)
                   then (if inP then [lit "</p>"] else []) ++ line :: wrap_lines st false rest
                   else if isBlockElement (trim line)
                        then (if inP then [lit "</p>"] else []) ++ line :: wrap_lines st false rest
                        else if negb inP
                             then (otag "p" (styles.p st) ++ line) :: wrap_lines st true rest
                             else line :: wrap_lines st true rest)
                  = (if inP then [lit "</p>"] else []) ++ line :: wrap_lines st false rest).
      { destruct (is_empty (trim line)); [reflexivity|]. cbn [orb] in E. now rewrite E. }
      rewrite W. specialize (IH false). cbn [Nat.b2n] in IH.
      destruct inP; cbn [app count_lines Nat.b2n]; rewrite ?Hc1, ?Hc2; lia.
    + apply orb_false_iff in E as [E1 E2]. rewrite E1, E2.
      specialize (IH true). cbn [Nat.b2n] in IH. destruct inP; cbn [negb count_lines Nat.b2n].
      * lia.
      * fold open. destruct (count_open_opened line) as [-> ->]. lia.
Qed.
End ParagraphTags.

(** ** The passes on text they do not concern *)

Lemma render_body_split (st : styles.t) (md : jsstring) :
  render_body st md
  = block_passes st (inline_passes st (heading_passes st (first_passes st md))).
Proof. reflexivity. Qed.

Lemma line_matcher_anchored valid cb : anchored (line_matcher valid cb).
Proof. intros s. reflexivity. Qed.

(** A pass that needs the start of a line changes nothing when it finds
    nothing at any line start of the text. *)
Lemma replace_quiet (m : matcher) (Q : jsstring -> bool) :
  anchored m -> (forall bol, m bol [] = None) ->
  (forall s, Q s = true -> m true s = None) ->
  forall s bol, starts_ok Q bol s = true -> replace_from m 0 bol s = s.
Proof.
  intros Ha Hnil HQ. induction s as [|c rest IH]; intros bol H; cbn [replace_from].
  - now rewrite Hnil.
  - cbn [starts_ok] in H. apply andb_true_iff in H as [Hq Hrest].
    destruct bol.
    + rewrite (HQ _ Hq). now rewrite IH.
    + rewrite Ha. now rewrite IH.
Qed.

Lemma starts_ok_line (Q : jsstring -> bool) (l R : jsstring) :
  no_lt l = true -> starts_ok Q false (l ++ R) = starts_ok Q false R.
Proof.
  induction l as [|c l IH]; [reflexivity|]. cbn [no_lt forallb].
  intros [Hc Hl]%andb_true_iff. apply negb_true_iff in Hc.
  cbn [app starts_ok]. rewrite Hc. cbn [andb]. now apply IH.
Qed.

Lemma starts_ok_lines (Q : jsstring -> bool) (L : list jsstring) :
  (forall r, Q (LF :: r) = true) ->
  Forall (fun l => no_lt l = true /\ (l = [] \/ forall r, Q (l ++ r) = true)) L ->
  starts_ok Q true (join [LF] L) = true.
Proof.
  intros HLF H. induction H as [|l L [Hno Hl] HL IH]; [reflexivity|].
  cbn [join].
  assert (G : forall R, (R = [] \/ R = LF :: join [LF] L) -> starts_ok Q true (l ++ R) = true).
  { intros R HR.
    assert (HRf : starts_ok Q false R = true).
    { destruct HR as [->| ->]; [reflexivity|]. cbn [starts_ok]. exact IH. }
    destruct l as [|c l'].
    - cbn [app]. destruct HR as [->| ->]; [reflexivity|].
      cbn [starts_ok]. rewrite HLF. exact IH.
    - destruct Hl as [Hl|Hl]; [discriminate|].
      cbn [app starts_ok]. change (c :: l' ++ R) with ((c :: l') ++ R). rewrite Hl.
      cbn [no_lt forallb] in Hno. apply andb_true_iff in Hno as [Hc Hno].
      apply negb_true_iff in Hc. rewrite Hc. cbn [andb].
      now rewrite starts_ok_line. }
  destruct L as [|l' L'].
  - rewrite <- (app_nil_r l). apply G. now left.
  - apply G. now right.
Qed.

Lemma inert_quiet (m : matcher) (P : char -> bool) :
  inert m P -> forall s, head_is P s = true -> m true s = None.
Proof.
  intros [Hnil Hc] [|c r] H; [apply Hnil | now apply Hc].
Qed.

(** A pass whose pattern starts with a given code unit at the start of a
    line leaves lines alone that start otherwise. *)
Lemma replace_heads (m : matcher) (P : char -> bool) (L : list jsstring) :
  anchored m -> inert m P -> P LF = true ->
  Forall (fun l => no_lt l = true /\ head_is P l = true) L ->
  replace_g m (join [LF] L) = join [LF] L.
Proof.
  intros Ha Hi HLF HL. unfold replace_g.
  apply (@replace_quiet m (head_is P) Ha (proj1 Hi) (inert_quiet Hi)).
  apply starts_ok_lines; [intros r; exact HLF|].
  revert HL. apply Forall_impl. intros l [Hno Hh]. split; [exact Hno|].
  destruct l as [|c l']; [now left | right; intros r; exact Hh].
Qed.

Lemma replace_g_inert (m : matcher) (P : char -> bool) (s : jsstring) :
  inert m P -> forallb P s = true -> replace_g m s = s.
Proof. intros Hi H. unfold replace_g. now apply (@replace_inert m P s Hi H). Qed.

Lemma blockquote_inert st : inert (blockquote_matcher st) (is_not 62).
Proof.
  apply run_matcher_inert; [reflexivity|]. intros c l H. unfold valid_quote_line.
  now rewrite prefixb_head.
Qed.

(** ** Lists of lines *)

Lemma join_app (sep : jsstring) (a b : list jsstring) :
  a <> [] -> b <> [] -> join sep (a ++ b) = join sep a ++ sep ++ join sep b.
Proof.
  intros Ha Hb. induction a as [|x a IH]; [congruence|]. clear Ha.
  destruct a as [|y a].
  - cbn [app join]. destruct b; [congruence | reflexivity].
  - change ((x :: y :: a) ++ b) with (x :: (y :: a) ++ b).
    cbn [join]. cbn [app]. change (y :: a ++ b) with ((y :: a) ++ b).
    rewrite IH by discriminate. cbn [join]. now rewrite <- !app_assoc.
Qed.

Lemma join_cons_prefix (sep a : jsstring) (l : jsstring) (ls : list jsstring) :
  join sep ((a ++ l) :: ls) = a ++ join sep (l :: ls).
Proof. cbn [join]. destruct ls; [reflexivity | now rewrite <- app_assoc]. Qed.

Lemma split_join_LF (L : list jsstring) :
  L <> [] -> Forall (fun l => forallb (is_not LF) l = true) L ->
  split LF (join [LF] L) = L.
Proof.
  intros Hne H. revert Hne. induction H as [|l L Hl HL IH]; intros Hne;
    [exfalso; now apply Hne|].
  clear Hne. cbn [join]. destruct L as [|l' L'].
  - now apply split_no_sep.
  - cbn [app]. rewrite split_app_sep by exact Hl. now rewrite IH by discriminate.
Qed.

Lemma paragraph_lines_nonempty (ps : list (list jsstring)) :
  ps <> [] -> Forall (fun p => p <> []) ps -> paragraph_lines ps <> [].
Proof.
  intros Hne H. destruct H as [|p ps Hp Hps]; [congruence|].
  cbn [paragraph_lines]. destruct ps; [exact Hp|]. destruct p; [congruence | discriminate].
Qed.

Lemma join_paragraphs (ps : list (list jsstring)) :
  Forall (fun p => p <> []) ps ->
  join [LF; LF] (map (join [LF]) ps) = join [LF] (paragraph_lines ps).
Proof.
  induction 1 as [|p ps Hp Hps IH]; [reflexivity|].
  cbn [map join paragraph_lines]. destruct ps as [|q ps']; [reflexivity|].
  cbn [map] in *. rewrite IH.
  rewrite join_app by (first [exact Hp | discriminate]).
  assert (Hq : paragraph_lines (q :: ps') <> [])
    by (apply paragraph_lines_nonempty; [discriminate | exact Hps]).
  cbn [join]. destruct (paragraph_lines (q :: ps')); [congruence|].
  reflexivity.
Qed.

Lemma paragraph_lines_Forall (R : jsstring -> Prop) (ps : list (list jsstring)) :
  R [] -> Forall (fun p => Forall R p) ps -> Forall R (paragraph_lines ps).
Proof.
  intros H0. induction 1 as [|p ps Hp Hps IH]; [constructor|].
  cbn [paragraph_lines]. destruct ps; [exact Hp|].
  apply Forall_app. split; [exact Hp|]. constructor; [exact H0 | exact IH].
Qed.

(** ** Loose lines *)

Lemma loose_line_facts (l : jsstring) :
  loose_line l = true ->
  inline_text l = true /\ no_lt l = true /\ head_is plain_head l = true
  /\ is_empty (trim l) = false /\ isBlockElement (trim l) = false /\ l <> [].
Proof.
  unfold loose_line. rewrite !andb_true_iff, !negb_true_iff.
  intros [[[Hi Hh] Hn] Hb]. unfold nonblank in Hn. apply negb_true_iff in Hn.
  repeat split; try assumption.
  - revert Hi. apply forallb_impl. intros c Hc. unfold inline_char in Hc.
    now apply andb_true_iff in Hc as [_ Hc].
  - destruct l; [discriminate | exact Hh].
  - destruct l; [discriminate | discriminate].
Qed.

Lemma inline_char_is_not (t c : char) :
  In t [96; 42; 91] -> inline_char c = true -> is_not t c = true.
Proof.
  intros Ht H. unfold inline_char in H. apply andb_true_iff in H as [H _].
  apply negb_true_iff in H. rewrite !orb_false_iff in H. destruct H as [[H1 H2] H3].
  unfold is_not. cbn [In] in Ht.
  destruct Ht as [<-|[<-|[<-|[]]]]; now apply negb_true_iff.
Qed.

Lemma plain_head_is (c : char) :
  plain_head c = true ->
  is_not 124 c = true /\ is_not 35 c = true /\ is_not 45 c = true /\ is_not 62 c = true
  /\ negb (is_digit c) = true.
Proof.
  unfold plain_head, is_not. rewrite negb_true_iff, !orb_false_iff.
  intros [[[[H1 H2] H3] H4] H5]. now rewrite H1, H2, H3, H4, H5.
Qed.

Lemma passes_passive (st : styles.t) (L : list jsstring) :
  Forall passive_line L ->
  replace_g (ol_matcher st)
    (replace_g (ul_matcher st)
       (replace_g (blockquote_matcher st)
          (replace_g (hr_matcher st)
             (inline_passes st (heading_passes st (first_passes st (join [LF] L)))))))
  = join [LF] L.
Proof.
  intros H.
  assert (Hn : forall t, In t [96; 42; 91] -> forallb (is_not t) (join [LF] L) = true).
  { intros t Ht. apply join_text.
    - cbn [In] in Ht. destruct Ht as [<-|[<-|[<-|[]]]]; reflexivity.
    - revert H. apply Forall_impl. intros l (Hi & _ & _). revert Hi.
      apply forallb_impl. intros c. now apply inline_char_is_not. }
  assert (Hh : forall P : char -> bool,
             (forall c, plain_head c = true -> P c = true) ->
             Forall (fun l => no_lt l = true /\ head_is P l = true) L).
  { intros P HP. revert H. apply Forall_impl. intros l (_ & Hno & Hhead).
    split; [exact Hno|]. destruct l as [|c l']; [reflexivity|]. now apply HP. }
  unfold first_passes, heading_passes, inline_passes. cbn zeta.
  rewrite (@replace_g_inert (codeblock_matcher st) (is_not 96) (join [LF] L))
    by (first [apply codeblock_inert | apply Hn; cbn; tauto]).
  rewrite (@replace_heads (table_matcher st) (is_not 124) L)
    by (first [apply run_matcher_anchored | apply table_inert | reflexivity
              | apply Hh; intros c Hc; apply (plain_head_is c Hc)]).
  change (lit "#### ") with (35 :: lit "### ").
  rewrite (@replace_heads (heading_matcher (35 :: lit "### ") "h4" (styles.h4 st)) (is_not 35) L)
    by (first [apply line_matcher_anchored | apply heading_inert | reflexivity
              | apply Hh; intros c Hc; apply (plain_head_is c Hc)]).
  change (lit "### ") with (35 :: lit "## ").
  rewrite (@replace_heads (heading_matcher (35 :: lit "## ") "h3" (styles.h3 st)) (is_not 35) L)
    by (first [apply line_matcher_anchored | apply heading_inert | reflexivity
              | apply Hh; intros c Hc; apply (plain_head_is c Hc)]).
  change (lit "## ") with (35 :: lit "# ").
  rewrite (@replace_heads (heading_matcher (35 :: lit "# ") "h2" (styles.h2 st)) (is_not 35) L)
    by (first [apply line_matcher_anchored | apply heading_inert | reflexivity
              | apply Hh; intros c Hc; apply (plain_head_is c Hc)]).
  change (lit "# ") with (35 :: lit " ").
  rewrite (@replace_heads (heading_matcher (35 :: lit " ") "h1" (styles.h1 st)) (is_not 35) L)
    by (first [apply line_matcher_anchored | apply heading_inert | reflexivity
              | apply Hh; intros c Hc; apply (plain_head_is c Hc)]).
  rewrite (@replace_g_inert (bold_matcher st) (is_not 42) (join [LF] L))
    by (first [apply bold_inert | apply Hn; cbn; tauto]).
  rewrite (@replace_g_inert (italic_matcher st) (is_not 42) (join [LF] L))
    by (first [apply italic_inert | apply Hn; cbn; tauto]).
  rewrite (@replace_g_inert (link_matcher st) (is_not 91) (join [LF] L))
    by (first [apply link_inert | apply Hn; cbn; tauto]).
  rewrite (@replace_g_inert (code_matcher st) (is_not 96) (join [LF] L))
    by (first [apply code_inert | apply Hn; cbn; tauto]).
  rewrite (@replace_heads (hr_matcher st) (is_not 45) L)
    by (first [apply line_matcher_anchored | apply hr_inert | reflexivity
              | apply Hh; intros c Hc; apply (plain_head_is c Hc)]).
  rewrite (@replace_heads (blockquote_matcher st) (is_not 62) L)
    by (first [apply run_matcher_anchored | apply blockquote_inert | reflexivity
              | apply Hh; intros c Hc; apply (plain_head_is c Hc)]).
  rewrite (@replace_heads (ul_matcher st) (is_not 45) L)
    by (first [apply run_matcher_anchored | apply ul_inert | reflexivity
              | apply Hh; intros c Hc; apply (plain_head_is c Hc)]).
  rewrite (@replace_heads (ol_matcher st) (fun c => negb (is_digit c)) L)
    by (first [apply run_matcher_anchored | apply ol_inert | reflexivity
              | apply Hh; intros c Hc; apply (plain_head_is c Hc)]).
  reflexivity.
Qed.

(** ** The paragraph loop on loose lines *)

Lemma wrap_lines_loose_rest (st : styles.t) (ls R : list jsstring) :
  Forall (fun l => loose_line l = true) ls ->
  wrap_lines st true (ls ++ R) = ls ++ wrap_lines st true R.
Proof.
  induction 1 as [|l ls Hl Hls IH]; [reflexivity|].
  destruct (loose_line_facts _ Hl) as (_ & _ & _ & He & Hb & _).
  cbn [app wrap_lines]. rewrite He, Hb. cbn [negb]. now rewrite IH.
Qed.

Lemma wrap_lines_paragraphs (st : styles.t) (ps : list (list jsstring)) :
  Forall (fun p => p <> [] /\ Forall (fun l => loose_line l = true) p) ps ->
  wrap_lines st false (paragraph_lines ps) = paragraph_lines (map (wrapped_lines st) ps).
Proof.
  induction 1 as [|p ps [Hne Hp] Hps IH]; [reflexivity|].
  destruct p as [|l ls]; [congruence|]. clear Hne.
  apply Forall_cons_iff in Hp as [Hl Hls].
  destruct (loose_line_facts _ Hl) as (_ & _ & _ & He & Hb & _).
  cbn [map paragraph_lines].
  change (wrapped_lines st (l :: ls))
    with ((otag "p" (styles.p st) ++ l) :: ls ++ [lit "</p>"]).
  destruct ps as [|q ps'].
  - cbn [map]. cbn [wrap_lines]. rewrite He, Hb. cbn [negb].
    rewrite <- (app_nil_r ls) at 1. rewrite wrap_lines_loose_rest by exact Hls.
    reflexivity.
  - cbn [map]. cbn [app wrap_lines]. rewrite He, Hb. cbn [negb].
    rewrite wrap_lines_loose_rest by exact Hls.
    cbn [wrap_lines]. change (trim []) with (@nil char). cbn [is_empty app].
    cbn [map] in IH. rewrite IH. cbn [app]. now rewrite <- app_assoc.
Qed.

Lemma join_wrapped_lines (st : styles.t) (p : list jsstring) :
  p <> [] -> join [LF] (wrapped_lines st p) = paragraph_element st p.
Proof.
  intros Hne. destruct p as [|l ls]; [congruence|].
  unfold wrapped_lines, paragraph_element. cbn [hd tl].
  rewrite join_cons_prefix. f_equal.
  change (l :: ls ++ [lit "</p>"]) with ((l :: ls) ++ [lit "</p>"]).
  now rewrite join_app by discriminate.
Qed.

(** ** Passes anchored at line starts, taken line by line *)

Lemma no_lt_cons (c : char) (l : jsstring) :
  no_lt (c :: l) = true -> is_lt c = false /\ no_lt l = true.
Proof.
  cbn [no_lt forallb]. intros [Hc Hl]%andb_true_iff. apply negb_true_iff in Hc. now split.
Qed.

Lemma no_lt_last (l : jsstring) : no_lt l = true -> l <> [] -> is_lt (last l 0) = false.
Proof.
  induction l as [|c l IH]; [congruence|]. intros [Hc Hl]%no_lt_cons _.
  destruct l as [|d l]; [exact Hc|]. change (last (c :: d :: l) 0) with (last (d :: l) 0).
  apply IH; [exact Hl | discriminate].
Qed.

Lemma replace_copy_rest (m : matcher) (l rest : jsstring) :
  anchored m -> no_lt l = true ->
  replace_from m 0 false (l ++ LF :: rest) = l ++ LF :: replace_from m 0 true rest.
Proof.
  intros Ha. induction l as [|c l IH]; intros Hl.
  - cbn [app replace_from]. now rewrite Ha.
  - apply no_lt_cons in Hl as [Hc Hl]. cbn [app replace_from]. rewrite Ha, Hc.
    now rewrite IH.
Qed.

Lemma replace_copy_line (m : matcher) (l rest : jsstring) :
  anchored m -> no_lt l = true -> m true (l ++ LF :: rest) = None ->
  replace_from m 0 true (l ++ LF :: rest) = l ++ LF :: replace_from m 0 true rest.
Proof.
  intros Ha Hl Hm. destruct l as [|c l].
  - cbn [app] in *. cbn [replace_from]. now rewrite Hm.
  - apply no_lt_cons in Hl as [Hc Hl]. cbn [app] in *. cbn [replace_from].
    rewrite Hm, Hc. now rewrite replace_copy_rest.
Qed.

Lemma replace_copy_end (m : matcher) (l : jsstring) :
  anchored m -> no_lt l = true -> replace_from m 0 false l = l.
Proof.
  intros Ha. induction l as [|c l IH]; intros Hl.
  - cbn [replace_from]. now rewrite Ha.
  - apply no_lt_cons in Hl as [Hc Hl]. cbn [replace_from]. rewrite Ha, Hc. now rewrite IH.
Qed.

Lemma replace_copy_last (m : matcher) (l : jsstring) :
  anchored m -> no_lt l = true -> m true l = None -> replace_from m 0 true l = l.
Proof.
  intros Ha Hl Hm. destruct l as [|c l].
  - cbn [replace_from]. now rewrite Hm.
  - apply no_lt_cons in Hl as [Hc Hl]. cbn [replace_from]. rewrite Hm, Hc.
    now rewrite replace_copy_end.
Qed.

Lemma replace_match_line (m : matcher) (l rest out : jsstring) :
  anchored m -> no_lt l = true -> l <> [] ->
  m true (l ++ LF :: rest) = Some (length l, out) ->
  replace_from m 0 true (l ++ LF :: rest) = out ++ LF :: replace_from m 0 true rest.
Proof.
  intros Ha Hl Hne Hm. rewrite (@replace_from_match m l (LF :: rest) out true Hne Hm).
  rewrite (@no_lt_last l Hl Hne). cbn [replace_from]. now rewrite Ha.
Qed.

Lemma replace_match_last (m : matcher) (l out : jsstring) :
  anchored m -> no_lt l = true -> l <> [] -> m true l = Some (length l, out) ->
  replace_from m 0 true l = out.
Proof.
  intros Ha Hl Hne Hm.
  assert (E : replace_from m 0 true (l ++ []) = out ++ replace_from m 0 (is_lt (last l 0)) []).
  { apply replace_from_match; [exact Hne | now rewrite app_nil_r]. }
  rewrite app_nil_r in E. rewrite E, (no_lt_last Hl Hne). cbn [replace_from].
  rewrite Ha. now rewrite app_nil_r.
Qed.

Lemma line_of_line (l rest : jsstring) : no_lt l = true -> line_of (l ++ LF :: rest) = l.
Proof.
  intros Hl. unfold line_of. now apply takeWhile_app_stop.
Qed.

Lemma line_of_last (l : jsstring) : no_lt l = true -> line_of l = l.
Proof. intros Hl. unfold line_of. now apply takeWhile_all. Qed.

(** A pass for a one-line pattern changes each line on its own. *)
Lemma line_pass_lines (valid : jsstring -> bool) (cb : jsstring -> jsstring)
    (L : list jsstring) :
  valid [] = false -> Forall (fun l => no_lt l = true) L ->
  replace_g (line_matcher valid cb) (join [LF] L) = join [LF] (map (line_pass valid cb) L).
Proof.
  intros Hnil HL. unfold replace_g.
  induction HL as [|l L Hl HL IH].
  - cbn [join map replace_from]. unfold line_matcher, line_of. cbn [takeWhile andb].
    now rewrite Hnil.
  - assert (Hne : valid l = true -> l <> []) by (intros Hv ->; congruence).
    destruct L as [|l' L'].
    + cbn [join map]. unfold line_pass. destruct (valid l) eqn:Hv.
      * apply replace_match_last; [apply line_matcher_anchored | exact Hl | now apply Hne |].
        unfold line_matcher. rewrite (@line_of_last l Hl), Hv. reflexivity.
      * apply replace_copy_last; [apply line_matcher_anchored | exact Hl |].
        unfold line_matcher. rewrite (@line_of_last l Hl), Hv. reflexivity.
    + change (join [LF] (l :: l' :: L')) with (l ++ LF :: join [LF] (l' :: L')).
      change (join [LF] (map (line_pass valid cb) (l :: l' :: L')))
        with (line_pass valid cb l ++ LF :: join [LF] (map (line_pass valid cb) (l' :: L'))).
      rewrite <- IH. unfold line_pass at 1. destruct (valid l) eqn:Hv.
      * apply replace_match_line; [apply line_matcher_anchored | exact Hl | now apply Hne |].
        unfold line_matcher. rewrite (@line_of_line l _ Hl), Hv. reflexivity.
      * apply replace_copy_line; [apply line_matcher_anchored | exact Hl |].
        unfold line_matcher. rewrite (@line_of_line l _ Hl), Hv. reflexivity.
Qed.

(** ** Passes for runs of lines *)

Lemma line_run_invalid (valid : jsstring -> bool) (l rest : jsstring) :
  no_lt l = true -> valid l = false -> line_run valid [] (l ++ LF :: rest) = 0%nat.
Proof.
  intros Hl Hv. rewrite line_run_line by exact Hl. rewrite app_nil_r.
  cbn [line_run]. change (is_lt LF) with true. cbn iota.
  now rewrite rev_involutive, Hv.
Qed.

Lemma line_run_invalid_last (valid : jsstring -> bool) (l : jsstring) :
  no_lt l = true -> valid l = false -> line_run valid [] l = 0%nat.
Proof.
  intros Hl Hv. rewrite <- (app_nil_r l) at 1. rewrite line_run_line by exact Hl.
  rewrite app_nil_r. cbn [line_run]. now rewrite rev_involutive, Hv.
Qed.

Lemma line_run_lines (valid : jsstring -> bool) (R : list jsstring) (T : jsstring) :
  R <> [] -> Forall (fun l => no_lt l = true /\ valid l = true) R ->
  line_run valid [] T = 0%nat ->
  line_run valid [] (join [LF] R ++ LF :: T) = S (length (join [LF] R)).
Proof.
  intros Hne HR HT. revert Hne. induction HR as [|l R [Hl Hv] HR IH]; intros Hne;
    [exfalso; now apply Hne|]. clear Hne.
  destruct R as [|l' R'].
  - cbn [join]. rewrite line_run_line by exact Hl. rewrite app_nil_r.
    cbn [line_run]. change (is_lt LF) with true. cbn iota.
    rewrite rev_involutive, Hv. change (LF =? 10) with true. cbn iota.
    rewrite HT, length_rev. lia.
  - change (join [LF] (l :: l' :: R')) with (l ++ LF :: join [LF] (l' :: R')).
    rewrite <- app_assoc. cbn [app].
    rewrite line_run_line by exact Hl. rewrite app_nil_r.
    cbn [line_run]. change (is_lt LF) with true. cbn iota.
    rewrite rev_involutive, Hv. change (LF =? 10) with true. cbn iota.
    rewrite IH by discriminate. rewrite length_rev, length_app. cbn [length]. lia.
Qed.

Lemma line_run_lines_last (valid : jsstring -> bool) (R : list jsstring) :
  R <> [] -> Forall (fun l => no_lt l = true /\ valid l = true) R ->
  line_run valid [] (join [LF] R) = length (join [LF] R).
Proof.
  intros Hne HR. revert Hne. induction HR as [|l R [Hl Hv] HR IH]; intros Hne;
    [exfalso; now apply Hne|]. clear Hne.
  destruct R as [|l' R'].
  - cbn [join]. rewrite <- (app_nil_r l) at 1. rewrite line_run_line by exact Hl.
    rewrite app_nil_r. cbn [line_run]. rewrite rev_involutive, Hv. apply length_rev.
  - change (join [LF] (l :: l' :: R')) with (l ++ LF :: join [LF] (l' :: R')).
    rewrite line_run_line by exact Hl. rewrite app_nil_r.
    cbn [line_run]. change (is_lt LF) with true. cbn iota.
    rewrite rev_involutive, Hv. change (LF =? 10) with true. cbn iota.
    rewrite IH by discriminate. rewrite length_rev, length_app. cbn [length]. lia.
Qed.

Lemma last_app_nonempty (a b : jsstring) : b <> [] -> last (a ++ b) 0 = last b 0.
Proof.
  intros Hb. induction a as [|c a IH]; [reflexivity|].
  cbn [app]. destruct (a ++ b) eqn:E; [|exact IH].
  apply app_eq_nil in E as [_ E]. congruence.
Qed.

Lemma join_lines_nonempty (R : list jsstring) :
  R <> [] -> Forall (fun l : jsstring => l <> []) R -> join [LF] R <> [].
Proof.
  intros Hne HR. destruct HR as [|l R Hl HR]; [exfalso; now apply Hne|].
  cbn [join]. destruct R; [assumption|]. destruct l; [congruence | discriminate].
Qed.

Lemma last_join_lines (R : list jsstring) :
  R <> [] -> Forall (fun l => no_lt l = true /\ l <> []) R ->
  is_lt (last (join [LF] R) 0) = false.
Proof.
  intros Hne HR. revert Hne. induction HR as [|l R [Hl Hl'] HR IH]; intros Hne;
    [exfalso; now apply Hne|]. clear Hne.
  destruct R as [|l' R'].
  - cbn [join]. now apply no_lt_last.
  - change (join [LF] (l :: l' :: R')) with (l ++ [LF] ++ join [LF] (l' :: R')).
    rewrite app_assoc, last_app_nonempty.
    + apply IH. discriminate.
    + apply join_lines_nonempty; [discriminate|]. revert HR. apply Forall_impl. tauto.
Qed.

Section RunPass.

Variable valid : jsstring -> bool.
Variable cb : jsstring -> jsstring.
Hypothesis valid_nil : valid [] = false.

Let m : matcher := run_matcher valid cb.

Lemma run_pass_nil : replace_from m 0 true [] = [].
Proof.
  cbn [replace_from]. unfold m, run_matcher. cbn [line_run rev]. now rewrite valid_nil.
Qed.

Lemma run_pass_quiet (X : list jsstring) (T : jsstring) :
  X <> [] -> Forall (fun l => no_lt l = true /\ valid l = false) X ->
  replace_from m 0 true (join [LF] X ++ LF :: T)
  = join [LF] X ++ LF :: replace_from m 0 true T.
Proof.
  intros Hne HX. revert Hne. induction HX as [|l X [Hl Hv] HX IH]; intros Hne;
    [exfalso; now apply Hne|]. clear Hne.
  destruct X as [|l' X'].
  - cbn [join]. apply replace_copy_line; [apply run_matcher_anchored | exact Hl |].
    unfold m, run_matcher. now rewrite line_run_invalid.
  - change (join [LF] (l :: l' :: X')) with (l ++ LF :: join [LF] (l' :: X')).
    rewrite <- !app_assoc. cbn [app]. rewrite <- IH by discriminate.
    apply replace_copy_line; [apply run_matcher_anchored | exact Hl |].
    unfold m, run_matcher. now rewrite line_run_invalid.
Qed.

Lemma run_pass_quiet_last (X : list jsstring) :
  Forall (fun l => no_lt l = true /\ valid l = false) X ->
  replace_from m 0 true (join [LF] X) = join [LF] X.
Proof.
  intros HX. induction HX as [|l X [Hl Hv] HX IH]; [apply run_pass_nil|].
  destruct X as [|l' X'].
  - cbn [join]. apply replace_copy_last; [apply run_matcher_anchored | exact Hl |].
    unfold m, run_matcher. now rewrite line_run_invalid_last.
  - change (join [LF] (l :: l' :: X')) with (l ++ LF :: join [LF] (l' :: X')).
    rewrite <- IH at 2.
    apply replace_copy_line; [apply run_matcher_anchored | exact Hl |].
    unfold m, run_matcher. now rewrite line_run_invalid.
Qed.

Lemma run_pass_run (R : list jsstring) (T : jsstring) :
  R <> [] -> Forall (fun l => no_lt l = true /\ valid l = true) R ->
  line_run valid [] T = 0%nat ->
  replace_from m 0 true (join [LF] R ++ LF :: T)
  = cb (join [LF] R ++ [LF]) ++ replace_from m 0 true T.
Proof.
  intros Hne HR HT.
  assert (Hm : m true ((join [LF] R ++ [LF]) ++ T)
               = Some (length (join [LF] R ++ [LF]), cb (join [LF] R ++ [LF]))).
  { unfold m, run_matcher. rewrite <- app_assoc. cbn [app].
    rewrite (@line_run_lines valid R T Hne HR HT).
    replace (S (length (join [LF] R))) with (length (join [LF] R ++ [LF]))
      by (rewrite length_app; cbn [length]; lia).
    replace (join [LF] R ++ LF :: T) with ((join [LF] R ++ [LF]) ++ T)
      by (now rewrite <- app_assoc).
    now rewrite firstn_length_app. }
  replace (join [LF] R ++ LF :: T) with ((join [LF] R ++ [LF]) ++ T)
    by (now rewrite <- app_assoc).
  rewrite (@replace_from_match m (join [LF] R ++ [LF]) T (cb (join [LF] R ++ [LF])) true);
    [| |exact Hm].
  - now rewrite last_app_LF.
  - intros E. apply app_eq_nil in E as [_ E]. discriminate.
Qed.

Lemma run_pass_run_last (R : list jsstring) :
  R <> [] -> Forall (fun l => no_lt l = true /\ valid l = true) R ->
  replace_from m 0 true (join [LF] R) = cb (join [LF] R).
Proof.
  intros Hne HR.
  assert (Hv : Forall (fun l : jsstring => l <> []) R).
  { revert HR. apply Forall_impl. intros l [_ Hl] ->. congruence. }
  assert (Hj : join [LF] R <> []) by now apply join_lines_nonempty.
  assert (Hlast : is_lt (last (join [LF] R) 0) = false).
  { apply last_join_lines; [exact Hne|]. revert HR. apply Forall_impl.
    intros l [Hl Hl']. split; [exact Hl | intros ->; congruence]. }
  assert (Hm : m true (join [LF] R ++ []) = Some (length (join [LF] R), cb (join [LF] R))).
  { rewrite app_nil_r. unfold m, run_matcher.
    rewrite (@line_run_lines_last valid R Hne HR).
    destruct (join [LF] R) as [|c r] eqn:E; [congruence|].
    cbn [length]. f_equal. f_equal. f_equal.
    change (S (length r)) with (length (c :: r)).
    rewrite <- (app_nil_r (c :: r)) at 2. now rewrite firstn_length_app. }
  pose proof (@replace_from_match m (join [LF] R) [] (cb (join [LF] R)) true Hj Hm) as E.
  rewrite app_nil_r in E. rewrite E, Hlast. cbn [replace_from].
  unfold m at 1, run_matcher. now rewrite app_nil_r.
Qed.

End RunPass.

(** ** Documents of blocks, stage by stage *)

Lemma doc_lines_cons (lines_of gap : block -> list jsstring) (b b' : block)
    (rest : list block) :
  doc_lines lines_of gap (b :: b' :: rest)
  = lines_of b ++ gap b ++ doc_lines lines_of gap (b' :: rest).
Proof. reflexivity. Qed.

Lemma doc_lines_nonempty (lines_of gap : block -> list jsstring) (bs : list block) :
  bs <> [] -> Forall (fun b => lines_of b <> []) bs -> doc_lines lines_of gap bs <> [].
Proof.
  intros Hne H. destruct H as [|b bs Hb Hbs]; [exfalso; now apply Hne|].
  destruct bs as [|b' rest]; [exact Hb|]. rewrite doc_lines_cons.
  intros E. apply app_eq_nil in E as [E _]. now apply Hb.
Qed.

Lemma doc_lines_Forall (R : jsstring -> Prop) (lines_of gap : block -> list jsstring)
    (bs : list block) :
  Forall (fun b => Forall R (lines_of b) /\ Forall R (gap b)) bs ->
  Forall R (doc_lines lines_of gap bs).
Proof.
  induction 1 as [|b bs [Hb Hg] Hbs IH]; [constructor|].
  destruct bs as [|b' rest]; [exact Hb|]. rewrite doc_lines_cons.
  apply Forall_app. split; [exact Hb|]. apply Forall_app. split; [exact Hg | exact IH].
Qed.

Lemma doc_lines_ext (lines_of lines_of' gap gap' : block -> list jsstring)
    (bs : list block) :
  Forall (fun b => lines_of b = lines_of' b /\ gap b = gap' b) bs ->
  doc_lines lines_of gap bs = doc_lines lines_of' gap' bs.
Proof.
  induction 1 as [|b bs [Hb Hg] Hbs IH]; [reflexivity|].
  destruct bs as [|b' rest]; [exact Hb|]. rewrite !doc_lines_cons.
  now rewrite Hb, Hg, IH.
Qed.

Lemma map_doc_lines (f : jsstring -> jsstring) (lines_of : block -> list jsstring)
    (bs : list block) :
  f [] = [] ->
  map f (doc_lines lines_of one_blank bs)
  = doc_lines (fun b => map f (lines_of b)) one_blank bs.
Proof.
  intros Hf. induction bs as [|b bs IH]; [reflexivity|].
  destruct bs as [|b' rest]; [reflexivity|]. rewrite !doc_lines_cons.
  rewrite !map_app, IH. unfold one_blank. cbn [map]. now rewrite Hf.
Qed.

Lemma source_doc_lines (bs : list block) :
  Forall (fun b => block_lines b <> []) bs ->
  join [LF; LF] (map block_source bs) = join [LF] (doc_lines block_lines one_blank bs).
Proof.
  intros H.
  replace (doc_lines block_lines one_blank bs) with (paragraph_lines (map block_lines bs)).
  - unfold block_source. rewrite <- join_paragraphs by (now rewrite Forall_map).
    now rewrite map_map.
  - clear H. induction bs as [|b bs IH]; [reflexivity|].
    destruct bs as [|b' rest]; [reflexivity|]. rewrite doc_lines_cons.
    cbn [map paragraph_lines] in *. now rewrite IH.
Qed.

Section RunPassBlocks.

Variable valid : jsstring -> bool.
Variable cb : jsstring -> jsstring.
Hypothesis valid_nil : valid [] = false.

Variables lines_in lines_out gap_in gap_out : block -> list jsstring.
Variable is_run : block -> bool.
Variable ready : block -> Prop.

Hypothesis ready_lines : forall b, ready b -> lines_in b <> [] /\ lines_out b <> [].
Hypothesis ready_gap : forall b, ready b -> gap_in b = [] \/ gap_in b = [[]].
Hypothesis ready_quiet :
  forall b, ready b -> is_run b = false ->
    Forall (fun l => no_lt l = true /\ valid l = false) (lines_in b)
    /\ lines_out b = lines_in b /\ gap_out b = gap_in b.
Hypothesis ready_run :
  forall b, ready b -> is_run b = true ->
    Forall (fun l => no_lt l = true /\ valid l = true) (lines_in b)
    /\ gap_in b = [[]] /\ gap_out b = []
    /\ cb (join [LF] (lines_in b)) = join [LF] (lines_out b)
    /\ cb (join [LF] (lines_in b) ++ [LF]) = join [LF] (lines_out b).

Lemma run_pass_blocks (bs : list block) :
  Forall ready bs ->
  replace_g (run_matcher valid cb) (join [LF] (doc_lines lines_in gap_in bs))
  = join [LF] (doc_lines lines_out gap_out bs).
Proof.
  unfold replace_g. induction 1 as [|b bs Hb Hbs IH]; [now apply run_pass_nil|].
  destruct (ready_lines Hb) as [Hin Hout].
  destruct bs as [|b' rest].
  - cbn [doc_lines]. destruct (is_run b) eqn:Er.
    + destruct (ready_run Hb Er) as (HR & _ & _ & E & _). rewrite <- E.
      now apply run_pass_run_last.
    + destruct (ready_quiet Hb Er) as (HX & E & _). rewrite E.
      now apply run_pass_quiet_last.
  - rewrite !doc_lines_cons.
    assert (Hd : doc_lines lines_in gap_in (b' :: rest) <> []).
    { apply doc_lines_nonempty; [discriminate|]. revert Hbs. apply Forall_impl.
      intros x Hx. apply (ready_lines Hx). }
    assert (Hd' : doc_lines lines_out gap_out (b' :: rest) <> []).
    { apply doc_lines_nonempty; [discriminate|]. revert Hbs. apply Forall_impl.
      intros x Hx. apply (ready_lines Hx). }
    destruct (is_run b) eqn:Er.
    + destruct (ready_run Hb Er) as (HR & Eg & Eg' & _ & E). rewrite Eg, Eg'.
      cbn [app]. rewrite !join_app by (first [assumption | discriminate]).
      change (join [LF] ([] :: doc_lines lines_in gap_in (b' :: rest)))
        with (join [LF] ([[]] ++ doc_lines lines_in gap_in (b' :: rest))).
      rewrite join_app by (first [assumption | discriminate]).
      cbn [join app].
      assert (H0 : forall T, line_run valid [] (LF :: T) = 0%nat).
      { intros T. cbn [line_run rev]. change (is_lt LF) with true. cbn iota.
        now rewrite valid_nil. }
      rewrite (@run_pass_run valid cb (lines_in b) _ Hin HR (H0 _)).
      rewrite E. f_equal.
      match goal with
      | |- context [replace_from ?mm 0 true (LF :: ?T)] =>
          change (replace_from mm 0 true (LF :: T))
            with (replace_from mm 0 true ([] ++ LF :: T))
      end.
      rewrite (@replace_copy_line (run_matcher valid cb) [] _).
      * cbn [app]. now rewrite IH.
      * apply run_matcher_anchored.
      * reflexivity.
      * unfold run_matcher. cbn [app]. now rewrite H0.
    + destruct (ready_quiet Hb Er) as (HX & E & Eg). rewrite E, Eg.
      rewrite !app_assoc.
      assert (Hx : lines_in b ++ gap_in b <> []).
      { intros Ex. apply app_eq_nil in Ex as [Ex _]. now apply Hin. }
      rewrite (@join_app [LF] (lines_in b ++ gap_in b) _ Hx Hd).
      rewrite (@join_app [LF] (lines_in b ++ gap_in b) _ Hx Hd'). cbn [app].
      rewrite (@run_pass_quiet valid cb (lines_in b ++ gap_in b) _ Hx); [now rewrite IH|].
      apply Forall_app. split; [exact HX|].
      destruct (ready_gap Hb) as [-> | ->]; [constructor|].
      constructor; [split; [reflexivity | exact valid_nil] | constructor].
Qed.

End RunPassBlocks.

(** ** The lines of the blocks *)

Lemma inline_text_app (a b : jsstring) :
  inline_text (a ++ b) = inline_text a && inline_text b.
Proof. apply forallb_app. Qed.

Lemma inline_no_lt (l : jsstring) : inline_text l = true -> no_lt l = true.
Proof.
  apply forallb_impl. intros c Hc. unfold inline_char in Hc.
  now apply andb_true_iff in Hc as [_ Hc].
Qed.

Lemma digit_facts (c : char) :
  is_digit c = true ->
  inline_char c = true /\ is_ws c = false /\ is_not 35 c = true /\ is_not 45 c = true
  /\ is_not 124 c = true /\ is_not 62 c = true /\ is_not 46 c = true.
Proof.
  unfold is_digit. rewrite andb_true_iff, !N.leb_le. intros [H1 H2].
  unfold inline_char, is_ws, is_lt, is_not.
  repeat match goal with
         | |- context [c =? ?k] => rewrite (proj2 (N.eqb_neq c k)) by lia
         end.
  assert (E1 : (c <=? 13) = false) by (apply N.leb_gt; lia).
  assert (E2 : (8192 <=? c) = false) by (apply N.leb_gt; lia).
  rewrite E1, E2. cbn. rewrite andb_false_r. repeat split; reflexivity.
Qed.

Lemma digits_inline (n : jsstring) : forallb is_digit n = true -> inline_text n = true.
Proof. apply forallb_impl. intros c Hc. apply (digit_facts c Hc). Qed.

Lemma item_text_facts (t : jsstring) :
  item_text t = true -> inline_text t = true /\ t <> [].
Proof.
  unfold item_text. intros [Hi Hn]%andb_true_iff. split; [exact Hi|].
  intros ->. discriminate.
Qed.

Lemma number_ok_facts (n : jsstring) :
  number_ok n = true ->
  forallb is_digit n = true /\ exists d r, n = d :: r /\ is_digit d = true.
Proof.
  unfold number_ok. intros [Hd Hn]%andb_true_iff. split; [exact Hd|].
  destruct n as [|d r]; [discriminate|]. exists d, r. split; [reflexivity|].
  cbn [forallb] in Hd. now apply andb_true_iff in Hd as [Hd _].
Qed.

Lemma attrs_inline (sty : style) :
  let st := styles_of sty in
  inline_text (styles.h1 st) = true /\ inline_text (styles.h2 st) = true
  /\ inline_text (styles.h3 st) = true /\ inline_text (styles.h4 st) = true
  /\ inline_text (styles.hr st) = true /\ inline_text (styles.ul st) = true
  /\ inline_text (styles.ol st) = true /\ inline_text (styles.li st) = true.
Proof. destruct sty; vm_compute; repeat split; reflexivity. Qed.

Lemma otag_inline (tag : string) (attr : jsstring) :
  inline_text (lit tag) = true -> inline_text attr = true ->
  inline_text (otag tag attr) = true.
Proof.
  intros Ht Ha. unfold otag. rewrite !inline_text_app, Ht, Ha. reflexivity.
Qed.

Lemma heading_element_inline (sty : style) (level : heading_level) (title : jsstring) :
  inline_text title = true ->
  inline_text (heading_element (styles_of sty) level title) = true.
Proof.
  intros Ht. destruct (attrs_inline sty) as (A1 & A2 & A3 & A4 & _).
  unfold heading_element. rewrite !inline_text_app, Ht.
  destruct level; cbn [tag_of attr_of]; rewrite otag_inline by (first [reflexivity | assumption]);
    reflexivity.
Qed.

Lemma item_element_inline (sty : style) (item : jsstring) :
  inline_text item = true -> inline_text (item_element (styles_of sty) item) = true.
Proof.
  intros Hi. destruct (attrs_inline sty) as (_ & _ & _ & _ & _ & _ & _ & A).
  unfold item_element. rewrite !inline_text_app, Hi.
  rewrite otag_inline by (first [reflexivity | assumption]). reflexivity.
Qed.

Lemma list_lines_inline (sty : style) (tag : string) (attr : jsstring)
    (items : list jsstring) :
  inline_text (lit tag) = true -> inline_text attr = true ->
  Forall (fun i => inline_text i = true) items ->
  Forall (fun l => inline_text l = true) (list_lines tag attr (styles_of sty) items).
Proof.
  intros Ht Ha Hi. unfold list_lines. constructor; [now apply otag_inline|].
  apply Forall_app. split.
  - rewrite Forall_map. revert Hi. apply Forall_impl. intros i. apply item_element_inline.
  - constructor; [|constructor]. rewrite !inline_text_app, Ht. reflexivity.
Qed.

Lemma forallb_Forall (A : Type) (f : A -> bool) (l : list A) :
  forallb f l = true -> Forall (fun x => f x = true) l.
Proof. intros H. apply Forall_forall. now apply forallb_forall. Qed.

(** What [block_ok] says of the parts of a block. *)
Lemma paragraph_ok (lines : list jsstring) :
  block_ok (Paragraph lines) = true ->
  lines <> [] /\ Forall (fun l => loose_line l = true) lines.
Proof.
  cbn [block_ok]. intros [Hn Hl]%andb_true_iff. split.
  - intros ->. discriminate.
  - now apply forallb_Forall.
Qed.

Lemma bullets_ok (items : list jsstring) :
  block_ok (Bullets items) = true ->
  items <> [] /\ Forall (fun i => inline_text i = true /\ i <> []) items.
Proof.
  cbn [block_ok]. intros [Hn Hl]%andb_true_iff. split.
  - intros ->. discriminate.
  - apply forallb_Forall in Hl. revert Hl. apply Forall_impl. apply item_text_facts.
Qed.

Lemma numbered_ok (items : list (jsstring * jsstring)) :
  block_ok (Numbered items) = true ->
  items <> []
  /\ Forall (fun it => number_ok (fst it) = true
                       /\ inline_text (snd it) = true /\ snd it <> []) items.
Proof.
  cbn [block_ok]. intros [Hn Hl]%andb_true_iff. split.
  - intros ->. discriminate.
  - apply forallb_Forall in Hl. revert Hl. apply Forall_impl.
    intros it [H1 H2]%andb_true_iff. split; [exact H1 | now apply item_text_facts].
Qed.

Lemma bullet_line_inline (i : jsstring) :
  inline_text i = true -> inline_text (bullet_line i) = true.
Proof. intros Hi. unfold bullet_line. now rewrite inline_text_app, Hi. Qed.

Lemma numbered_line_inline (it : jsstring * jsstring) :
  number_ok (fst it) = true -> inline_text (snd it) = true ->
  inline_text (numbered_line it) = true.
Proof.
  intros [Hn _]%number_ok_facts Hi. unfold numbered_line.
  now rewrite !inline_text_app, Hi, (digits_inline _ Hn).
Qed.

Lemma block_lines_inline (b : block) :
  block_ok b = true -> Forall (fun l => inline_text l = true) (block_lines b).
Proof.
  intros Hok. destruct b as [level title| |lines|items|items]; cbn [block_lines].
  - apply item_text_facts in Hok as [Hi _]. constructor; [|constructor].
    rewrite inline_text_app, Hi. now destruct level.
  - constructor; [reflexivity | constructor].
  - apply paragraph_ok in Hok as [_ Hl]. revert Hl. apply Forall_impl.
    intros l Hl. apply (loose_line_facts _ Hl).
  - apply bullets_ok in Hok as [_ Hl]. rewrite Forall_map. revert Hl. apply Forall_impl.
    intros i [Hi _]. now apply bullet_line_inline.
  - apply numbered_ok in Hok as [_ Hl]. rewrite Forall_map. revert Hl. apply Forall_impl.
    intros it (Hn & Hi & _). now apply numbered_line_inline.
Qed.

Lemma lines_with_inline (done : heading_level -> bool) (sty : style) (b : block) :
  block_ok b = true ->
  Forall (fun l => inline_text l = true) (lines_with done (styles_of sty) b).
Proof.
  intros Hok. destruct b as [level title| |lines|items|items];
    try exact (block_lines_inline _ Hok).
  cbn [lines_with]. destruct (done level); [|exact (block_lines_inline _ Hok)].
  constructor; [|constructor]. apply heading_element_inline.
  now apply item_text_facts in Hok as [Hi _].
Qed.

Lemma lines_after_rules_inline (sty : style) (b : block) :
  block_ok b = true ->
  Forall (fun l => inline_text l = true) (lines_after_rules (styles_of sty) b).
Proof.
  intros Hok. destruct b as [level title| |lines|items|items];
    try exact (block_lines_inline _ Hok); cbn [lines_after_rules].
  - constructor; [|constructor]. apply heading_element_inline.
    now apply item_text_facts in Hok as [Hi _].
  - constructor; [|constructor]. apply otag_inline; [reflexivity|].
    apply (attrs_inline sty).
Qed.

Lemma lines_after_bullets_inline (sty : style) (b : block) :
  block_ok b = true ->
  Forall (fun l => inline_text l = true) (lines_after_bullets (styles_of sty) b).
Proof.
  intros Hok. destruct b as [level title| |lines|items|items];
    try exact (lines_after_rules_inline sty _ Hok); cbn [lines_after_bullets].
  apply list_lines_inline; [reflexivity | apply (attrs_inline sty) |].
  apply bullets_ok in Hok as [_ Hl]. revert Hl. apply Forall_impl. tauto.
Qed.

Lemma lines_after_numbered_inline (sty : style) (b : block) :
  block_ok b = true ->
  Forall (fun l => inline_text l = true) (lines_after_numbered (styles_of sty) b).
Proof.
  intros Hok. destruct b as [level title| |lines|items|items];
    try exact (lines_after_bullets_inline sty _ Hok); cbn [lines_after_numbered].
  apply list_lines_inline; [reflexivity | apply (attrs_inline sty) |].
  apply numbered_ok in Hok as [_ Hl]. rewrite Forall_map. revert Hl. apply Forall_impl. tauto.
Qed.

(** The first code unit of the lines of a block. *)
Lemma paragraph_heads (P : char -> bool) (lines : list jsstring) :
  (forall c, plain_head c = true -> P c = true) ->
  block_ok (Paragraph lines) = true -> Forall (fun l => head_is P l = true) lines.
Proof.
  intros Hplain Hok. apply paragraph_ok in Hok as [_ Hl]. revert Hl. apply Forall_impl.
  intros l Hl. destruct (loose_line_facts _ Hl) as (_ & _ & Hh & _).
  destruct l as [|c l]; [reflexivity|]. now apply Hplain.
Qed.

Lemma numbered_heads (P : char -> bool) (items : list (jsstring * jsstring)) :
  (forall c, is_digit c = true -> P c = true) ->
  block_ok (Numbered items) = true ->
  Forall (fun l => head_is P l = true) (map numbered_line items).
Proof.
  intros Hdigit Hok.
  apply numbered_ok in Hok as [_ Hl]. rewrite Forall_map. revert Hl. apply Forall_impl.
  intros [n i] (Hn & _). cbn [fst] in Hn.
  apply number_ok_facts in Hn as (_ & d & r & -> & Hd). now apply Hdigit.
Qed.

Lemma block_heads (P : char -> bool) (b : block) :
  block_ok b = true -> head_cases (P 35 = true) (P 45 = true) (P 45 = true) P b ->
  Forall (fun l => head_is P l = true) (block_lines b).
Proof.
  intros Hok H. destruct b as [level title| |lines|items|items];
    cbn [block_lines head_cases] in *.
  - constructor; [|constructor]. now destruct level.
  - constructor; [exact H | constructor].
  - now apply paragraph_heads.
  - rewrite Forall_map. apply Forall_forall. intros i _. exact H.
  - now apply numbered_heads.
Qed.

Lemma lines_after_rules_heads (P : char -> bool) (st : styles.t) (b : block) :
  block_ok b = true -> head_cases (P 60 = true) (P 60 = true) (P 45 = true) P b ->
  Forall (fun l => head_is P l = true) (lines_after_rules st b).
Proof.
  intros Hok H. destruct b as [level title| |lines|items|items];
    cbn [lines_after_rules block_lines head_cases] in *.
  - constructor; [exact H | constructor].
  - constructor; [exact H | constructor].
  - now apply paragraph_heads.
  - rewrite Forall_map. apply Forall_forall. intros i _. exact H.
  - now apply numbered_heads.
Qed.

Lemma list_lines_heads (P : char -> bool) (tag : string) (attr : jsstring)
    (st : styles.t) (items : list jsstring) :
  P 60 = true -> Forall (fun l => head_is P l = true) (list_lines tag attr st items).
Proof.
  intros H. unfold list_lines. constructor; [exact H|]. apply Forall_app. split.
  - rewrite Forall_map. apply Forall_forall. intros i _. exact H.
  - constructor; [exact H | constructor].
Qed.

Lemma lines_after_bullets_heads (P : char -> bool) (st : styles.t) (b : block) :
  block_ok b = true -> head_cases (P 60 = true) (P 60 = true) (P 60 = true) P b ->
  Forall (fun l => head_is P l = true) (lines_after_bullets st b).
Proof.
  intros Hok H. destruct b as [level title| |lines|items|items];
    cbn [lines_after_bullets lines_after_rules block_lines head_cases] in *.
  - constructor; [exact H | constructor].
  - constructor; [exact H | constructor].
  - now apply paragraph_heads.
  - now apply list_lines_heads.
  - now apply numbered_heads.
Qed.

(** ** The passes for headings and rules on the lines of a block *)

Lemma prefixb_other_head (c : char) (p l : jsstring) :
  hd_error p = Some c -> head_is (is_not c) l = true -> prefixb p l = false.
Proof.
  destruct p as [|x p]; [discriminate|]. intros [= ->]. destruct l as [|y l]; [reflexivity|].
  cbn [head_is]. apply prefixb_head.
Qed.

Lemma valid_heading_other_head (c : char) (marker l : jsstring) :
  hd_error marker = Some c -> head_is (is_not c) l = true -> valid_heading marker l = false.
Proof.
  intros Hm Hl. unfold valid_heading. now rewrite (prefixb_other_head _ _ Hm Hl).
Qed.

Lemma eqb_str_other_head (c : char) (p l : jsstring) :
  hd_error p = Some c -> head_is (is_not c) l = true -> eqb_str p l = false.
Proof.
  destruct p as [|x p]; [discriminate|]. intros [= ->]. destruct l as [|y l]; [reflexivity|].
  cbn [head_is eqb_str]. unfold is_not. intros H. apply negb_true_iff in H.
  rewrite N.eqb_sym. now rewrite H.
Qed.

Lemma map_fixed (A : Type) (f : A -> A) (l : list A) :
  Forall (fun x => f x = x) l -> map f l = l.
Proof. induction 1 as [|x l Hx Hl IH]; [reflexivity|]. cbn [map]. now rewrite Hx, IH. Qed.

Lemma line_pass_other_head (c : char) (valid : jsstring -> bool)
    (cb : jsstring -> jsstring) (L : list jsstring) :
  (forall l, head_is (is_not c) l = true -> valid l = false) ->
  Forall (fun l => head_is (is_not c) l = true) L ->
  map (line_pass valid cb) L = L.
Proof.
  intros Hv HL. apply map_fixed. revert HL. apply Forall_impl. intros l Hl.
  unfold line_pass. now rewrite (Hv l Hl).
Qed.

Lemma is_not_digit (t : char) :
  is_digit t = false -> forall c, is_digit c = true -> is_not t c = true.
Proof.
  intros Ht c Hc. unfold is_not. apply negb_true_iff. apply N.eqb_neq. intros ->. congruence.
Qed.

Lemma heading_pass_block (st : styles.t) (k : heading_level)
    (done : heading_level -> bool) (b : block) :
  block_ok b = true ->
  map (heading_pass st k) (lines_with done st b)
  = lines_with (fun level => done level || level_eqb level k) st b.
Proof.
  intros Hok.
  assert (Hm : hd_error (marker_of k) = Some 35) by now destruct k.
  assert (Hother : forall L, Forall (fun l => head_is (is_not 35) l = true) L ->
                             map (heading_pass st k) L = L).
  { intros L. apply line_pass_other_head. intros l. now apply valid_heading_other_head. }
  destruct b as [level title| |lines|items|items];
    try (cbn [lines_with]; apply Hother; apply block_heads; [exact Hok|];
         cbn [head_cases]; first [ reflexivity
                                 | intros c Hc; apply (plain_head_is c Hc)
                                 | apply is_not_digit; reflexivity ]).
  cbn [lines_with]. destruct (done level); cbn [orb].
  - apply Hother. constructor; [reflexivity | constructor].
  - apply item_text_facts in Hok as [_ Ht]. destruct title as [|t0 title]; [congruence|].
    destruct level, k; reflexivity.
Qed.

Lemma rule_pass_block (st : styles.t) (done : heading_level -> bool) (b : block) :
  block_ok b = true -> (forall level, done level = true) ->
  map (rule_pass st) (lines_with done st b) = lines_after_rules st b.
Proof.
  intros Hok Hdone.
  assert (Hother : forall L, Forall (fun l => head_is (is_not 45) l = true) L ->
                             map (rule_pass st) L = L).
  { intros L. apply line_pass_other_head. intros l. now apply eqb_str_other_head. }
  destruct b as [level title| |lines|items|items];
    cbn [lines_with lines_after_rules block_lines].
  - rewrite Hdone. apply Hother. constructor; [reflexivity | constructor].
  - reflexivity.
  - apply Hother. apply (@paragraph_heads (is_not 45) lines); [|exact Hok].
    intros c Hc. apply (plain_head_is c Hc).
  - apply map_fixed. rewrite Forall_map. apply Forall_forall. intros i _. reflexivity.
  - apply Hother. apply (@numbered_heads (is_not 45) items); [|exact Hok].
    apply is_not_digit. reflexivity.
Qed.

(** ** The passes for lists on the lines of a block *)

Lemma join_list_lines (tag : string) (attr : jsstring) (st : styles.t)
    (items : list jsstring) :
  items <> [] -> join [LF] (list_lines tag attr st items) = list_element tag attr st items.
Proof.
  intros Hne. unfold list_lines, list_element.
  assert (Hx : map (item_element st) items <> []) by (destruct items; [congruence | discriminate]).
  change (otag tag attr :: map (item_element st) items ++ [lit "</" ++ lit tag ++ lit ">"])
    with ([otag tag attr] ++ (map (item_element st) items ++ [lit "</" ++ lit tag ++ lit ">"])).
  rewrite join_app; [| discriminate |].
  - rewrite join_app by (first [assumption | discriminate]). cbn [join].
    reflexivity.
  - intros E. apply app_eq_nil in E as [_ E]. discriminate.
Qed.

Lemma filter_all (A : Type) (f : A -> bool) (l : list A) :
  Forall (fun x => f x = true) l -> filter f l = l.
Proof.
  induction 1 as [|x l Hx Hl IH]; [reflexivity|]. cbn [filter]. now rewrite Hx, IH.
Qed.

Lemma list_callback_lines (tag : string) (attr : jsstring) (st : styles.t)
    (strip : jsstring -> jsstring) (R items : list jsstring) :
  R <> [] -> Forall (fun l => no_lt l = true /\ nonblank l = true) R ->
  map strip R = items ->
  list_callback tag attr (styles.li st) strip (join [LF] R) = list_element tag attr st items
  /\ list_callback tag attr (styles.li st) strip (join [LF] R ++ [LF])
     = list_element tag attr st items.
Proof.
  intros Hne HR Hs.
  assert (Hlf : Forall (fun l => forallb (is_not LF) l = true) R).
  { revert HR. apply Forall_impl. intros l [Hl _]. now apply no_lt_no_LF. }
  assert (Hnb : Forall (fun l => nonblank l = true) R).
  { revert HR. apply Forall_impl. tauto. }
  assert (Hitems : map (fun line => otag "li" (styles.li st) ++ strip line ++ lit "</li>") R
                   = map (item_element st) items).
  { rewrite <- Hs, map_map. reflexivity. }
  unfold list_callback, list_element. split.
  - rewrite (split_join_LF Hne Hlf), (filter_all _ Hnb), Hitems. reflexivity.
  - replace (join [LF] R ++ [LF]) with (join [LF] (R ++ [[]])).
    + rewrite split_join_LF.
      * rewrite filter_app, (filter_all _ Hnb). cbn [filter].
        change (nonblank []) with false. cbn iota. rewrite app_nil_r, Hitems. reflexivity.
      * intros E. apply app_eq_nil in E as [E _]. now apply Hne.
      * apply Forall_app. split; [exact Hlf|]. constructor; [reflexivity | constructor].
    + rewrite join_app by (first [assumption | discriminate]). cbn [join].
      now rewrite app_nil_r.
Qed.

Lemma nonblank_head (c : char) (l : jsstring) : is_ws c = false -> nonblank (c :: l) = true.
Proof. intros Hc. unfold nonblank. now rewrite trim_cons. Qed.

Lemma valid_ul_bullet (i : jsstring) : i <> [] -> valid_ul_line (bullet_line i) = true.
Proof. destruct i; [congruence | reflexivity]. Qed.

Lemma skipn_length_app (A : Type) (a b : list A) : skipn (length a) (a ++ b) = b.
Proof. induction a as [|x a IH]; [reflexivity | exact IH]. Qed.

Lemma takeWhile_number (n rest : jsstring) :
  forallb is_digit n = true -> takeWhile is_digit (n ++ lit ". " ++ rest) = n.
Proof.
  intros Hn. change (lit ". " ++ rest) with (46 :: 32 :: rest).
  now apply takeWhile_app_stop.
Qed.

Lemma valid_ol_numbered (it : jsstring * jsstring) :
  number_ok (fst it) = true -> snd it <> [] -> valid_ol_line (numbered_line it) = true.
Proof.
  destruct it as [n i]. cbn [fst snd]. intros Hn Hi.
  pose proof (number_ok_facts _ Hn) as (Hd & d & r & E & _).
  unfold valid_ol_line, numbered_line. cbn [fst snd].
  rewrite (@takeWhile_number n _ Hd), skipn_length_app.
  rewrite E. cbn [is_empty negb andb]. destruct i; [congruence | reflexivity].
Qed.

Lemma strip_ol_numbered (it : jsstring * jsstring) :
  number_ok (fst it) = true -> strip_ol_marker (numbered_line it) = snd it.
Proof.
  destruct it as [n i]. cbn [fst snd]. intros Hn.
  pose proof (number_ok_facts _ Hn) as (Hd & d & r & E & _).
  unfold strip_ol_marker, numbered_line. cbn [fst snd].
  rewrite (@takeWhile_number n _ Hd), skipn_length_app.
  replace (negb (is_empty n)) with true by (now rewrite E).
  change (prefixb (lit ". ") (lit ". " ++ i)) with true. cbn [andb].
  change (n ++ lit ". " ++ i) with (n ++ 46 :: 32 :: i).
  clear. induction n as [|x n IH]; [reflexivity | exact IH].
Qed.

Lemma valid_ol_other_head (l : jsstring) :
  head_is (fun c => negb (is_digit c)) l = true -> valid_ol_line l = false.
Proof.
  destruct l as [|c l]; [reflexivity|]. cbn [head_is]. intros H. apply negb_true_iff in H.
  unfold valid_ol_line. cbn [takeWhile]. now rewrite H.
Qed.

Lemma stage_lines_nonempty (st : styles.t) (b : block) :
  block_ok b = true ->
  block_lines b <> [] /\ lines_after_rules st b <> [] /\ lines_after_bullets st b <> []
  /\ lines_after_numbered st b <> [].
Proof.
  intros Hok. destruct b as [level title| |lines|items|items];
    cbn [block_lines lines_after_rules lines_after_bullets lines_after_numbered];
    try (repeat split; discriminate).
  - apply paragraph_ok in Hok as [Hne _]. now repeat split.
  - apply bullets_ok in Hok as [Hne _].
    repeat split; try discriminate; destruct items; congruence || discriminate.
  - apply numbered_ok in Hok as [Hne _].
    repeat split; try discriminate; destruct items; congruence || discriminate.
Qed.

Lemma Forall_and (A : Type) (P Q : A -> Prop) (l : list A) :
  Forall P l -> Forall Q l -> Forall (fun x => P x /\ Q x) l.
Proof.
  induction 1 as [|x l Hx Hl IH]; intros HQ; [constructor|].
  apply Forall_cons_iff in HQ as [Hq HQ]. constructor; [now split | now apply IH].
Qed.

Lemma bullets_pass_blocks (sty : style) (bs : list block) :
  Forall (fun b => block_ok b = true) bs ->
  replace_g (ul_matcher (styles_of sty))
    (join [LF] (doc_lines (lines_after_rules (styles_of sty)) one_blank bs))
  = join [LF] (doc_lines (lines_after_bullets (styles_of sty)) gap_after_bullets bs).
Proof.
  intros H. unfold ul_matcher.
  apply run_pass_blocks with (is_run := is_bullets) (ready := fun b => block_ok b = true);
    try exact H; try reflexivity.
  - intros b Hb. destruct (stage_lines_nonempty (styles_of sty) b Hb) as (_ & H1 & H2 & _).
    now split.
  - intros b _. now right.
  - intros b Hb Hr. split; [|split].
    + apply Forall_and.
      * generalize (lines_after_rules_inline sty b Hb). apply Forall_impl.
        intros l. apply inline_no_lt.
      * assert (Hh : Forall (fun l => head_is (is_not 45) l = true)
                       (lines_after_rules (styles_of sty) b)).
        { apply lines_after_rules_heads; [exact Hb|].
          destruct b; cbn [head_cases]; try reflexivity; try discriminate.
          - intros c Hc. apply (plain_head_is c Hc).
          - apply is_not_digit. reflexivity. }
        revert Hh. apply Forall_impl. intros l. now apply valid_heading_other_head.
    + destruct b; try reflexivity. discriminate.
    + destruct b; try reflexivity. discriminate.
  - intros b Hb Hr. destruct b as [| | |items|]; try discriminate.
    apply bullets_ok in Hb as [Hne Hi].
    cbn [lines_after_rules lines_after_bullets block_lines].
    assert (HR : Forall (fun l => no_lt l = true /\ nonblank l = true)
                   (map bullet_line items)).
    { rewrite Forall_map. revert Hi. apply Forall_impl. intros i [Hi _]. split.
      - apply inline_no_lt. now apply bullet_line_inline.
      - now apply nonblank_head. }
    assert (Hm : map bullet_line items <> []) by (destruct items; [congruence | discriminate]).
    destruct (@list_callback_lines "ul" (styles.ul (styles_of sty)) (styles_of sty)
                strip_ul_marker (map bullet_line items) items Hm HR) as [E1 E2].
    { rewrite map_map. apply map_fixed. apply Forall_forall. intros i _. reflexivity. }
    rewrite E1, E2, join_list_lines by exact Hne.
    repeat split; try reflexivity.
    rewrite Forall_map. revert Hi. apply Forall_impl. intros i [Hi Hi']. split.
    + apply inline_no_lt. now apply bullet_line_inline.
    + now apply valid_ul_bullet.
Qed.

Lemma numbered_pass_blocks (sty : style) (bs : list block) :
  Forall (fun b => block_ok b = true) bs ->
  replace_g (ol_matcher (styles_of sty))
    (join [LF] (doc_lines (lines_after_bullets (styles_of sty)) gap_after_bullets bs))
  = join [LF] (doc_lines (lines_after_numbered (styles_of sty)) gap_after_lists bs).
Proof.
  intros H. unfold ol_matcher.
  apply run_pass_blocks with (is_run := is_numbered) (ready := fun b => block_ok b = true);
    try exact H; try reflexivity.
  - intros b Hb. destruct (stage_lines_nonempty (styles_of sty) b Hb) as (_ & _ & H1 & H2).
    now split.
  - intros b _. unfold gap_after_bullets. destruct (is_bullets b); [now left | now right].
  - intros b Hb Hr. split; [|split].
    + apply Forall_and.
      * generalize (lines_after_bullets_inline sty b Hb). apply Forall_impl.
        intros l. apply inline_no_lt.
      * assert (Hh : Forall (fun l => head_is (fun c => negb (is_digit c)) l = true)
                       (lines_after_bullets (styles_of sty) b)).
        { apply lines_after_bullets_heads; [exact Hb|].
          destruct b; cbn [head_cases]; try reflexivity; try discriminate.
          intros c Hc. apply (plain_head_is c Hc). }
        revert Hh. apply Forall_impl. intros l. apply valid_ol_other_head.
    + destruct b; try reflexivity. discriminate.
    + destruct b; try reflexivity. discriminate.
  - intros b Hb Hr. destruct b as [| | | |items]; try discriminate.
    apply numbered_ok in Hb as [Hne Hi].
    cbn [lines_after_rules lines_after_bullets lines_after_numbered block_lines].
    assert (HR : Forall (fun l => no_lt l = true /\ nonblank l = true)
                   (map numbered_line items)).
    { rewrite Forall_map. revert Hi. apply Forall_impl. intros it (Hn & Hi & _). split.
      - apply inline_no_lt. now apply numbered_line_inline.
      - destruct it as [n i]. cbn [fst] in Hn.
        pose proof (number_ok_facts _ Hn) as (_ & d & r & -> & Hd).
        apply (@nonblank_head d). apply (digit_facts d Hd). }
    assert (Hm : map numbered_line items <> [])
      by (destruct items; [congruence | discriminate]).
    destruct (@list_callback_lines "ol" (styles.ol (styles_of sty)) (styles_of sty)
                strip_ol_marker (map numbered_line items) (map snd items) Hm HR) as [E1 E2].
    { rewrite map_map. apply map_ext_in. intros it Hin. apply strip_ol_numbered.
      rewrite Forall_forall in Hi. apply (Hi it Hin). }
    rewrite E1, E2, join_list_lines by (destruct items; [congruence | discriminate]).
    repeat split; try reflexivity.
    rewrite Forall_map. revert Hi. apply Forall_impl. intros it (Hn & Hi & Hi'). split.
    + apply inline_no_lt. now apply numbered_line_inline.
    + now apply valid_ol_numbered.
Qed.

(** ** The paragraph loop on the lines of the blocks *)

Lemma trim_id (l : jsstring) :
  is_ws (hd 0 l) = false -> is_ws (last l 0) = false -> trim l = l.
Proof.
  destruct l as [|c l]; [reflexivity|]. cbn [hd]. intros Hc Hl.
  destruct l as [|x l'] using rev_ind.
  - rewrite trim_cons by exact Hc. reflexivity.
  - clear IHl'. change (c :: l' ++ [x]) with ((c :: l') ++ [x]) in Hl.
    rewrite last_last in Hl. now apply trim_line.
Qed.

Lemma copied_tag_line (l : jsstring) :
  hd 0 l = 60 -> last l 0 = 62 -> isBlockElement l = true -> copied_line l = true.
Proof.
  intros Hh Hl Hb. unfold copied_line.
  rewrite trim_id by (rewrite ?Hh, ?Hl; reflexivity). rewrite Hb.
  destruct l; [discriminate Hh | reflexivity].
Qed.

Lemma last_otag (tag : string) (attr : jsstring) : last (otag tag attr) 0 = 62.
Proof. unfold otag. rewrite !app_assoc. apply last_last. Qed.

Lemma copied_heading (st : styles.t) (level : heading_level) (title : jsstring) :
  copied_line (heading_element st level title) = true.
Proof.
  apply copied_tag_line.
  - reflexivity.
  - unfold heading_element. rewrite !app_assoc. apply last_last.
  - destruct level; vm_compute; reflexivity.
Qed.

Lemma copied_rule (st : styles.t) : copied_line (otag "hr" (styles.hr st)) = true.
Proof.
  apply copied_tag_line; [reflexivity | apply last_otag | vm_compute; reflexivity].
Qed.

Lemma copied_item (st : styles.t) (item : jsstring) :
  copied_line (item_element st item) = true.
Proof.
  apply copied_tag_line.
  - reflexivity.
  - unfold item_element. rewrite !app_assoc, last_app_nonempty by discriminate.
    reflexivity.
  - vm_compute. reflexivity.
Qed.

Lemma copied_list (tag : string) (attr : jsstring) (st : styles.t)
    (items : list jsstring) :
  isBlockElement (lit "<" ++ lit tag) = true ->
  isBlockElement (lit "</" ++ lit tag ++ lit ">") = true ->
  (forall rest, isBlockElement (lit "<" ++ lit tag ++ rest)
                = isBlockElement (lit "<" ++ lit tag)) ->
  Forall (fun l => copied_line l = true) (list_lines tag attr st items).
Proof.
  intros Hopen Hclose Hrest. unfold list_lines. constructor.
  - apply copied_tag_line; [reflexivity | apply last_otag |].
    unfold otag. now rewrite Hrest.
  - apply Forall_app. split.
    + rewrite Forall_map. apply Forall_forall. intros i _. apply copied_item.
    + constructor; [|constructor]. apply copied_tag_line; [reflexivity | | exact Hclose].
      rewrite !app_assoc. apply last_last.
Qed.

Lemma wrap_lines_copied (st : styles.t) (X R : list jsstring) :
  Forall (fun l => copied_line l = true) X ->
  wrap_lines st false (X ++ R) = X ++ wrap_lines st false R.
Proof.
  induction 1 as [|l X Hl HX IH]; [reflexivity|].
  unfold copied_line in Hl. apply andb_true_iff in Hl as [He Hb].
  apply negb_true_iff in He. cbn [app wrap_lines]. rewrite He, Hb. cbn [app].
  now rewrite IH.
Qed.

Lemma wrap_paragraph_last (st : styles.t) (p : list jsstring) :
  p <> [] -> Forall (fun l => loose_line l = true) p ->
  wrap_lines st false p = wrapped_lines st p.
Proof.
  intros Hne Hp. destruct p as [|l ls]; [congruence|].
  apply Forall_cons_iff in Hp as [Hl Hls].
  destruct (loose_line_facts _ Hl) as (_ & _ & _ & He & Hb & _).
  cbn [wrap_lines]. rewrite He, Hb. cbn [negb].
  rewrite <- (app_nil_r ls) at 1. rewrite wrap_lines_loose_rest by exact Hls.
  reflexivity.
Qed.

Lemma wrap_paragraph_rest (st : styles.t) (p R : list jsstring) :
  p <> [] -> Forall (fun l => loose_line l = true) p ->
  wrap_lines st false (p ++ [] :: R) = wrapped_lines st p ++ [] :: wrap_lines st false R.
Proof.
  intros Hne Hp. destruct p as [|l ls]; [congruence|].
  apply Forall_cons_iff in Hp as [Hl Hls].
  destruct (loose_line_facts _ Hl) as (_ & _ & _ & He & Hb & _).
  cbn [app wrap_lines]. rewrite He, Hb. cbn [negb].
  rewrite wrap_lines_loose_rest by exact Hls.
  unfold wrapped_lines. cbn [hd tl wrap_lines app]. change (trim []) with (@nil char).
  cbn [is_empty app]. now rewrite <- app_assoc.
Qed.

Lemma lines_after_numbered_copied (st : styles.t) (b : block) :
  (forall lines, b <> Paragraph lines) ->
  Forall (fun l => copied_line l = true) (lines_after_numbered st b).
Proof.
  intros Hb. destruct b as [level title| |lines|items|items];
    cbn [lines_after_numbered lines_after_bullets lines_after_rules].
  - constructor; [apply copied_heading | constructor].
  - constructor; [apply copied_rule | constructor].
  - now elim (Hb lines).
  - apply copied_list; [reflexivity | reflexivity | intros rest; vm_compute; reflexivity].
  - apply copied_list; [reflexivity | reflexivity | intros rest; vm_compute; reflexivity].
Qed.

Lemma wrap_blocks (st : styles.t) (bs : list block) :
  Forall (fun b => block_ok b = true) bs ->
  wrap_lines st false (doc_lines (lines_after_numbered st) gap_after_lists bs)
  = doc_lines (block_html_lines st) gap_after_lists bs.
Proof.
  induction 1 as [|b bs Hb Hbs IH]; [reflexivity|].
  destruct bs as [|b' rest].
  - cbn [doc_lines]. destruct b as [level title| |lines|items|items];
      try (rewrite <- (app_nil_r (lines_after_numbered st _));
           rewrite wrap_lines_copied by (apply lines_after_numbered_copied; discriminate);
           cbn [wrap_lines block_html_lines]; now rewrite !app_nil_r).
    apply paragraph_ok in Hb as [Hne Hl]. now apply wrap_paragraph_last.
  - rewrite !doc_lines_cons. rewrite <- IH.
    destruct b as [level title| |lines|items|items];
      try (rewrite wrap_lines_copied by (apply lines_after_numbered_copied; discriminate);
           reflexivity).
    apply paragraph_ok in Hb as [Hne Hl].
    cbn [lines_after_numbered lines_after_bullets lines_after_rules block_lines
           block_html_lines gap_after_lists is_bullets is_numbered orb app].
    now apply wrap_paragraph_rest.
Qed.

Lemma join_block_html_lines (st : styles.t) (b : block) :
  block_ok b = true -> join [LF] (block_html_lines st b) = block_element st b.
Proof.
  intros Hok. destruct b as [level title| |lines|items|items];
    cbn [block_html_lines lines_after_numbered lines_after_bullets lines_after_rules
           block_element].
  - reflexivity.
  - reflexivity.
  - apply paragraph_ok in Hok as [Hne _]. now apply join_wrapped_lines.
  - apply bullets_ok in Hok as [Hne _]. now apply join_list_lines.
  - apply numbered_ok in Hok as [Hne _]. apply join_list_lines.
    destruct items; [congruence | discriminate].
Qed.

Lemma block_html_lines_nonempty (st : styles.t) (b : block) :
  block_ok b = true -> block_html_lines st b <> [].
Proof.
  intros Hok. destruct b as [level title| |lines|items|items];
    try (apply (stage_lines_nonempty st _ Hok)).
  discriminate.
Qed.

Lemma join_blocks_html (st : styles.t) (bs : list block) :
  Forall (fun b => block_ok b = true) bs ->
  join [LF] (doc_lines (block_html_lines st) gap_after_lists bs) = blocks_html st bs.
Proof.
  induction 1 as [|b bs Hb Hbs IH]; [reflexivity|].
  destruct bs as [|b' rest].
  - cbn [doc_lines blocks_html]. now apply join_block_html_lines.
  - rewrite doc_lines_cons.
    assert (Hd : doc_lines (block_html_lines st) gap_after_lists (b' :: rest) <> []).
    { apply doc_lines_nonempty; [discriminate|]. revert Hbs. apply Forall_impl.
      intros x. apply block_html_lines_nonempty. }
    pose proof (block_html_lines_nonempty st b Hb) as Hl.
    change (blocks_html st (b :: b' :: rest))
      with (block_element st b ++ block_gap b ++ blocks_html st (b' :: rest)).
    rewrite <- IH, <- (join_block_html_lines st b Hb).
    destruct b as [level title| |lines|items|items];
      cbn [gap_after_lists is_bullets is_numbered orb block_gap app];
      try (rewrite (@join_app [LF] _ ([] :: _) Hl) by discriminate;
           change (join [LF] ([] :: doc_lines (block_html_lines st) gap_after_lists (b' :: rest)))
             with (join [LF] ([[]] ++ doc_lines (block_html_lines st) gap_after_lists (b' :: rest)));
           rewrite (@join_app [LF] [[]] _) by (first [assumption | discriminate]);
           reflexivity);
      now rewrite (@join_app [LF] _ _ Hl Hd).
Qed.

(** ** The passes on a document of blocks *)

Lemma inline_doc_is_not (t : char) (L : list jsstring) :
  In t [96; 42; 91] -> Forall (fun l => inline_text l = true) L ->
  forallb (is_not t) (join [LF] L) = true.
Proof.
  intros Ht H. apply join_text.
  - cbn [In] in Ht. destruct Ht as [<-|[<-|[<-|[]]]]; reflexivity.
  - revert H. apply Forall_impl. intros l. apply forallb_impl.
    intros c. now apply inline_char_is_not.
Qed.

Section BlockDocument.

Variable sty : style.
Variable bs : list block.
Hypothesis blocks_ok : Forall (fun b => block_ok b = true) bs.

Let st := styles_of sty.

Lemma doc_inline (lines_of gap : block -> list jsstring) :
  (forall b, block_ok b = true -> Forall (fun l => inline_text l = true) (lines_of b)) ->
  (forall b, gap b = [] \/ gap b = [[]]) ->
  Forall (fun l => inline_text l = true) (doc_lines lines_of gap bs).
Proof.
  intros Hl Hg. apply doc_lines_Forall. revert blocks_ok. apply Forall_impl.
  intros b Hb. split; [now apply Hl|].
  destruct (Hg b) as [-> | ->]; [constructor | constructor; [reflexivity | constructor]].
Qed.

Lemma doc_heads (P : char -> bool) (lines_of : block -> list jsstring) :
  (forall b, block_ok b = true -> Forall (fun l => inline_text l = true) (lines_of b)) ->
  (forall b, block_ok b = true -> Forall (fun l => head_is P l = true) (lines_of b)) ->
  Forall (fun l => no_lt l = true /\ head_is P l = true) (doc_lines lines_of one_blank bs).
Proof.
  intros Hl Hh. apply doc_lines_Forall. revert blocks_ok. apply Forall_impl.
  intros b Hb. split.
  - apply Forall_and; [|now apply Hh]. generalize (Hl b Hb). apply Forall_impl.
    intros l. apply inline_no_lt.
  - constructor; [now split | constructor].
Qed.

Lemma first_passes_doc :
  first_passes st (join [LF] (doc_lines block_lines one_blank bs))
  = join [LF] (doc_lines block_lines one_blank bs).
Proof.
  unfold first_passes.
  rewrite (@replace_g_inert (codeblock_matcher st) (is_not 96)).
  - apply (@replace_heads (table_matcher st) (is_not 124));
      [apply run_matcher_anchored | apply table_inert | reflexivity |].
    apply doc_heads; [apply block_lines_inline|].
    intros b Hb. apply block_heads; [exact Hb|].
    destruct b; cbn [head_cases]; try reflexivity.
    + intros c Hc. apply (plain_head_is c Hc).
    + apply is_not_digit. reflexivity.
  - apply codeblock_inert.
  - apply inline_doc_is_not; [cbn; tauto|].
    apply doc_inline; [apply block_lines_inline | intros b; now right].
Qed.

Lemma heading_pass_doc (k : heading_level) (done : heading_level -> bool) :
  replace_g (heading_matcher (marker_of k) (tag_of k) (attr_of st k))
    (join [LF] (doc_lines (lines_with done st) one_blank bs))
  = join [LF] (doc_lines (lines_with (fun level => done level || level_eqb level k) st)
                 one_blank bs).
Proof.
  change (heading_matcher (marker_of k) (tag_of k) (attr_of st k))
    with (line_matcher (valid_heading (marker_of k))
            (heading_callback (marker_of k) (tag_of k) (attr_of st k))).
  rewrite line_pass_lines.
  - change (line_pass (valid_heading (marker_of k))
              (heading_callback (marker_of k) (tag_of k) (attr_of st k)))
      with (heading_pass st k).
    rewrite map_doc_lines by (now destruct k). f_equal.
    apply doc_lines_ext. revert blocks_ok. apply Forall_impl. intros b Hb.
    split; [now apply heading_pass_block | reflexivity].
  - now destruct k.
  - generalize (@doc_inline (lines_with done st) one_blank
                  (fun b => @lines_with_inline done sty b) (fun b => or_intror eq_refl)).
    apply Forall_impl. intros l. apply inline_no_lt.
Qed.

Lemma lines_with_ext (done done' : heading_level -> bool) :
  (forall level, done level = done' level) ->
  doc_lines (lines_with done st) one_blank bs = doc_lines (lines_with done' st) one_blank bs.
Proof.
  intros H. apply doc_lines_ext. apply Forall_forall. intros b _. split; [|reflexivity].
  destruct b; try reflexivity. cbn [lines_with]. now rewrite H.
Qed.

Lemma heading_passes_doc :
  heading_passes st (join [LF] (doc_lines block_lines one_blank bs))
  = join [LF] (doc_lines (lines_with (fun _ => true) st) one_blank bs).
Proof.
  unfold heading_passes. cbn zeta.
  replace (doc_lines block_lines one_blank bs)
    with (doc_lines (lines_with (fun _ => false) st) one_blank bs).
  - pose proof (heading_pass_doc H4 (fun _ => false)) as E4.
    cbn [marker_of tag_of attr_of] in E4. rewrite E4.
    pose proof (heading_pass_doc H3 (fun level => false || level_eqb level H4)) as E3.
    cbn [marker_of tag_of attr_of] in E3. rewrite E3.
    pose proof (heading_pass_doc H2
                  (fun level => (false || level_eqb level H4) || level_eqb level H3)) as E2.
    cbn [marker_of tag_of attr_of] in E2. rewrite E2.
    pose proof (heading_pass_doc H1
                  (fun level => ((false || level_eqb level H4) || level_eqb level H3)
                                || level_eqb level H2)) as E1.
    cbn [marker_of tag_of attr_of] in E1. rewrite E1.
    f_equal. apply lines_with_ext. now intros [].
  - apply doc_lines_ext. apply Forall_forall. intros b _. split; [|reflexivity].
    now destruct b.
Qed.

Lemma inline_passes_doc (lines_of : block -> list jsstring) :
  (forall b, block_ok b = true -> Forall (fun l => inline_text l = true) (lines_of b)) ->
  inline_passes st (join [LF] (doc_lines lines_of one_blank bs))
  = join [LF] (doc_lines lines_of one_blank bs).
Proof.
  intros Hl.
  assert (Hn : forall t, In t [96; 42; 91] ->
                         forallb (is_not t) (join [LF] (doc_lines lines_of one_blank bs)) = true).
  { intros t Ht. apply inline_doc_is_not; [exact Ht|].
    apply doc_inline; [exact Hl | intros b; now right]. }
  unfold inline_passes. cbn zeta.
  rewrite (@replace_g_inert (bold_matcher st) (is_not 42))
    by (first [apply bold_inert | apply Hn; cbn; tauto]).
  rewrite (@replace_g_inert (italic_matcher st) (is_not 42))
    by (first [apply italic_inert | apply Hn; cbn; tauto]).
  rewrite (@replace_g_inert (link_matcher st) (is_not 91))
    by (first [apply link_inert | apply Hn; cbn; tauto]).
  now rewrite (@replace_g_inert (code_matcher st) (is_not 96))
    by (first [apply code_inert | apply Hn; cbn; tauto]).
Qed.

Lemma rule_pass_doc :
  replace_g (hr_matcher st) (join [LF] (doc_lines (lines_with (fun _ => true) st) one_blank bs))
  = join [LF] (doc_lines (lines_after_rules st) one_blank bs).
Proof.
  unfold hr_matcher. rewrite line_pass_lines.
  - change (line_pass (eqb_str (lit "---")) (fun _ => otag "hr" (styles.hr st)))
      with (rule_pass st).
    rewrite map_doc_lines by reflexivity. f_equal.
    apply doc_lines_ext. revert blocks_ok. apply Forall_impl. intros b Hb.
    split; [now apply rule_pass_block | reflexivity].
  - reflexivity.
  - generalize (@doc_inline (lines_with (fun _ => true) st) one_blank
                  (fun b => @lines_with_inline (fun _ => true) sty b)
                  (fun b => or_intror eq_refl)).
    apply Forall_impl. intros l. apply inline_no_lt.
Qed.

Lemma blockquote_pass_doc :
  replace_g (blockquote_matcher st) (join [LF] (doc_lines (lines_after_rules st) one_blank bs))
  = join [LF] (doc_lines (lines_after_rules st) one_blank bs).
Proof.
  apply (@replace_heads (blockquote_matcher st) (is_not 62));
    [apply run_matcher_anchored | apply blockquote_inert | reflexivity |].
  apply doc_heads; [apply lines_after_rules_inline|].
  intros b Hb. apply lines_after_rules_heads; [exact Hb|].
  destruct b; cbn [head_cases]; try reflexivity.
  - intros c Hc. apply (plain_head_is c Hc).
  - apply is_not_digit. reflexivity.
Qed.

Lemma render_blocks :
  bs <> [] ->
  render_body st (join [LF] (doc_lines block_lines one_blank bs)) = blocks_html st bs.
Proof.
  intros Hne. rewrite render_body_split.
  rewrite first_passes_doc, heading_passes_doc.
  rewrite inline_passes_doc by (intros b; apply (@lines_with_inline (fun _ => true) sty b)).
  unfold block_passes. cbn zeta.
  rewrite rule_pass_doc, blockquote_pass_doc.
  unfold st. rewrite (bullets_pass_blocks sty blocks_ok).
  rewrite (numbered_pass_blocks sty blocks_ok). fold st.
  unfold wrap_paragraphs. rewrite split_join_LF.
  - rewrite (wrap_blocks st blocks_ok). now apply join_blocks_html.
  - apply doc_lines_nonempty; [exact Hne|]. revert blocks_ok. apply Forall_impl.
    intros b Hb. apply (stage_lines_nonempty st b Hb).
  - assert (Hi : Forall (fun l => inline_text l = true)
                   (doc_lines (lines_after_numbered st) gap_after_lists bs)).
    { apply doc_inline; [apply lines_after_numbered_inline|].
      intros b. unfold gap_after_lists. destruct (is_bullets b || is_numbered b);
        [now left | now right]. }
    revert Hi. apply Forall_impl. intros l Hl. apply no_lt_no_LF. now apply inline_no_lt.
Qed.

End BlockDocument.

(** ** The command [send-md] *)

Lemma dollar_free_app (a b : jsstring) :
  dollar_free (a ++ b) = dollar_free a && dollar_free b.
Proof. apply forallb_app. Qed.

Lemma dollar_free_literal (t : jsstring) :
  dollar_free t = true -> literal_replacement t = true.
Proof.
  induction t as [|c r IH]; [reflexivity|]. cbn [dollar_free forallb literal_replacement].
  intros [Hc Hr]%andb_true_iff. unfold is_not in Hc. apply negb_true_iff in Hc.
  rewrite Hc. cbn [andb negb]. now apply IH.
Qed.

Lemma dollar_free_no_dollar (t : jsstring) :
  dollar_free t = true -> existsb (N.eqb 36) t = false.
Proof.
  induction t as [|c r IH]; [reflexivity|]. cbn [dollar_free forallb existsb].
  intros [Hc Hr]%andb_true_iff. unfold is_not in Hc. apply negb_true_iff in Hc.
  rewrite N.eqb_sym, Hc. now apply IH.
Qed.

Lemma dollar_free_join (sep : jsstring) (l : list jsstring) :
  dollar_free (join sep l) = true -> Forall (fun x => dollar_free x = true) l.
Proof.
  induction l as [|x l IH]; [constructor|]. cbn [join]. destruct l as [|y l].
  - intros H. constructor; [exact H | constructor].
  - rewrite !dollar_free_app. intros [Hx [_ Hl]%andb_true_iff]%andb_true_iff.
    constructor; [exact Hx | now apply IH].
Qed.

Lemma join_dollar_free (sep : jsstring) (l : list jsstring) :
  dollar_free sep = true -> Forall (fun x => dollar_free x = true) l ->
  dollar_free (join sep l) = true.
Proof.
  intros Hs H. induction H as [|x l Hx Hl IH]; [reflexivity|]. cbn [join].
  destruct l; [exact Hx|]. now rewrite !dollar_free_app, Hx, Hs, IH.
Qed.

Lemma attrs_dollar_free (sty : style) :
  let st := styles_of sty in
  dollar_free (styles.h1 st) = true /\ dollar_free (styles.h2 st) = true
  /\ dollar_free (styles.h3 st) = true /\ dollar_free (styles.h4 st) = true
  /\ dollar_free (styles.hr st) = true /\ dollar_free (styles.ul st) = true
  /\ dollar_free (styles.ol st) = true /\ dollar_free (styles.li st) = true
  /\ dollar_free (styles.p st) = true.
Proof. destruct sty; vm_compute; repeat split; reflexivity. Qed.

Lemma otag_dollar_free (tag : string) (attr : jsstring) :
  dollar_free (lit tag) = true -> dollar_free attr = true ->
  dollar_free (otag tag attr) = true.
Proof.
  intros Ht Ha. unfold otag. now rewrite !dollar_free_app, Ht, Ha.
Qed.

Lemma list_element_dollar_free (sty : style) (tag : string) (attr : jsstring)
    (items : list jsstring) :
  dollar_free (lit tag) = true -> dollar_free attr = true ->
  Forall (fun i => dollar_free i = true) items ->
  dollar_free (list_element tag attr (styles_of sty) items) = true.
Proof.
  intros Ht Ha Hi. destruct (attrs_dollar_free sty) as (_ & _ & _ & _ & _ & _ & _ & Hli & _).
  unfold list_element. rewrite !dollar_free_app, Ht, (@otag_dollar_free tag attr Ht Ha).
  rewrite join_dollar_free; [reflexivity | reflexivity |].
  rewrite Forall_map. revert Hi. apply Forall_impl. intros i Hi.
  unfold item_element. rewrite !dollar_free_app, Hi.
  now rewrite otag_dollar_free by (first [reflexivity | assumption]).
Qed.

Lemma block_element_dollar_free (sty : style) (b : block) :
  dollar_free (block_source b) = true ->
  dollar_free (block_element (styles_of sty) b) = true.
Proof.
  intros H. destruct (attrs_dollar_free sty) as (A1 & A2 & A3 & A4 & Ahr & Aul & Aol & Ali & Ap).
  destruct b as [level title| |lines|items|items]; unfold block_source in H;
    cbn [block_lines join block_element] in *.
  - rewrite dollar_free_app in H. apply andb_true_iff in H as [_ Ht].
    unfold heading_element. rewrite !dollar_free_app, Ht.
    destruct level; cbn [tag_of attr_of];
      now rewrite otag_dollar_free by (first [reflexivity | assumption]).
  - now apply otag_dollar_free.
  - unfold paragraph_element. rewrite !dollar_free_app, H.
    now rewrite otag_dollar_free by (first [reflexivity | assumption]).
  - apply list_element_dollar_free; [reflexivity | exact Aul |].
    apply dollar_free_join in H. rewrite Forall_map in H. revert H. apply Forall_impl.
    intros i Hi. unfold bullet_line in Hi. rewrite dollar_free_app in Hi.
    now apply andb_true_iff in Hi as [_ Hi].
  - apply list_element_dollar_free; [reflexivity | exact Aol |].
    apply dollar_free_join in H. rewrite Forall_map in H. rewrite Forall_map.
    revert H. apply Forall_impl.
    intros it Hi. unfold numbered_line in Hi. rewrite !dollar_free_app in Hi.
    now apply andb_true_iff in Hi as [_ [_ Hi]%andb_true_iff].
Qed.

Lemma blocks_html_dollar_free (sty : style) (bs : list block) :
  dollar_free (join [LF; LF] (map block_source bs)) = true ->
  dollar_free (blocks_html (styles_of sty) bs) = true.
Proof.
  intros H. apply dollar_free_join in H. rewrite Forall_map in H.
  induction H as [|b bs Hb Hbs IH]; [reflexivity|]. cbn [blocks_html].
  destruct bs as [|b' rest]; [now apply block_element_dollar_free|].
  rewrite !dollar_free_app, (block_element_dollar_free sty b Hb), IH.
  now destruct b.
Qed.

Lemma html_of_blocks (sty : style) (bs : list block) :
  forallb block_ok bs = true ->
  html_of (markdownToEmailHtml (join [LF; LF] (map block_source bs)) sty)
  = blocks_html (styles_of sty) bs.
Proof.
  intros Hok. apply forallb_Forall in Hok.
  destruct bs as [|b rest]; [destruct sty; vm_compute; reflexivity|].
  cbn [markdownToEmailHtml html_of].
  rewrite source_doc_lines.
  - apply render_blocks; [exact Hok | discriminate].
  - revert Hok. apply Forall_impl. intros x Hx.
    apply (stage_lines_nonempty (styles_of sty) x Hx).
Qed.

Lemma send_md_call (w : world) (flags : Flags) (markdown : jsstring) (log : list event) :
  truthy (get_flag (lit "to") flags) = true ->
  truthy (get_flag (lit "file") flags) = true ->
  send_md w flags markdown log
  = let mail := styled_mail flags markdown in
    let raw := createRawMessage (now w) (string_of (get_flag (lit "to") flags))
                 (finalSubject mail) markdown None (Some (finalHtml mail)) None None in
    inr (match get_flag (lit "draft") flags with
         | Some _ => (drafts_create w raw, log ++ [DraftCall raw])
         | None => (messages_send w raw, log ++ [SendCall raw])
         end).
Proof.
  intros Hto Hfile. unfold send_md. rewrite Hto, Hfile. cbn [negb orb]. cbn zeta.
  destruct (get_flag (lit "draft") flags); reflexivity.
Qed.

(** ** The lists of files of [send] and [draft] *)

Lemma split_join_sep (sep : char) (L : list jsstring) :
  L <> [] -> Forall (fun l => forallb (is_not sep) l = true) L ->
  split sep (join [sep] L) = L.
Proof.
  intros Hne H. revert Hne. induction H as [|l L Hl HL IH]; intros Hne;
    [exfalso; now apply Hne|].
  clear Hne. cbn [join]. destruct L as [|l' L'].
  - now apply split_no_sep.
  - cbn [app]. rewrite split_app_sep by exact Hl. now rewrite IH by discriminate.
Qed.

Lemma dropWhile_blank (a y : jsstring) :
  blank a = true -> is_ws (hd 0 y) = false -> y <> [] -> dropWhile is_ws (a ++ y) = y.
Proof.
  intros Ha Hy Hne. induction a as [|c a IH].
  - destruct y as [|d y]; [congruence|]. cbn [app dropWhile]. cbn [hd] in Hy. now rewrite Hy.
  - cbn [blank forallb] in Ha. apply andb_true_iff in Ha as [Hc Ha].
    cbn [app dropWhile]. rewrite Hc. now apply IH.
Qed.

Lemma blank_rev (a : jsstring) : blank a = true -> blank (rev a) = true.
Proof. unfold blank. intros H. now rewrite forallb_rev. Qed.

Lemma hd_rev (x : jsstring) : hd 0 (rev x) = last x 0.
Proof.
  destruct x as [|c x] using rev_ind; [reflexivity|].
  now rewrite rev_app_distr, last_last.
Qed.

(** [trim] takes the white space around a text away. *)
Lemma trim_padded (a x b : jsstring) :
  blank a = true -> blank b = true -> trimmed x = true -> x <> [] ->
  trim (a ++ x ++ b) = x.
Proof.
  intros Ha Hb Hx Hne. unfold trimmed in Hx. apply andb_true_iff in Hx as [H1 H2].
  apply negb_true_iff in H1, H2. unfold trim.
  rewrite dropWhile_blank; [| exact Ha | | ].
  - rewrite rev_app_distr, dropWhile_blank.
    + apply rev_involutive.
    + now apply blank_rev.
    + now rewrite hd_rev.
    + intros E. apply (f_equal (@rev char)) in E. rewrite rev_involutive in E. now apply Hne.
  - destruct x; [congruence | exact H1].
  - destruct x; [congruence | discriminate].
Qed.

Lemma forallb_app_iff (P : char -> bool) (a b : jsstring) :
  forallb P (a ++ b) = true <-> forallb P a = true /\ forallb P b = true.
Proof. rewrite forallb_app. apply andb_true_iff. Qed.

Lemma blank_no_sep (sep : char) (a : jsstring) :
  is_ws sep = false -> blank a = true -> forallb (is_not sep) a = true.
Proof.
  intros Hs. apply forallb_impl. intros c Hc. unfold is_not. apply negb_true_iff.
  apply N.eqb_neq. intros ->. congruence.
Qed.

Lemma join_nonempty_head (sep : jsstring) (x : jsstring) (l : list jsstring) :
  x <> [] -> join sep (x :: l) <> [].
Proof.
  intros Hx. cbn [join]. destruct l; [exact Hx|]. destruct x; [congruence | discriminate].
Qed.

Lemma truthy_nonempty (x : jsstring) : x <> [] -> truthy (Some x) = true.
Proof. destruct x; [congruence | reflexivity]. Qed.

Lemma trimmed_app (x y : jsstring) :
  trimmed x = true -> x <> [] -> trimmed y = true -> y <> [] ->
  forall mid, trimmed (x ++ mid ++ y) = true /\ x ++ mid ++ y <> [].
Proof.
  unfold trimmed. intros [Hx _]%andb_true_iff Hxn [_ Hy]%andb_true_iff Hyn mid. split.
  - apply andb_true_iff. split.
    + destruct x; [congruence | exact Hx].
    + rewrite app_assoc, last_app_nonempty by exact Hyn. exact Hy.
  - destruct x; [congruence | discriminate].
Qed.

Lemma split_two (sep : char) (x y : jsstring) :
  forallb (is_not sep) x = true -> forallb (is_not sep) y = true ->
  split sep (x ++ [sep] ++ y) = [x; y].
Proof.
  intros Hx Hy. cbn [app]. rewrite split_app_sep by exact Hx. now rewrite split_no_sep.
Qed.

Lemma split_three (sep : char) (x y z : jsstring) :
  forallb (is_not sep) x = true -> forallb (is_not sep) y = true ->
  exists rest, split sep (x ++ [sep] ++ y ++ [sep] ++ z) = x :: y :: rest.
Proof.
  intros Hx Hy. cbn [app]. rewrite split_app_sep by exact Hx.
  rewrite split_app_sep by exact Hy. now exists (split sep z).
Qed.

Lemma inline_item_parsed (a p c b : jsstring) :
  blank a = true -> blank b = true ->
  trimmed p = true -> p <> [] -> trimmed c = true -> c <> [] ->
  forallb (is_not 58) p = true -> forallb (is_not 58) c = true ->
  split 58 (trim (a ++ (p ++ lit ":" ++ c) ++ b)) = [p; c].
Proof.
  intros Ha Hb Htp Hp Htc Hc Hp58 Hc58.
  destruct (@trimmed_app p c Htp Hp Htc Hc (lit ":")) as [Ht Hn].
  rewrite (@trim_padded a _ b Ha Hb Ht Hn). now apply split_two.
Qed.

Lemma inline_item_colons (p q rest : jsstring) :
  trimmed p = true -> p <> [] -> trimmed rest = true -> rest <> [] ->
  forallb (is_not 58) p = true -> forallb (is_not 58) q = true ->
  exists tail, split 58 (trim (p ++ lit ":" ++ q ++ lit ":" ++ rest)) = p :: q :: tail.
Proof.
  intros Htp Hp Htr Hr Hp58 Hq58.
  destruct (@trimmed_app p rest Htp Hp Htr Hr (lit ":" ++ q ++ lit ":")) as [Ht Hn].
  rewrite <- !app_assoc in Ht, Hn.
  pose proof (@trim_padded [] _ [] eq_refl eq_refl Ht Hn) as E.
  cbn [app] in E. rewrite app_nil_r in E. cbn [app]. rewrite E.
  apply (@split_three 58 p q rest Hp58 Hq58).
Qed.

Lemma trim_trimmed (p : jsstring) : trimmed p = true -> p <> [] -> trim p = p.
Proof.
  intros Ht Hp. pose proof (@trim_padded [] p [] eq_refl eq_refl Ht Hp) as E.
  cbn [app] in E. now rewrite app_nil_r in E.
Qed.

(** ** Passes that do not look at the start of a line *)

Lemma replace_from_bol (m : matcher) :
  bol_free m -> forall s k bol, replace_from m k bol s = replace_from m k true s.
Proof.
  intros Hm. induction s as [|c rest IH]; intros k bol.
  - cbn [replace_from]. destruct k; [now rewrite Hm | reflexivity].
  - cbn [replace_from]. destruct k as [|k]; [|reflexivity].
    rewrite Hm. reflexivity.
Qed.

Lemma inert_prefix (m : matcher) (P : char -> bool) (x R : jsstring) :
  bol_free m -> inert m P -> forallb P x = true ->
  replace_from m 0 true (x ++ R) = x ++ replace_from m 0 true R.
Proof.
  intros Hm [_ Hc]. induction x as [|c x IH]; intros Hx; [reflexivity|].
  cbn [forallb] in Hx. apply andb_true_iff in Hx as [HP Hx].
  cbn [app replace_from]. rewrite (Hc true c (x ++ R) HP).
  rewrite (replace_from_bol Hm). now rewrite IH.
Qed.

Lemma quiet_char (m : matcher) (c : char) (R : jsstring) :
  bol_free m -> m true (c :: R) = None ->
  replace_from m 0 true (c :: R) = c :: replace_from m 0 true R.
Proof.
  intros Hm H. cbn [replace_from]. rewrite H. now rewrite (replace_from_bol Hm).
Qed.

Lemma hit_prefix (m : matcher) (a R out : jsstring) :
  bol_free m -> a <> [] -> m true (a ++ R) = Some (length a, out) ->
  replace_from m 0 true (a ++ R) = out ++ replace_from m 0 true R.
Proof.
  intros Hm Ha H. rewrite (@replace_from_match m a R out true Ha H).
  now rewrite (replace_from_bol Hm).
Qed.

(** A pass whose pattern matches at no position of the text. *)
Lemma replace_nowhere (m : matcher) (Q : jsstring -> bool) :
  (forall bol s, Q s = true -> m bol s = None) ->
  (forall c s, Q (c :: s) = true -> Q s = true) ->
  forall s bol, Q s = true -> replace_from m 0 bol s = s.
Proof.
  intros Hm Hq. induction s as [|c rest IH]; intros bol H; cbn [replace_from].
  - now rewrite (Hm bol [] H).
  - rewrite (Hm bol _ H). f_equal. apply IH. now apply (Hq c).
Qed.

Lemma forallb_skipn (P : char -> bool) (n : nat) (s : jsstring) :
  forallb P s = true -> forallb P (skipn n s) = true.
Proof.
  revert s; induction n as [|n IH]; intros [|c s] H; try exact H; try reflexivity.
  cbn [skipn]. apply IH. cbn [forallb] in H. now apply andb_true_iff in H as [_ H].
Qed.

(** The pattern of a code block needs an LF: on one line it matches
    nowhere. *)
Lemma codeblock_one_line (st : styles.t) (s : jsstring) :
  forallb (is_not 10) s = true -> replace_g (codeblock_matcher st) s = s.
Proof.
  intros H. unfold replace_g.
  apply (@replace_nowhere (codeblock_matcher st) (forallb (is_not 10))); [| |exact H].
  - intros bol x Hx. unfold codeblock_matcher. destruct (prefixb fence x); [|reflexivity].
    cbn zeta.
    pose proof (@forallb_skipn (is_not 10) (length (takeWhile is_word (skipn 3 x))) _
                  (@forallb_skipn (is_not 10) 3 x Hx)) as Hs.
    destruct (skipn (length (takeWhile is_word (skipn 3 x))) (skipn 3 x)) as [|c r2];
      [reflexivity|].
    cbn [forallb] in Hs. apply andb_true_iff in Hs as [Hc _].
    unfold is_not in Hc. apply negb_true_iff in Hc. now rewrite Hc.
  - intros c x Hx. cbn [forallb] in Hx. now apply andb_true_iff in Hx as [_ Hx].
Qed.

(** ** The texts of the spans *)

Lemma inline_is_not (t : char) (x : jsstring) :
  In t [96; 42; 91] -> inline_text x = true -> forallb (is_not t) x = true.
Proof.
  intros Ht. apply forallb_impl. intros c. now apply inline_char_is_not.
Qed.

Lemma inline_attrs (sty : style) :
  let st := styles_of sty in
  inline_text (styles.strong st) = true /\ inline_text (styles.em st) = true
  /\ inline_text (styles.a st) = true /\ inline_text (styles.code st) = true
  /\ inline_text (styles.p st) = true.
Proof. destruct sty; vm_compute; repeat split; reflexivity. Qed.

Lemma span_ok_text (s : span) :
  span_ok s = true ->
  match s with
  | PlainText t | BoldText t | ItalicText t | CodeText t => inline_text t = true /\ t <> []
  | LinkTo text url =>
      inline_text text = true /\ text <> [] /\ forallb (is_not 93) text = true
      /\ inline_text url = true /\ url <> [] /\ forallb (is_not 41) url = true
  end.
Proof.
  destruct s as [t|t|t|text url|t]; cbn [span_ok]; try apply item_text_facts.
  intros [[[H1 H2]%andb_true_iff H3]%andb_true_iff H4]%andb_true_iff.
  apply item_text_facts in H1 as [? ?]. apply item_text_facts in H3 as [? ?].
  now repeat split.
Qed.

Lemma span_element_inline (sty : style) (s : span) :
  span_ok s = true -> inline_text (span_element (styles_of sty) s) = true.
Proof.
  intros Hok. apply span_ok_text in Hok.
  destruct (inline_attrs sty) as (A1 & A2 & A3 & A4 & _).
  destruct s as [t|t|t|text url|t]; cbn [span_element].
  - apply Hok.
  - destruct Hok as [Ht _]. rewrite !inline_text_app, Ht.
    now rewrite otag_inline by (first [reflexivity | assumption]).
  - destruct Hok as [Ht _]. rewrite !inline_text_app, Ht.
    now rewrite otag_inline by (first [reflexivity | assumption]).
  - destruct Hok as (Ht & _ & _ & Hu & _). now rewrite !inline_text_app, Ht, Hu, A3.
  - destruct Hok as [Ht _]. rewrite !inline_text_app, Ht.
    now rewrite otag_inline by (first [reflexivity | assumption]).
Qed.

Lemma forallb_app3 (P : char -> bool) (a x b : jsstring) :
  forallb P a = true -> forallb P x = true -> forallb P b = true ->
  forallb P (a ++ x ++ b) = true.
Proof. intros Ha Hx Hb. now rewrite !forallb_app, Ha, Hx, Hb. Qed.

(** The source of a span holds the code units of its own markup only. *)
Lemma span_source_is_not (t : char) (s : span) :
  In t [96; 42; 91] -> span_ok s = true ->
  match s, t with
  | BoldText _, 42 | ItalicText _, 42 | LinkTo _ _, 91 | CodeText _, 96 => True
  | _, _ => forallb (is_not t) (span_source s) = true
  end.
Proof.
  intros Ht Hok. apply span_ok_text in Hok. cbn [In] in Ht.
  destruct s as [x|x|x|text url|x]; cbn [span_source];
    destruct Ht as [<-|[<-|[<-|[]]]]; try exact I;
    try (destruct Hok as [Hx _]; first
           [ apply inline_is_not; [cbn; tauto | exact Hx]
           | apply forallb_app3; [reflexivity | apply inline_is_not; [cbn; tauto | exact Hx]
                                  | reflexivity] ]).
  - destruct Hok as (Hx & _ & _ & Hu & _).
    rewrite !forallb_app, (@inline_is_not 96 text), (@inline_is_not 96 url);
      first [reflexivity | assumption | cbn; tauto].
  - destruct Hok as (Hx & _ & _ & Hu & _).
    rewrite !forallb_app, (@inline_is_not 42 text), (@inline_is_not 42 url);
      first [reflexivity | assumption | cbn; tauto].
Qed.

(** ** The four inline passes, span by span *)

Lemma bold_bol_free st : bol_free (bold_matcher st).
Proof. intros bol s. reflexivity. Qed.

Lemma italic_bol_free st : bol_free (italic_matcher st).
Proof. intros bol s. reflexivity. Qed.

Lemma link_bol_free st : bol_free (link_matcher st).
Proof. intros bol s. reflexivity. Qed.

Lemma code_bol_free st : bol_free (code_matcher st).
Proof. intros bol s. reflexivity. Qed.

Lemma lazy_until_stars_text (t R acc : jsstring) :
  t <> [] -> inline_text t = true ->
  lazy_until_stars acc (t ++ lit "**" ++ R) = Some (rev acc ++ t).
Proof.
  revert acc. induction t as [|c t IH]; intros acc Hne Ht; [congruence|].
  cbn [inline_text forallb] in Ht. apply andb_true_iff in Ht as [Hc Ht].
  assert (Hlt : is_lt c = false).
  { unfold inline_char in Hc. apply andb_true_iff in Hc as [_ Hc]. now apply negb_true_iff. }
  cbn [app lazy_until_stars]. rewrite Hlt.
  destruct t as [|d t'].
  - cbn [app]. change (prefixb (lit "**") (lit "**" ++ R)) with true. cbn iota.
    cbn [rev]. reflexivity.
  - assert (Hd : is_not 42 d = true).
    { cbn [forallb] in Ht. apply andb_true_iff in Ht as [Hd _].
      apply (@inline_char_is_not 42 d); [cbn; tauto | exact Hd]. }
    change (lit "**") with (42 :: lit "*") at 1. cbn [app].
    rewrite prefixb_head by exact Hd. rewrite IH by (first [discriminate | exact Ht]).
    cbn [rev]. now rewrite <- app_assoc.
Qed.

Lemma delimited_text (stop : char) (t R : jsstring) :
  t <> [] -> forallb (is_not stop) t = true ->
  delimited stop (t ++ stop :: R) = Some t.
Proof.
  intros Hne Ht. unfold delimited.
  replace (takeWhile (fun c => negb (c =? stop)) (t ++ stop :: R)) with t.
  - cbn zeta. destruct t as [|c l] eqn:E; [congruence|]. rewrite <- E.
    now rewrite (@skipn_length_app char t (stop :: R)).
  - symmetry. apply takeWhile_app_stop; [exact Ht|]. now rewrite N.eqb_refl.
Qed.

Lemma length_wrapped (a t b : jsstring) :
  length (a ++ t ++ b) = (length a + length t + length b)%nat.
Proof. rewrite !length_app. lia. Qed.

Lemma bold_hit (st : styles.t) (t R : jsstring) :
  t <> [] -> inline_text t = true ->
  replace_from (bold_matcher st) 0 true (span_source (BoldText t) ++ R)
  = span_element st (BoldText t) ++ replace_from (bold_matcher st) 0 true R.
Proof.
  intros Hne Ht. apply hit_prefix; [apply bold_bol_free | discriminate |].
  cbn [span_source span_element]. unfold bold_matcher.
  rewrite <- !app_assoc.
  change (prefixb (lit "**") (lit "**" ++ t ++ lit "**" ++ R)) with true. cbn iota.
  change (skipn 2 (lit "**" ++ t ++ lit "**" ++ R)) with (t ++ lit "**" ++ R).
  rewrite (@lazy_until_stars_text t R [] Hne Ht). cbn [rev app].
  rewrite app_assoc, length_wrapped. cbn [length]. repeat f_equal; try lia.
Qed.

Lemma bold_emph (st : styles.t) (t R : jsstring) :
  t <> [] -> inline_text t = true -> head_is inline_char R = true ->
  replace_from (bold_matcher st) 0 true (span_source (ItalicText t) ++ R)
  = span_source (ItalicText t) ++ replace_from (bold_matcher st) 0 true R.
Proof.
  intros Hne Ht HR. cbn [span_source]. rewrite <- !app_assoc.
  change (lit "*" ++ t ++ lit "*" ++ R) with (42 :: t ++ 42 :: R).
  change (lit "*" ++ t ++ lit "*" ++ replace_from (bold_matcher st) 0 true R)
    with (42 :: t ++ 42 :: replace_from (bold_matcher st) 0 true R).
  rewrite quiet_char; [| apply bold_bol_free |].
  - f_equal.
    rewrite (@inert_prefix (bold_matcher st) (is_not 42) t (42 :: R));
      [| apply bold_bol_free | apply bold_inert | apply inline_is_not; [cbn; tauto | exact Ht]].
    f_equal. apply quiet_char; [apply bold_bol_free|].
    unfold bold_matcher. destruct R as [|r R']; [reflexivity|].
    cbn [head_is] in HR. change (lit "**") with (42 :: lit "*").
    cbn [prefixb]. change (lit "*") with [42 : char]. cbn [prefixb].
    assert (Hr : is_not 42 r = true) by (apply (@inline_char_is_not 42 r); [cbn; tauto | exact HR]).
    unfold is_not in Hr. apply negb_true_iff in Hr. rewrite N.eqb_sym in Hr.
    now rewrite Hr.
  - unfold bold_matcher. destruct t as [|c t']; [congruence|].
    cbn [inline_text forallb] in Ht. apply andb_true_iff in Ht as [Hc _].
    assert (Hc' : is_not 42 c = true) by (apply (@inline_char_is_not 42 c); [cbn; tauto | exact Hc]).
    change (lit "**") with (42 :: lit "*"). cbn [app prefixb].
    change (lit "*") with [42 : char]. cbn [prefixb].
    unfold is_not in Hc'. apply negb_true_iff in Hc'. rewrite N.eqb_sym in Hc'.
    now rewrite Hc'.
Qed.

Lemma italic_hit (st : styles.t) (t R : jsstring) :
  t <> [] -> inline_text t = true ->
  replace_from (italic_matcher st) 0 true (span_source (ItalicText t) ++ R)
  = span_element st (ItalicText t) ++ replace_from (italic_matcher st) 0 true R.
Proof.
  intros Hne Ht. apply hit_prefix; [apply italic_bol_free | discriminate |].
  cbn [span_source span_element]. unfold italic_matcher.
  rewrite <- !app_assoc.
  change (lit "*" ++ t ++ lit "*" ++ R) with (42 :: t ++ 42 :: R).
  cbv beta iota. rewrite N.eqb_refl.
  rewrite delimited_text by (first [exact Hne | apply inline_is_not; [cbn; tauto | exact Ht]]).
  change (lit "*" ++ t ++ lit "*") with (42 :: t ++ [42]).
  rewrite ?N.eqb_refl. cbn [length]. rewrite length_app. cbn [length].
  repeat f_equal; try lia.
Qed.

Lemma code_hit (st : styles.t) (t R : jsstring) :
  t <> [] -> inline_text t = true ->
  replace_from (code_matcher st) 0 true (span_source (CodeText t) ++ R)
  = span_element st (CodeText t) ++ replace_from (code_matcher st) 0 true R.
Proof.
  intros Hne Ht. apply hit_prefix; [apply code_bol_free | discriminate |].
  cbn [span_source span_element]. unfold code_matcher.
  rewrite <- !app_assoc.
  change (lit "`" ++ t ++ lit "`" ++ R) with (96 :: t ++ 96 :: R).
  cbv beta iota. rewrite N.eqb_refl.
  rewrite delimited_text by (first [exact Hne | apply inline_is_not; [cbn; tauto | exact Ht]]).
  change (lit "`" ++ t ++ lit "`") with (96 :: t ++ [96]).
  rewrite ?N.eqb_refl. cbn [length]. rewrite length_app. cbn [length].
  repeat f_equal; try lia.
Qed.

Lemma skipn_S_app (a b : jsstring) (c : char) : skipn (S (length a)) (a ++ c :: b) = b.
Proof. induction a as [|x a IH]; [reflexivity | exact IH]. Qed.

Lemma link_match (st : styles.t) (text url R : jsstring) :
  text <> [] -> forallb (is_not 93) text = true ->
  url <> [] -> forallb (is_not 41) url = true ->
  link_matcher st true (91 :: text ++ 93 :: 40 :: url ++ 41 :: R)
  = Some ((1 + length text + 2 + length url + 1)%nat, span_element st (LinkTo text url)).
Proof.
  intros Ht Ht' Hu Hu'. unfold link_matcher. cbv beta iota. rewrite N.eqb_refl.
  match goal with
  | |- context [delimited 93 ?x] =>
      replace (delimited 93 x) with (Some text)
        by (symmetry; apply (@delimited_text 93 text (40 :: url ++ 41 :: R) Ht Ht'))
  end.
  match goal with
  | |- context [skipn ?n ?x] =>
      replace (skipn n x) with (40 :: url ++ 41 :: R)
        by (symmetry; apply (@skipn_S_app text (40 :: url ++ 41 :: R) 93))
  end.
  rewrite N.eqb_refl.
  match goal with
  | |- context [delimited 41 ?x] =>
      replace (delimited 41 x) with (Some url)
        by (symmetry; apply (@delimited_text 41 url R Hu Hu'))
  end.
  reflexivity.
Qed.

Lemma link_hit (st : styles.t) (text url R : jsstring) :
  text <> [] -> forallb (is_not 93) text = true ->
  url <> [] -> forallb (is_not 41) url = true ->
  replace_from (link_matcher st) 0 true (span_source (LinkTo text url) ++ R)
  = span_element st (LinkTo text url) ++ replace_from (link_matcher st) 0 true R.
Proof.
  intros Ht Ht' Hu Hu'. apply hit_prefix; [apply link_bol_free | discriminate |].
  assert (El : length (span_source (LinkTo text url))
               = (1 + length text + 2 + length url + 1)%nat).
  { cbn [span_source].
    change (lit "[" ++ text ++ lit "](" ++ url ++ lit ")")
      with (91 :: text ++ 93 :: 40 :: url ++ [41]).
    cbn [length]. rewrite length_app. cbn [length]. rewrite length_app. cbn [length]. lia. }
  rewrite El. rewrite <- (link_match st R Ht Ht' Hu Hu').
  cbn [span_source]. rewrite <- !app_assoc. reflexivity.
Qed.

Lemma line_at_cons (k : nat) (st : styles.t) (s : span) (l : list span) :
  line_at k st (s :: l) = span_at k st s ++ line_at k st l.
Proof. reflexivity. Qed.

Lemma spans_head (k : nat) (st : styles.t) (l : list span) :
  spans_ok true l = true -> head_is inline_char (line_at k st l) = true.
Proof.
  destruct l as [|s rest]; [reflexivity|]. cbn [spans_ok].
  intros [Hs H]%andb_true_iff. destruct s as [t|t|t|text url|t]; try discriminate H.
  apply item_text_facts in Hs as [Ht Hne]. destruct t as [|c t']; [congruence|].
  rewrite line_at_cons. cbn [inline_text forallb] in Ht.
  now apply andb_true_iff in Ht as [Hc _].
Qed.

Lemma pass_spans (m : matcher) (k : nat) (st : styles.t) :
  bol_free m -> m true [] = None ->
  (forall s R, span_ok s = true ->
               (is_markup s = true -> head_is inline_char R = true) ->
               replace_from m 0 true (span_at k st s ++ R)
               = span_at (S k) st s ++ replace_from m 0 true R) ->
  forall l am, spans_ok am l = true -> replace_g m (line_at k st l) = line_at (S k) st l.
Proof.
  intros Hm Hnil Hstep. unfold replace_g.
  induction l as [|s rest IH]; intros am H.
  - cbn [line_at map concat replace_from]. now rewrite Hnil.
  - cbn [spans_ok] in H. apply andb_true_iff in H as [Hs H].
    rewrite !line_at_cons. rewrite Hstep; [| exact Hs |].
    + f_equal. destruct (is_markup s).
      * apply andb_true_iff in H as [_ H]. now apply (IH true).
      * now apply (IH false).
    + intros Hmk. rewrite Hmk in H. apply andb_true_iff in H as [_ H].
      now apply spans_head.
Qed.

Section InlineSteps.

Variable sty : style.
Let st := styles_of sty.

Lemma element_is_not (t : char) (s : span) :
  In t [96; 42; 91] -> span_ok s = true -> forallb (is_not t) (span_element st s) = true.
Proof.
  intros Ht Hs. apply inline_is_not; [exact Ht|]. now apply span_element_inline.
Qed.

Lemma bold_step (s : span) (R : jsstring) :
  span_ok s = true -> (is_markup s = true -> head_is inline_char R = true) ->
  replace_from (bold_matcher st) 0 true (span_at 0 st s ++ R)
  = span_at 1 st s ++ replace_from (bold_matcher st) 0 true R.
Proof.
  intros Hs HR. pose proof (span_ok_text s Hs) as Ht.
  pose proof (@span_source_is_not 42 s ltac:(cbn; tauto) Hs) as Hc.
  destruct s as [t|t|t|text url|t]; unfold span_at; cbn [Nat.leb].
  - apply (@inert_prefix (bold_matcher st) (is_not 42));
      [apply bold_bol_free | apply bold_inert | exact Hc].
  - now apply bold_hit.
  - apply bold_emph; [apply Ht | apply Ht | now apply HR].
  - apply (@inert_prefix (bold_matcher st) (is_not 42));
      [apply bold_bol_free | apply bold_inert | exact Hc].
  - apply (@inert_prefix (bold_matcher st) (is_not 42));
      [apply bold_bol_free | apply bold_inert | exact Hc].
Qed.

Lemma italic_step (s : span) (R : jsstring) :
  span_ok s = true -> (is_markup s = true -> head_is inline_char R = true) ->
  replace_from (italic_matcher st) 0 true (span_at 1 st s ++ R)
  = span_at 2 st s ++ replace_from (italic_matcher st) 0 true R.
Proof.
  intros Hs _. pose proof (span_ok_text s Hs) as Ht.
  pose proof (@span_source_is_not 42 s ltac:(cbn; tauto) Hs) as Hc.
  pose proof (@element_is_not 42 s ltac:(cbn; tauto) Hs) as He.
  destruct s as [t|t|t|text url|t]; unfold span_at; cbn [Nat.leb].
  - apply (@inert_prefix (italic_matcher st) (is_not 42));
      [apply italic_bol_free | apply italic_inert | exact Hc].
  - apply (@inert_prefix (italic_matcher st) (is_not 42));
      [apply italic_bol_free | apply italic_inert | exact He].
  - now apply italic_hit.
  - apply (@inert_prefix (italic_matcher st) (is_not 42));
      [apply italic_bol_free | apply italic_inert | exact Hc].
  - apply (@inert_prefix (italic_matcher st) (is_not 42));
      [apply italic_bol_free | apply italic_inert | exact Hc].
Qed.

Lemma link_step (s : span) (R : jsstring) :
  span_ok s = true -> (is_markup s = true -> head_is inline_char R = true) ->
  replace_from (link_matcher st) 0 true (span_at 2 st s ++ R)
  = span_at 3 st s ++ replace_from (link_matcher st) 0 true R.
Proof.
  intros Hs _. pose proof (span_ok_text s Hs) as Ht.
  pose proof (@span_source_is_not 91 s ltac:(cbn; tauto) Hs) as Hc.
  pose proof (@element_is_not 91 s ltac:(cbn; tauto) Hs) as He.
  destruct s as [t|t|t|text url|t]; unfold span_at; cbn [Nat.leb].
  - apply (@inert_prefix (link_matcher st) (is_not 91));
      [apply link_bol_free | apply link_inert | exact Hc].
  - apply (@inert_prefix (link_matcher st) (is_not 91));
      [apply link_bol_free | apply link_inert | exact He].
  - apply (@inert_prefix (link_matcher st) (is_not 91));
      [apply link_bol_free | apply link_inert | exact He].
  - destruct Ht as (_ & H1 & H2 & _ & H3 & H4). now apply link_hit.
  - apply (@inert_prefix (link_matcher st) (is_not 91));
      [apply link_bol_free | apply link_inert | exact Hc].
Qed.

Lemma code_step (s : span) (R : jsstring) :
  span_ok s = true -> (is_markup s = true -> head_is inline_char R = true) ->
  replace_from (code_matcher st) 0 true (span_at 3 st s ++ R)
  = span_at 4 st s ++ replace_from (code_matcher st) 0 true R.
Proof.
  intros Hs _. pose proof (span_ok_text s Hs) as Ht.
  pose proof (@span_source_is_not 96 s ltac:(cbn; tauto) Hs) as Hc.
  pose proof (@element_is_not 96 s ltac:(cbn; tauto) Hs) as He.
  destruct s as [t|t|t|text url|t]; unfold span_at; cbn [Nat.leb].
  - apply (@inert_prefix (code_matcher st) (is_not 96));
      [apply code_bol_free | apply code_inert | exact Hc].
  - apply (@inert_prefix (code_matcher st) (is_not 96));
      [apply code_bol_free | apply code_inert | exact He].
  - apply (@inert_prefix (code_matcher st) (is_not 96));
      [apply code_bol_free | apply code_inert | exact He].
  - apply (@inert_prefix (code_matcher st) (is_not 96));
      [apply code_bol_free | apply code_inert | exact He].
  - now apply code_hit.
Qed.

Lemma inline_passes_spans (l : list span) (am : bool) :
  spans_ok am l = true -> inline_passes st (line_at 0 st l) = line_at 4 st l.
Proof.
  intros H. unfold inline_passes. cbn zeta.
  rewrite (@pass_spans (bold_matcher st) 0 st (bold_bol_free st) eq_refl bold_step l am H).
  rewrite (@pass_spans (italic_matcher st) 1 st (italic_bol_free st) eq_refl italic_step l am H).
  rewrite (@pass_spans (link_matcher st) 2 st (link_bol_free st) eq_refl link_step l am H).
  now rewrite (@pass_spans (code_matcher st) 3 st (code_bol_free st) eq_refl code_step l am H).
Qed.

End InlineSteps.

(** ** A line of spans through the whole function *)

Lemma line_at_source (st : styles.t) (l : list span) :
  line_at 0 st l = concat (map span_source l).
Proof.
  unfold line_at. f_equal. apply map_ext. intros s. now destruct s.
Qed.

Lemma line_at_element (st : styles.t) (l : list span) :
  line_at 4 st l = concat (map (span_element st) l).
Proof.
  unfold line_at. f_equal. apply map_ext. intros s. now destruct s.
Qed.

Lemma spans_ok_all (l : list span) (am : bool) :
  spans_ok am l = true -> Forall (fun s => span_ok s = true) l.
Proof.
  revert am. induction l as [|s rest IH]; intros am H; [constructor|].
  cbn [spans_ok] in H. apply andb_true_iff in H as [Hs H]. constructor; [exact Hs|].
  destruct (is_markup s); [apply andb_true_iff in H as [_ H]|]; now apply (IH _ H).
Qed.

Lemma no_lt_app (a b : jsstring) : no_lt (a ++ b) = no_lt a && no_lt b.
Proof. apply forallb_app. Qed.

Lemma span_source_no_lt (s : span) : span_ok s = true -> no_lt (span_source s) = true.
Proof.
  intros Hs. apply span_ok_text in Hs.
  destruct s as [t|t|t|text url|t]; cbn [span_source].
  - now apply inline_no_lt.
  - destruct Hs as [Ht _]. now rewrite !no_lt_app, (inline_no_lt _ Ht).
  - destruct Hs as [Ht _]. now rewrite !no_lt_app, (inline_no_lt _ Ht).
  - destruct Hs as (Ht & _ & _ & Hu & _).
    now rewrite !no_lt_app, (inline_no_lt _ Ht), (inline_no_lt _ Hu).
  - destruct Hs as [Ht _]. now rewrite !no_lt_app, (inline_no_lt _ Ht).
Qed.

Lemma concat_no_lt (l : list jsstring) :
  Forall (fun x => no_lt x = true) l -> no_lt (concat l) = true.
Proof.
  induction 1 as [|x l Hx Hl IH]; [reflexivity|]. cbn [concat]. now rewrite no_lt_app, Hx, IH.
Qed.

Lemma isBlockElement_other_head (c : char) (l : jsstring) :
  (c =? 60) = false -> isBlockElement (c :: l) = false.
Proof.
  intros Hc.
  assert (H : forall (f : jsstring -> jsstring) names,
             (forall n, hd_error (f n) = Some 60) ->
             existsb (fun n => prefixb (f n) (c :: l)) names = false).
  { intros f names Hf. induction names as [|n names IH]; [reflexivity|].
    cbn [existsb]. rewrite IH, orb_false_r.
    apply (@prefixb_other_head 60); [apply Hf|].
    cbn [head_is]. unfold is_not. now rewrite Hc. }
  unfold isBlockElement.
  rewrite (H (fun n => lit "<" ++ n)), (H (fun n => lit "</" ++ n ++ lit ">"));
    reflexivity.
Qed.

Section InlineLine.

Variable sty : style.
Variable l : list span.
Variable c : char.
Variable t : jsstring.
Variable rest : list span.
Hypothesis shape : l = PlainText (c :: t) :: rest.
Hypothesis head_ok : paragraph_head c = true.
Hypothesis ok : spans_ok false l = true.

Let st := styles_of sty.

Lemma line_heads (k : nat) (P : char -> bool) :
  (k = 0%nat \/ k = 4%nat) ->
  (forall x, plain_head x = true -> P x = true) ->
  Forall (fun x => no_lt x = true /\ head_is P x = true) [line_at k st l].
Proof.
  intros Hk HP. constructor; [|constructor]. split.
  - destruct Hk as [-> | ->].
    + rewrite line_at_source. apply concat_no_lt. rewrite Forall_map.
      generalize (spans_ok_all _ _ ok). apply Forall_impl. intros s. apply span_source_no_lt.
    + rewrite line_at_element. apply concat_no_lt. rewrite Forall_map.
      generalize (spans_ok_all _ _ ok). apply Forall_impl. intros s Hs.
      apply inline_no_lt. now apply span_element_inline.
  - rewrite shape, line_at_cons. cbn [head_is]. apply HP.
    unfold paragraph_head in head_ok.
    now apply andb_true_iff in head_ok as [[H _]%andb_true_iff _].
Qed.

Lemma quiet_pass (k : nat) (m : matcher) (P : char -> bool) :
  (k = 0%nat \/ k = 4%nat) -> anchored m -> inert m P -> P LF = true ->
  (forall x, plain_head x = true -> P x = true) ->
  replace_g m (line_at k st l) = line_at k st l.
Proof.
  intros Hk Ha Hi HLF HP.
  apply (@replace_heads m P [line_at k st l] Ha Hi HLF). now apply line_heads.
Qed.

Lemma render_line :
  render_body st (line_at 0 st l)
  = otag "p" (styles.p st) ++ line_at 4 st l ++ [LF] ++ lit "</p>".
Proof.
  assert (H35 : forall x, plain_head x = true -> is_not 35 x = true)
    by (intros x Hx; apply (plain_head_is x Hx)).
  assert (H45 : forall x, plain_head x = true -> is_not 45 x = true)
    by (intros x Hx; apply (plain_head_is x Hx)).
  assert (H62 : forall x, plain_head x = true -> is_not 62 x = true)
    by (intros x Hx; apply (plain_head_is x Hx)).
  assert (H124 : forall x, plain_head x = true -> is_not 124 x = true)
    by (intros x Hx; apply (plain_head_is x Hx)).
  assert (Hdig : forall x, plain_head x = true -> negb (is_digit x) = true)
    by (intros x Hx; apply (plain_head_is x Hx)).
  destruct (Forall_inv (@line_heads 0%nat (fun _ => true) (or_introl eq_refl)
                          (fun _ _ => eq_refl))) as [Hno0 _].
  destruct (Forall_inv (@line_heads 4%nat (fun _ => true) (or_intror eq_refl)
                          (fun _ _ => eq_refl))) as [Hno4 _].
  rewrite render_body_split. unfold first_passes.
  rewrite codeblock_one_line by (now apply no_lt_no_LF).
  rewrite (@quiet_pass 0%nat (table_matcher st) (is_not 124))
    by (first [now left | apply run_matcher_anchored | apply table_inert | reflexivity
              | exact H124]).
  unfold heading_passes. cbn zeta.
  change (lit "#### ") with (35 :: lit "### ").
  rewrite (@quiet_pass 0%nat (heading_matcher (35 :: lit "### ") "h4" (styles.h4 st)) (is_not 35))
    by (first [now left | apply line_matcher_anchored | apply heading_inert | reflexivity
              | exact H35]).
  change (lit "### ") with (35 :: lit "## ").
  rewrite (@quiet_pass 0%nat (heading_matcher (35 :: lit "## ") "h3" (styles.h3 st)) (is_not 35))
    by (first [now left | apply line_matcher_anchored | apply heading_inert | reflexivity
              | exact H35]).
  change (lit "## ") with (35 :: lit "# ").
  rewrite (@quiet_pass 0%nat (heading_matcher (35 :: lit "# ") "h2" (styles.h2 st)) (is_not 35))
    by (first [now left | apply line_matcher_anchored | apply heading_inert | reflexivity
              | exact H35]).
  change (lit "# ") with (35 :: lit " ").
  rewrite (@quiet_pass 0%nat (heading_matcher (35 :: lit " ") "h1" (styles.h1 st)) (is_not 35))
    by (first [now left | apply line_matcher_anchored | apply heading_inert | reflexivity
              | exact H35]).
  pose proof (inline_passes_spans sty l false ok) as Ei. fold st in Ei. rewrite Ei.
  unfold block_passes. cbn zeta.
  rewrite (@quiet_pass 4%nat (hr_matcher st) (is_not 45))
    by (first [now right | apply line_matcher_anchored | apply hr_inert | reflexivity
              | exact H45]).
  rewrite (@quiet_pass 4%nat (blockquote_matcher st) (is_not 62))
    by (first [now right | apply run_matcher_anchored | apply blockquote_inert | reflexivity
              | exact H62]).
  rewrite (@quiet_pass 4%nat (ul_matcher st) (is_not 45))
    by (first [now right | apply run_matcher_anchored | apply ul_inert | reflexivity
              | exact H45]).
  rewrite (@quiet_pass 4%nat (ol_matcher st) (fun x => negb (is_digit x)))
    by (first [now right | apply run_matcher_anchored | apply ol_inert | reflexivity
              | exact Hdig]).
  unfold wrap_paragraphs. rewrite split_no_sep by (now apply no_lt_no_LF).
  assert (Hhead : exists tail, line_at 4 st l = c :: tail).
  { rewrite shape, line_at_cons. now eexists. }
  destruct Hhead as [tail E]. rewrite E.
  pose proof head_ok as Hh. unfold paragraph_head in Hh.
  apply andb_true_iff in Hh as [[_ Hws]%andb_true_iff Hlt].
  apply negb_true_iff in Hws, Hlt.
  cbn [wrap_lines]. rewrite trim_cons by exact Hws. cbn [is_empty].
  rewrite isBlockElement_other_head by exact Hlt. cbn [negb join].
  now rewrite <- app_assoc.
Qed.

End InlineLine.

(** ** Fenced code *)

Lemma escape_html_id (s : jsstring) : forallb code_char s = true -> escape_html s = s.
Proof.
  induction s as [|c s IH]; [reflexivity|]. cbn [forallb].
  intros [Hc Hs]%andb_true_iff. rewrite escape_html_cons, escape_html_one, (IH Hs).
  unfold code_char, markup_char in Hc. apply andb_true_iff in Hc as [Hm H38].
  apply negb_true_iff in Hm, H38. rewrite !orb_false_iff in Hm.
  destruct Hm as [[[H60 H62] H34] H39]. now rewrite H38, H60, H62, H34, H39.
Qed.

Lemma until_fence_text (code acc : jsstring) :
  forallb (is_not 96) code = true ->
  until_fence acc (code ++ fence) = Some (rev acc ++ code).
Proof.
  revert acc. induction code as [|c code IH]; intros acc H.
  - cbn [app]. now rewrite app_nil_r.
  - cbn [forallb] in H. apply andb_true_iff in H as [Hc H].
    cbn [app until_fence]. change fence with (96 :: lit "``") at 1.
    rewrite prefixb_head by exact Hc. rewrite IH by exact H.
    cbn [rev]. now rewrite <- app_assoc.
Qed.

Lemma codeblock_bol_free st : bol_free (codeblock_matcher st).
Proof. intros bol s. reflexivity. Qed.

Lemma codeblock_match (st : styles.t) (lang code : jsstring) :
  forallb is_word lang = true -> forallb (is_not 96) code = true ->
  codeblock_matcher st true (fence ++ lang ++ LF :: code ++ fence)
  = Some ((3 + length lang + 1 + length code + 3)%nat,
          otag "pre" (styles.pre st) ++ lit "<code>" ++ escape_html (trim code)
          ++ lit "</code></pre>").
Proof.
  intros Hl Hc. unfold codeblock_matcher.
  change (prefixb fence (fence ++ lang ++ LF :: code ++ fence)) with true. cbv beta iota zeta.
  change (skipn 3 (fence ++ lang ++ LF :: code ++ fence)) with (lang ++ LF :: code ++ fence).
  match goal with
  | |- context [takeWhile is_word ?x] =>
      replace (takeWhile is_word x) with lang
        by (symmetry; apply (@takeWhile_app_stop is_word lang (code ++ fence) LF Hl eq_refl))
  end.
  match goal with
  | |- context [skipn (length lang) ?x] =>
      replace (skipn (length lang) x) with (LF :: code ++ fence)
        by (symmetry; apply (@skipn_length_app char lang (LF :: code ++ fence)))
  end.
  change (LF =? 10) with true. cbv beta iota.
  match goal with
  | |- context [until_fence [] ?x] =>
      replace (until_fence [] x) with (Some code)
        by (symmetry; apply (@until_fence_text code [] Hc))
  end.
  reflexivity.
Qed.

Lemma join_cons_nonempty (sep x : jsstring) (l : list jsstring) :
  l <> [] -> join sep (x :: l) = x ++ sep ++ join sep l.
Proof. destruct l; [congruence | reflexivity]. Qed.

Lemma join_app_last (sep close : jsstring) (l : list jsstring) :
  l <> [] -> join sep (app_last l close) = join sep l ++ close.
Proof.
  intros Hne. induction l as [|x l IH]; [congruence|]. clear Hne.
  destruct l as [|y l]; [reflexivity|].
  change (app_last (x :: y :: l) close) with (x :: app_last (y :: l) close).
  rewrite !join_cons_nonempty by (first [discriminate | destruct l; discriminate]).
  rewrite IH by discriminate. now rewrite <- !app_assoc.
Qed.

Lemma code_line_facts (l : jsstring) :
  code_line l = true ->
  loose_line l = true /\ trimmed l = true /\ forallb code_char l = true /\ l <> []
  /\ is_ws (hd 0 l) = false /\ is_ws (last l 0) = false /\ (hd 0 l =? 60) = false.
Proof.
  unfold code_line. intros [[Hl Ht]%andb_true_iff Hc]%andb_true_iff.
  destruct (loose_line_facts _ Hl) as (_ & _ & _ & _ & _ & Hne).
  unfold trimmed in Ht. apply andb_true_iff in Ht as [H1 H2].
  apply negb_true_iff in H1, H2. repeat split; try assumption.
  - unfold trimmed. now rewrite H1, H2.
  - destruct l as [|c l']; [congruence|]. cbn [hd]. cbn [forallb] in Hc.
    apply andb_true_iff in Hc as [Hc _]. unfold code_char, markup_char in Hc.
    apply andb_true_iff in Hc as [Hm _]. apply negb_true_iff in Hm.
    rewrite !orb_false_iff in Hm. apply Hm.
Qed.

Lemma hd_join (lines : list jsstring) (l1 : jsstring) (rest : list jsstring) :
  lines = l1 :: rest -> l1 <> [] -> hd 0 (join [LF] lines) = hd 0 l1.
Proof.
  intros -> Hne. cbn [join]. destruct rest; [reflexivity|].
  destruct l1; [congruence | reflexivity].
Qed.

Lemma last_join (lines : list jsstring) :
  lines <> [] -> Forall (fun l : jsstring => l <> []) lines ->
  last (join [LF] lines) 0 = last (last lines []) 0.
Proof.
  intros Hne H. revert Hne. induction H as [|l lines Hl H IH]; intros Hne;
    [exfalso; now apply Hne|]. clear Hne.
  destruct lines as [|l' lines']; [reflexivity|].
  change (join [LF] (l :: l' :: lines')) with (l ++ [LF] ++ join [LF] (l' :: lines')).
  rewrite app_assoc, last_app_nonempty.
  - rewrite IH by discriminate. reflexivity.
  - apply join_lines_nonempty; [discriminate | exact H].
Qed.

Lemma code_lines_facts (lines : list jsstring) :
  Forall (fun l => code_line l = true) lines ->
  Forall (fun l => inline_text l = true) lines
  /\ Forall (fun l : jsstring => l <> []) lines
  /\ Forall (fun l => forallb code_char l = true) lines.
Proof.
  intros H. repeat split; revert H; apply Forall_impl; intros l Hl;
    destruct (code_line_facts _ Hl) as (Hloose & _ & Hc & Hne & _); try assumption.
  apply (loose_line_facts _ Hloose).
Qed.

Lemma Forall_last (A : Type) (P : A -> Prop) (l : list A) (d : A) :
  l <> [] -> Forall P l -> P (last l d).
Proof.
  intros Hne H. revert Hne. induction H as [|x l Hx H IH]; intros Hne; [congruence|].
  destruct l; [exact Hx|]. apply IH. discriminate.
Qed.

(** The pass for code blocks on a fenced block that is the whole text. *)
Lemma codeblock_pass_fenced (st : styles.t) (lang : jsstring) (lines : list jsstring) :
  forallb is_word lang = true -> lines <> [] ->
  Forall (fun l => code_line l = true) lines ->
  replace_g (codeblock_matcher st) (fenced lang lines)
  = pre_open st ++ join [LF] lines ++ pre_close.
Proof.
  intros Hlang Hne H. destruct (code_lines_facts H) as (Hin & Hnonempty & Hcode).
  set (X := join [LF] lines).
  assert (HX96 : forallb (is_not 96) (X ++ [LF]) = true).
  { rewrite forallb_app. apply andb_true_iff. split; [|reflexivity].
    apply inline_doc_is_not; [cbn; tauto | exact Hin]. }
  assert (Htrim : trim (X ++ [LF]) = X).
  { assert (Hlast : code_line (last lines []) = true)
      by (apply (@Forall_last jsstring (fun l => code_line l = true)); assumption).
    destruct (code_line_facts _ Hlast) as (_ & _ & _ & _ & _ & Hws2 & _).
    assert (Hhd : is_ws (hd 0 X) = false).
    { unfold X. destruct lines as [|l1 rest]; [congruence|].
      assert (H1 : code_line l1 = true) by (now apply Forall_inv in H).
      destruct (code_line_facts _ H1) as (_ & _ & _ & Hl1 & Hws1 & _).
      now rewrite (@hd_join (l1 :: rest) l1 rest eq_refl Hl1). }
    apply (@trim_padded [] X [LF]); [reflexivity | reflexivity | |].
    - unfold trimmed. rewrite Hhd. unfold X.
      now rewrite (last_join Hne Hnonempty), Hws2.
    - unfold X. now apply join_lines_nonempty. }
  assert (Hesc : escape_html X = X).
  { apply escape_html_id. unfold X. apply join_text; [reflexivity|]. exact Hcode. }
  pose proof (@codeblock_match st lang (X ++ [LF]) Hlang HX96) as Hm.
  rewrite Htrim, Hesc in Hm.
  unfold replace_g.
  assert (Ea : fenced lang lines = (fence ++ lang ++ LF :: (X ++ [LF]) ++ fence) ++ []).
  { unfold fenced, X. rewrite app_nil_r. now rewrite <- !app_assoc. }
  rewrite Ea.
  rewrite (@hit_prefix (codeblock_matcher st) (fence ++ lang ++ LF :: (X ++ [LF]) ++ fence) []
             (otag "pre" (styles.pre st) ++ lit "<code>" ++ X ++ lit "</code></pre>")).
  - cbn [replace_from]. unfold pre_open, pre_close. now rewrite app_nil_r, <- !app_assoc.
  - apply codeblock_bol_free.
  - discriminate.
  - rewrite app_nil_r, Hm. f_equal. f_equal.
    change fence with [96; 96; 96 : char]. cbn [app length]. rewrite !length_app.
    cbn [length]. rewrite !length_app. cbn [length]. lia.
Qed.

Lemma pre_attr_inline (sty : style) : inline_text (pre_open (styles_of sty)) = true.
Proof. destruct sty; vm_compute; reflexivity. Qed.

Lemma passive_app_last (L : list jsstring) (close : jsstring) :
  inline_text close = true ->
  Forall (fun l => passive_line l /\ l <> []) L ->
  Forall passive_line (app_last L close).
Proof.
  intros Hc. induction 1 as [|x L [(Hi & Hn & Hh) Hne] HL IH]; [constructor|].
  destruct L as [|y L].
  - constructor; [|constructor]. repeat split.
    + now rewrite inline_text_app, Hi, Hc.
    + apply inline_no_lt. now rewrite inline_text_app, Hi, Hc.
    + destruct x; [congruence | exact Hh].
  - change (app_last (x :: y :: L) close) with (x :: app_last (y :: L) close).
    constructor; [now repeat split | exact IH].
Qed.

Lemma para_app_last (L : list jsstring) (close : jsstring) :
  close <> [] -> is_ws (last close 0) = false ->
  Forall (fun l => code_line l = true) L ->
  Forall (fun l => para_line l = true) (app_last L close).
Proof.
  intros Hc Hws. induction 1 as [|x L Hx HL IH]; [constructor|].
  destruct (code_line_facts _ Hx) as (Hloose & _ & _ & Hne & Hw1 & _ & H60).
  destruct L as [|y L].
  - constructor; [|constructor]. unfold para_line.
    rewrite trim_id.
    + destruct x as [|c x']; [congruence|]. cbn [app is_empty negb hd] in *.
      now rewrite isBlockElement_other_head.
    + destruct x; [congruence | exact Hw1].
    + now rewrite last_app_nonempty.
  - change (app_last (x :: y :: L) close) with (x :: app_last (y :: L) close).
    constructor; [|exact IH]. unfold para_line.
    destruct (loose_line_facts _ Hloose) as (_ & _ & _ & He & Hb & _).
    now rewrite He, Hb.
Qed.

Lemma wrap_lines_para_rest (st : styles.t) (X R : list jsstring) :
  Forall (fun l => para_line l = true) X ->
  wrap_lines st true (X ++ R) = X ++ wrap_lines st true R.
Proof.
  induction 1 as [|l X Hl HX IH]; [reflexivity|].
  unfold para_line in Hl. apply andb_true_iff in Hl as [He Hb].
  apply negb_true_iff in He, Hb. cbn [app wrap_lines]. rewrite He, Hb. cbn [negb].
  now rewrite IH.
Qed.

Lemma wrap_lines_para (st : styles.t) (X : list jsstring) :
  X <> [] -> Forall (fun l => para_line l = true) X ->
  wrap_lines st false X = wrapped_lines st X.
Proof.
  intros Hne H. destruct H as [|l X Hl HX]; [congruence|].
  unfold para_line in Hl. apply andb_true_iff in Hl as [He Hb].
  apply negb_true_iff in He, Hb. cbn [wrap_lines]. rewrite He, Hb. cbn [negb].
  rewrite <- (app_nil_r X) at 1. rewrite wrap_lines_para_rest by exact HX.
  reflexivity.
Qed.

Lemma app_last_nonempty (L : list jsstring) (close : jsstring) :
  L <> [] -> app_last L close <> [].
Proof. destruct L as [|x [|y L]]; [congruence | discriminate | discriminate]. Qed.

Section FencedCode.

Variable sty : style.
Variable lang : jsstring.
Variable l1 : jsstring.
Variable rest : list jsstring.
Hypothesis lang_ok : forallb is_word lang = true.
Hypothesis lines_ok : Forall (fun l => code_line l = true) (l1 :: rest).

Let st := styles_of sty.
Let L1 : list jsstring := app_last ((pre_open st ++ l1) :: rest) pre_close.

Lemma fenced_lines : pre_open st ++ join [LF] (l1 :: rest) ++ pre_close = join [LF] L1.
Proof.
  unfold L1. rewrite join_app_last by discriminate. rewrite join_cons_prefix.
  now rewrite <- app_assoc.
Qed.

Lemma fenced_passive : Forall passive_line L1.
Proof.
  unfold L1. apply passive_app_last; [reflexivity|].
  pose proof lines_ok as H. apply Forall_cons_iff in H as [H1 Hrest].
  destruct (code_line_facts _ H1) as (Hloose & _ & _ & Hne & _).
  destruct (loose_line_facts _ Hloose) as (Hi & _).
  constructor.
  - split; [|destruct l1; [congruence | discriminate]].
    assert (Hin : inline_text (pre_open st ++ l1) = true)
      by (rewrite inline_text_app, Hi; unfold st; now rewrite (pre_attr_inline sty)).
    split; [exact Hin | split; [now apply inline_no_lt | reflexivity]].
  - revert Hrest. apply Forall_impl. intros l Hl.
    destruct (code_line_facts _ Hl) as (Hl' & _ & _ & Hn & _).
    destruct (loose_line_facts _ Hl') as (H2 & H3 & H4 & _).
    split; [split; [exact H2 | split; [exact H3 | exact H4]] | exact Hn].
Qed.

Lemma render_fenced :
  render_body st (fenced lang (l1 :: rest)) = wrap_paragraphs st (join [LF] L1).
Proof.
  rewrite render_body_split. unfold first_passes at 1.
  rewrite (@codeblock_pass_fenced st lang (l1 :: rest) lang_ok) by (first [discriminate | exact lines_ok]).
  rewrite fenced_lines.
  assert (E : replace_g (codeblock_matcher st) (join [LF] L1) = join [LF] L1).
  { apply (@replace_g_inert (codeblock_matcher st) (is_not 96)); [apply codeblock_inert|].
    apply inline_doc_is_not; [cbn; tauto|].
    generalize fenced_passive. apply Forall_impl. intros l (Hi & _). exact Hi. }
  rewrite <- E at 1.
  change (replace_g (table_matcher st) (replace_g (codeblock_matcher st) (join [LF] L1)))
    with (first_passes st (join [LF] L1)).
  unfold block_passes. cbn zeta. now rewrite passes_passive by exact fenced_passive.
Qed.

End FencedCode.

Lemma copied_pre_line (st : styles.t) (x : jsstring) :
  is_ws (last (pre_open st ++ x) 0) = false -> copied_line (pre_open st ++ x) = true.
Proof.
  intros Hl. unfold copied_line. rewrite trim_id by (first [reflexivity | exact Hl]).
  unfold pre_open, otag. vm_compute. reflexivity.
Qed.

Lemma wrap_fenced (st : styles.t) (l1 : jsstring) (rest : list jsstring) :
  Forall (fun l => code_line l = true) (l1 :: rest) ->
  wrap_lines st false (app_last ((pre_open st ++ l1) :: rest) pre_close)
  = match rest with
    | [] => [pre_open st ++ l1 ++ pre_close]
    | _ :: _ => (pre_open st ++ l1) :: wrapped_lines st (app_last rest pre_close)
    end.
Proof.
  intros H. apply Forall_cons_iff in H as [H1 Hrest].
  destruct (code_line_facts _ H1) as (_ & _ & _ & Hne & _ & Hws & _).
  destruct rest as [|r rs].
  - cbn [app_last]. rewrite <- app_assoc.
    change [pre_open st ++ l1 ++ pre_close] with ([pre_open st ++ l1 ++ pre_close] ++ []).
    rewrite wrap_lines_copied; [reflexivity|].
    constructor; [|constructor]. apply copied_pre_line.
    now rewrite app_assoc, last_app_nonempty.
  - change (app_last ((pre_open st ++ l1) :: r :: rs) pre_close)
      with ([pre_open st ++ l1] ++ app_last (r :: rs) pre_close).
    rewrite wrap_lines_copied.
    + cbn [app]. f_equal. apply wrap_lines_para.
      * apply app_last_nonempty. discriminate.
      * apply para_app_last; [discriminate | reflexivity | exact Hrest].
    + constructor; [|constructor]. apply copied_pre_line.
      now rewrite last_app_nonempty.
Qed.

(** ** Tables *)

Lemma pad_char_facts (c : char) :
  is_ws c && negb (is_lt c) = true ->
  is_ws c = true /\ negb (is_lt c) = true /\ inline_char c = true
  /\ is_not pipe c = true /\ is_sep_class c = true.
Proof.
  intros [Hw Hl]%andb_true_iff. unfold inline_char, is_not, is_sep_class, pipe.
  rewrite Hw, Hl. cbn [orb andb].
  destruct (N.eqb_spec c 96) as [->|_]; [discriminate Hw|].
  destruct (N.eqb_spec c 42) as [->|_]; [discriminate Hw|].
  destruct (N.eqb_spec c 91) as [->|_]; [discriminate Hw|].
  destruct (N.eqb_spec c 124) as [->|_]; [discriminate Hw|].
  repeat split.
Qed.

Lemma pad_ok_facts (a : jsstring) :
  pad_ok a = true ->
  blank a = true /\ no_lt a = true /\ inline_text a = true
  /\ forallb (is_not pipe) a = true /\ forallb is_sep_class a = true.
Proof.
  intros H. unfold blank, no_lt, inline_text.
  repeat split; revert H; apply forallb_impl; intros c Hc;
    destruct (pad_char_facts c Hc) as (H1 & H2 & H3 & H4 & H5); assumption.
Qed.

Lemma trim_blank (a : jsstring) : blank a = true -> trim a = [].
Proof.
  intros H. unfold trim.
  assert (E : dropWhile is_ws a = []).
  { induction a as [|c a IH]; [reflexivity|]. cbn [blank forallb] in H.
    apply andb_true_iff in H as [Hc Ha]. cbn [dropWhile]. rewrite Hc. now apply IH. }
  now rewrite E.
Qed.

Lemma cell_ok_facts (c : cell) :
  cell_ok c = true ->
  no_lt (cell_source c) = true /\ inline_text (cell_source c) = true
  /\ forallb (is_not pipe) (cell_source c) = true /\ cell_source c <> []
  /\ trim (cell_source c) = cell_text c
  /\ forallb is_sep_class (cell_source c) = forallb is_sep_class (cell_text c)
  /\ inline_text (cell_text c) = true.
Proof.
  unfold cell_ok. rewrite !andb_true_iff, negb_true_iff.
  intros [[[[[Ha Hb] Hi] Hp] Ht] Hne].
  destruct (pad_ok_facts _ Ha) as (A1 & A2 & A3 & A4 & A5).
  destruct (pad_ok_facts _ Hb) as (B1 & B2 & B3 & B4 & B5).
  unfold cell_source in *.
  repeat split.
  - rewrite !no_lt_app, A2, B2. now rewrite (inline_no_lt _ Hi).
  - now rewrite !inline_text_app, A3, B3, Hi.
  - now rewrite !forallb_app, A4, B4, Hp.
  - intros E. now rewrite E in Hne.
  - destruct (cell_text c) as [|x t] eqn:E.
    + cbn [app]. apply trim_blank. unfold blank in *. now rewrite forallb_app, A1, B1.
    + rewrite <- E in *. apply trim_padded; try assumption. now rewrite E.
  - rewrite !forallb_app, A5, B5. cbn [andb]. now rewrite andb_true_r.
  - exact Hi.
Qed.

Lemma split_cells (r : list cell) :
  forallb cell_ok r = true ->
  split pipe (concat (map (fun c => cell_source c ++ [pipe]) r)) = map cell_source r ++ [[]].
Proof.
  induction r as [|c r IH]; [reflexivity|]. cbn [forallb map concat].
  intros [Hc Hr]%andb_true_iff. destruct (cell_ok_facts _ Hc) as (_ & _ & Hp & _).
  rewrite <- app_assoc. cbn [app].
  rewrite split_app_sep by exact Hp. now rewrite IH.
Qed.

Lemma parseRow_row_source (r : list cell) :
  forallb cell_ok r = true -> parseRow (row_source r) = map cell_text r.
Proof.
  intros Hr. unfold parseRow, row_source, slice_1_m1.
  change (split pipe (pipe :: ?x)) with ([] :: split pipe x).
  rewrite split_cells by exact Hr.
  cbn [tl]. rewrite removelast_last. rewrite map_map.
  apply map_ext_in. intros c Hin.
  rewrite forallb_forall in Hr. now destruct (cell_ok_facts _ (Hr c Hin)) as (_ & _ & _ & _ & E & _).
Qed.

Lemma cells_chars (P : char -> bool) (r : list cell) :
  P pipe = true ->
  (forall c, In c r -> forallb P (cell_source c) = true) ->
  forallb P (row_source r) = true.
Proof.
  intros Hp H. unfold row_source. cbn [forallb]. rewrite Hp. cbn [andb].
  induction r as [|c r IH]; [reflexivity|]. cbn [map concat].
  rewrite !forallb_app. cbn [forallb]. rewrite Hp, (H c) by now left. cbn [andb].
  apply IH. intros c' Hc'. apply H. now right.
Qed.

Lemma last_cells (r : list cell) :
  r <> [] -> last (concat (map (fun c => cell_source c ++ [pipe]) r)) 0 = pipe.
Proof.
  induction r as [|c r IH]; [congruence|]. intros _. cbn [map concat].
  destruct r as [|c' r'].
  - cbn [map concat]. rewrite app_nil_r. apply last_last.
  - rewrite last_app_nonempty; [apply IH; discriminate|].
    cbn [map concat]. destruct (cell_source c'); discriminate.
Qed.

Lemma row_ok_facts (r : list cell) :
  row_ok r = true ->
  no_lt (row_source r) = true /\ inline_text (row_source r) = true
  /\ valid_table_line (row_source r) = true /\ nonblank (row_source r) = true
  /\ last (row_source r) 0 = pipe.
Proof.
  unfold row_ok. intros [Hne Hr]%andb_true_iff.
  assert (F : forall c, In c r -> cell_ok c = true) by now apply forallb_forall.
  assert (Hl : last (row_source r) 0 = pipe).
  { unfold row_source. destruct r as [|c r']; [discriminate|].
    change (last (pipe :: ?x) 0) with (match x with [] => pipe | _ :: _ => last x 0 end).
    cbn [last]. destruct (concat _) eqn:E; [reflexivity|]. rewrite <- E.
    apply last_cells. discriminate. }
  repeat split.
  - apply cells_chars; [reflexivity|]. intros c Hc. now apply cell_ok_facts, F.
  - apply cells_chars; [reflexivity|]. intros c Hc. now apply cell_ok_facts, F.
  - unfold valid_table_line. rewrite Hl, N.eqb_refl.
    destruct r as [|c r']; [discriminate|].
    destruct (cell_ok_facts _ (F c (or_introl eq_refl))) as (_ & _ & _ & Hc & _).
    unfold row_source. cbn [map concat prefixb]. rewrite N.eqb_refl. cbn [andb].
    destruct (cell_source c) as [|x s]; [congruence|].
    cbn [app length]. rewrite !length_app. cbn [length]. rewrite ?andb_true_r.
    apply Nat.leb_le. lia.
  - unfold nonblank, row_source. rewrite trim_cons by reflexivity. reflexivity.
  - exact Hl.
Qed.

Lemma dropWhile_all (f : char -> bool) (a : jsstring) :
  forallb f a = true -> dropWhile f a = [].
Proof.
  induction a as [|x a IH]; [reflexivity|]. cbn [forallb dropWhile].
  intros [Hx Ha]%andb_true_iff. rewrite Hx. now apply IH.
Qed.

Lemma dropWhile_some (f : char -> bool) (a : jsstring) :
  forallb f a = false -> dropWhile f a <> [].
Proof.
  induction a as [|x a IH]; [discriminate|]. cbn [forallb dropWhile].
  destruct (f x); [exact IH | discriminate].
Qed.

Lemma isSeparator_row_source (r : list cell) :
  row_ok r = true -> isSeparator (row_source r) = dash_row r.
Proof.
  unfold row_ok. intros [Hne Hr]%andb_true_iff.
  destruct r as [|c r]; [discriminate|]. cbn [forallb] in Hr.
  apply andb_true_iff in Hr as [Hc Hr].
  destruct (cell_ok_facts _ Hc) as (_ & _ & _ & Hsrc & _ & Hsep & _).
  unfold isSeparator, row_source. rewrite N.eqb_refl. cbn [andb map concat].
  rewrite <- app_assoc. cbn [app].
  rewrite dropWhile_app by reflexivity.
  destruct r as [|c' r'].
  - cbn [map concat dash_row]. rewrite <- Hsep.
    destruct (forallb is_sep_class (cell_source c)) eqn:E.
    + rewrite takeWhile_app_stop by (first [exact E | reflexivity]).
      rewrite dropWhile_all by exact E. cbn [app].
      destruct (cell_source c); [congruence | reflexivity].
    + apply dropWhile_some in E. destruct (dropWhile is_sep_class (cell_source c)) as [|x s];
        [congruence|]. cbn [app eqb_str].
      destruct s; cbn [app eqb_str]; now rewrite !andb_false_r.
  - cbn [dash_row map concat]. apply andb_false_iff. right.
    destruct (dropWhile is_sep_class (cell_source c)) as [|x s]; cbn [app eqb_str].
    + rewrite N.eqb_refl. cbn [andb]. rewrite <- app_assoc.
      destruct (cell_source c'); reflexivity.
    + destruct s; cbn [app eqb_str]; now rewrite !andb_false_r.
Qed.

Lemma table_attr_inline (sty : style) :
  inline_text (otag "table" (styles.table (styles_of sty))) = true
  /\ inline_text (otag "th" (styles.th (styles_of sty))) = true
  /\ inline_text (otag "td" (styles.td (styles_of sty))) = true.
Proof. destruct sty; vm_compute; repeat split. Qed.

Lemma inline_concat (A : Type) (f : A -> jsstring) (l : list A) :
  (forall x, In x l -> inline_text (f x) = true) -> inline_text (concat (map f l)) = true.
Proof.
  induction l as [|x l IH]; [reflexivity|]. intros H. cbn [map concat].
  rewrite inline_text_app, (H x) by now left. apply IH. intros y Hy. apply H. now right.
Qed.

Lemma table_element_inline (sty : style) (header : list jsstring) (rows : list (list jsstring)) :
  Forall (fun t => inline_text t = true) header ->
  Forall (Forall (fun t => inline_text t = true)) rows ->
  inline_text (table_element (styles_of sty) header rows) = true.
Proof.
  intros Hh Hr. destruct (table_attr_inline sty) as (T1 & T2 & T3).
  rewrite Forall_forall in Hh, Hr.
  unfold table_element. rewrite !inline_text_app, T1. cbn [andb].
  rewrite inline_concat.
  - rewrite inline_concat; [reflexivity|]. intros row Hrow.
    rewrite !inline_text_app. rewrite inline_concat; [reflexivity|].
    intros t Ht. rewrite !inline_text_app, T3. cbn [andb].
    specialize (Hr row Hrow). rewrite Forall_forall in Hr. now rewrite (Hr t Ht).
  - intros t Ht. rewrite !inline_text_app, T2. cbn [andb]. now rewrite (Hh t Ht).
Qed.

Lemma table_element_shape (st : styles.t) (header : list jsstring)
    (rows : list (list jsstring)) :
  hd 0 (table_element st header rows) = 60
  /\ last (table_element st header rows) 0 = 62
  /\ isBlockElement (table_element st header rows) = true
  /\ head_is plain_head (table_element st header rows) = true
  /\ head_is (is_not 124) (table_element st header rows) = true.
Proof.
  split; [reflexivity|]. split; [|repeat split].
  unfold table_element.
  change (lit "</tbody></table>") with (lit "</tbody></table" ++ [62]).
  rewrite !app_assoc. apply last_last.
Qed.

Lemma table_rows_cells (st : styles.t) (L : list (list cell)) :
  Forall (fun r => row_ok r = true) L ->
  map (fun row =>
         lit "<tr>"
         ++ concat (map (fun cell => otag "td" (styles.td st) ++ cell ++ lit "</td>")
                        (parseRow row))
         ++ lit "</tr>") (map row_source L)
  = map (fun row =>
           lit "<tr>"
           ++ concat (map (fun t => otag "td" (styles.td st) ++ t ++ lit "</td>") row)
           ++ lit "</tr>") (map (map cell_text) L).
Proof.
  intros H. rewrite !map_map. apply map_ext_in. intros r Hin.
  rewrite Forall_forall in H. specialize (H r Hin).
  apply andb_true_iff in H as [_ H]. now rewrite parseRow_row_source.
Qed.

Section Table.

Variable sty : style.
Variable header : list cell.
Variable rows : list (list cell).
Hypothesis rows_nonempty : rows <> [].
Hypothesis rows_ok : Forall (fun r => row_ok r = true) (header :: rows).

Let st := styles_of sty.
Let T : jsstring :=
  table_element st (map cell_text header)
    (map (map cell_text) (filter (fun r => negb (dash_row r)) rows)).

Lemma table_lines_facts :
  Forall (fun l => no_lt l = true /\ inline_text l = true /\ valid_table_line l = true
                   /\ nonblank l = true /\ last l 0 = pipe /\ l <> [])
         (map row_source (header :: rows)).
Proof.
  apply Forall_map. generalize rows_ok. apply Forall_impl. intros r Hr.
  destruct (row_ok_facts _ Hr) as (H1 & H2 & H3 & H4 & H5).
  repeat split; try assumption. discriminate.
Qed.

Lemma table_callback_rows : table_callback st (table_source (header :: rows)) = T.
Proof.
  pose proof table_lines_facts as F.
  assert (Etrim : trim (table_source (header :: rows)) = table_source (header :: rows)).
  { unfold table_source. apply trim_id.
    - erewrite hd_join; [| reflexivity | discriminate]. reflexivity.
    - rewrite last_join.
      + assert (L : last (last (map row_source (header :: rows)) []) 0 = pipe).
        { assert (G : Forall (fun l : jsstring => last l 0 = pipe)
                             (map row_source (header :: rows)))
            by (revert F; apply Forall_impl; intros l H; apply H).
          assert (N : map row_source (header :: rows) <> []) by discriminate.
          revert N G. generalize (map row_source (header :: rows)). intros L N G.
          induction G as [|x L Hx G IH]; [congruence|].
          destruct L as [|y L']; [exact Hx|]. apply IH. discriminate. }
        now rewrite L.
      + discriminate.
      + revert F. apply Forall_impl. intros l H. apply H. }
  unfold table_callback. rewrite Etrim. unfold table_source.
  rewrite split_join_LF;
    [| discriminate
     | revert F; apply Forall_impl; intros l H; apply no_lt_no_LF; apply H].
  rewrite filter_all by (revert F; apply Forall_impl; intros l H; apply H).
  assert (El : (length (map row_source (header :: rows)) <? 2)%nat = false).
  { pose proof rows_nonempty as N. destruct rows; [congruence | reflexivity]. }
  rewrite El. cbn [map hd tl].
  pose proof rows_ok as Hok. apply Forall_cons_iff in Hok as [Hh Hrs].
  assert (Hcells : forall r, row_ok r = true -> forallb cell_ok r = true)
    by (intros r [_ H]%andb_true_iff; exact H).
  rewrite parseRow_row_source by now apply Hcells.
  assert (Ef : filter (fun r => negb (isSeparator r)) (map row_source rows)
               = map row_source (filter (fun r => negb (dash_row r)) rows)).
  { clear - Hrs. induction Hrs as [|r rs Hr Hrs IH]; [reflexivity|].
    cbn [map filter]. rewrite isSeparator_row_source by exact Hr.
    destruct (dash_row r); cbn [negb map]; now rewrite IH. }
  rewrite Ef. rewrite table_rows_cells; [reflexivity|].
  rewrite Forall_forall in Hrs. apply Forall_forall.
  intros r [Hin _]%filter_In. now apply Hrs.
Qed.

Lemma table_passive : passive_line T.
Proof.
  pose proof rows_ok as Hok. apply Forall_cons_iff in Hok as [Hh Hrs].
  assert (Hcells : forall r, row_ok r = true ->
                             Forall (fun t => inline_text t = true) (map cell_text r)).
  { intros r [_ H]%andb_true_iff. apply Forall_map. apply forallb_Forall in H.
    revert H. apply Forall_impl. intros c Hc. now apply cell_ok_facts. }
  assert (Hi : inline_text T = true).
  { unfold T, st. apply table_element_inline; [now apply Hcells|].
    apply Forall_map. rewrite Forall_forall in Hrs. apply Forall_forall.
    intros r [Hin _]%filter_In. now apply Hcells, Hrs. }
  split; [exact Hi|]. split; [now apply inline_no_lt|].
  unfold T. apply table_element_shape.
Qed.

Lemma render_table : render_body st (table_source (header :: rows)) = T.
Proof.
  pose proof table_lines_facts as F.
  rewrite render_body_split. unfold first_passes at 1.
  rewrite (@replace_g_inert (codeblock_matcher st) (is_not 96));
    [| apply codeblock_inert
     | unfold table_source; apply inline_doc_is_not; [cbn; tauto|];
       revert F; apply Forall_impl; intros l H; apply H].
  assert (E : replace_g (table_matcher st) (table_source (header :: rows)) = T).
  { unfold replace_g, table_matcher, table_source.
    rewrite (@run_pass_run_last valid_table_line (table_callback st));
      [apply table_callback_rows | ..];
      try reflexivity; try discriminate.
    revert F. apply Forall_impl. intros l H. split; apply H. }
  rewrite E.
  pose proof table_passive as P.
  assert (PL : Forall passive_line [T]) by (constructor; [exact P | constructor]).
  pose proof (@passes_passive st [T] PL) as Q. cbn [join] in Q.
  assert (E1 : first_passes st T = T).
  { unfold first_passes.
    destruct P as (Hi & Hn & Hh).
    rewrite (@replace_g_inert (codeblock_matcher st) (is_not 96));
      [| apply codeblock_inert
       | revert Hi; apply forallb_impl; intros c; apply inline_char_is_not; cbn; tauto].
    change T with (join [LF] [T]).
    apply (@replace_heads (table_matcher st) (is_not 124));
      [apply run_matcher_anchored | apply table_inert | reflexivity |].
    constructor; [|constructor]. split; [exact Hn|].
    unfold T. apply table_element_shape. }
  rewrite E1 in Q. unfold block_passes. cbn zeta. rewrite Q.
  unfold wrap_paragraphs. destruct P as (Hi & Hn & Hh).
  rewrite split_no_sep by now apply no_lt_no_LF.
  change [T] with ([T] ++ []). rewrite wrap_lines_copied; [reflexivity|].
  constructor; [|constructor].
  unfold T. apply copied_tag_line; apply table_element_shape.
Qed.

End Table.

(** ** Markup inside a fenced block *)

Lemma escape_html_app (a b : jsstring) :
  escape_html (a ++ b) = escape_html a ++ escape_html b.
Proof. unfold escape_html. now rewrite !replace_char_by_app. Qed.

(** The escaping keeps a property of the code units that the texts it
    puts in have. *)
Lemma escape_html_keeps (P : char -> bool) (t : jsstring) :
  forallb P (lit "&amp;&lt;&gt;&quot;&#039;") = true ->
  forallb P t = true -> forallb P (escape_html t) = true.
Proof.
  intros HP. induction t as [|c t IH]; [reflexivity|]. cbn [forallb].
  intros [Hc Ht]%andb_true_iff.
  rewrite escape_html_cons, forallb_app, (IH Ht), andb_true_r, escape_html_one.
  rewrite forallb_forall in HP.
  assert (Hin : forall r, (forall x, In x r -> In x (lit "&amp;&lt;&gt;&quot;&#039;")) ->
                          forallb P r = true)
    by (intros r Hr; apply forallb_forall; intros x Hx; apply HP, Hr, Hx).
  destruct (c =? 38); [apply Hin; intros x Hx; cbv in Hx |- *; tauto|].
  destruct (c =? 60); [apply Hin; intros x Hx; cbv in Hx |- *; tauto|].
  destruct (c =? 62); [apply Hin; intros x Hx; cbv in Hx |- *; tauto|].
  destruct (c =? 34); [apply Hin; intros x Hx; cbv in Hx |- *; tauto|].
  destruct (c =? 39); [apply Hin; intros x Hx; cbv in Hx |- *; tauto|].
  cbn [forallb]. now rewrite Hc.
Qed.

Lemma escape_html_nonempty (t : jsstring) : t <> [] -> escape_html t <> [].
Proof.
  destruct t as [|c t]; [congruence|]. intros _. rewrite escape_html_cons, escape_html_one.
  destruct (c =? 38); [discriminate|]. destruct (c =? 60); [discriminate|].
  destruct (c =? 62); [discriminate|]. destruct (c =? 34); [discriminate|].
  destruct (c =? 39); discriminate.
Qed.

Lemma escape_item_text (t : jsstring) : item_text t = true -> item_text (escape_html t) = true.
Proof.
  intros [Hi Hne]%item_text_facts. unfold item_text, inline_text.
  rewrite (@escape_html_keeps inline_char t eq_refl Hi).
  apply escape_html_nonempty in Hne. now destruct (escape_html t).
Qed.

Lemma escape_span_ok (s : span) : span_ok s = true -> span_ok (escape_span s) = true.
Proof.
  destruct s as [t|t|t|text url|t]; cbn [span_ok escape_span]; try apply escape_item_text.
  intros [[[H1 H2]%andb_true_iff H3]%andb_true_iff H4]%andb_true_iff.
  rewrite !escape_item_text by assumption.
  now rewrite !escape_html_keeps by (first [reflexivity | assumption]).
Qed.

Lemma escape_spans_ok (l : list span) (am : bool) :
  spans_ok am l = true -> spans_ok am (map escape_span l) = true.
Proof.
  revert am. induction l as [|s rest IH]; intros am H; [reflexivity|].
  cbn [spans_ok map] in *. apply andb_true_iff in H as [Hs H].
  rewrite (escape_span_ok _ Hs). cbn [andb].
  replace (is_markup (escape_span s)) with (is_markup s) by now destruct s.
  destruct (is_markup s).
  - apply andb_true_iff in H as [Ha H]. now rewrite Ha, (IH _ H).
  - now apply IH.
Qed.

Lemma escape_span_source (s : span) :
  escape_html (span_source s) = span_source (escape_span s).
Proof.
  destruct s as [t|t|t|text url|t]; cbn [span_source escape_span];
    rewrite ?escape_html_app; reflexivity.
Qed.

Lemma escape_line (l : list span) :
  escape_html (concat (map span_source l)) = concat (map span_source (map escape_span l)).
Proof.
  induction l as [|s rest IH]; [reflexivity|]. cbn [map concat].
  now rewrite escape_html_app, escape_span_source, IH.
Qed.

Lemma spans_ok_closed (l : list span) (am : bool) (t : jsstring) :
  item_text t = true -> spans_ok am l = true -> spans_ok am (l ++ [PlainText t]) = true.
Proof.
  intros Ht. revert am. induction l as [|s rest IH]; intros am H.
  - cbn [app spans_ok span_ok is_markup]. now rewrite Ht.
  - cbn [app spans_ok] in *. apply andb_true_iff in H as [Hs H]. rewrite Hs. cbn [andb].
    destruct (is_markup s).
    + apply andb_true_iff in H as [Ha H]. now rewrite Ha, (IH _ H).
    + now apply IH.
Qed.

Lemma line_no_backtick (l : list span) (am : bool) :
  spans_ok am l = true -> forallb no_code_span l = true ->
  forallb (is_not 96) (concat (map span_source l)) = true.
Proof.
  intros Hok Hn. apply spans_ok_all in Hok.
  induction Hok as [|s rest Hs Hrest IH]; [reflexivity|].
  cbn [forallb] in Hn. apply andb_true_iff in Hn as [Hn1 Hn2].
  cbn [map concat]. rewrite forallb_app, (IH Hn2), andb_true_r.
  pose proof (@span_source_is_not 96 s (or_introl eq_refl) Hs) as H.
  destruct s; first [exact H | discriminate Hn1].
Qed.

Lemma line_nonempty (l : list span) (am : bool) :
  spans_ok am l = true -> l <> [] -> concat (map span_source l) <> [].
Proof.
  intros Hok Hne. destruct l as [|s rest]; [congruence|].
  cbn [spans_ok] in Hok. apply andb_true_iff in Hok as [Hs _].
  apply span_ok_text in Hs. cbn [map concat].
  destruct s as [t|t|t|text url|t]; cbn [span_source]; try discriminate.
  destruct Hs as [_ Hs]. destruct t; [congruence | discriminate].
Qed.

(** The pass for code blocks on a fenced block of one line. *)
Lemma codeblock_pass_line (st : styles.t) (lang x : jsstring) :
  forallb is_word lang = true -> forallb (is_not 96) x = true ->
  trimmed x = true -> x <> [] ->
  replace_g (codeblock_matcher st) (fenced lang [x])
  = pre_open st ++ escape_html x ++ pre_close.
Proof.
  intros Hlang H96 Ht Hne.
  assert (HX96 : forallb (is_not 96) (x ++ [LF]) = true)
    by (rewrite forallb_app, H96; reflexivity).
  assert (Htrim : trim (x ++ [LF]) = x)
    by (apply (@trim_padded [] x [LF]); [reflexivity | reflexivity | exact Ht | exact Hne]).
  pose proof (@codeblock_match st lang (x ++ [LF]) Hlang HX96) as Hm.
  rewrite Htrim in Hm. unfold replace_g.
  assert (Ea : fenced lang [x] = (fence ++ lang ++ LF :: (x ++ [LF]) ++ fence) ++ []).
  { unfold fenced. cbn [join]. rewrite app_nil_r. now rewrite <- !app_assoc. }
  rewrite Ea.
  rewrite (@hit_prefix (codeblock_matcher st) (fence ++ lang ++ LF :: (x ++ [LF]) ++ fence) []
             (otag "pre" (styles.pre st) ++ lit "<code>" ++ escape_html x
              ++ lit "</code></pre>")).
  - cbn [replace_from]. unfold pre_open, pre_close. now rewrite app_nil_r, <- !app_assoc.
  - apply codeblock_bol_free.
  - discriminate.
  - rewrite app_nil_r, Hm. f_equal. f_equal.
    change fence with [96; 96; 96 : char]. cbn [app length]. rewrite !length_app.
    cbn [length]. rewrite !length_app. cbn [length]. lia.
Qed.

(** A line of spans through the passes before the paragraph loop. *)
Section SpansLine.

Variable sty : style.
Variable l : list span.
Variable c : char.
Variable t : jsstring.
Variable rest : list span.
Hypothesis shape : l = PlainText (c :: t) :: rest.
Hypothesis head_ok : plain_head c = true.
Hypothesis ok : spans_ok false l = true.

Let st := styles_of sty.

Lemma spans_line_heads (k : nat) (P : char -> bool) :
  (k = 0%nat \/ k = 4%nat) ->
  (forall x, plain_head x = true -> P x = true) ->
  Forall (fun x => no_lt x = true /\ head_is P x = true) [line_at k st l].
Proof.
  intros Hk HP. constructor; [|constructor]. split.
  - destruct Hk as [-> | ->].
    + rewrite line_at_source. apply concat_no_lt. rewrite Forall_map.
      generalize (spans_ok_all _ _ ok). apply Forall_impl. intros s. apply span_source_no_lt.
    + rewrite line_at_element. apply concat_no_lt. rewrite Forall_map.
      generalize (spans_ok_all _ _ ok). apply Forall_impl. intros s Hs.
      apply inline_no_lt. now apply span_element_inline.
  - rewrite shape, line_at_cons. cbn [head_is]. now apply HP.
Qed.

Lemma spans_quiet_pass (k : nat) (m : matcher) (P : char -> bool) :
  (k = 0%nat \/ k = 4%nat) -> anchored m -> inert m P -> P LF = true ->
  (forall x, plain_head x = true -> P x = true) ->
  replace_g m (line_at k st l) = line_at k st l.
Proof.
  intros Hk Ha Hi HLF HP.
  apply (@replace_heads m P [line_at k st l] Ha Hi HLF). now apply spans_line_heads.
Qed.

Lemma spans_line_passes :
  replace_g (ol_matcher st)
    (replace_g (ul_matcher st)
       (replace_g (blockquote_matcher st)
          (replace_g (hr_matcher st)
             (inline_passes st (heading_passes st (first_passes st (line_at 0 st l)))))))
  = line_at 4 st l.
Proof.
  assert (H35 : forall x, plain_head x = true -> is_not 35 x = true)
    by (intros x Hx; apply (plain_head_is x Hx)).
  assert (H45 : forall x, plain_head x = true -> is_not 45 x = true)
    by (intros x Hx; apply (plain_head_is x Hx)).
  assert (H62 : forall x, plain_head x = true -> is_not 62 x = true)
    by (intros x Hx; apply (plain_head_is x Hx)).
  assert (H124 : forall x, plain_head x = true -> is_not 124 x = true)
    by (intros x Hx; apply (plain_head_is x Hx)).
  assert (Hdig : forall x, plain_head x = true -> negb (is_digit x) = true)
    by (intros x Hx; apply (plain_head_is x Hx)).
  destruct (Forall_inv (@spans_line_heads 0%nat (fun _ => true) (or_introl eq_refl)
                          (fun _ _ => eq_refl))) as [Hno0 _].
  unfold first_passes.
  rewrite codeblock_one_line by (now apply no_lt_no_LF).
  rewrite (@spans_quiet_pass 0%nat (table_matcher st) (is_not 124))
    by (first [now left | apply run_matcher_anchored | apply table_inert | reflexivity
              | exact H124]).
  unfold heading_passes. cbn zeta.
  change (lit "#### ") with (35 :: lit "### ").
  rewrite (@spans_quiet_pass 0%nat (heading_matcher (35 :: lit "### ") "h4" (styles.h4 st))
             (is_not 35))
    by (first [now left | apply line_matcher_anchored | apply heading_inert | reflexivity
              | exact H35]).
  change (lit "### ") with (35 :: lit "## ").
  rewrite (@spans_quiet_pass 0%nat (heading_matcher (35 :: lit "## ") "h3" (styles.h3 st))
             (is_not 35))
    by (first [now left | apply line_matcher_anchored | apply heading_inert | reflexivity
              | exact H35]).
  change (lit "## ") with (35 :: lit "# ").
  rewrite (@spans_quiet_pass 0%nat (heading_matcher (35 :: lit "# ") "h2" (styles.h2 st))
             (is_not 35))
    by (first [now left | apply line_matcher_anchored | apply heading_inert | reflexivity
              | exact H35]).
  change (lit "# ") with (35 :: lit " ").
  rewrite (@spans_quiet_pass 0%nat (heading_matcher (35 :: lit " ") "h1" (styles.h1 st))
             (is_not 35))
    by (first [now left | apply line_matcher_anchored | apply heading_inert | reflexivity
              | exact H35]).
  pose proof (inline_passes_spans sty l false ok) as Ei. fold st in Ei. rewrite Ei.
  rewrite (@spans_quiet_pass 4%nat (hr_matcher st) (is_not 45))
    by (first [now right | apply line_matcher_anchored | apply hr_inert | reflexivity
              | exact H45]).
  rewrite (@spans_quiet_pass 4%nat (blockquote_matcher st) (is_not 62))
    by (first [now right | apply run_matcher_anchored | apply blockquote_inert | reflexivity
              | exact H62]).
  rewrite (@spans_quiet_pass 4%nat (ul_matcher st) (is_not 45))
    by (first [now right | apply run_matcher_anchored | apply ul_inert | reflexivity
              | exact H45]).
  now rewrite (@spans_quiet_pass 4%nat (ol_matcher st) (fun x => negb (is_digit x)))
    by (first [now right | apply run_matcher_anchored | apply ol_inert | reflexivity
              | exact Hdig]).
Qed.

End SpansLine.

Section FencedSpans.

Variable sty : style.
Variable lang : jsstring.
Variable l : list span.
Hypothesis lang_ok : forallb is_word lang = true.
Hypothesis line_ok : code_spans_ok l = true.

Let st := styles_of sty.
Let l' : list span := PlainText (pre_open st) :: map escape_span l ++ [PlainText pre_close].

Lemma fenced_spans_ok : spans_ok false l' = true.
Proof.
  unfold code_spans_ok in line_ok.
  pose proof line_ok as H. rewrite !andb_true_iff in H. destruct H as [[[Hok _] _] _].
  unfold l'. cbn [spans_ok span_ok is_markup].
  apply andb_true_iff. split.
  - unfold item_text, st. now rewrite pre_attr_inline.
  - apply spans_ok_closed; [reflexivity|]. now apply escape_spans_ok.
Qed.

Lemma fenced_spans_source :
  line_at 0 st l' = pre_open st ++ escape_html (concat (map span_source l)) ++ pre_close.
Proof.
  rewrite line_at_source. unfold l'. cbn [map concat span_source].
  rewrite map_app, concat_app. cbn [map concat span_source].
  now rewrite app_nil_r, escape_line.
Qed.

Lemma fenced_spans_element :
  line_at 4 st l'
  = pre_open st ++ concat (map (span_element st) (map escape_span l)) ++ pre_close.
Proof.
  rewrite line_at_element. unfold l'. cbn [map concat span_element].
  rewrite map_app, concat_app. cbn [map concat span_element].
  now rewrite app_nil_r.
Qed.

Lemma render_fenced_spans :
  render_body st (fenced lang [concat (map span_source l)])
  = pre_open st ++ concat (map (span_element st) (map escape_span l)) ++ pre_close.
Proof.
  pose proof line_ok as H. unfold code_spans_ok in H. rewrite !andb_true_iff in H.
  destruct H as [[[Hok Hnc] Hne] Htr].
  assert (Hl : l <> []) by (intros ->; discriminate).
  rewrite render_body_split. unfold first_passes at 1.
  pose proof (@codeblock_pass_line st lang (concat (map span_source l)) lang_ok
                (@line_no_backtick l false Hok Hnc) Htr (@line_nonempty l false Hok Hl)) as Ec.
  match goal with
  | |- context [replace_g (codeblock_matcher st) ?y] =>
      replace (replace_g (codeblock_matcher st) y)
        with (pre_open st ++ escape_html (concat (map span_source l)) ++ pre_close)
        by (symmetry; exact Ec)
  end.
  rewrite <- fenced_spans_source.
  pose proof fenced_spans_ok as Hok'.
  assert (Hno : no_lt (line_at 0 st l') = true).
  { rewrite line_at_source. apply concat_no_lt. rewrite Forall_map.
    generalize (spans_ok_all _ _ Hok'). apply Forall_impl. intros s. apply span_source_no_lt. }
  assert (E : replace_g (codeblock_matcher st) (line_at 0 st l') = line_at 0 st l')
    by (apply codeblock_one_line; now apply no_lt_no_LF).
  assert (F : replace_g (table_matcher st) (line_at 0 st l')
               = first_passes st (line_at 0 st l'))
    by (unfold first_passes; now rewrite E).
  rewrite F.
  unfold block_passes. cbn zeta.
  assert (Eshape : exists tl, l' = PlainText (60 :: tl) :: map escape_span l ++ [PlainText pre_close]).
  { unfold l', pre_open, otag. now eexists. }
  destruct Eshape as [tl Eshape].
  pose proof (@spans_line_passes sty l' 60 tl _ Eshape eq_refl Hok') as Q.
  fold st in Q. rewrite Q.
  assert (Hno4 : no_lt (line_at 4 st l') = true).
  { rewrite line_at_element. apply concat_no_lt. rewrite Forall_map.
    generalize (spans_ok_all _ _ Hok'). apply Forall_impl. intros s Hs.
    apply inline_no_lt. unfold st. now apply span_element_inline. }
  unfold wrap_paragraphs. rewrite split_no_sep by now apply no_lt_no_LF.
  change [line_at 4 st l'] with ([line_at 4 st l'] ++ []).
  rewrite wrap_lines_copied.
  - cbn [app wrap_lines join]. apply fenced_spans_element.
  - constructor; [|constructor]. rewrite fenced_spans_element. apply copied_tag_line.
    + reflexivity.
    + unfold pre_close. change (lit "</code></pre>") with (lit "</code></pre" ++ [62]).
      rewrite !app_assoc. apply last_last.
    + reflexivity.
Qed.

End FencedSpans.

(** ** The properties *)

(** X1.  Arguments parsed one after the other: in [parseArgs(a.concat(b))]
    a flag has the value [b] gives it, and otherwise the value [a] gives
    it; the positional arguments are those of [a] followed by those of
    [b]. *)
Theorem X1_parseArgs_later_flag_wins :
  forall (a b : list jsstring) (k : jsstring),
    get_flag k (flags_of (parseArgs (a ++ b)))
    = match get_flag k (flags_of (parseArgs b)) with
      | Some v => Some v
      | None => get_flag k (flags_of (parseArgs a))
      end
    /\ positional_of (parseArgs (a ++ b))
       = positional_of (parseArgs a) ++ positional_of (parseArgs b).
Proof.
  intros a b k. unfold parseArgs at 1 4. rewrite !parseArgs_from_app.
  destruct (parseArgs_from_spec b (flags_of (parseArgs_from [] [] a))
              (positional_of (parseArgs_from [] [] a)) k) as [F P].
  split; [exact F | exact P].
Qed.

(** X2.  No flag of [parseArgs] has the empty string as its value: a flag
    is absent or truthy. *)
Theorem X2_parseArgs_values_truthy :
  forall (args : list jsstring) (k v : jsstring),
    get_flag k (flags_of (parseArgs args)) = Some v -> v <> [].
Proof.
  intros args k v. apply (@parseArgs_from_truthy args [] []).
  intros k' v'. discriminate.
Qed.

Lemma X2_parseArgs_values_truthy_witness :
  get_flag (lit "to") (flags_of (parseArgs [lit "--to="])) = Some (lit "true")
  /\ lit "true" <> [].
Proof.
  split; [reflexivity|].
  apply (@X2_parseArgs_values_truthy [lit "--to="] (lit "to") (lit "true")). reflexivity.
Defined.

(** X3.  A last argument [--key=value] is read back: the flag holds the
    value, equals signs included, or the word [true] when the value is
    empty; a last argument [--key] gives the word [true].  The key has no
    equals sign and is not [__proto__]. *)
Theorem X3_parseArgs_reads_back :
  forall (args : list jsstring) (key value : jsstring),
    forallb (is_not 61) key = true ->
    key <> lit "__proto__" ->
    get_flag key (flags_of (parseArgs (args ++ [lit "--" ++ key ++ lit "=" ++ value])))
    = Some (if is_empty value then lit "true" else value)
    /\ get_flag key (flags_of (parseArgs (args ++ [lit "--" ++ key]))) = Some (lit "true").
Proof.
  intros args key value Hkey Hproto.
  apply eqb_str_neq in Hproto.
  unfold parseArgs. rewrite !parseArgs_from_app.
  cbn [parseArgs_from]. change (lit "--") with [45; 45].
  change (lit "=") with [61 : char].
  cbn [app prefixb skipn N.eqb Pos.eqb andb flags_of].
  rewrite (@split_app_sep 61 key value Hkey), (@split_no_sep 61 key Hkey).
  cbn [hd tl join is_empty]. rewrite join_split, !get_assign_flag, Hproto, eqb_str_refl.
  split; reflexivity.
Qed.

Lemma X3_parseArgs_reads_back_witness :
  get_flag (lit "subject")
    (flags_of (parseArgs ([lit "x"] ++ [lit "--" ++ lit "subject" ++ lit "=" ++ lit "a=b"])))
  = Some (lit "a=b").
Proof.
  apply (@X3_parseArgs_reads_back [lit "x"] (lit "subject") (lit "a=b")).
  - reflexivity.
  - discriminate.
Defined.

(** X4.  What [extractBody] returns is taken from the payload: [html] is
    the decoded data of a part of type text/html, and a [text] that is not
    empty is the decoded data of a part whose type is not text/html. *)
Theorem X4_extractBody_sources :
  forall (payload : option MessagePart),
    (forall h, body_html (extractBody payload) = Some h ->
               html_source (payload_parts payload) h)
    /\ (body_text (extractBody payload) <> [] ->
        text_source (payload_parts payload) (body_text (extractBody payload))).
Proof.
  intros [p|]; cbn [extractBody payload_parts].
  - exact (extractBody_part_sourced p).
  - split; cbn [body_html body_text]; [discriminate | congruence].
Qed.

Lemma X4_extractBody_sources_witness :
  html_source
    (payload_parts (Some (mkMessagePart (Some (lit "multipart/alternative")) None
                            (Some [text_part "text/plain" (lit "hi");
                                   text_part "text/html" (lit "<b>hi</b>")]))))
    (lit "<b>hi</b>").
Proof.
  apply (proj1 (X4_extractBody_sources
                  (Some (mkMessagePart (Some (lit "multipart/alternative")) None
                           (Some [text_part "text/plain" (lit "hi");
                                  text_part "text/html" (lit "<b>hi</b>")]))))).
  vm_compute. reflexivity.
Defined.

(** X5.  Parts the loop passes over do not count: a part without parts of
    its own that is not a text/plain or text/html part with data (an
    attachment, an inline image) can be put anywhere among the parts of a
    payload, or taken away, and the result stays the same. *)
Theorem X5_extractBody_skips_attachments :
  forall (mt data : option jsstring) (before after : list MessagePart) (a : MessagePart),
    passed_over a = true ->
    extractBody (Some (mkMessagePart mt data (Some (before ++ a :: after))))
    = extractBody (Some (mkMessagePart mt data (Some (before ++ after)))).
Proof.
  intros mt data before after a Ha. cbn [extractBody]. rewrite !extractBody_part_eq.
  destruct (truthy data); [reflexivity|].
  rewrite !fold_left_app. cbn [fold_left]. now rewrite part_step_passed_over.
Qed.

Lemma X5_extractBody_skips_attachments_witness :
  extractBody (Some (mkMessagePart (Some (lit "multipart/mixed")) None
                       (Some ([text_part "text/plain" (lit "hi")]
                              ++ mkMessagePart (Some (lit "application/pdf")) None None :: []))))
  = extractBody (Some (mkMessagePart (Some (lit "multipart/mixed")) None
                         (Some ([text_part "text/plain" (lit "hi")] ++ [])))).
Proof.
  apply (@X5_extractBody_skips_attachments (Some (lit "multipart/mixed")) None
           [text_part "text/plain" (lit "hi")] []
           (mkMessagePart (Some (lit "application/pdf")) None None)).
  reflexivity.
Defined.

(** X6.  A payload as the mail API gives it for a message with a plain and
    an HTML body, the data of each part being the base64url text of its
    UTF-8 bytes: a multipart/alternative of the two parts, alone or as the
    first part of a multipart/mixed whose other parts are passed over.
    [extractBody] returns the two texts (lone surrogates replaced); an
    empty HTML body gives no [html]. *)
Theorem X6_extractBody_reads_alternative :
  forall (body html : jsstring) (atts : list MessagePart),
    code_units body = true -> code_units html = true ->
    forallb passed_over atts = true ->
    let alt := mkMessagePart (Some (lit "multipart/alternative")) None
                 (Some [text_part "text/plain" body; text_part "text/html" html]) in
    let expected := mkExtractedBody (toWellFormed body)
                      (if is_empty html then None else Some (toWellFormed html)) in
    extractBody (Some alt) = expected
    /\ extractBody (Some (mkMessagePart (Some (lit "multipart/mixed")) None (Some (alt :: atts))))
       = expected.
Proof.
  intros body html atts Hb Hh Hatts alt expected.
  assert (Halt : extractBody_part alt = expected).
  { unfold alt. rewrite extractBody_part_eq. cbn [truthy fold_left].
    rewrite part_step_text_part_plain, part_step_text_part_html by assumption.
    unfold expected.
    destruct body as [|c body]; destruct html as [|d html]; reflexivity. }
  split; [exact Halt|].
  cbn [extractBody]. rewrite extractBody_part_eq. cbn [truthy fold_left].
  rewrite fold_passed_over by exact Hatts.
  unfold part_step at 1. unfold alt at 1. 
  change (is_string "text/plain" (Some (lit "multipart/alternative"))) with false.
  change (is_string "text/html" (Some (lit "multipart/alternative"))) with false.
  cbn [andb]. fold alt. cbn zeta. rewrite Halt. unfold expected.
  cbn [body_text body_html]. f_equal.
  - now destruct (toWellFormed body).
  - destruct html as [|d html]; [reflexivity|]. cbn [is_empty].
    pose proof (@toWellFormed_nonempty (d :: html)) as N.
    destruct (toWellFormed (d :: html)); [exfalso; apply N; [discriminate|reflexivity]|].
    reflexivity.
Qed.

Lemma X6_extractBody_reads_alternative_witness :
  extractBody (Some (mkMessagePart (Some (lit "multipart/alternative")) None
                       (Some [text_part "text/plain" (lit "hi"); text_part "text/html" (lit "<b>hi</b>")])))
  = mkExtractedBody (lit "hi") (Some (lit "<b>hi</b>")).
Proof.
  apply (@X6_extractBody_reads_alternative (lit "hi") (lit "<b>hi</b>") []); reflexivity.
Defined.

(** X7.  The last part of a payload decides: when the last part is a
    text/plain part with data, [text] is its decoded data, whatever the
    parts before it hold; the same for text/html and [html]. *)
Theorem X7_extractBody_last_part_wins :
  forall (mt : option jsstring) (before : list MessagePart) (d : jsstring)
         (sub : option (list MessagePart)),
    d <> [] ->
    body_text (extractBody (Some (mkMessagePart mt None
                 (Some (before ++ [mkMessagePart (Some (lit "text/plain")) (Some d) sub])))))
    = decodeBase64Url d
    /\ body_html (extractBody (Some (mkMessagePart mt None
                    (Some (before ++ [mkMessagePart (Some (lit "text/html")) (Some d) sub])))))
       = Some (decodeBase64Url d).
Proof.
  intros mt before d sub Hd. cbn [extractBody]. rewrite !extractBody_part_eq.
  cbn [truthy]. rewrite !fold_left_app. cbn [fold_left]. unfold part_step.
  change (is_string "text/plain" (Some (lit "text/plain"))) with true.
  change (is_string "text/plain" (Some (lit "text/html"))) with false.
  change (is_string "text/html" (Some (lit "text/html"))) with true.
  destruct d as [|c d]; [congruence|]. cbn [truthy andb string_of body_text body_html].
  split; reflexivity.
Qed.

Lemma X7_extractBody_last_part_wins_witness :
  body_text (extractBody (Some (mkMessagePart None None
               (Some ([text_part "text/plain" (lit "body")]
                      ++ [mkMessagePart (Some (lit "text/plain")) (Some (lit "bm90ZXM")) None])))))
  = decodeBase64Url (lit "bm90ZXM").
Proof.
  apply (@X7_extractBody_last_part_wins None [text_part "text/plain" (lit "body")]
           (lit "bm90ZXM") None).
  discriminate.
Defined.

(** X8.  [downloadMessageAsEml] writes the very bytes whose base64url text
    the mail API returned as [raw] (such as the text [createRawMessage]
    makes), to the given path or to the message id followed by [.eml], and
    reports their number; without [raw] it throws and writes nothing. *)
Theorem X8_downloadMessageAsEml_writes_bytes :
  forall (w : eml_world) (messageId : jsstring) (outputPath : option jsstring),
    let finalPath :=
      if truthy outputPath then string_of outputPath else messageId ++ lit ".eml" in
    (forall bs : list byte,
       bs <> [] ->
       messages_get_raw w messageId = Fulfilled (Some (base64url bs)) ->
       writeFile_error w finalPath bs = None ->
       downloadMessageAsEml w messageId outputPath
       = (inr (mkEmlResult finalPath (length bs)),
          [GetRaw messageId; WriteFile finalPath bs]))
    /\ (forall raw : option jsstring,
          messages_get_raw w messageId = Fulfilled raw ->
          truthy raw = false ->
          downloadMessageAsEml w messageId outputPath
          = (inl (Thrown (lit "No raw message data returned from Gmail API")),
             [GetRaw messageId])).
Proof.
  intros w messageId outputPath finalPath. split.
  - intros bs Hne Hget Hwrite. unfold downloadMessageAsEml. rewrite Hget.
    rewrite base64url_truthy by exact Hne. cbn [negb string_of].
    rewrite Buffer_from_base64_base64url. fold finalPath. now rewrite Hwrite.
  - intros raw Hget Hraw. unfold downloadMessageAsEml. now rewrite Hget, Hraw.
Qed.

Lemma X8_downloadMessageAsEml_writes_bytes_witness :
  downloadMessageAsEml
    (mkEmlWorld (fun _ => Fulfilled (Some (base64url (Buffer_from (lit "Subject: x")))))
       (fun _ _ => None))
    (lit "m1") None
  = (inr (mkEmlResult (lit "m1.eml") 10),
     [GetRaw (lit "m1"); WriteFile (lit "m1.eml") (Buffer_from (lit "Subject: x"))]).
Proof.
  apply (proj1 (X8_downloadMessageAsEml_writes_bytes
                  (mkEmlWorld
                     (fun _ => Fulfilled (Some (base64url (Buffer_from (lit "Subject: x")))))
                     (fun _ _ => None))
                  (lit "m1") None) (Buffer_from (lit "Subject: x"))).
  - discriminate.
  - reflexivity.
  - reflexivity.
Defined.

(** X19.  [decodeBase64Url] undoes the encoding of [createRawMessage]: the
    base64url text of the UTF-8 bytes of a string decodes to that string,
    every lone surrogate replaced by U+FFFD; so the raw text of a message
    decodes to the message. *)
Theorem X19_decodeBase64Url_reads_encoded :
  forall (s : jsstring),
    code_units s = true ->
    decodeBase64Url (base64url (Buffer_from s)) = toWellFormed s.
Proof. intros s H. now apply decodeBase64Url_encoded. Qed.

Lemma X19_decodeBase64Url_reads_encoded_witness :
  decodeBase64Url
    (createRawMessage 1700000000123 (lit "a@b.c") (lit "caf" ++ [233]) (lit "x" ++ [55357; 56832])
       None None None None)
  = message 1700000000123 (lit "a@b.c") (lit "caf" ++ [233]) (lit "x" ++ [55357; 56832])
      None None None None.
Proof.
  apply (@X19_decodeBase64Url_reads_encoded
           (message 1700000000123 (lit "a@b.c") (lit "caf" ++ [233])
              (lit "x" ++ [55357; 56832]) None None None None)).
  vm_compute. reflexivity.
Defined.

(** X9.  [applyTemplate] on one of the two templates of [getEmailTemplate]:
    the template is a head, the title placeholder, a middle, the content
    placeholder and a tail, and the result is the head, the title, the
    middle, the content and the tail, when title and content are
    replacement texts that stand for themselves (no dollar sign followed
    by a dollar sign, an ampersand, a backtick or an apostrophe) and the
    title does not hold the content placeholder. *)
Theorem X9_applyTemplate_fills_placeholders :
  forall (st : style) (title content : jsstring),
    literal_replacement title = true ->
    literal_replacement content = true ->
    count (lit "{{CONTENT}}") title = 0%nat ->
    let p := pieces_of (getEmailTemplate st) in
    getEmailTemplate st
    = head_piece p ++ lit "{{TITLE}}" ++ middle_piece p ++ lit "{{CONTENT}}" ++ tail_piece p
    /\ applyTemplate (getEmailTemplate st) title content
       = head_piece p ++ title ++ middle_piece p ++ content ++ tail_piece p.
Proof.
  intros st title content Ht Hc Hcount p. split.
  - destruct st; vm_compute; reflexivity.
  - unfold p. rewrite applyTemplate_pieces by (try apply templates_ok; assumption).
    now rewrite GetSubstitution_literal by exact Hc.
Qed.

Lemma X9_applyTemplate_fills_placeholders_witness :
  applyTemplate (getEmailTemplate client) (lit "Costs: $5") (lit "<p>a & b</p>")
  = head_piece (pieces_of (getEmailTemplate client)) ++ lit "Costs: $5"
    ++ middle_piece (pieces_of (getEmailTemplate client)) ++ lit "<p>a & b</p>"
    ++ tail_piece (pieces_of (getEmailTemplate client)).
Proof.
  apply (@X9_applyTemplate_fills_placeholders client (lit "Costs: $5") (lit "<p>a & b</p>"));
    reflexivity.
Defined.

(** X10.  The content is not inserted as it is: [applyTemplate] hands it to
    [replace] as a replacement text, so two dollar signs in it reach the
    e-mail as one, and a dollar sign followed by an ampersand as the
    placeholder [{{CONTENT}}].  (The text before the pattern has no dollar
    sign, the text after it stands for itself.) *)
Theorem X10_applyTemplate_dollar_patterns :
  forall (st : style) (title a b : jsstring),
    literal_replacement title = true ->
    count (lit "{{CONTENT}}") title = 0%nat ->
    existsb (N.eqb 36) a = false ->
    literal_replacement b = true ->
    let p := pieces_of (getEmailTemplate st) in
    applyTemplate (getEmailTemplate st) title (a ++ lit "$$" ++ b)
    = head_piece p ++ title ++ middle_piece p ++ (a ++ lit "$" ++ b) ++ tail_piece p
    /\ applyTemplate (getEmailTemplate st) title (a ++ lit "$&" ++ b)
       = head_piece p ++ title ++ middle_piece p ++ (a ++ lit "{{CONTENT}}" ++ b)
         ++ tail_piece p.
Proof.
  intros st title a b Ht Hcount Ha Hb p. unfold p.
  split; rewrite applyTemplate_pieces by (try apply templates_ok; assumption);
    rewrite GetSubstitution_nodollar by exact Ha;
    change (lit "$$") with [36; 36]; change (lit "$&") with [36; 38];
    cbn [app GetSubstitution N.eqb Pos.eqb];
    rewrite GetSubstitution_literal by exact Hb; reflexivity.
Qed.

Lemma X10_applyTemplate_dollar_patterns_witness :
  applyTemplate (getEmailTemplate labs) (lit "Maths") (lit "<p>" ++ lit "$$" ++ lit "x</p>")
  = head_piece (pieces_of (getEmailTemplate labs)) ++ lit "Maths"
    ++ middle_piece (pieces_of (getEmailTemplate labs))
    ++ (lit "<p>" ++ lit "$" ++ lit "x</p>")
    ++ tail_piece (pieces_of (getEmailTemplate labs)).
Proof.
  apply (@X10_applyTemplate_dollar_patterns labs (lit "Maths") (lit "<p>") (lit "x</p>"));
    reflexivity.
Defined.

(** X11.  [ensureGitignore] is idempotent: after a call whose promise is
    fulfilled, a second call writes nothing, logs nothing and is
    fulfilled. *)
Theorem X11_ensureGitignore_idempotent :
  forall (d : disk) (gitignorePath : jsstring),
    rejection (ensureGitignore d gitignorePath) = None ->
    ensureGitignore (disk_after (ensureGitignore d gitignorePath)) gitignorePath
    = mkGitignoreRun (disk_after (ensureGitignore d gitignorePath)) None [].
Proof.
  intros d p. remember (ensureGitignore d p) as r eqn:Er. unfold ensureGitignore in Er.
  destruct (disk_files d p) as [b|c] eqn:Hf;
    [|subst r; apply ensureGitignore_catch_again].
  cbn zeta in Er. destruct (includes gitignore_pattern (toString_utf8 b)) eqn:Hinc.
  - subst r. cbn [disk_after rejection]. intros _. unfold ensureGitignore.
    now rewrite Hf, Hinc.
  - fold (gitignore_suffix true) in Er. fold (gitignore_suffix false) in Er.
    replace (if endsWith_LF (toString_utf8 b)
             then toString_utf8 b ++ gitignore_suffix true
             else toString_utf8 b ++ gitignore_suffix false)
      with (toString_utf8 b ++ gitignore_suffix (endsWith_LF (toString_utf8 b))) in Er
      by (now destruct (endsWith_LF _)).
    unfold fs_writeFile in Er.
    destruct (disk_write_error d p) as [code|] eqn:Hw;
      [subst r; apply ensureGitignore_catch_again|].
    subst r. cbn [disk_after rejection]. intros _.
    destruct (@suffix_includes (toString_utf8 b) (endsWith_LF (toString_utf8 b))
                (toString_utf8_units b)) as [Hcu Hi].
    apply (@ensureGitignore_settled _ _ _ (disk_written_read d p _) Hcu Hi).
Qed.

Lemma X11_ensureGitignore_idempotent_witness :
  let d := mkDisk (fun _ => Bytes (Buffer_from (lit "node_modules"))) (fun _ => None) in
  ensureGitignore (disk_after (ensureGitignore d (lit "/w/.gitignore"))) (lit "/w/.gitignore")
  = mkGitignoreRun (disk_after (ensureGitignore d (lit "/w/.gitignore"))) None [].
Proof.
  intros d. apply (@X11_ensureGitignore_idempotent d (lit "/w/.gitignore")). reflexivity.
Defined.

(** X12.  [ensureGitignore] only appends: when the file holds the UTF-8
    bytes of a well-formed text without the pattern and the write
    succeeds, the file then holds the same bytes followed by one line feed
    (two when the text does not end with one), the comment line and the
    pattern line; every other path is as before. *)
Theorem X12_ensureGitignore_appends :
  forall (d : disk) (gitignorePath text : jsstring),
    disk_files d gitignorePath = Bytes (Buffer_from text) ->
    code_units text = true ->
    toWellFormed text = text ->
    includes gitignore_pattern text = false ->
    disk_write_error d gitignorePath = None ->
    let d' := disk_after (ensureGitignore d gitignorePath) in
    disk_files d' gitignorePath
    = Bytes (Buffer_from text
             ++ Buffer_from ((if endsWith_LF text then [LF] else [LF; LF])
                             ++ gitignore_comment ++ [LF] ++ gitignore_pattern ++ [LF]))
    /\ (forall q, q <> gitignorePath -> disk_files d' q = disk_files d q)
    /\ rejection (ensureGitignore d gitignorePath) = None.
Proof.
  intros d p text Hf Hcu Hwf Hinc Hw d'. unfold d', ensureGitignore. rewrite Hf. cbn zeta.
  rewrite toString_utf8_Buffer_from by exact Hcu. rewrite Hwf, Hinc.
  unfold fs_writeFile. rewrite Hw. cbn [disk_after rejection disk_files].
  rewrite eqb_str_refl. repeat split.
  - f_equal. destruct (endsWith_LF text); now rewrite Buffer_from_app.
  - intros q Hq. apply eqb_str_neq in Hq. now rewrite Hq.
Qed.

Lemma X12_ensureGitignore_appends_witness :
  let d := mkDisk (fun _ => Bytes (Buffer_from (lit "node_modules"))) (fun _ => None) in
  disk_files (disk_after (ensureGitignore d (lit "/w/.gitignore"))) (lit "/w/.gitignore")
  = Bytes (Buffer_from (lit "node_modules")
           ++ Buffer_from ((if endsWith_LF (lit "node_modules") then [LF] else [LF; LF])
                           ++ gitignore_comment ++ [LF] ++ gitignore_pattern ++ [LF])).
Proof.
  intros d.
  apply (@X12_ensureGitignore_appends d (lit "/w/.gitignore") (lit "node_modules"));
    reflexivity.
Defined.

(** X13.  [getLatestBrandVersion] picks the latest version by number, not
    by text: of the names in the directory that are three runs of digits
    separated by dots, it returns the templates directory of one that no
    other is later than, major number first, then minor, then patch; when
    no name has that form it throws [focus-ai-brand plugin not found].
    The numbers of the names of that form are below 2^53, where [Number]
    is exact; the other names of the directory are any. *)
Theorem X13_getLatestBrandVersion_latest :
  forall (brandBase : jsstring) (names : list jsstring),
    (forall v, In v names -> is_semver v = true -> safe_version v) ->
    match getLatestBrandVersion brandBase (Some names) with
    | inr result =>
        exists v,
          In v names /\ is_semver v = true
          /\ result = brandBase ++ lit "/" ++ v ++ lit "/templates"
          /\ forall v', In v' names -> is_semver v' = true -> version_le v' v
    | inl message =>
        message = lit "focus-ai-brand plugin not found"
        /\ forall v, In v names -> is_semver v = false
    end.
Proof.
  intros brandBase names Hsafe. unfold getLatestBrandVersion.
  assert (Hall : Forall safe_version (filter is_semver names)).
  { apply Forall_forall. intros v [Hv Hs]%filter_In. now apply Hsafe. }
  destruct (sort_by compare_versions (filter is_semver names)) as [|v t] eqn:Es.
  - apply sort_by_nil in Es. split; [reflexivity|]. intros v Hv.
    destruct (is_semver v) eqn:E; [|reflexivity].
    assert (Hin : In v (filter is_semver names)) by (apply filter_In; now split).
    rewrite Es in Hin. contradiction.
  - destruct (sort_by_head Hall Es) as [Hin Hmax]. apply filter_In in Hin as [Hin Hsem].
    exists v. repeat split; try assumption.
    intros v' Hv' Hs. apply Hmax. apply filter_In. now split.
Qed.

Lemma X13_getLatestBrandVersion_latest_witness :
  exists v,
    In v [lit "1.9.0"; lit "some-very-long-directory-name"; lit "1.10.0"]
    /\ is_semver v = true
    /\ lit "/b/1.10.0/templates" = lit "/b" ++ lit "/" ++ v ++ lit "/templates"
    /\ forall v', In v' [lit "1.9.0"; lit "some-very-long-directory-name"; lit "1.10.0"] ->
                  is_semver v' = true -> version_le v' v.
Proof.
  apply (@X13_getLatestBrandVersion_latest (lit "/b")
           [lit "1.9.0"; lit "some-very-long-directory-name"; lit "1.10.0"]).
  intros v [<-|[<-|[<-|[]]]] Hs; first [discriminate Hs | vm_compute; repeat split].
Defined.

(** X14.  The base64 text [createRawMessage] puts into the part of an
    attachment or inline image has lines of at most 76 code units, and the
    base64 decoder, which steps over the line breaks, gives back the bytes
    of the file. *)
Theorem X14_base64Content_lines_and_bytes :
  forall (buf : list byte),
    Forall (fun line => (length line <= 76)%nat) (js_lines (base64Content buf))
    /\ Buffer_from_base64 (base64Content buf) = buf.
Proof.
  intros buf. unfold base64Content. split.
  - destruct (@match_dot_1_76_lengths (toString_base64 buf) 76%nat [] eq_refl) as [H|H];
      [lia | | discriminate H].
    induction H as [|p l (Hp & Hno & _) Hl IH]; [constructor; [cbn; lia | constructor]|].
    cbn [join]. destruct l as [|q l].
    + rewrite js_lines_single by exact Hno. constructor; [exact Hp | constructor].
    + rewrite js_lines_piece by exact Hno. constructor; [exact Hp|].
      constructor; [cbn; lia | exact IH].
  - unfold Buffer_from_base64. rewrite sextets_join_nl.
    rewrite concat_match_dot_1_76 by apply b64_text_no_lt_alphabet.
    cbn [rev app]. rewrite sextets_toString_base64. apply bytes_of_data_sextets.
Qed.

(** X15.  [getMimeType] knows the fourteen extensions of its table in any
    letter case and whatever precedes them: a path that ends with one of
    them, behind at least one code unit that is not a slash, has the type
    the table gives. *)
Theorem X15_getMimeType_any_case :
  forall (prefix ext k v : jsstring) (c : char),
    In (k, v) mimeTypes ->
    toLowerCase ext = k ->
    c <> 47 ->
    getMimeType (prefix ++ [c] ++ ext) = v.
Proof.
  intros prefix ext k v c Hin Hlow Hc.
  destruct (mimeTypes_keys Hin) as [(ks & -> & Hne & Hks) Hfind].
  destruct (toLowerCase_preimage _ Hlow Hks) as (es & -> & Hlen & Hes).
  unfold getMimeType. cbn zeta. change ([c] ++ 46 :: es) with (c :: 46 :: es).
  rewrite extname_suffix; [|exact Hc| |exact Hes].
  - rewrite Hlow. now rewrite Hfind.
  - destruct es; [destruct ks; [congruence | discriminate]|discriminate].
Qed.

Lemma X15_getMimeType_any_case_witness :
  getMimeType (lit "/tmp/My.Report" ++ [49] ++ lit ".PdF") = lit "application/pdf".
Proof.
  apply (@X15_getMimeType_any_case (lit "/tmp/My.Report") (lit ".PdF") (lit ".pdf")
           (lit "application/pdf") 49).
  - left. reflexivity.
  - reflexivity.
  - discriminate.
Defined.

(** X16.  The paragraph loop of [markdownToEmailHtml] closes every
    paragraph it opens: in the text it returns, the opening tags of
    paragraphs it added are as many as the closing tags it added. *)
Theorem X16_wrap_paragraphs_balanced :
  forall (sty : style) (html : jsstring),
    let st := styles_of sty in
    (count (otag "p" (styles.p st)) (wrap_paragraphs st html) + count (lit "</p>") html
     = count (lit "</p>") (wrap_paragraphs st html) + count (otag "p" (styles.p st)) html)%nat.
Proof.
  intros sty html st. unfold wrap_paragraphs.
  assert (Ho : otag "p" (styles.p st) <> [] /\ existsb (N.eqb LF) (otag "p" (styles.p st)) = false)
    by (unfold st; destruct sty; (split; [discriminate | vm_compute; reflexivity])).
  assert (Hc : lit "</p>" <> [] /\ existsb (N.eqb LF) (lit "</p>") = false)
    by (split; [discriminate | reflexivity]).
  rewrite !count_join_LF by tauto.
  rewrite (@count_split_LF (lit "</p>") html) by tauto.
  rewrite (@count_split_LF (otag "p" (styles.p st)) html) by tauto.
  pose proof (wrap_lines_balanced sty (split LF html) false) as H.
  cbn zeta in H. cbn [Nat.b2n] in H. fold st in H. lia.
Qed.

(** X17.  Text that no pattern concerns becomes paragraphs and nothing
    else: for a document of paragraphs separated by one empty line, each
    line being loose text (no backtick, star or opening bracket; a first
    code unit other than a pipe, hash, hyphen, closing angle bracket or
    digit; not blank; not starting with a block tag), [markdownToEmailHtml]
    returns, for each paragraph, the styled opening tag, the lines as they
    are, and the closing tag on a line of its own, an empty line between
    two paragraphs.  Angle brackets and ampersands of the text are not
    escaped. *)
Theorem X17_loose_text_becomes_paragraphs :
  forall (sty : style) (ps : list (list jsstring)),
    ps <> [] ->
    Forall (fun p => p <> [] /\ Forall (fun l => loose_line l = true) p) ps ->
    html_of (markdownToEmailHtml (join [LF; LF] (map (join [LF]) ps)) sty)
    = join [LF; LF] (map (paragraph_element (styles_of sty)) ps).
Proof.
  intros sty ps Hne H. cbn [markdownToEmailHtml html_of].
  set (st := styles_of sty).
  assert (Hnonempty : Forall (fun p : list jsstring => p <> []) ps)
    by (revert H; apply Forall_impl; tauto).
  rewrite join_paragraphs by exact Hnonempty.
  assert (Hpassive : Forall passive_line (paragraph_lines ps)).
  { apply paragraph_lines_Forall; [repeat split|].
    revert H. apply Forall_impl. intros p [_ Hp]. revert Hp. apply Forall_impl.
    intros l Hl. destruct (loose_line_facts _ Hl) as (H1 & H2 & H3 & _).
    repeat split; assumption. }
  rewrite render_body_split. unfold block_passes. cbn zeta.
  rewrite passes_passive by exact Hpassive.
  unfold wrap_paragraphs.
  rewrite split_join_LF.
  - rewrite wrap_lines_paragraphs by exact H.
    rewrite <- join_paragraphs.
    + rewrite map_map. f_equal. apply map_ext_in. intros p Hp.
      apply join_wrapped_lines. rewrite Forall_forall in Hnonempty. now apply Hnonempty.
    + rewrite Forall_map. revert Hnonempty. apply Forall_impl. intros p _. discriminate.
  - now apply paragraph_lines_nonempty.
  - revert Hpassive. apply Forall_impl. intros l (_ & Hno & _). now apply no_lt_no_LF.
Qed.

Lemma X17_loose_text_becomes_paragraphs_witness :
  html_of (markdownToEmailHtml
             (join [LF; LF] (map (join [LF])
                [[lit "Dear all,"; lit "see <b>below</b> & reply."]; [lit "Regards"]]))
             client)
  = join [LF; LF] (map (paragraph_element (styles_of client))
      [[lit "Dear all,"; lit "see <b>below</b> & reply."]; [lit "Regards"]]).
Proof.
  apply (@X17_loose_text_becomes_paragraphs client
           [[lit "Dear all,"; lit "see <b>below</b> & reply."]; [lit "Regards"]]).
  - discriminate.
  - repeat constructor; try discriminate; vm_compute; reflexivity.
Defined.

(** X18.  A document made of blocks is rendered block by block.  The blocks
    are headings of the levels one to four, rules, paragraphs of loose
    lines, bullet lists and numbered lists, written one after the other
    with one empty line between two blocks; titles and items are not empty
    and hold no backtick, star, opening bracket or line terminator.  Each
    block becomes its element: the styled heading tag around the title, the
    styled [hr] tag, the paragraph, the styled list tag around one styled
    [li] element per item, without the bullet or the number.  After a list
    one LF separates it from the next element, after any other block two:
    the pass for a list takes the LF that ends its last line. *)
Theorem X18_blocks_rendered_one_by_one :
  forall (sty : style) (bs : list block),
    forallb block_ok bs = true ->
    html_of (markdownToEmailHtml (join [LF; LF] (map block_source bs)) sty)
    = blocks_html (styles_of sty) bs.
Proof.
  intros sty bs Hok. apply forallb_Forall in Hok.
  destruct bs as [|b rest]; [destruct sty; vm_compute; reflexivity|].
  cbn [markdownToEmailHtml html_of].
  rewrite source_doc_lines.
  - apply render_blocks; [exact Hok | discriminate].
  - revert Hok. apply Forall_impl. intros x Hx.
    apply (stage_lines_nonempty (styles_of sty) x Hx).
Qed.

Lemma X18_blocks_rendered_one_by_one_witness :
  html_of (markdownToEmailHtml
             (join [LF; LF] (map block_source
                [ Heading H1 (lit "Report"); Paragraph [lit "Two items:"];
                  Bullets [lit "first"; lit "second"];
                  Numbered [(lit "1", lit "one"); (lit "7", lit "two")];
                  Rule; Heading H3 (lit "End") ]))
             labs)
  = blocks_html (styles_of labs)
      [ Heading H1 (lit "Report"); Paragraph [lit "Two items:"];
        Bullets [lit "first"; lit "second"];
        Numbered [(lit "1", lit "one"); (lit "7", lit "two")];
        Rule; Heading H3 (lit "End") ].
Proof.
  apply (@X18_blocks_rendered_one_by_one labs
           [ Heading H1 (lit "Report"); Paragraph [lit "Two items:"];
             Bullets [lit "first"; lit "second"];
             Numbered [(lit "1", lit "one"); (lit "7", lit "two")];
             Rule; Heading H3 (lit "End") ]).
  vm_compute. reflexivity.
Defined.

(** X20.  The command [send-md] on a document of blocks without dollar
    sign: the HTML body of the mail is the template of the chosen style
    with the subject in the place of the title and, in the place of the
    content, the elements of the blocks; the plain body is the Markdown
    text itself, nothing is attached, and the one call made is the
    creation of a draft when the flag [draft] is given and the sending of
    the mail otherwise.  The subject, the flag or else the title of the
    document, stands for itself as a replacement text and does not hold
    the content placeholder. *)
Theorem X20_send_md_fills_template :
  forall (w : world) (flags : Flags) (bs : list block) (log : list event),
    let md := join [LF; LF] (map block_source bs) in
    let sty := templateStyle (get_flag (lit "style") flags) in
    let p := pieces_of (getEmailTemplate sty) in
    let mail := styled_mail flags md in
    let raw := createRawMessage (now w) (string_of (get_flag (lit "to") flags))
                 (finalSubject mail) md None (Some (finalHtml mail)) None None in
    truthy (get_flag (lit "to") flags) = true ->
    truthy (get_flag (lit "file") flags) = true ->
    forallb block_ok bs = true ->
    dollar_free md = true ->
    literal_replacement (finalSubject mail) = true ->
    count (lit "{{CONTENT}}") (finalSubject mail) = 0%nat ->
    finalHtml mail
    = head_piece p ++ finalSubject mail ++ middle_piece p
      ++ blocks_html (styles_of sty) bs ++ tail_piece p
    /\ send_md w flags md log
       = inr (match get_flag (lit "draft") flags with
              | Some _ => (drafts_create w raw, log ++ [DraftCall raw])
              | None => (messages_send w raw, log ++ [SendCall raw])
              end).
Proof.
  intros w flags bs log md sty p mail raw Hto Hfile Hok Hd Hs Hc. split.
  - unfold mail at 1, styled_mail. cbn [finalHtml]. fold sty. fold md.
    change (if truthy (get_flag (lit "subject") flags)
            then string_of (get_flag (lit "subject") flags)
            else title_of (markdownToEmailHtml md sty))
      with (finalSubject mail).
    unfold p. rewrite applyTemplate_pieces by (try apply templates_ok; assumption).
    unfold md. rewrite (html_of_blocks sty bs Hok).
    now rewrite GetSubstitution_literal
      by (apply dollar_free_literal; now apply blocks_html_dollar_free).
  - now apply send_md_call.
Qed.

Lemma X20_send_md_fills_template_witness :
  finalHtml (styled_mail [(lit "style", lit "labs"); (lit "to", lit "a@b.c");
                          (lit "file", lit "report.md")]
               (join [LF; LF] (map block_source
                  [Heading H1 (lit "Weekly report"); Paragraph [lit "All good."];
                   Bullets [lit "one"; lit "two"]])))
  = head_piece (pieces_of (getEmailTemplate labs)) ++ lit "Weekly report"
    ++ middle_piece (pieces_of (getEmailTemplate labs))
    ++ blocks_html (styles_of labs)
         [Heading H1 (lit "Weekly report"); Paragraph [lit "All good."];
          Bullets [lit "one"; lit "two"]]
    ++ tail_piece (pieces_of (getEmailTemplate labs)).
Proof.
  apply (@X20_send_md_fills_template
           (mkWorld (fun p => Rejected (FsError (lit "ENOENT") (Some p))) 0 [] []
              (fun _ => Fulfilled (lit "id", lit "thread"))
              (fun _ => Fulfilled (lit "id", lit "thread")))
           [(lit "style", lit "labs"); (lit "to", lit "a@b.c"); (lit "file", lit "report.md")]
           [Heading H1 (lit "Weekly report"); Paragraph [lit "All good."];
            Bullets [lit "one"; lit "two"]] []);
    vm_compute; reflexivity.
Defined.

(** X21.  A dollar sign in the Markdown text does not always reach the
    mail: [send-md] hands the rendered text to [replace] as a replacement
    text.  For a document that is one line of loose text with a dollar
    sign followed by an ampersand in it, the paragraph of the mail holds
    the placeholder [{{CONTENT}}] in the place of the two code units; with
    two dollar signs it holds one. *)
Theorem X21_send_md_dollar_patterns :
  forall (flags : Flags) (a b : jsstring) (d : char),
    let sty := templateStyle (get_flag (lit "style") flags) in
    let p := pieces_of (getEmailTemplate sty) in
    let md := a ++ [36; d] ++ b in
    let mail := styled_mail flags md in
    loose_line md = true ->
    dollar_free a = true -> dollar_free b = true ->
    literal_replacement (finalSubject mail) = true ->
    count (lit "{{CONTENT}}") (finalSubject mail) = 0%nat ->
    (d = 38 ->
     finalHtml mail
     = head_piece p ++ finalSubject mail ++ middle_piece p
       ++ (otag "p" (styles.p (styles_of sty)) ++ a ++ lit "{{CONTENT}}" ++ b
           ++ [LF] ++ lit "</p>")
       ++ tail_piece p)
    /\ (d = 36 ->
        finalHtml mail
        = head_piece p ++ finalSubject mail ++ middle_piece p
          ++ (otag "p" (styles.p (styles_of sty)) ++ a ++ [36] ++ b ++ [LF] ++ lit "</p>")
          ++ tail_piece p).
Proof.
  intros flags a b d sty p md mail Hl Ha Hb Hs Hc.
  assert (Hhtml : html_of (markdownToEmailHtml md sty)
                  = (otag "p" (styles.p (styles_of sty)) ++ a) ++ [36; d] ++ b ++ [LF] ++ lit "</p>").
  { pose proof (html_of_blocks sty [Paragraph [md]]) as E.
    cbn [map block_source block_lines join blocks_html block_element] in E.
    rewrite E by (cbn [forallb block_ok nonempty_list andb]; now rewrite Hl).
    unfold paragraph_element, md. cbn [join]. now rewrite <- !app_assoc. }
  assert (Hfinal : finalHtml mail
                   = head_piece p ++ finalSubject mail ++ middle_piece p
                     ++ GetSubstitution (lit "{{CONTENT}}")
                          (head_piece p ++ finalSubject mail ++ middle_piece p)
                          (tail_piece p) (html_of (markdownToEmailHtml md sty))
                     ++ tail_piece p).
  { unfold mail at 1, styled_mail. cbn [finalHtml]. fold sty.
    change (if truthy (get_flag (lit "subject") flags)
            then string_of (get_flag (lit "subject") flags)
            else title_of (markdownToEmailHtml md sty))
      with (finalSubject mail).
    unfold p. now rewrite applyTemplate_pieces by (try apply templates_ok; assumption). }
  assert (Hpre : existsb (N.eqb 36) (otag "p" (styles.p (styles_of sty)) ++ a) = false).
  { apply dollar_free_no_dollar. rewrite dollar_free_app, Ha.
    rewrite otag_dollar_free; [reflexivity | reflexivity | apply (attrs_dollar_free sty)]. }
  assert (Hpost : literal_replacement (b ++ [LF] ++ lit "</p>") = true).
  { apply dollar_free_literal. now rewrite !dollar_free_app, Hb. }
  rewrite Hfinal, Hhtml. rewrite GetSubstitution_nodollar by exact Hpre.
  split; intros ->; cbn [app GetSubstitution N.eqb Pos.eqb];
    rewrite GetSubstitution_literal by exact Hpost; now rewrite <- !app_assoc.
Qed.

Lemma X21_send_md_dollar_patterns_witness :
  finalHtml (styled_mail [(lit "subject", lit "Prices")] (lit "Tom " ++ [36; 38] ++ lit " Jerry"))
  = head_piece (pieces_of (getEmailTemplate client)) ++ lit "Prices"
    ++ middle_piece (pieces_of (getEmailTemplate client))
    ++ (otag "p" (styles.p (styles_of client)) ++ lit "Tom " ++ lit "{{CONTENT}}" ++ lit " Jerry"
        ++ [LF] ++ lit "</p>")
    ++ tail_piece (pieces_of (getEmailTemplate client)).
Proof.
  apply (proj1 (@X21_send_md_dollar_patterns [(lit "subject", lit "Prices")]
                  (lit "Tom ") (lit " Jerry") 38
                  eq_refl eq_refl eq_refl eq_refl eq_refl) eq_refl).
Defined.

(** X22.  The flag [attachment] of [send] and [draft] is a list of paths
    separated by commas, white space around a path not counting: for
    paths that are not empty, hold no comma and neither start nor end with
    white space, each written between any white space, the list of paths
    is read back.  Without the flag there is no list. *)
Theorem X22_attachment_flag_read_back :
  forall (items : list (jsstring * jsstring * jsstring)),
    items <> [] ->
    Forall (fun '(a, p, b) =>
              blank a = true /\ blank b = true /\ trimmed p = true /\ p <> []
              /\ forallb (is_not 44) p = true) items ->
    attachmentPaths (Some (join (lit ",") (map (fun '(a, p, b) => a ++ p ++ b) items)))
    = Some (map (fun '(a, p, b) => p) items)
    /\ attachmentPaths None = None.
Proof.
  intros items Hne H. split; [|reflexivity]. unfold attachmentPaths.
  set (L := map (fun '(a, p, b) => a ++ p ++ b) items).
  assert (Hj : join (lit ",") L <> []).
  { unfold L. destruct H as [|[[a p] b] items (Ha & Hb & Ht & Hp & Hc) H]; [congruence|].
    cbn [map]. apply join_nonempty_head. destruct a; [destruct p; [congruence|]|]; discriminate. }
  assert (Es : split 44 (join (lit ",") L) = L).
  { apply split_join_sep.
    - unfold L. destruct items; [congruence | discriminate].
    - unfold L. rewrite Forall_map. revert H. apply Forall_impl.
      intros [[a p] b] (Ha & Hb & _ & _ & Hc).
      apply forallb_app_iff. split; [now apply blank_no_sep|].
      apply forallb_app_iff. split; [exact Hc | now apply blank_no_sep]. }
  rewrite (truthy_nonempty Hj). cbn [string_of]. rewrite Es. f_equal.
  unfold L. rewrite map_map. apply map_ext_in. intros [[a p] b] Hin.
  rewrite Forall_forall in H. destruct (H _ Hin) as (Ha & Hb & Ht & Hp & _).
  now apply trim_padded.
Qed.

Lemma X22_attachment_flag_read_back_witness :
  attachmentPaths (Some (join (lit ",") (map (fun '(a, p, b) => a ++ p ++ b)
                     [([], lit "a.pdf", []); (lit " ", lit "my notes.txt", [])])))
  = Some (map (fun '(a, p, b) => p)
            [([], lit "a.pdf", []); (lit " ", lit "my notes.txt", [] : jsstring)]).
Proof.
  apply (proj1 (@X22_attachment_flag_read_back
                  [([], lit "a.pdf", []); (lit " ", lit "my notes.txt", [])]
                  ltac:(discriminate)
                  ltac:(repeat constructor; discriminate))).
Defined.

(** X23.  The flag [inline] of [send] and [draft] is a list of items
    [path:cid] separated by commas, white space around an item not
    counting: for paths and content ids that are not empty, hold no comma
    and no colon and neither start nor end with white space, the pairs are
    read back.  Without the flag there is no list. *)
Theorem X23_inline_flag_read_back :
  forall (items : list (jsstring * (jsstring * jsstring) * jsstring)),
    items <> [] ->
    Forall (fun '(a, (p, c), b) =>
              blank a = true /\ blank b = true
              /\ trimmed p = true /\ p <> [] /\ trimmed c = true /\ c <> []
              /\ forallb (is_not 44) p = true /\ forallb (is_not 58) p = true
              /\ forallb (is_not 44) c = true /\ forallb (is_not 58) c = true) items ->
    inlineImages
      (Some (join (lit ",") (map (fun '(a, (p, c), b) => a ++ (p ++ lit ":" ++ c) ++ b) items)))
    = Some (map (fun '(a, (p, c), b) => mkInlineFlagItem p (Some c)) items)
    /\ inlineImages None = None.
Proof.
  intros items Hne H. split; [|reflexivity]. unfold inlineImages.
  set (L := map (fun '(a, (p, c), b) => a ++ (p ++ lit ":" ++ c) ++ b) items).
  assert (Hj : join (lit ",") L <> []).
  { unfold L. destruct H as [|[[a [p c]] b] items _ H]; [congruence|].
    cbn [map]. apply join_nonempty_head. destruct a; [destruct p|]; discriminate. }
  assert (Es : split 44 (join (lit ",") L) = L).
  { apply split_join_sep.
    - unfold L. destruct items; [congruence | discriminate].
    - unfold L. rewrite Forall_map. revert H. apply Forall_impl.
      intros [[a [p c]] b] (Ha & Hb & _ & _ & _ & _ & Hp & _ & Hc & _).
      apply forallb_app_iff. split; [now apply blank_no_sep|].
      apply forallb_app_iff. split; [|now apply blank_no_sep].
      apply forallb_app_iff. split; [exact Hp|].
      apply forallb_app_iff. split; [reflexivity | exact Hc]. }
  rewrite (truthy_nonempty Hj). cbn [string_of]. rewrite Es. f_equal.
  unfold L. rewrite map_map. apply map_ext_in. intros [[a [p c]] b] Hin.
  rewrite Forall_forall in H.
  destruct (H _ Hin) as (Ha & Hb & Htp & Hp & Htc & Hc & _ & Hp58 & _ & Hc58).
  cbv beta iota zeta.
  now rewrite (@inline_item_parsed a p c b Ha Hb Htp Hp Htc Hc Hp58 Hc58).
Qed.

Lemma X23_inline_flag_read_back_witness :
  inlineImages
    (Some (join (lit ",") (map (fun '(a, (p, c), b) => a ++ (p ++ lit ":" ++ c) ++ b)
             [([], (lit "/tmp/logo.png", lit "logo"), []);
              (lit " ", (lit "chart.jpg", lit "chart"), [])])))
  = Some [mkInlineFlagItem (lit "/tmp/logo.png") (Some (lit "logo"));
          mkInlineFlagItem (lit "chart.jpg") (Some (lit "chart"))].
Proof.
  apply (proj1 (@X23_inline_flag_read_back
                  [([], (lit "/tmp/logo.png", lit "logo"), []);
                   (lit " ", (lit "chart.jpg", lit "chart"), [])]
                  ltac:(discriminate)
                  ltac:(repeat constructor; discriminate))).
Defined.

(** X24.  Colons in an item of the flag [inline]: an item without colon
    gives a path and no content id; in an item with more than one colon
    the path ends at the first colon and the content id at the second,
    what follows is dropped (so a path with a drive letter is cut after
    the letter). *)
Theorem X24_inline_flag_colons :
  forall (p q rest : jsstring),
    trimmed p = true -> p <> [] ->
    forallb (is_not 44) p = true -> forallb (is_not 58) p = true ->
    forallb (is_not 44) q = true -> forallb (is_not 58) q = true ->
    trimmed rest = true -> rest <> [] -> forallb (is_not 44) rest = true ->
    inlineImages (Some p) = Some [mkInlineFlagItem p None]
    /\ inlineImages (Some (p ++ lit ":" ++ q ++ lit ":" ++ rest))
       = Some [mkInlineFlagItem p (Some q)].
Proof.
  intros p q rest Htp Hp Hp44 Hp58 Hq44 Hq58 Htr Hr Hr44. unfold inlineImages. split.
  - rewrite (truthy_nonempty Hp). cbn [string_of].
    rewrite (@split_no_sep 44 p Hp44). cbn [map].
    rewrite (trim_trimmed Htp Hp). now rewrite (@split_no_sep 58 p Hp58).
  - assert (Hn : p ++ lit ":" ++ q ++ lit ":" ++ rest <> [])
      by (destruct p; [congruence | discriminate]).
    match goal with
    | |- context [truthy ?t] =>
        replace (truthy t) with true by (symmetry; apply (truthy_nonempty Hn))
    end.
    cbn [string_of].
    rewrite split_no_sep.
    + cbn [map].
      destruct (@inline_item_colons p q rest Htp Hp Htr Hr Hp58 Hq58) as [tail Es].
      rewrite Es. reflexivity.
    + apply forallb_app_iff. split; [exact Hp44|].
      apply forallb_app_iff. split; [reflexivity|].
      apply forallb_app_iff. split; [exact Hq44|].
      apply forallb_app_iff. split; [reflexivity | exact Hr44].
Qed.

Lemma X24_inline_flag_colons_witness :
  inlineImages (Some (lit "C" ++ lit ":" ++ lit "/img/logo.png" ++ lit ":" ++ lit "logo"))
  = Some [mkInlineFlagItem (lit "C") (Some (lit "/img/logo.png"))].
Proof.
  apply (proj2 (@X24_inline_flag_colons (lit "C") (lit "/img/logo.png") (lit "logo")
                  eq_refl ltac:(discriminate) eq_refl eq_refl eq_refl eq_refl
                  eq_refl ltac:(discriminate) eq_refl)).
Defined.

(** X25.  Inline markup is converted span by span.  For a one-line
    document made of spans (plain text, bold between double stars, italic
    between stars, a link as bracketed text followed by its target in
    parentheses, code between backticks) that starts with plain text and
    in which plain text or the end of the line follows every span of
    markup, [markdownToEmailHtml] returns one paragraph that holds, span
    after span, the plain text as it is, the text in a styled [strong],
    [em] or [code] element, and the link as a styled [a] element with the
    target as [href].  The texts are not empty and hold no backtick, star,
    opening bracket or line terminator, the text of a link no closing
    bracket, its target no closing parenthesis; nothing is escaped. *)
Theorem X25_inline_markup_span_by_span :
  forall (sty : style) (spans : list span),
    inline_line_ok spans = true ->
    html_of (markdownToEmailHtml (concat (map span_source spans)) sty)
    = otag "p" (styles.p (styles_of sty))
      ++ concat (map (span_element (styles_of sty)) spans) ++ [LF] ++ lit "</p>".
Proof.
  intros sty spans H. unfold inline_line_ok in H.
  destruct spans as [|[[|c t]|x|x|x y|x] rest] eqn:E; try discriminate H.
  apply andb_true_iff in H as [Hhead Hok].
  cbn [markdownToEmailHtml html_of].
  rewrite <- (line_at_source (styles_of sty)), <- (line_at_element (styles_of sty)).
  now apply (@render_line sty (PlainText (c :: t) :: rest) c t rest eq_refl Hhead Hok).
Qed.

Lemma X25_inline_markup_span_by_span_witness :
  html_of (markdownToEmailHtml
             (concat (map span_source
                [PlainText (lit "See "); BoldText (lit "this"); PlainText (lit " and ");
                 LinkTo (lit "the docs") (lit "https://example.com/a?b=1&c=2");
                 PlainText (lit ", or run "); CodeText (lit "npm i <pkg>"); PlainText (lit " in ");
                 ItalicText (lit "your"); PlainText (lit " shell.")]))
             client)
  = otag "p" (styles.p (styles_of client))
    ++ concat (map (span_element (styles_of client))
         [PlainText (lit "See "); BoldText (lit "this"); PlainText (lit " and ");
          LinkTo (lit "the docs") (lit "https://example.com/a?b=1&c=2");
          PlainText (lit ", or run "); CodeText (lit "npm i <pkg>"); PlainText (lit " in ");
          ItalicText (lit "your"); PlainText (lit " shell.")])
    ++ [LF] ++ lit "</p>".
Proof.
  apply (@X25_inline_markup_span_by_span client
           [PlainText (lit "See "); BoldText (lit "this"); PlainText (lit " and ");
            LinkTo (lit "the docs") (lit "https://example.com/a?b=1&c=2");
            PlainText (lit ", or run "); CodeText (lit "npm i <pkg>"); PlainText (lit " in ");
            ItalicText (lit "your"); PlainText (lit " shell.")]).
  vm_compute. reflexivity.
Defined.

(** X26.  A fenced code block that is the whole document, its lines being
    loose text that the escaping leaves alone: a block of one line becomes
    the styled [pre] element with a [code] element around the line; in a
    block of more lines the paragraph loop, which goes line by line and
    knows a block only by the start of a line, opens a paragraph before
    the second line, inside the [pre] element, and closes it after the
    closing tags of the block. *)
Theorem X26_fenced_code_lines :
  forall (sty : style) (lang l1 : jsstring) (rest : list jsstring),
    forallb is_word lang = true ->
    forallb code_line (l1 :: rest) = true ->
    let st := styles_of sty in
    html_of (markdownToEmailHtml (fenced lang (l1 :: rest)) sty)
    = match rest with
      | [] => pre_open st ++ l1 ++ pre_close
      | _ :: _ =>
          pre_open st ++ l1 ++ [LF]
          ++ otag "p" (styles.p st) ++ join [LF] rest ++ pre_close ++ [LF] ++ lit "</p>"
      end.
Proof.
  intros sty lang l1 rest Hlang Hlines st. apply forallb_Forall in Hlines.
  cbn [markdownToEmailHtml html_of].
  rewrite (@render_fenced sty lang l1 rest Hlang Hlines). unfold wrap_paragraphs.
  pose proof (@fenced_passive sty l1 rest Hlines) as Hp.
  rewrite split_join_LF.
  - fold st. rewrite (wrap_fenced st Hlines). destruct rest as [|r rs]; [reflexivity|].
    rewrite join_cons_nonempty by discriminate.
    rewrite join_wrapped_lines by (apply app_last_nonempty; discriminate).
    unfold paragraph_element. rewrite join_app_last by discriminate.
    now rewrite <- !app_assoc.
  - apply app_last_nonempty. discriminate.
  - revert Hp. apply Forall_impl. intros l (_ & Hno & _). now apply no_lt_no_LF.
Qed.

Lemma X26_fenced_code_lines_witness :
  html_of (markdownToEmailHtml
             (fenced (lit "js") [lit "const a = 1;"; lit "const b = 2;"; lit "f(a, b);"]) labs)
  = pre_open (styles_of labs) ++ lit "const a = 1;" ++ [LF]
    ++ otag "p" (styles.p (styles_of labs))
    ++ join [LF] [lit "const b = 2;"; lit "f(a, b);"] ++ pre_close ++ [LF] ++ lit "</p>".
Proof.
  apply (@X26_fenced_code_lines labs (lit "js") (lit "const a = 1;")
           [lit "const b = 2;"; lit "f(a, b);"]); reflexivity.
Defined.

(** X27.  A table that is the whole document: a header row and one or
    more further rows, every row a pipe followed by one or more cells, each
    cell closed by a pipe; a cell is inline text without pipe, with white
    space around it or without, and something stands between its pipes.
    The result is the styled [table] element, on one line: the texts of
    the header cells in [th] elements, and every further row as a [tr] of
    [td] elements, the padding trimmed away.  The only rows left out are
    those of a single cell that holds nothing but hyphens, colons and
    white space: with two or more columns the row of hyphens under the
    header is a data row like any other. *)
Theorem X27_table_rows_and_cells :
  forall (sty : style) (header : list cell) (rows : list (list cell)),
    rows <> [] ->
    forallb row_ok (header :: rows) = true ->
    html_of (markdownToEmailHtml (table_source (header :: rows)) sty)
    = table_element (styles_of sty) (map cell_text header)
        (map (map cell_text) (filter (fun r => negb (dash_row r)) rows)).
Proof.
  intros sty header rows Hne Hok. apply forallb_Forall in Hok.
  cbn [markdownToEmailHtml html_of]. exact (@render_table sty header rows Hne Hok).
Qed.

Lemma X27_table_rows_and_cells_witness :
  html_of (markdownToEmailHtml
             (table_source
                [[mkCell (lit " ") (lit "Name") (lit " "); mkCell (lit " ") (lit "Qty") (lit " ")];
                 [mkCell [] (lit "---") []; mkCell [] (lit "---") []];
                 [mkCell (lit " ") (lit "pens") (lit " "); mkCell (lit " ") (lit "2") (lit " ")]])
             labs)
  = table_element (styles_of labs) [lit "Name"; lit "Qty"]
      [[lit "---"; lit "---"]; [lit "pens"; lit "2"]].
Proof.
  apply (@X27_table_rows_and_cells labs
           [mkCell (lit " ") (lit "Name") (lit " "); mkCell (lit " ") (lit "Qty") (lit " ")]
           [[mkCell [] (lit "---") []; mkCell [] (lit "---") []];
            [mkCell (lit " ") (lit "pens") (lit " "); mkCell (lit " ") (lit "2") (lit " ")]]).
  - discriminate.
  - reflexivity.
Defined.

(** X28.  Markup inside a fenced code block.  For a block of one line made
    of spans of plain text, bold, italic and links (no backtick in it, no
    white space at its ends), the five characters are escaped in the texts
    of the spans, and the later passes still convert the markup: the
    [pre] and [code] elements hold a [strong], [em] or [a] element for
    each span of markup, not the stars and brackets that were written. *)
Theorem X28_markup_inside_code_block :
  forall (sty : style) (lang : jsstring) (l : list span),
    forallb is_word lang = true ->
    code_spans_ok l = true ->
    html_of (markdownToEmailHtml (fenced lang [concat (map span_source l)]) sty)
    = pre_open (styles_of sty)
      ++ concat (map (span_element (styles_of sty)) (map escape_span l))
      ++ pre_close.
Proof.
  intros sty lang l Hlang Hl. cbn [markdownToEmailHtml html_of].
  exact (@render_fenced_spans sty lang l Hlang Hl).
Qed.

Lemma X28_markup_inside_code_block_witness :
  html_of (markdownToEmailHtml
             (fenced (lit "c")
                [concat (map span_source
                           [PlainText (lit "x = a "); BoldText (lit "b"); PlainText (lit " c < d")])])
             labs)
  = pre_open (styles_of labs) ++ lit "x = a "
    ++ otag "strong" (styles.strong (styles_of labs)) ++ lit "b</strong> c &lt; d" ++ pre_close.
Proof.
  apply (@X28_markup_inside_code_block labs (lit "c")
           [PlainText (lit "x = a "); BoldText (lit "b"); PlainText (lit " c < d")]);
    reflexivity.
Defined.
